(* ===== verification/_CoqProject ===== *)
-Q . S2P
Prelude.v
GoStrings.v
GoNet.v
Digests.v
ProtoWire.v
Messages.v
Msgio.v
Config.v
NetUtil.v
ConnCopy.v
Dns.v
RecycleBuffer.v
IPFrame.v
TunConn.v
LbUtil.v
LbPolicy.v
ConsistentRing.v
LoadBalancer.v
LbInvariant.v
LbConnect.v
LbSync.v
LbHandlers.v
SyncRunner.v
ProxySocket.v
GatewayIPs.v
Gateway.v
GatewayServers.v
TunnelUtil.v
Tunnel.v
TunnelProto.v
TunnelWire.v
TunnelModule.v
TunnelKeys.v
TunnelWatch.v
EndToEnd.v
GatewayPath.v
Socks5.v
Cni.v
Modules.v
Commands.v
CniPlugin.v
