(* ===== verification/Prelude.v ===== *)
(** * EdgeMesh: a verification development

    EdgeMesh is the data plane of a service mesh for edge clusters.  On every
    node an agent accepts connections to Kubernetes services, picks an
    endpoint and dials it, directly or through a libp2p tunnel to the agent of
    another node; a gateway does the same for traffic from outside; pod
    packets travel between nodes as IP frames through a tun device and the
    tunnel.  A DNS module answers names of services, and a CNI plugin attaches
    pods.  This library models the Go code under [src/pkg] and [src/cmd] as
    executable Rocq definitions and proves what makes it correct, or where it
    is not.

    ** Conventions

    A Go function that may panic returns a [go] value, an [error] is its
    message in a [result], and a function that changes state returns the new
    state.  Integers are [Z] with the wrap-around of their width written out;
    a [net.IP] is a list of byte values; maps are [gmap]s and the unspecified
    order of [range] is the class [RangeOrder].  Code outside [src] is a
    parameter: the clock, random numbers, sockets, the shell, libp2p,
    [crypto/tls], the API server; of the vendored packages those that decide
    what EdgeMesh does are translated, too.  Mutexes make the
    operations they protect atomic; where goroutines interleave without one,
    the interleaving is a step relation or an explicit schedule.

    ** Files

    - [Prelude]: the [go] and [result] monads, slices with their panics, fixed
      width integers, loops, map order, automation.
    - [GoStrings], [GoNet]: what the code uses of [strings], [strconv] and
      [net], with the lemmas on them.
    - [Digests]: sha256, md5 and hexadecimal of the standard library, and the
      vendored xxHash, with their test vectors.
    - [ProtoWire] (the vendored protobuf runtime), [Messages] ([tunnel/pb]) and
      [Msgio] (the vendored msgio and varint packages): the messages of the
      tunnel as bytes.  Marshalling and parsing are inverse, unknown fields
      included, concatenating is merging, and a stream carries messages however
      it is cut into segments.
    - [Config] ([apis/config/**.go]): every configuration type, with pointers as
      options; the defaults, with the package variables they share; validation.
    - [NetUtil] ([util/net/{errors,net,netif}.go]): the bridge device and the
      address its listeners find on it, against the interface [HostNetSpec].
    - [ConnCopy] ([util/net/conn.go]): the goroutines that copy between two
      connections, interleaved: what is delivered is a prefix of what was sent,
      all of it where the end of a stream can be read; once one of them ends
      both connections are closed; UDP proxying.
    - [Dns] ([dns/*.go]): the Corefile, with the part of [text/template] its
      templates use: what is written for every configuration.
    - [RecycleBuffer] ([util/tunutils/{bytebuffer,recycle_bytebuffer}.go]): the
      ring buffer.  It never panics, and refines a bounded FIFO queue with a
      restore point wherever [Recover] is used as its users do: the interface
      [ByteBufferSpec] that they are proved against.
    - [IPFrame] ([util/tunutils/{ipframe,byteutils}.go]): parsing and printing
      IPv4 frames are inverse; the checksum is right exactly when one folding
      of the carries suffices; every outcome of the parser is described.
    - [TunConn] ([util/tunutils/tun.go]): the tun device behind [sync.Once],
      the pipes and the frame loops, which terminate and reassemble any byte
      stream into its frames however it is cut into reads.
    - [LbUtil], [LbPolicy], [LoadBalancer] ([loadbalancer/{util,hashring,
      policy,loadbalancer}.go]): data, policies, state and every operation of
      the load balancer.  [LbInvariant]: the invariant of all reachable states
      and that connections are given current endpoints.  [LbConnect]: fairness,
      session affinity, and retries while other goroutines change the load
      balancer between the attempts ([at_others]).  [LbSync]: the service map
      follows the cluster.  The two critical sections of [syncServices] are two
      steps ([take_changes], [process_changes]), between which other goroutines
      run; the theorems hold for the runs in which no changes overtake older
      ones of the same service, and [overtaken_change_stays] shows why.
      [LbHandlers]: informer callbacks, destination rules, the
      start-up flags under every interleaving.
    - [ConsistentRing] (the vendored [consistent] package): the hash ring the
      policies keep their endpoints in, with bounded loads.  It implements the
      interface the policies are proved against; how many endpoints it holds,
      and what happens beyond.
    - [SyncRunner] (the vendored [async] and [rate] packages, and [syncRunner]
      of [loadbalancer.go]): when [syncServices] runs.  Changes are synced
      within a bound in every run of runner, timer, informers and the goroutines
      of the start, if none overtakes another as above.
    - [ProxySocket] ([proxy/proxysocket.go]): the accept loop and the UDP loop
      with its clients' goroutines: the table of clients holds exactly the live
      connections, and clients do not see each other's datagrams.
    - [GatewayIPs], [Gateway] ([gateway/*.go], [gateway/cache/cache.go]):
      listen addresses, routing, caches, TLS settings, servers, gateway events.
      [GatewayServers]: listeners match the servers kept after any sequence of
      events, caches mirror the cluster, requests are routed by a virtual
      service bound to the gateway, credentials imply TLS.  [GatewayPath]
      composes it with [LoadBalancer] and [EndToEnd] for a connection that is
      kept ([kept_step]), which the loop of [HTTP.Process] and the goroutines
      copying to the pods read in any order: a request the loop reads ends at a
      pod of the service its route names; what a goroutine reads goes unrouted
      to its pod.
    - [TunnelUtil], [Tunnel] ([tunnel/{util,tunnel,module}.go]): addresses,
      relay map, and the handshakes of both ends as programs over a stream; the
      handler dials what [net.ParseIP] makes of the address it is sent, which
      may be nothing, and then its own host.
      [TunnelProto]: runs of two programs over a stream that may fail, a
      rely-guarantee logic for them, and the theorems on the proxy and
      discovery handshakes and the relay service.  [TunnelWire] (with
      [tunnel/conn.go]): the same handshakes over bytes that arrive in any
      pieces refine those over messages; what the connection misses.
    - [TunnelKeys] ([tunnel/util.go], and libp2p's [core/pnet/codec.go]): the
      seed of a node's identity and the key of the private network, and how
      much of the key file enters it.
    - [TunnelWatch] ([tunnel/tunnel.go]): the watcher of the configuration
      file, which keeps the relay service to the last configuration read, with
      the relay finder that writes to the same relay map beside it, and the
      channels of peer discovery.
    - [TunnelModule] ([tunnel/{module,limit}.go] and the loops of [tunnel.go]):
      how the libp2p host is set up, stream limits, the relay finder and the
      channel it feeds, while the watcher replaces the relay map.
    - [EndToEnd]: [ProxySocket], [LoadBalancer] and [Tunnel] composed.  A
      proxied connection ends at an endpoint that its service had when it was
      chosen, on this node or at the other end of a stream, while others change
      the load balancer; and if the endpoints answer the connection is proxied.
    - [Socks5] ([proxy/socks5_proxy.go]): parsing from segmented reads, and
      goroutines that share the parsed request, with a step for every use of it:
      where a connection goes, for every schedule.
    - [Cni] ([cni/adapter.go]): the networks routed into the tun device, and
      the way of a pod's frame from the device to the node of its target, on
      top of [RecycleBuffer], [IPFrame] and [TunConn].
    - [Modules] ([proxy/{server,module,proxy}.go], [cni/{module,edgecni}.go],
      [gateway/module.go], [apis/module/module.go]): how the modules are made
      from their configuration, run and shut down; which services are proxied;
      beehive's [core.Run], which starts the modules and waits for a signal.
    - [Commands] ([cmd/edgemesh-{agent,gateway}], [util/util.go],
      [clients/kube.go], [profile/profile.go]): from the configuration to the
      running modules.  Complete configurations are a type that start-up
      preserves and on which it does not panic; the modules listen where they
      are meant to; credentials need TLS; agent and gateway share a node; how
      the agent ends, given how its modules do while they serve ([serve], see
      [core_Run]; what they do then is in the files of the components, some of
      which panic on inputs that their theorems name).
    - [CniPlugin] ([cmd/edgemesh-cni/cmd]): what the plugin delegates.

    ** Interfaces

    The classes [ByteBuffer]/[ByteBufferSpec] (frames and the buffer),
    [HashRing]/[HashRingSpec] (policies and [ConsistentRing]), [ProtoMessage]
    (message streams and the two message types),
    [RangeOrder] (map iteration), [Multiaddr] and [Identity] (the tunnel and
    libp2p) and [HostNet]/[HostNetSpec] (the bridge device and netlink) state
    what one part uses of another; each has an instance.  A module of the
    agent is a record of the operations of beehive's interface
    ([Modules.module]).  The load balancer meets the tunnel in the record
    [EndToEnd.network], whose laws say that streams are runs of [Tunnel]'s
    programs.

    ** Fuel and bounds

    The frame loops ([drain]) take as fuel one more than the number of bytes
    in the buffer, of which each turn but the last takes some
    ([frame_loop_terminates]).  [exclude_loop] takes the length of the list
    plus one, and each turn shortens the list or advances the index.  The
    parser of IPv6 addresses takes eight, the groups of an address.  Retry loops have the
    bounds of the source (three dials, three connection attempts, the dial
    timeouts of the load balancer).  Handshake programs are finite trees, so
    runs terminate without fuel.  The template parser takes one more than the
    length of the template, of which each turn consumes some.  Loops that serve
    for ever ([tcp_ProxyLoop], [udp_run], [finder_step], [proxy_step]) run over
    a list of events or are step relations, and their theorems hold for every
    number of steps.  Skipping an unknown field takes twice the number of
    bytes plus two, because each turn takes a byte or goes from a group to its
    fields ([ProtoWire.consume_fuel]); parsing a message takes the number of
    its bytes, and more fuel changes nothing ([unmarshal_fields_fuel]).  A
    varint has at most ten groups, as in the source.  [ReadFull] takes one turn
    for every byte it needs and every segment of the stream.  Looking for a
    member with room takes the number of positions the source allows, the
    length of the ring less one.

    Time in [SyncRunner] is a number of nanoseconds, the functions it runs take
    none, and the loop is taken to react within a delay that the bounds
    mention.  Tokens are counted exactly, in the unit that the [float32] rate
    of the code has; rounding of [float64] additions is left out.  The average
    load of [ConsistentRing] is computed on rationals.

    ** Not modelled

    Text formatting and the descriptors of the messages; usage and help output
    of the commands and the handlers of the metrics and pprof servers; the
    methods of [TunConn] that only return nil; the bodies of libraries (libp2p,
    CoreDNS, kube-proxy's userspace proxier, client-go, netlink, iptables,
    Ed25519 and [math/rand]), which are parameters; data races: the operations
    on the maps of the tunnel are taken to be atomic, and so is the replacement
    of the relay map by [doReload] together with the lookup of this node in it;
    how long a read blocks, since reads in [ConnCopy] may fail at any time; a
    host whose answer to [Listen] on one address changes; the time that
    [syncServices] itself takes.

    ** Plan

    Next: the path of a UDP client end to end; concurrent access to the
    tunnel's maps. *)

From Stdlib Require Import ZArith Lia.
From stdpp Require Import base list list_numbers gmap strings option.

Local Open Scope Z_scope.

(** ** Outcomes of Go code

    A Go function that may panic returns a [go] value; an [error] result is
    its message ([err.Error()]), so [(T, error)] is a [result T]. *)

Inductive go (A : Type) : Type :=
| Val (a : A)
| Panic (msg : string).
Arguments Val {A} _.
Arguments Panic {A} _.

Inductive result (A : Type) : Type :=
| Ok (a : A)
| Err (e : string).
Arguments Ok {A} _.
Arguments Err {A} _.

#[export] Instance go_ret : MRet go := @Val.
#[export] Instance go_bind : MBind go := fun A B f m =>
  match m with Val a => f a | Panic s => Panic s end.

#[export] Instance result_ret : MRet result := @Ok.
#[export] Instance result_bind : MBind result := fun A B f m =>
  match m with Ok a => f a | Err e => Err e end.

Definition is_panic {A} (m : go A) : bool :=
  match m with Panic _ => true | Val _ => false end.

Declare Scope go_scope.
Delimit Scope go_scope with go.
Notation "'let!' x := m 'in' k" := (mbind (M:=go) (fun x => k) m)
  (at level 10, x pattern, m at level 100, k at level 200,
   format "'[v' 'let!'  x  :=  m  'in' '/' k ']'") : go_scope.
Open Scope go_scope.

(** Inverting a successful run of a sequence of operations. *)
Lemma go_bind_Val_inv {A B} (m : go A) (f : A -> go B) b :
  mbind f m = Val b -> exists a, m = Val a /\ f a = Val b.
Proof. destruct m as [a|s]; simpl; [intros H; exists a; split; done | done]. Qed.

Lemma go_bind_is_panic {A B} (m : go A) (f : A -> go B) :
  is_panic (mbind f m) = match m with Val a => is_panic (f a) | Panic _ => true end.
Proof. by destruct m. Qed.

(** ** Loops *)

(** A loop that applies a fallible operation to every item. *)
Fixpoint go_fold {S X} (step : S -> X -> go S) (s : S) (xs : list X) : go S :=
  match xs with
  | [] => Val s
  | x :: xs' => let! s := step s x in go_fold step s xs'
  end.

Lemma go_fold_inv {S X} (I : S -> Prop) (step : S -> X -> go S) xs s s' :
  (forall s x s', x ∈ xs -> I s -> step s x = Val s' -> I s') ->
  I s -> go_fold step s xs = Val s' -> I s'.
Proof.
  revert s. induction xs as [|x xs IH]; intros s Hstep Hs Hf; simpl in Hf.
  - by injection Hf as <-.
  - apply go_bind_Val_inv in Hf as (s1 & Hs1 & Hf). eapply IH; [| |exact Hf].
    + intros s2 y s3 Hy. apply Hstep. by apply list_elem_of_further.
    + eapply Hstep; [|exact Hs|exact Hs1]. apply list_elem_of_here.
Qed.

Lemma fold_left_inv {S X} (I : S -> Prop) (step : S -> X -> S) xs s :
  (forall s x, x ∈ xs -> I s -> I (step s x)) -> I s -> I (fold_left step xs s).
Proof.
  revert s. induction xs as [|x xs IH]; intros s Hstep Hs; simpl; [done|].
  apply IH; [|apply Hstep; [apply list_elem_of_here|done]].
  intros s1 y Hy. apply Hstep. by apply list_elem_of_further.
Qed.

(** ** Tactics *)

(** Decide the boolean comparisons of the goal and the context. *)
Ltac zbool :=
  repeat match goal with
  | H : (_ <=? _) = true |- _ => apply Z.leb_le in H
  | H : (_ <=? _) = false |- _ => apply Z.leb_gt in H
  | H : (_ <? _) = true |- _ => apply Z.ltb_lt in H
  | H : (_ <? _) = false |- _ => apply Z.ltb_ge in H
  | H : (_ =? _) = true |- _ => apply Z.eqb_eq in H
  | H : (_ =? _) = false |- _ => apply Z.eqb_neq in H
  | H : (_ && _) = true |- _ => apply andb_true_iff in H; destruct H
  end.

(** ** Slices

    A slice is a list; an index or slice expression checks its bounds at run
    time and panics outside them. *)

Definition zlen {A} (l : list A) : Z := Z.of_nat (length l).

Definition go_index {A} (l : list A) (i : Z) : go A :=
  if 0 <=? i then
    match l !! Z.to_nat i with
    | Some x => Val x
    | None => Panic "index out of range"
    end
  else Panic "index out of range".

(** [l[lo:hi]] *)
Definition go_slice {A} (l : list A) (lo hi : Z) : go (list A) :=
  if (0 <=? lo) && (lo <=? hi) && (hi <=? zlen l)
  then Val (take (Z.to_nat (hi - lo)) (drop (Z.to_nat lo) l))
  else Panic "slice bounds out of range".

(** [copy(l[lo:hi], src)]: the elements of [l] after the call. *)
Definition go_copy {A} (l : list A) (lo hi : Z) (src : list A) : go (list A) :=
  if (0 <=? lo) && (lo <=? hi) && (hi <=? zlen l)
  then let n := Nat.min (Z.to_nat (hi - lo)) (length src) in
       Val (take (Z.to_nat lo) l ++ take n src ++ drop (Z.to_nat lo + n) l)
  else Panic "slice bounds out of range".

(** [make([]T, n)] *)
Definition go_make {A} (zero : A) (n : Z) : go (list A) :=
  if 0 <=? n then Val (replicate (Z.to_nat n) zero)
  else Panic "makeslice: len out of range".

Lemma zlen_nonneg {A} (l : list A) : 0 <= zlen l.
Proof. unfold zlen. lia. Qed.

Lemma zlen_app {A} (l k : list A) : zlen (l ++ k) = zlen l + zlen k.
Proof. unfold zlen. rewrite length_app. lia. Qed.

Lemma zlen_cons {A} (x : A) l : zlen (x :: l) = 1 + zlen l.
Proof. unfold zlen. simpl. lia. Qed.

Lemma zlen_take {A} (l : list A) n : zlen (take n l) = Z.min (Z.of_nat n) (zlen l).
Proof. unfold zlen. rewrite length_take. lia. Qed.

Lemma zlen_drop {A} (l : list A) n : zlen (drop n l) = Z.max 0 (zlen l - Z.of_nat n).
Proof. unfold zlen. rewrite length_drop. lia. Qed.

Lemma zlen_replicate {A} n (x : A) : zlen (replicate n x) = Z.of_nat n.
Proof. unfold zlen. by rewrite length_replicate. Qed.

Lemma go_index_lookup {A} (l : list A) i x :
  0 <= i -> l !! Z.to_nat i = Some x -> go_index l i = Val x.
Proof.
  intros Hi Hx. unfold go_index. rewrite (proj2 (Z.leb_le 0 i) Hi), Hx. done.
Qed.

Lemma go_index_lt {A} (l : list A) i :
  0 <= i < zlen l -> exists x, go_index l i = Val x /\ l !! Z.to_nat i = Some x.
Proof.
  unfold zlen. intros Hi. destruct (lookup_lt_is_Some_2 l (Z.to_nat i)) as [x Hx]; [lia|].
  exists x. split; [apply go_index_lookup; [lia|done]|done].
Qed.

Lemma go_index_ge {A} (l : list A) i :
  zlen l <= i -> go_index l i = Panic "index out of range".
Proof.
  unfold zlen, go_index. intros Hi. destruct (0 <=? i) eqn:E; [|done].
  by rewrite (lookup_ge_None_2 l) by lia.
Qed.

Lemma go_slice_ok {A} (l : list A) lo hi :
  0 <= lo <= hi -> hi <= zlen l ->
  go_slice l lo hi = Val (take (Z.to_nat (hi - lo)) (drop (Z.to_nat lo) l)).
Proof.
  intros [H1 H2] H3. unfold go_slice.
  by rewrite (proj2 (Z.leb_le _ _) H1), (proj2 (Z.leb_le _ _) H2), (proj2 (Z.leb_le _ _) H3).
Qed.

Lemma go_slice_prefix {A} (l : list A) n :
  0 <= n <= zlen l -> go_slice l 0 n = Val (take (Z.to_nat n) l).
Proof. intros H. rewrite go_slice_ok by lia. by rewrite Z.sub_0_r. Qed.

Lemma go_slice_suffix {A} (l : list A) lo :
  0 <= lo <= zlen l -> go_slice l lo (zlen l) = Val (drop (Z.to_nat lo) l).
Proof.
  intros H. rewrite go_slice_ok by lia. f_equal. apply take_ge.
  rewrite length_drop. unfold zlen in *. lia.
Qed.

Lemma go_slice_bad {A} (l : list A) lo hi :
  hi < lo \/ zlen l < hi -> go_slice l lo hi = Panic "slice bounds out of range".
Proof.
  intros H. unfold go_slice.
  destruct ((0 <=? lo) && (lo <=? hi) && (hi <=? zlen l)) eqn:E; [|done].
  zbool. lia.
Qed.

Lemma go_copy_ok {A} (l : list A) lo hi src :
  0 <= lo <= hi -> hi <= zlen l -> zlen src = hi - lo ->
  go_copy l lo hi src = Val (take (Z.to_nat lo) l ++ src ++ drop (Z.to_nat hi) l).
Proof.
  intros [H1 H2] H3 H4. unfold go_copy.
  rewrite (proj2 (Z.leb_le _ _) H1), (proj2 (Z.leb_le _ _) H2), (proj2 (Z.leb_le _ _) H3). simpl.
  unfold zlen in *. rewrite Nat.min_r by lia. rewrite (take_ge src) by lia.
  do 4 f_equal. lia.
Qed.

(** Reading a list in which a segment has been overwritten. *)
Lemma lookup_splice {A} (l src : list A) lo j :
  (lo + length src <= length l)%nat ->
  (take lo l ++ src ++ drop (lo + length src) l) !! j =
  if decide (lo <= j < lo + length src)%nat then src !! (j - lo)%nat else l !! j.
Proof.
  intros Hlen. destruct (decide (j < lo)%nat) as [Hj|Hj].
  - rewrite decide_False by lia. rewrite lookup_app_l by (rewrite length_take; lia).
    by rewrite lookup_take_lt by lia.
  - rewrite lookup_app_r by (rewrite length_take; lia).
    rewrite length_take, Nat.min_l by lia. case_decide as Hin.
    + by rewrite lookup_app_l by lia.
    + rewrite lookup_app_r by lia. rewrite lookup_drop. f_equal. lia.
Qed.

(** ** Fixed-width unsigned integers *)

Definition u8 (x : Z) : Z := x mod 256.
Definition u16 (x : Z) : Z := x mod 65536.
Definition u32 (x : Z) : Z := x mod 4294967296.

Definition is_u8 (x : Z) : Prop := 0 <= x < 256.
Definition is_u16 (x : Z) : Prop := 0 <= x < 65536.

Lemma u8_small x : is_u8 x -> u8 x = x.
Proof. unfold is_u8, u8. intros. by apply Z.mod_small. Qed.

Lemma u16_small x : is_u16 x -> u16 x = x.
Proof. unfold is_u16, u16. intros. by apply Z.mod_small. Qed.

Lemma u32_small x : 0 <= x < 4294967296 -> u32 x = x.
Proof. unfold u32. intros. by apply Z.mod_small. Qed.

Lemma u8_range x : is_u8 (u8 x).
Proof. unfold is_u8, u8. apply Z.mod_pos_bound. lia. Qed.

Lemma u16_range x : is_u16 (u16 x).
Proof. unfold is_u16, u16. apply Z.mod_pos_bound. lia. Qed.

(** Joining the bits above and below position [k]. *)
Lemma lor_disjoint hi lo k : 0 <= k -> 0 <= lo < 2 ^ k -> Z.lor (hi * 2 ^ k) lo = hi * 2 ^ k + lo.
Proof.
  intros Hk Hlo. assert (Hland : Z.land (hi * 2 ^ k) lo = 0).
  { apply Z.bits_inj'. intros i Hi. rewrite Z.land_spec, Z.bits_0.
    destruct (decide (i < k)) as [Hik|Hik].
    - rewrite <- Z.shiftl_mul_pow2 by done. by rewrite Z.shiftl_spec_low.
    - rewrite <- (Z.mod_small lo (2 ^ k)) by done.
      rewrite Z.mod_pow2_bits_high by lia. apply andb_false_r. }
  by rewrite <- Z.lxor_lor, <- Z.add_nocarry_lxor.
Qed.

(** ** Iterating over a map

    The order in which Go ranges over a map is unspecified; the model takes it
    as a parameter, any permutation of the map's entries. *)

Class RangeOrder : Type := {
  range : forall {K V} `{Countable K}, gmap K V -> list (K * V);
  range_perm : forall {K V} `{Countable K} (m : gmap K V), range m ≡ₚ map_to_list m
}.

#[export] Instance canonical_range : RangeOrder := {|
  range K V _ _ m := map_to_list m;
  range_perm K V _ _ m := reflexivity (map_to_list m)
|}.

Section range_facts.
Context `{RangeOrder} {K V : Type} `{Countable K}.
Implicit Types (m : gmap K V).

Lemma elem_of_range m k v : (k, v) ∈ range m <-> m !! k = Some v.
Proof. by rewrite range_perm, elem_of_map_to_list. Qed.

Lemma NoDup_range_keys m : NoDup (range m).*1.
Proof. rewrite range_perm. apply NoDup_fst_map_to_list. Qed.

Lemma elem_of_range_keys m k : k ∈ (range m).*1 <-> is_Some (m !! k).
Proof.
  rewrite list_elem_of_fmap. split.
  - intros [[k' v] [-> Hin]]. apply elem_of_range in Hin. by exists v.
  - intros [v Hv]. exists (k, v). split; [done|]. by apply elem_of_range.
Qed.
End range_facts.

(** ** Automation *)

Create HintDb edgemesh.
Create Rewrite HintDb zlen.
#[export] Hint Resolve zlen_nonneg u8_range u16_range : edgemesh.
#[export] Hint Rewrite @zlen_app @zlen_cons @zlen_take @zlen_drop @zlen_replicate : zlen.

(** Split the outcome of a sequence of operations in a hypothesis. *)
Ltac inv_go :=
  repeat match goal with
  | H : mbind _ _ = Val _ |- _ =>
      apply go_bind_Val_inv in H; destruct H as [? [? H]]
  | H : Val _ = Val _ |- _ => injection H as H; subst
  | H : Panic _ = Val _ |- _ => discriminate H
  | H : Val _ = Panic _ |- _ => discriminate H
  end.

