(* ===== verification/GoStrings.v ===== *)
(** * Go strings

    The parts of Go's [strings], [strconv] and [fmt] the repository uses, on
    byte strings.  Separators and cut sets are single bytes, as in every call
    of the sources. *)

From Stdlib Require Import ZArith Lia Ascii String DecimalString DecimalZ DecimalFacts.
From stdpp Require Import base list strings option.
From S2P Require Import Prelude.

Local Open Scope string_scope.

#[local] Instance decimal_uint_eq_dec : EqDecision Decimal.uint.
Proof. solve_decision. Defined.

#[local] Instance decimal_int_eq_dec : EqDecision Decimal.int.
Proof. solve_decision. Defined.

(** ** Definitions *)

(** [strings.Split(s, sep)] for a one-byte separator. *)
Fixpoint Split (sep : ascii) (s : string) : list string :=
  match s with
  | EmptyString => [""]
  | String c s' =>
      if Ascii.eqb c sep then "" :: Split sep s'
      else match Split sep s' with
           | [] => [String c ""]
           | w :: ws => String c w :: ws
           end
  end.

(** [strings.Join(ws, sep)] *)
Fixpoint Join (sep : string) (ws : list string) : string :=
  match ws with
  | [] => ""
  | [w] => w
  | w :: ws' => w +:+ sep +:+ Join sep ws'
  end.

Definition HasPrefix (s p : string) : bool := String.prefix p s.

Fixpoint Contains (s sub : string) : bool :=
  HasPrefix s sub ||
  match s with EmptyString => false | String _ s' => Contains s' sub end.

Fixpoint HasSuffix (s suf : string) : bool :=
  String.eqb s suf ||
  match s with EmptyString => false | String _ s' => HasSuffix s' suf end.

(** [strings.TrimLeft(s, string(c))] *)
Fixpoint TrimLeft (s : string) (c : ascii) : string :=
  match s with
  | String d s' => if Ascii.eqb d c then TrimLeft s' c else s
  | EmptyString => ""
  end.

(** The white space of [strings.TrimSpace] among the ASCII bytes. *)
Definition is_space (c : ascii) : bool :=
  let n := N_of_ascii c in
  ((9 <=? n)%N && (n <=? 13)%N) || (n =? 32)%N.

Fixpoint trim_left_space (s : string) : string :=
  match s with
  | String c s' => if is_space c then trim_left_space s' else s
  | EmptyString => ""
  end.

Fixpoint trim_right_space (s : string) : string :=
  match s with
  | EmptyString => ""
  | String c s' =>
      match trim_right_space s' with
      | EmptyString => if is_space c then "" else String c ""
      | t => String c t
      end
  end.

Definition TrimSpace (s : string) : string := trim_right_space (trim_left_space s).

Definition to_upper (c : ascii) : ascii :=
  let n := N_of_ascii c in
  if ((97 <=? n)%N && (n <=? 122)%N) then ascii_of_N (n - 32) else c.

Fixpoint ToUpper (s : string) : string :=
  match s with
  | EmptyString => ""
  | String c s' => String (to_upper c) (ToUpper s')
  end.

(** [strconv.Itoa], and the verb [%d]. *)
Definition Itoa (n : Z) : string := NilZero.string_of_int (Z.to_int n).

(** The integer a decimal literal with an optional sign denotes. *)
Definition parse_decimal (s : string) : option Z :=
  match s with
  | EmptyString => None
  | String c s' =>
      if Ascii.eqb c "+"
      then option_map (fun d => Z.of_int (Decimal.Pos d)) (NilZero.uint_of_string s')
      else option_map Z.of_int (NilZero.int_of_string s)
  end.

(** [strconv.ParseInt(s, 10, bits)] *)
Definition ParseInt (s : string) (bits : Z) : option Z :=
  match parse_decimal s with
  | Some n => if ((- 2 ^ (bits - 1) <=? n) && (n <? 2 ^ (bits - 1)))%Z then Some n else None
  | None => None
  end.

(** [strconv.Atoi], on a 64-bit [int]. *)
Definition Atoi (s : string) : option Z := ParseInt s 64.

(** No byte of [s] is [c]. *)
Fixpoint lacks (c : ascii) (s : string) : bool :=
  match s with
  | EmptyString => true
  | String d s' => negb (Ascii.eqb d c) && lacks c s'
  end.

(** ** Splitting and joining *)

(** [string(b)] and [[]byte(s)]: a string is its bytes. *)
Fixpoint string_of_bytes (b : list Z) : string :=
  match b with
  | [] => ""
  | x :: b' => String (ascii_of_N (Z.to_N x)) (string_of_bytes b')
  end.

Fixpoint bytes_of_string (s : string) : list Z :=
  match s with
  | EmptyString => []
  | String c s' => Z.of_N (N_of_ascii c) :: bytes_of_string s'
  end.

Lemma string_of_bytes_of_string s : string_of_bytes (bytes_of_string s) = s.
Proof. induction s as [|c s IH]; simpl; [done|]. by rewrite N2Z.id, ascii_N_embedding, IH. Qed.

Lemma bytes_of_string_u8 s : Forall is_u8 (bytes_of_string s).
Proof.
  induction s as [|c s IH]; simpl; constructor; [|done]. unfold is_u8. pose proof (N_ascii_bounded c). lia.
Qed.

Lemma bytes_of_string_app s t : bytes_of_string (s +:+ t) = (bytes_of_string s ++ bytes_of_string t)%list.
Proof. induction s as [|c s IH]; simpl; [done|]. by rewrite IH. Qed.

Lemma length_bytes_of_string s : length (bytes_of_string s) = String.length s.
Proof. induction s; simpl; congruence. Qed.

Lemma string_app_cons c s t : String c s +:+ t = String c (s +:+ t).
Proof. done. Qed.

Lemma string_app_nil_l s : "" +:+ s = s.
Proof. done. Qed.

Lemma string_app_nil_r s : s +:+ "" = s.
Proof. induction s as [|c s IH]; [done|]. by rewrite string_app_cons, IH. Qed.

Lemma string_app_assoc a b c : (a +:+ b) +:+ c = a +:+ b +:+ c.
Proof. induction a as [|x a IH]; [done|]. by rewrite !string_app_cons, IH. Qed.

Lemma lacks_app c s t : lacks c (s +:+ t) = lacks c s && lacks c t.
Proof.
  induction s as [|d s IH]; [done|]. rewrite string_app_cons. simpl. rewrite IH. by rewrite andb_assoc.
Qed.

Lemma Split_ne_nil sep s : Split sep s <> [].
Proof. induction s as [|c s IH]; [done|]. simpl. destruct (Ascii.eqb c sep); [done|]. by destruct (Split sep s). Qed.

Lemma Split_lacks sep s : lacks sep s = true -> Split sep s = [s].
Proof.
  induction s as [|c s IH]; [done|]. simpl. intros [Hc Hs]%andb_true_iff.
  apply negb_true_iff in Hc. by rewrite Hc, IH.
Qed.

Lemma Split_app sep w s :
  lacks sep w = true -> Split sep (w +:+ String sep s) = w :: Split sep s.
Proof.
  induction w as [|c w IH]; intros Hw; rewrite ?string_app_nil_l, ?string_app_cons; simpl.
  - by rewrite Ascii.eqb_refl.
  - simpl in Hw. apply andb_true_iff in Hw as [Hc Hw]. apply negb_true_iff in Hc.
    rewrite Hc. by rewrite (IH Hw).
Qed.

Lemma Split_app_sep sep w s :
  lacks sep w = true -> Split sep (w +:+ String sep "" +:+ s) = w :: Split sep s.
Proof. intros Hw. exact (Split_app sep w s Hw). Qed.

Lemma Split_Join sep ws :
  ws <> [] -> Forall (fun w => lacks sep w = true) ws ->
  Split sep (Join (String sep "") ws) = ws.
Proof.
  intros Hne Hall. induction Hall as [|w ws Hw Hall IH]; [done|].
  destruct ws as [|w' ws]; simpl.
  - by apply Split_lacks.
  - rewrite string_app_cons, string_app_nil_l, Split_app by done. f_equal. by apply IH.
Qed.

Lemma Join_Split sep s : Join (String sep "") (Split sep s) = s.
Proof.
  induction s as [|c s IH]; [done|]. simpl. destruct (Ascii.eqb_spec c sep) as [->|Hne].
  - destruct (Split sep s) as [|w ws] eqn:E; [by apply Split_ne_nil in E|].
    change (String sep "" +:+ Join (String sep "") (w :: ws) = String sep s). by rewrite IH.
  - destruct (Split sep s) as [|w ws] eqn:E; [by apply Split_ne_nil in E|].
    rewrite <- IH. destruct ws; done.
Qed.

Lemma Split_all_lack sep s : Forall (fun w => lacks sep w = true) (Split sep s).
Proof.
  induction s as [|c s IH]; simpl; [by repeat constructor|].
  destruct (Ascii.eqb c sep) eqn:E; [by constructor|].
  destruct (Split sep s) as [|w ws]; inversion IH; subst; constructor; simpl; rewrite ?E; done.
Qed.

(** The number of fields is one more than the number of separators. *)
Fixpoint count_byte (c : ascii) (s : string) : nat :=
  match s with
  | EmptyString => 0
  | String d s' => (if Ascii.eqb d c then 1 else 0) + count_byte c s'
  end.

Lemma Split_length sep s : length (Split sep s) = S (count_byte sep s).
Proof.
  induction s as [|c s IH]; [done|]. simpl. destruct (Ascii.eqb c sep); simpl; [by rewrite IH|].
  destruct (Split sep s); simpl in *; lia.
Qed.

Lemma count_byte_app c s t : count_byte c (s +:+ t) = (count_byte c s + count_byte c t)%nat.
Proof. induction s as [|d s IH]; [done|]. rewrite string_app_cons. simpl. rewrite IH. lia. Qed.

Lemma lacks_count c s : lacks c s = true <-> count_byte c s = 0%nat.
Proof.
  induction s as [|d s IH]; [done|]. simpl. destruct (Ascii.eqb d c); simpl; [split; [done|lia]|done].
Qed.

(** ** Prefixes and suffixes *)

Lemma HasPrefix_spec s p : HasPrefix s p = true <-> exists t, s = p +:+ t.
Proof.
  unfold HasPrefix. revert s. induction p as [|c p IH]; intros s; simpl.
  - split; [intros _; by exists s|by destruct s].
  - destruct s as [|d s]; simpl; [split; [done|by intros [t ?]]|].
    destruct (ascii_dec c d) as [->|Hne]; simpl.
    + rewrite IH. split; intros [t Ht]; exists t; [by rewrite Ht|by injection Ht].
    + split; [done|]. intros [t Ht]. injection Ht as <- _. done.
Qed.

Lemma HasSuffix_spec s suf : HasSuffix s suf = true <-> exists t, s = t +:+ suf.
Proof.
  induction s as [|c s IH]; cbn [HasSuffix].
  - rewrite orb_false_r, String.eqb_eq. split; [intros <-; by exists ""|].
    intros [[|c t] Ht]; [done|discriminate Ht].
  - rewrite orb_true_iff, String.eqb_eq, IH. split.
    + intros [<-|[t ->]]; [by exists ""|by exists (String c t)].
    + intros [[|d t] Ht]; [by left|]. right. exists t. by injection Ht.
Qed.

Lemma Contains_spec s sub : Contains s sub = true <-> exists a b, s = a +:+ sub +:+ b.
Proof.
  induction s as [|c s IH]; cbn [Contains]; rewrite orb_true_iff, HasPrefix_spec.
  - split; [intros [[t Ht]|]; [by exists "", t|done]|].
    intros (a & b & Hab). left. destruct a; [by exists b|discriminate Hab].
  - rewrite IH. split.
    + intros [[t Ht]|(a & b & ->)]; [by exists "", t|by exists (String c a), b].
    + intros ([|d a] & b & Hab); [left; by exists b|]. right. exists a, b. by injection Hab.
Qed.

Lemma TrimLeft_head s c d t : TrimLeft s c = String d t -> d <> c.
Proof.
  induction s as [|e s IH]; simpl; [done|].
  destruct (Ascii.eqb_spec e c) as [->|Hne]; [done|]. by intros [= -> _].
Qed.

(** ** Numbers *)

Lemma uint_string_lacks c d :
  (N_of_ascii c < 48 \/ 57 < N_of_ascii c)%N -> lacks c (NilEmpty.string_of_uint d) = true.
Proof.
  intros Hc. induction d as [|d IH|d IH|d IH|d IH|d IH|d IH|d IH|d IH|d IH|d IH];
    cbn [lacks NilEmpty.string_of_uint]; [done|..];
    rewrite IH, andb_true_r; apply negb_true_iff; apply Ascii.eqb_neq; intros <-;
    vm_compute in Hc; destruct Hc; done.
Qed.

(** A decimal number holds no byte but digits and a minus sign. *)
Lemma Itoa_lacks c n :
  (N_of_ascii c < 45 \/ N_of_ascii c = 46 \/ N_of_ascii c = 47 \/ 57 < N_of_ascii c)%N ->
  lacks c (Itoa n) = true.
Proof.
  intros Hc. assert (H45 : c <> "-"%char) by (intros ->; vm_compute in Hc; intuition discriminate).
  assert (Hu : forall d, lacks c (NilZero.string_of_uint d) = true).
  { intros d. assert (Hd : lacks c (NilEmpty.string_of_uint d) = true) by (apply uint_string_lacks; lia).
    destruct d; try exact Hd. cbn [lacks NilZero.string_of_uint]. rewrite andb_true_r. apply negb_true_iff, Ascii.eqb_neq.
    intros <-. vm_compute in Hc. intuition discriminate. }
  unfold Itoa. destruct (Z.to_int n) as [d|d]; cbn [lacks NilZero.string_of_int]; [apply Hu|].
  rewrite Hu, andb_true_r. apply negb_true_iff, Ascii.eqb_neq. done.
Qed.

Lemma Itoa_ne_empty n : Itoa n <> "".
Proof.
  unfold Itoa. destruct (Z.to_int n) as [d|d]; simpl; [|done].
  destruct d; done.
Qed.

Lemma parse_decimal_Itoa n : parse_decimal (Itoa n) = Some n.
Proof.
  assert (Hplus : lacks "+" (Itoa n) = true) by (apply Itoa_lacks; vm_compute; by left).
  assert (Hp : option_map Z.of_int (NilZero.int_of_string (Itoa n)) = Some n).
  { unfold Itoa. rewrite <- (DecimalZ.of_to n) at 2. generalize (Z.to_int n) as d. intros d.
    destruct (decide (d = Decimal.Pos Decimal.Nil)) as [->|H1]; [done|].
    destruct (decide (d = Decimal.Neg Decimal.Nil)) as [->|H2]; [done|].
    by rewrite NilZero.isi. }
  unfold parse_decimal. destruct (Itoa n) as [|c s]; [done|].
  cbn [lacks] in Hplus. apply andb_true_iff in Hplus as [Hc _]. apply negb_true_iff in Hc.
  by rewrite Hc.
Qed.

(** Printing a number and parsing it back at a width that holds it. *)
Lemma ParseInt_Itoa n bits :
  (- 2 ^ (bits - 1) <= n < 2 ^ (bits - 1))%Z -> ParseInt (Itoa n) bits = Some n.
Proof.
  intros [H1 H2]. unfold ParseInt. rewrite parse_decimal_Itoa.
  by rewrite (proj2 (Z.leb_le _ _) H1), (proj2 (Z.ltb_lt _ _) H2).
Qed.
