(* ===== verification/GoNet.v ===== *)
(** * Go's [net] package

    The address functions of Go 1.19's [net] the repository uses: parsing and
    printing IP addresses and networks, and host/port pairs.  A [net.IP] is its
    byte slice, 4 or 16 bytes long; the nil IP is the empty slice. *)

From Stdlib Require Import ZArith Lia Ascii String.
From stdpp Require Import base list list_numbers strings option.
From S2P Require Import Prelude GoStrings.

Local Open Scope Z_scope.

(** ** Bytes of a string *)

Fixpoint str_take (n : nat) (s : string) : string :=
  match n, s with
  | S n', String c s' => String c (str_take n' s')
  | _, _ => ""
  end.

Fixpoint str_drop (n : nat) (s : string) : string :=
  match n, s with
  | S n', String _ s' => str_drop n' s'
  | _, _ => s
  end.

(** [bytealg.IndexByteString] *)
Fixpoint index_byte (s : string) (c : ascii) : option nat :=
  match s with
  | EmptyString => None
  | String d s' => if Ascii.eqb d c then Some 0%nat else option_map S (index_byte s' c)
  end.

(** [last(s, c)] *)
Fixpoint last_index_byte (s : string) (c : ascii) : option nat :=
  match s with
  | EmptyString => None
  | String d s' =>
      match last_index_byte s' c with
      | Some i => Some (S i)
      | None => if Ascii.eqb d c then Some 0%nat else None
      end
  end.

Definition head_is (c : ascii) (s : string) : bool :=
  match s with String d _ => Ascii.eqb d c | EmptyString => false end.

(** ** Numbers inside addresses *)

Definition big : Z := 16777215.

Definition digit_val (c : ascii) : option Z :=
  let n := Z.of_N (N_of_ascii c) in
  if (48 <=? n) && (n <=? 57) then Some (n - 48) else None.

Definition hex_val (c : ascii) : option Z :=
  let n := Z.of_N (N_of_ascii c) in
  if (48 <=? n) && (n <=? 57) then Some (n - 48)
  else if (97 <=? n) && (n <=? 102) then Some (n - 87)
  else if (65 <=? n) && (n <=? 70) then Some (n - 55)
  else None.

(** Accumulate digits of a base: the value, how many bytes were read and
    whether the number stayed below [big]. *)
Fixpoint ntoi_loop (val : ascii -> option Z) (base : Z) (s : string) (n : Z) (i : nat)
    : Z * nat * bool :=
  match s with
  | EmptyString => (n, i, true)
  | String c s' =>
      match val c with
      | None => (n, i, true)
      | Some d =>
          let n' := n * base + d in
          if big <=? n' then (big, i, false) else ntoi_loop val base s' n' (S i)
      end
  end.

Definition ntoi (val : ascii -> option Z) (base : Z) (s : string) : Z * nat * bool :=
  let '(n, i, ok) := ntoi_loop val base s 0 0 in
  if ok && Nat.eqb i 0 then (0, 0%nat, false) else (n, i, ok).

Definition dtoi (s : string) : Z * nat * bool := ntoi digit_val 10 s.
Definition xtoi (s : string) : Z * nat * bool := ntoi hex_val 16 s.

(** ** Parsing addresses *)

Definition v4InV6Prefix : list Z := [0; 0; 0; 0; 0; 0; 0; 0; 0; 0; 255; 255].

(** The four components of a dotted address; [i] counts those already read. *)
Fixpoint parseIPv4_loop (k i : nat) (s : string) (p : list Z) : option (list Z) :=
  match k with
  | O => if String.eqb s "" then Some (v4InV6Prefix ++ p) else None
  | S k' =>
      if String.eqb s "" then None else
      if negb (Nat.eqb i 0) && negb (head_is "." s) then None else
      let s1 := if Nat.eqb i 0 then s else str_drop 1 s in
      let '(n, c, ok) := dtoi s1 in
      if negb ok || (255 <? n) then None else
      if Nat.ltb 1 c && head_is "0" s1 then None else
      parseIPv4_loop k' (S i) (str_drop c s1) (p ++ [n])
  end.

Definition parseIPv4 (s : string) : option (list Z) := parseIPv4_loop 4 0 s [].

(** Expand an ellipsis at byte [e] of the [i] bytes read. *)
Definition expand_ellipsis (ip : list Z) (e : nat) : list Z :=
  take e ip ++ replicate (16 - length ip) 0 ++ drop e ip.

Definition finish_v6 (ip : list Z) (ellipsis : option nat) : option (list Z) :=
  if Nat.ltb (length ip) 16 then
    match ellipsis with
    | None => None
    | Some e => Some (expand_ellipsis ip e)
    end
  else match ellipsis with Some _ => None | None => Some ip end.

(** One hexadecimal group per iteration; [ip] holds the bytes read so far. *)
Fixpoint parseIPv6_loop (fuel : nat) (s : string) (ip : list Z) (ellipsis : option nat)
    : option (list Z) :=
  match fuel with
  | O => if String.eqb s "" then finish_v6 ip ellipsis else None
  | S fuel' =>
      let '(n, c, ok) := xtoi s in
      if negb ok || (65535 <? n) then None else
      let rest := str_drop c s in
      if head_is "." rest then
        if (match ellipsis with None => negb (Nat.eqb (length ip) 12) | Some _ => false end)
           || Nat.ltb 16 (length ip + 4) then None
        else match parseIPv4 s with
             | None => None
             | Some ip4 => finish_v6 (ip ++ drop 12 ip4) ellipsis
             end
      else
        let ip' := ip ++ [Z.shiftr n 8; u8 n] in
        match rest with
        | EmptyString => finish_v6 ip' ellipsis
        | String c1 s1 =>
            if negb (Ascii.eqb c1 ":") || String.eqb s1 "" then None
            else if head_is ":" s1 then
              match ellipsis with
              | Some _ => None
              | None =>
                  let s2 := str_drop 1 s1 in
                  if String.eqb s2 "" then finish_v6 ip' (Some (length ip'))
                  else parseIPv6_loop fuel' s2 ip' (Some (length ip'))
              end
            else parseIPv6_loop fuel' s1 ip' ellipsis
        end
  end.

Definition parseIPv6 (s : string) : option (list Z) :=
  if HasPrefix s "::" then
    let s' := str_drop 2 s in
    if String.eqb s' "" then Some (replicate 16 0)
    else parseIPv6_loop 8 s' [] (Some 0%nat)
  else parseIPv6_loop 8 s [] None.

(** [net.ParseIP]: the first dot or colon decides the family. *)
Fixpoint addr_family (s : string) : option ascii :=
  match s with
  | EmptyString => None
  | String c s' => if Ascii.eqb c "." || Ascii.eqb c ":" then Some c else addr_family s'
  end.

Definition ParseIP (s : string) : option (list Z) :=
  match addr_family s with
  | None => None
  | Some c => if Ascii.eqb c "." then parseIPv4 s else parseIPv6 s
  end.

(** ** Properties and printing of addresses *)

Definition isZeros (p : list Z) : bool := forallb (Z.eqb 0) p.

Definition list_eqb (a b : list Z) : bool := if decide (a = b) then true else false.

(** [ip.To4()]: the four bytes of an IPv4 address, or [[]] for nil. *)
Definition To4 (ip : list Z) : list Z :=
  if Nat.eqb (length ip) 4 then ip
  else if Nat.eqb (length ip) 16 && list_eqb (take 12 ip) v4InV6Prefix then drop 12 ip
  else [].

Definition nth0 (l : list Z) (i : nat) : Z := nth i l 0.

Definition IsLoopback (ip : list Z) : bool :=
  let ip4 := To4 ip in
  if Nat.eqb (length ip4) 4 then nth0 ip4 0 =? 127
  else list_eqb ip (replicate 15 0 ++ [1]).

Definition IsPrivate (ip : list Z) : bool :=
  let ip4 := To4 ip in
  if Nat.eqb (length ip4) 4 then
    (nth0 ip4 0 =? 10) ||
    ((nth0 ip4 0 =? 172) && (Z.land (nth0 ip4 1) 240 =? 16)) ||
    ((nth0 ip4 0 =? 192) && (nth0 ip4 1 =? 168))
  else Nat.eqb (length ip) 16 && (Z.land (nth0 ip 0) 254 =? 252).

Definition hex_digit (d : Z) : string :=
  String (ascii_of_N (Z.to_N (if d <? 10 then d + 48 else d + 87))) "".

(** [appendHex]: no leading zeros. *)
Definition hex4 (n : Z) : string :=
  let d3 := Z.shiftr n 12 in let d2 := Z.land (Z.shiftr n 8) 15 in
  let d1 := Z.land (Z.shiftr n 4) 15 in let d0 := Z.land n 15 in
  (if d3 =? 0 then "" else hex_digit d3) +:+
  (if (d3 =? 0) && (d2 =? 0) then "" else hex_digit d2) +:+
  (if (d3 =? 0) && (d2 =? 0) && (d1 =? 0) then "" else hex_digit d1) +:+ hex_digit d0.

Definition hexString (b : list Z) : string :=
  foldr (fun x s => hex_digit (Z.shiftr x 4) +:+ hex_digit (Z.land x 15) +:+ s) "" b.

Fixpoint groups (ip : list Z) : list Z :=
  match ip with a :: b :: r => Z.lor (Z.shiftl a 8) b :: groups r | _ => [] end.

Fixpoint zero_run (g : list Z) : nat :=
  match g with 0 :: r => S (zero_run r) | _ => 0 end.

(** The first longest run of zero groups: start and length. *)
Fixpoint longest_run (g : list Z) (i : nat) (best : nat * nat) : nat * nat :=
  match g with
  | [] => best
  | x :: r =>
      let k := zero_run (x :: r) in
      longest_run r (S i) (if Nat.ltb (snd best) k then (i, k) else best)
  end.

Definition join_groups (g : list Z) : string := Join ":" (map hex4 g).

Definition v6_string (ip : list Z) : string :=
  let g := groups ip in
  let '(e, k) := longest_run g 0 (0%nat, 0%nat) in
  if Nat.leb k 1 then join_groups g
  else join_groups (take e g) +:+ "::" +:+ join_groups (drop (e + k) g).

(** [ip.String()] *)
Definition IP_String (ip : list Z) : string :=
  if Nat.eqb (length ip) 0 then "<nil>" else
  let ip4 := To4 ip in
  if Nat.eqb (length ip4) 4 then Join "." (map Itoa ip4)
  else if Nat.eqb (length ip) 16 then v6_string ip
  else "?" +:+ hexString ip.

(** ** Networks *)

Record IPNet : Type := mkIPNet { net_IP : list Z; net_Mask : list Z }.

(** [net.CIDRMask(ones, bits)] for [0 <= ones <= bits]. *)
Fixpoint CIDRMask_go (k : nat) (n : Z) : list Z :=
  match k with
  | O => []
  | S k' =>
      if 8 <=? n then 255 :: CIDRMask_go k' (n - 8)
      else u8 (Z.lnot (Z.shiftr 255 n)) :: CIDRMask_go k' 0
  end.

Definition CIDRMask (ones : Z) (bits : Z) : list Z := CIDRMask_go (Z.to_nat (bits / 8)) ones.

Definition and_bytes (a b : list Z) : list Z := zip_with Z.land a b.

(** [ip.Mask(mask)] *)
Definition IP_Mask (ip mask : list Z) : list Z :=
  let mask := if Nat.eqb (length mask) 16 && Nat.eqb (length ip) 4 &&
                 list_eqb (take 12 mask) (replicate 12 255)
              then drop 12 mask else mask in
  let ip := if Nat.eqb (length mask) 4 && Nat.eqb (length ip) 16 &&
               list_eqb (take 12 ip) v4InV6Prefix
            then drop 12 ip else ip in
  if Nat.eqb (length ip) (length mask) then and_bytes ip mask else [].

Definition ParseCIDR (s : string) : result (list Z * IPNet) :=
  let bad := Err ("invalid CIDR address: " +:+ s) in
  match index_byte s "/" with
  | None => bad
  | Some i =>
      let addr := str_take i s in
      let mask := str_drop (S i) s in
      let '(iplen, ip) := match parseIPv4 addr with
                          | Some ip => (4, Some ip)
                          | None => (16, parseIPv6 addr)
                          end in
      let '(n, c, ok) := dtoi mask in
      match ip with
      | None => bad
      | Some ip =>
          if negb ok || negb (Nat.eqb c (String.length mask)) || (n <? 0) || (8 * iplen <? n)
          then bad
          else let m := CIDRMask n (8 * iplen) in Ok (ip, mkIPNet (IP_Mask ip m) m)
      end
  end.

(** [n.Contains(ip)], with [networkNumberAndMask]. *)
Definition networkNumberAndMask (n : IPNet) : list Z * list Z :=
  let ip4 := To4 (net_IP n) in
  let ip := if Nat.eqb (length ip4) 4 then ip4
            else if Nat.eqb (length (net_IP n)) 16 then net_IP n else [] in
  if Nat.eqb (length ip) 0 then ([], []) else
  let m := net_Mask n in
  if Nat.eqb (length m) 4 then
    if Nat.eqb (length ip) 4 then (ip, m) else ([], [])
  else if Nat.eqb (length m) 16 then
    (ip, if Nat.eqb (length ip) 4 then drop 12 m else m)
  else ([], []).

Definition IPNet_Contains (n : IPNet) (ip : list Z) : bool :=
  let '(nn, m) := networkNumberAndMask n in
  let x := To4 ip in
  let ip := if Nat.eqb (length x) 0 then ip else x in
  Nat.eqb (length ip) (length nn) && list_eqb (and_bytes nn m) (and_bytes ip m).

(** ** Hosts and ports *)

Definition JoinHostPort (host port : string) : string :=
  match index_byte host ":" with
  | Some _ => "[" +:+ host +:+ "]:" +:+ port
  | None => host +:+ ":" +:+ port
  end.

Definition addrErr (addr why : string) : string :=
  if String.eqb addr "" then why else "address " +:+ addr +:+ ": " +:+ why.

Definition SplitHostPort (hostport : string) : result (string * string) :=
  let fail why := Err (addrErr hostport why) in
  let finish host j k i :=
    match index_byte (str_drop j hostport) "[" with
    | Some _ => fail "unexpected '[' in address"
    | None =>
        match index_byte (str_drop k hostport) "]" with
        | Some _ => fail "unexpected ']' in address"
        | None => Ok (host, str_drop (S i) hostport)
        end
    end in
  match last_index_byte hostport ":" with
  | None => fail "missing port in address"
  | Some i =>
      if head_is "[" hostport then
        match index_byte hostport "]" with
        | None => fail "missing ']' in address"
        | Some e =>
            if Nat.eqb (S e) (String.length hostport) then fail "missing port in address"
            else if Nat.eqb (S e) i then finish (str_drop 1 (str_take e hostport)) 1%nat (S e) i
            else if head_is ":" (str_drop (S e) hostport) then fail "too many colons in address"
            else fail "missing port in address"
        end
      else
        let host := str_take i hostport in
        match index_byte host ":" with
        | Some _ => fail "too many colons in address"
        | None => finish host 0%nat 0%nat i
        end
  end.

(** [net.IP.Equal] *)
Definition IP_Equal (ip x : list Z) : bool :=
  if decide (length ip = length x) then bool_decide (ip = x)
  else if decide (length ip = 4%nat /\ length x = 16%nat)
  then bool_decide (take 12 x = v4InV6Prefix) && bool_decide (ip = drop 12 x)
  else if decide (length ip = 16%nat /\ length x = 4%nat)
  then bool_decide (take 12 ip = v4InV6Prefix) && bool_decide (drop 12 ip = x)
  else false.

(** ** Printing and parsing IPv4 addresses *)

Lemma str_drop_app a b : str_drop (String.length a) (a +:+ b) = b.
Proof. induction a as [|c a IH]; [done|]. rewrite string_app_cons. apply IH. Qed.

Lemma length_app_string a b : String.length (a +:+ b) = (String.length a + String.length b)%nat.
Proof. induction a as [|c a IH]; [done|]. rewrite string_app_cons. cbn. by rewrite IH. Qed.

Lemma str_take_app a b : str_take (String.length a) (a +:+ b) = a.
Proof. induction a as [|c a IH]; [done|]. rewrite string_app_cons. cbn. by rewrite IH. Qed.

(** The string does not start with a digit. *)
Definition no_digit (s : string) : bool :=
  match s with EmptyString => true | String c _ => match digit_val c with None => true | Some _ => false end end.

(** Digits are read up to the first byte that is not one. *)
Lemma ntoi_loop_app w s n i n' :
  no_digit s = true -> ntoi_loop digit_val 10 w n i = (n', i + String.length w, true)%nat ->
  ntoi_loop digit_val 10 (w +:+ s) n i = (n', i + String.length w, true)%nat.
Proof.
  intros Hs. revert n i. induction w as [|c w IH]; intros n i Hw.
  - rewrite string_app_nil_l. cbn in *. injection Hw as -> _. rewrite Nat.add_0_r.
    destruct s as [|c s]; [done|]. cbn in *. by destruct (digit_val c).
  - rewrite string_app_cons. cbn [ntoi_loop String.length] in *. destruct (digit_val c); [|injection Hw; lia].
    destruct (big <=? _); [done|]. rewrite <- Nat.add_succ_comm in *. by apply IH.
Qed.

Definition byte_prints (b : Z) : bool :=
  bool_decide (ntoi_loop digit_val 10 (Itoa b) 0 0 = (b, String.length (Itoa b), true)) &&
  negb (Nat.ltb 1 (String.length (Itoa b)) && head_is "0" (Itoa b)) && negb (String.eqb (Itoa b) "").

Lemma bytes_print b : is_u8 b -> byte_prints b = true.
Proof.
  intros Hb. assert (Hall : forallb byte_prints (seqZ 0 256) = true) by (vm_compute; reflexivity).
  rewrite forallb_forall in Hall. apply Hall, list_elem_of_In, elem_of_seqZ. unfold is_u8 in Hb. lia.
Qed.

(** One component of a dotted address. *)
Lemma parse_component k i b s sep p :
  is_u8 b -> no_digit s = true -> (i = 0%nat /\ sep = "" \/ i <> 0%nat /\ sep = ".") ->
  parseIPv4_loop (S k) i (sep +:+ Itoa b +:+ s) p = parseIPv4_loop k (S i) s (p ++ [b]).
Proof.
  intros Hb Hs Hsep. pose proof (bytes_print b Hb) as Hp. unfold byte_prints in Hp.
  rewrite !andb_true_iff, !negb_true_iff, bool_decide_eq_true in Hp. destruct Hp as [[Hn Hz] He].
  assert (Hd : dtoi (Itoa b +:+ s) = (b, String.length (Itoa b), true)).
  { unfold dtoi, ntoi. rewrite (ntoi_loop_app _ _ _ _ _ Hs Hn). cbn [Nat.add].
    destruct (Itoa b); [done|]. done. }
  assert (Hne : Itoa b +:+ s <> "") by (by destruct (Itoa b); rewrite ?string_app_cons).
  assert (Hh : head_is "0" (Itoa b +:+ s) = head_is "0" (Itoa b)).
  { destruct (Itoa b); [done|]. by rewrite string_app_cons. }
  assert (Hloop : forall s1, s1 = Itoa b +:+ s ->
    (let '(n, c, ok) := dtoi s1 in
      if negb ok || (255 <? n) then None else
      if Nat.ltb 1 c && head_is "0" s1 then None else
      parseIPv4_loop k (S i) (str_drop c s1) (p ++ [n])) = parseIPv4_loop k (S i) s (p ++ [b])).
  { intros s1 ->. rewrite Hd, Hh, Hz. cbn [negb orb]. unfold is_u8 in Hb.
    destruct (Z.ltb_spec 255 b); [lia|]. by rewrite str_drop_app. }
  destruct Hsep as [[-> ->]|[Hi ->]]; cbn [parseIPv4_loop].
  - rewrite string_app_nil_l. apply String.eqb_neq in Hne. rewrite Hne. cbn [Nat.eqb negb andb]. by apply Hloop.
  - rewrite string_app_cons, string_app_nil_l. apply Nat.eqb_neq in Hi. rewrite Hi. cbn. by apply Hloop.
Qed.

Definition dotted (a b c d : Z) : string := Itoa a +:+ "." +:+ Itoa b +:+ "." +:+ Itoa c +:+ "." +:+ Itoa d.

Lemma parseIPv4_dotted a b c d :
  is_u8 a -> is_u8 b -> is_u8 c -> is_u8 d ->
  parseIPv4 (dotted a b c d) = Some (v4InV6Prefix ++ [a; b; c; d]).
Proof.
  intros Ha Hb Hc Hd. unfold parseIPv4, dotted.
  rewrite <- (string_app_nil_l (Itoa a +:+ _)), parse_component by (done || by left).
  rewrite parse_component by (done || by right). rewrite parse_component by (done || by right).
  rewrite <- (string_app_nil_r (Itoa d)), parse_component by (done || by right). done.
Qed.

Lemma index_byte_app w c s : lacks c w = true -> index_byte (w +:+ String c s) c = Some (String.length w).
Proof.
  induction w as [|x w IH]; intros Hw.
  - rewrite string_app_nil_l. cbn. by rewrite Ascii.eqb_refl.
  - rewrite string_app_cons. cbn in *. destruct (Ascii.eqb x c); [done|]. by rewrite IH.
Qed.

Lemma dotted_lacks x a b c d :
  (N_of_ascii x < 45 \/ N_of_ascii x = 47 \/ 57 < N_of_ascii x)%N -> lacks x (dotted a b c d) = true.
Proof.
  intros Hx. assert (Hdot : Ascii.eqb "." x = false).
  { apply Ascii.eqb_neq. intros <-. vm_compute in Hx. intuition discriminate. }
  assert (Hl : lacks x "." = true) by (unfold lacks; by rewrite Hdot).
  unfold dotted. by rewrite !lacks_app, !Itoa_lacks, !Hl by tauto.
Qed.

Lemma addr_family_app w s :
  lacks "." w = true -> lacks ":" w = true -> addr_family (w +:+ s) = addr_family s.
Proof.
  induction w as [|c w IH]; intros H1 H2; [done|]. rewrite string_app_cons. cbn in *.
  destruct (Ascii.eqb c "."), (Ascii.eqb c ":"); cbn in *; try done. by apply IH.
Qed.

Lemma ParseIP_dotted a b c d :
  is_u8 a -> is_u8 b -> is_u8 c -> is_u8 d ->
  ParseIP (dotted a b c d) = Some (v4InV6Prefix ++ [a; b; c; d]).
Proof.
  intros. unfold ParseIP, dotted. rewrite addr_family_app by (apply Itoa_lacks; vm_compute; tauto).
  by apply parseIPv4_dotted.
Qed.

Lemma IP_String_dotted a b c d : IP_String (v4InV6Prefix ++ [a; b; c; d]) = dotted a b c d.
Proof. reflexivity. Qed.

(** An IPv4 address with its prefix length, as interfaces print them. *)
Lemma ParseCIDR_dotted a b c d :
  is_u8 a -> is_u8 b -> is_u8 c -> is_u8 d ->
  exists ipn, ParseCIDR (dotted a b c d +:+ "/32") = Ok (v4InV6Prefix ++ [a; b; c; d], ipn) /\
    net_Mask ipn = [255; 255; 255; 255].
Proof.
  intros Ha Hb Hc Hd. unfold ParseCIDR.
  rewrite index_byte_app by (apply dotted_lacks; vm_compute; tauto).
  rewrite str_take_app, (parseIPv4_dotted _ _ _ _ Ha Hb Hc Hd).
  replace (str_drop (S (String.length (dotted a b c d))) (dotted a b c d +:+ "/32")) with "32"; [by eexists|].
  change "/32" with ("/" +:+ "32"). rewrite <- string_app_assoc.
  replace (S (String.length (dotted a b c d))) with (String.length (dotted a b c d +:+ "/")); [by rewrite str_drop_app|].
  rewrite length_app_string. cbn. lia.
Qed.

(** ** Sanity checks against the documented behaviour *)

Example ParseIP_v4 : ParseIP "192.168.1.56" = Some (v4InV6Prefix ++ [192; 168; 1; 56]).
Proof. reflexivity. Qed.

Example ParseIP_leading_zero : ParseIP "192.168.01.56" = None.
Proof. reflexivity. Qed.

Example ParseIP_v6 : IP_String <$> ParseIP "2001:db8::1:0:0:1" = Some "2001:db8::1:0:0:1".
Proof. reflexivity. Qed.

Example ParseIP_mapped : IP_String <$> ParseIP "::ffff:10.1.2.3" = Some "10.1.2.3".
Proof. reflexivity. Qed.

Example ParseIP_bad : (ParseIP "1:2:3", ParseIP "1::2::3", ParseIP "256.1.1.1", ParseIP "abc") = (None, None, None, None).
Proof. reflexivity. Qed.

Example ParseCIDR_24 :
  ParseCIDR "10.244.36.7/24" =
  Ok (v4InV6Prefix ++ [10; 244; 36; 7], mkIPNet [10; 244; 36; 0] [255; 255; 255; 0]).
Proof. reflexivity. Qed.

Example SplitHostPort_ok :
  (SplitHostPort "10.0.0.1:80", SplitHostPort "[::1]:443") = (Ok ("10.0.0.1", "80"), Ok ("::1", "443")).
Proof. reflexivity. Qed.

Example SplitHostPort_bad :
  (SplitHostPort "10.0.0.1", SplitHostPort "::1:443") =
  (Err "address 10.0.0.1: missing port in address", Err "address ::1:443: too many colons in address").
Proof. reflexivity. Qed.
