(* ===== verification/Digests.v ===== *)
(** * Digests

    [crypto/md5], [crypto/sha256] and [encoding/hex] of the standard library,
    from which the tunnel derives the identity of a node and the key of the
    private network; a digest is a list of bytes.  And the hash of the hash
    ring, [Sum64] of [src/vendor/github.com/cespare/xxhash/v2]. *)

From Stdlib Require Import ZArith Lia Ascii String.
From stdpp Require Import base list strings option.
From S2P Require Import Prelude GoStrings.

Local Open Scope Z_scope.

(** ** Words *)

Definition add32 (x y : Z) : Z := u32 (x + y).
Definition not32 (x : Z) : Z := Z.lxor x 4294967295.
Definition rotl32 (x n : Z) : Z := u32 (Z.lor (Z.shiftl x n) (Z.shiftr x (32 - n))).
Definition rotr32 (x n : Z) : Z := rotl32 x (32 - n).

(** The [n] bytes of a number, the highest or the lowest first. *)
Definition le_bytes (n : nat) (x : Z) : list Z := map (fun i => u8 (Z.shiftr x (8 * Z.of_nat i))) (seq 0 n).
Definition be_bytes (n : nat) (x : Z) : list Z := reverse (le_bytes n x).
Definition be_value (bs : list Z) : Z := fold_left (fun x b => 256 * x + b) bs 0.
Definition le_value (bs : list Z) : Z := be_value (reverse bs).

(** Pieces of [n] elements; [fuel] pieces at most. *)
Fixpoint pieces {A} (fuel n : nat) (l : list A) : list (list A) :=
  match fuel, l with
  | S fuel', _ :: _ => take n l :: pieces fuel' n (drop n l)
  | _, _ => []
  end.
Definition split_pieces {A} (n : nat) (l : list A) : list (list A) := pieces (length l) n l.

(** A message with a one bit, zeros and its length in bits, in blocks. *)
Definition pad (length_bytes : Z -> list Z) (m : list Z) : list (list Z) :=
  split_pieces 64 (m ++ 128 :: replicate (Z.to_nat ((55 - zlen m) mod 64)) 0 ++ length_bytes (8 * zlen m)).

Definition nth32 (l : list Z) (i : nat) : Z := default 0 (l !! i).

(** ** SHA-256 *)

Definition sha256_K : list Z :=
  [1116352408; 1899447441; 3049323471; 3921009573; 961987163; 1508970993; 2453635748; 2870763221;
   3624381080; 310598401; 607225278; 1426881987; 1925078388; 2162078206; 2614888103; 3248222580;
   3835390401; 4022224774; 264347078; 604807628; 770255983; 1249150122; 1555081692; 1996064986;
   2554220882; 2821834349; 2952996808; 3210313671; 3336571891; 3584528711; 113926993; 338241895;
   666307205; 773529912; 1294757372; 1396182291; 1695183700; 1986661051; 2177026350; 2456956037;
   2730485921; 2820302411; 3259730800; 3345764771; 3516065817; 3600352804; 4094571909; 275423344;
   430227734; 506948616; 659060556; 883997877; 958139571; 1322822218; 1537002063; 1747873779;
   1955562222; 2024104815; 2227730452; 2361852424; 2428436474; 2756734187; 3204031479; 3329325298].
Definition sha256_init : list Z :=
  [1779033703; 3144134277; 1013904242; 2773480762; 1359893119; 2600822924; 528734635; 1541459225].

(** The sixteen words of a block, extended to sixty-four; the latest first. *)
Fixpoint extend (n : nat) (w : list Z) : list Z :=
  match n with
  | O => w
  | S n' =>
      let s0 := let x := nth32 w 14 in Z.lxor (Z.lxor (rotr32 x 7) (rotr32 x 18)) (Z.shiftr x 3) in
      let s1 := let x := nth32 w 1 in Z.lxor (Z.lxor (rotr32 x 17) (rotr32 x 19)) (Z.shiftr x 10) in
      extend n' (add32 (add32 (nth32 w 15) s0) (add32 (nth32 w 6) s1) :: w)
  end.

Definition sha256_round (st : list Z) (kw : Z * Z) : list Z :=
  match st with
  | [a; b; c; d; e; f; g; h] =>
      let S1 := Z.lxor (Z.lxor (rotr32 e 6) (rotr32 e 11)) (rotr32 e 25) in
      let ch := Z.lxor (Z.land e f) (Z.land (not32 e) g) in
      let t1 := add32 (add32 h S1) (add32 ch (add32 kw.1 kw.2)) in
      let S0 := Z.lxor (Z.lxor (rotr32 a 2) (rotr32 a 13)) (rotr32 a 22) in
      let maj := Z.lxor (Z.lxor (Z.land a b) (Z.land a c)) (Z.land b c) in
      [add32 t1 (add32 S0 maj); a; b; c; add32 d t1; e; f; g]
  | _ => st
  end.

Definition sha256_block (st : list Z) (block : list Z) : list Z :=
  let w := reverse (extend 48 (reverse (map be_value (split_pieces 4 block)))) in
  zip_with add32 st (fold_left sha256_round (zip sha256_K w) st).

Definition sha256 (m : list Z) : list Z :=
  concat (map (be_bytes 4) (fold_left sha256_block (pad (be_bytes 8) m) sha256_init)).

(** ** MD5 *)

Definition md5_K : list Z :=
  [3614090360; 3905402710; 606105819; 3250441966; 4118548399; 1200080426; 2821735955; 4249261313;
   1770035416; 2336552879; 4294925233; 2304563134; 1804603682; 4254626195; 2792965006; 1236535329;
   4129170786; 3225465664; 643717713; 3921069994; 3593408605; 38016083; 3634488961; 3889429448;
   568446438; 3275163606; 4107603335; 1163531501; 2850285829; 4243563512; 1735328473; 2368359562;
   4294588738; 2272392833; 1839030562; 4259657740; 2763975236; 1272893353; 4139469664; 3200236656;
   681279174; 3936430074; 3572445317; 76029189; 3654602809; 3873151461; 530742520; 3299628645;
   4096336452; 1126891415; 2878612391; 4237533241; 1700485571; 2399980690; 4293915773; 2240044497;
   1873313359; 4264355552; 2734768916; 1309151649; 4149444226; 3174756917; 718787259; 3951481745].
Definition md5_shifts : list Z :=
  concat (map (fun l => concat (replicate 4 l)) [[7; 12; 17; 22]; [5; 9; 14; 20]; [4; 11; 16; 23]; [6; 10; 15; 21]]).
Definition md5_init : list Z := [1732584193; 4023233417; 2562383102; 271733878].

Definition md5_round (w : list Z) (st : list Z) (i : nat) : list Z :=
  match st with
  | [a; b; c; d] =>
      let '(f, g) :=
        if Nat.ltb i 16 then (Z.lor (Z.land b c) (Z.land (not32 b) d), i)
        else if Nat.ltb i 32 then (Z.lor (Z.land d b) (Z.land (not32 d) c), Nat.modulo (5 * i + 1) 16)
        else if Nat.ltb i 48 then (Z.lxor (Z.lxor b c) d, Nat.modulo (3 * i + 5) 16)
        else (Z.lxor c (Z.lor b (not32 d)), Nat.modulo (7 * i) 16) in
      let x := add32 (add32 f a) (add32 (nth32 md5_K i) (nth32 w g)) in
      [d; add32 b (rotl32 x (nth32 md5_shifts i)); b; c]
  | _ => st
  end.

Definition md5_block (st : list Z) (block : list Z) : list Z :=
  let w := map le_value (split_pieces 4 block) in
  zip_with add32 st (fold_left (md5_round w) (seq 0 64) st).

Definition md5 (m : list Z) : list Z :=
  concat (map (le_bytes 4) (fold_left md5_block (pad (le_bytes 8) m) md5_init)).

(** ** Hexadecimal *)

Definition hex_digit (x : Z) : ascii := ascii_of_N (Z.to_N (if x <? 10 then 48 + x else 87 + x)).
Definition hex_digits (b : Z) : list Z := [Z.shiftr b 4; Z.land b 15].
Fixpoint string_of_ascii (l : list ascii) : string :=
  match l with [] => "" | c :: l' => String c (string_of_ascii l') end.
Definition EncodeToString (bs : list Z) : string := string_of_ascii (map hex_digit (concat (map hex_digits bs))).

(** ** xxHash *)

Definition u64 (x : Z) : Z := x mod 2 ^ 64.
Definition rol64 (n x : Z) : Z := u64 (Z.lor (Z.shiftl x n) (Z.shiftr x (64 - n))).

Definition prime1 : Z := 11400714785074694791.
Definition prime2 : Z := 14029467366897019727.
Definition prime3 : Z := 1609587929392839161.
Definition prime4 : Z := 9650029242287828579.
Definition prime5 : Z := 2870177450012600261.

Definition round (acc input : Z) : Z := u64 (rol64 31 (u64 (acc + u64 (input * prime2))) * prime1).
Definition mergeRound (acc val : Z) : Z := u64 (Z.lxor acc (round 0 val) * prime1 + prime4).

(** The four accumulators after the blocks of 32 bytes. *)
Definition stripe (v : Z * Z * Z * Z) (b : list Z) : Z * Z * Z * Z :=
  let '(v1, v2, v3, v4) := v in
  (round v1 (le_value (take 8 b)), round v2 (le_value (take 8 (drop 8 b))),
   round v3 (le_value (take 8 (drop 16 b))), round v4 (le_value (take 8 (drop 24 b)))).

(** The rest: eight bytes at a time, then four, then one by one. *)
Definition tail8 (h : Z) (b : list Z) : Z := u64 (rol64 27 (Z.lxor h (round 0 (le_value b))) * prime1 + prime4).
Definition tail4 (h : Z) (b : list Z) : Z := u64 (rol64 23 (Z.lxor h (u64 (le_value b * prime1))) * prime2 + prime3).
Definition tail1 (h : Z) (x : Z) : Z := u64 (rol64 11 (Z.lxor h (u64 (x * prime5))) * prime1).

Definition xx_tail (h : Z) (b : list Z) : Z :=
  let n8 := (length b / 8)%nat in
  let h := fold_left tail8 (split_pieces 8 (take (8 * n8) b)) h in
  let b := drop (8 * n8) b in
  let '(h, b) := if Nat.leb 4 (length b) then (tail4 h (take 4 b), drop 4 b) else (h, b) in
  fold_left tail1 b h.

Definition xx_avalanche (h : Z) : Z :=
  let h := Z.lxor h (Z.shiftr h 33) in
  let h := u64 (h * prime2) in
  let h := Z.lxor h (Z.shiftr h 29) in
  let h := u64 (h * prime3) in
  Z.lxor h (Z.shiftr h 32).

Definition Sum64 (b : list Z) : Z :=
  let n := length b in
  let blocks := (32 * (n / 32))%nat in
  let h :=
    if Nat.leb 32 n then
      let '(v1, v2, v3, v4) := fold_left stripe (split_pieces 32 (take blocks b)) (u64 (prime1 + prime2), prime2, 0, u64 (- prime1)) in
      let h := u64 (rol64 1 v1 + rol64 7 v2 + rol64 12 v3 + rol64 18 v4) in
      mergeRound (mergeRound (mergeRound (mergeRound h v1) v2) v3) v4
    else prime5 in
  xx_avalanche (xx_tail (u64 (h + Z.of_nat n)) (drop blocks b)).

(** ** Facts *)

Lemma le_bytes_u8 n x : Forall is_u8 (le_bytes n x).
Proof. unfold le_bytes. induction (seq 0 n) as [|i l IH]; cbn; constructor; [apply u8_range|done]. Qed.

Lemma concat_bytes (f : Z -> list Z) n l :
  (forall x, Forall is_u8 (f x) /\ length (f x) = n) ->
  Forall is_u8 (concat (map f l)) /\ length (concat (map f l)) = (n * length l)%nat.
Proof.
  intros Hf. induction l as [|x l [IHu IHl]]; cbn; [split; [constructor|lia]|]. destruct (Hf x) as [Hu Hl].
  split; [by apply Forall_app_2|]. rewrite length_app. lia.
Qed.

Lemma le_bytes_spec n x : Forall is_u8 (le_bytes n x) /\ length (le_bytes n x) = n.
Proof. split; [apply le_bytes_u8|]. unfold le_bytes. by rewrite length_map, length_seq. Qed.

Lemma be_bytes_spec n x : Forall is_u8 (be_bytes n x) /\ length (be_bytes n x) = n.
Proof. destruct (le_bytes_spec n x). unfold be_bytes. rewrite length_reverse. split; [by apply Forall_reverse|done]. Qed.

(** The rounds and blocks keep the number of words of the state. *)
Lemma fold_length {X} (step : list Z -> X -> list Z) xs st :
  (forall st x, length (step st x) = length st) -> length (fold_left step xs st) = length st.
Proof. intros Hs. revert st. induction xs as [|x xs IH]; intros st; cbn; [done|]. by rewrite IH, Hs. Qed.

Lemma sha256_bytes m : Forall is_u8 (sha256 m) /\ length (sha256 m) = 32%nat.
Proof.
  destruct (concat_bytes (be_bytes 4) 4 (fold_left sha256_block (pad (be_bytes 8) m) sha256_init) (be_bytes_spec 4)) as [Hu Hl].
  split; [done|]. unfold sha256. rewrite Hl, fold_length; [done|]. intros st block. unfold sha256_block.
  rewrite length_zip_with, fold_length; [lia|]. intros st' kw. unfold sha256_round. by repeat (destruct st' as [|? st']; try done).
Qed.

Lemma md5_bytes m : Forall is_u8 (md5 m) /\ length (md5 m) = 16%nat.
Proof.
  destruct (concat_bytes (le_bytes 4) 4 (fold_left md5_block (pad (le_bytes 8) m) md5_init) (le_bytes_spec 4)) as [Hu Hl].
  split; [done|]. unfold md5. rewrite Hl, fold_length; [done|]. intros st block. unfold md5_block.
  rewrite length_zip_with, fold_length; [lia|]. intros st' i. unfold md5_round.
  repeat (destruct st' as [|? st']; try done). by destruct (if Nat.ltb i 16 then _ else _).
Qed.

(** *** Test vectors *)

Example sha256_abc :
  EncodeToString (sha256 (bytes_of_string "abc")) = "ba7816bf8f01cfea414140de5dae2223b00361a396177a9cb410ff61f20015ad".
Proof. vm_compute. reflexivity. Qed.

Example sha256_two_blocks :
  EncodeToString (sha256 (bytes_of_string "abcdbcdecdefdefgefghfghighijhijkijkljklmklmnlmnomnopnopq")) =
    "248d6a61d20638b8e5c026930c3e6039a33ce45964ff2167f6ecedd419db06c1".
Proof. vm_compute. reflexivity. Qed.

Example md5_message :
  EncodeToString (md5 (bytes_of_string "message digest")) = "f96b697d7cb7938d525a2f31aaf161d0".
Proof. vm_compute. reflexivity. Qed.

Example md5_two_blocks :
  EncodeToString (md5 (bytes_of_string "12345678901234567890123456789012345678901234567890123456789012345678901234567890")) =
    "57edf4a22be3c955ac49da2e2107b67a".
Proof. vm_compute. reflexivity. Qed.

Example Sum64_empty : Sum64 [] = 17241709254077376921.
Proof. vm_compute. reflexivity. Qed.

Example Sum64_short : Sum64 (bytes_of_string "as") = 2031985117650215289.
Proof. vm_compute. reflexivity. Qed.

Example Sum64_long :
  Sum64 (bytes_of_string "Call me Ishmael. Some years ago--never mind how long precisely-") = 189969583671016854.
Proof. vm_compute. reflexivity. Qed.
