(* ===== verification/ProtoWire.v ===== *)
(** * The wire format of protocol buffers

    The tunnel's messages are marshalled by the vendored protobuf runtime,
    [google.golang.org/protobuf]: [encoding/protowire/wire.go] (varints, tags,
    field values) and the table-driven codec of [internal/impl]
    ([marshalAppendPointer], [unmarshalPointer] and the functions for optional
    [int32], enum and [string] fields).  A message is described by the table
    of its fields; a byte is a [Z] below 256. *)

From Stdlib Require Import ZArith Lia Ascii String.
From stdpp Require Import base list gmap strings option.
From S2P Require Import Prelude GoStrings.

Local Open Scope Z_scope.

(** ** protowire *)

Inductive wire_error : Type :=
| Truncated
| FieldNumber
| Overflow
| Reserved
| EndGroup
| RecursionDepth
| OutOfFuel.

Definition parsed (A : Type) : Type := (wire_error + A)%type.

Definition MinValidNumber : Z := 1.
Definition MaxValidNumber : Z := 2 ^ 29 - 1.
Definition MaxInt32 : Z := 2 ^ 31 - 1.
Definition DefaultRecursionLimit : Z := 10000.

Definition VarintType : Z := 0.
Definition Fixed64Type : Z := 1.
Definition BytesType : Z := 2.
Definition StartGroupType : Z := 3.
Definition EndGroupType : Z := 4.
Definition Fixed32Type : Z := 5.

(** The groups of seven bits of a [uint64], the lowest first; at most ten. *)
Fixpoint varint_groups (k : nat) (v : Z) : list Z :=
  match k with
  | O => []
  | S k' => if v <? 128 then [v] else Z.lor (Z.land v 127) 128 :: varint_groups k' (Z.shiftr v 7)
  end.

Definition AppendVarint (b : list Z) (v : Z) : list Z := b ++ varint_groups 10 v.

(** The value of a varint of at most [k] bytes and its length; the tenth byte
    may only hold one bit. *)
Fixpoint consume_groups (k : nat) (b : list Z) : parsed (Z * nat) :=
  match b with
  | [] => inl Truncated
  | y :: b' =>
      match k with
      | O => if y <? 2 then inr (y, 1%nat) else inl Overflow
      | S k' =>
          if y <? 128 then inr (y, 1%nat)
          else match consume_groups k' b' with
               | inl e => inl e
               | inr (v, n) => inr (y - 128 + v * 128, S n)
               end
      end
  end.

Definition ConsumeVarint (b : list Z) : parsed (Z * nat) := consume_groups 9 b.

Definition EncodeTag (num typ : Z) : Z := Z.lor (Z.shiftl num 3) (Z.land typ 7).

(** The field number is -1 if it overflows an [int32]. *)
Definition DecodeTag (x : Z) : Z * Z :=
  if MaxInt32 <? Z.shiftr x 3 then (-1, 0) else (Z.shiftr x 3, Z.land x 7).

Definition AppendTag (b : list Z) (num typ : Z) : list Z := AppendVarint b (EncodeTag num typ).

Definition ConsumeTag (b : list Z) : parsed (Z * Z * nat) :=
  match ConsumeVarint b with
  | inl e => inl e
  | inr (v, n) =>
      let '(num, typ) := DecodeTag v in
      if num <? MinValidNumber then inl FieldNumber else inr (num, typ, n)
  end.

Definition ConsumeFixed32 (b : list Z) : parsed nat := if Nat.ltb (length b) 4 then inl Truncated else inr 4%nat.
Definition ConsumeFixed64 (b : list Z) : parsed nat := if Nat.ltb (length b) 8 then inl Truncated else inr 8%nat.

Definition AppendString (b : list Z) (v : string) : list Z :=
  AppendVarint b (zlen (bytes_of_string v)) ++ bytes_of_string v.

Definition ConsumeBytes (b : list Z) : parsed (list Z * nat) :=
  match ConsumeVarint b with
  | inl e => inl e
  | inr (m, n) =>
      if zlen (drop n b) <? m then inl Truncated
      else inr (take (Z.to_nat m) (drop n b), (n + Z.to_nat m)%nat)
  end.

(** The length of a field value of any type; groups nest, and every turn of
    their loop consumes a tag, so the number of bytes bounds the recursion. *)
Fixpoint consumeFieldValueD (fuel : nat) (num typ : Z) (b : list Z) (depth : Z) {struct fuel} : parsed nat :=
  match fuel with
  | O => inl OutOfFuel
  | S fuel' =>
      if typ =? VarintType then match ConsumeVarint b with inl e => inl e | inr (_, n) => inr n end
      else if typ =? Fixed32Type then ConsumeFixed32 b
      else if typ =? Fixed64Type then ConsumeFixed64 b
      else if typ =? BytesType then match ConsumeBytes b with inl e => inl e | inr (_, n) => inr n end
      else if typ =? StartGroupType then
        if depth <? 0 then inl RecursionDepth else consume_group fuel' num b depth 0
      else if typ =? EndGroupType then inl EndGroup
      else inl Reserved
  end
with consume_group (fuel : nat) (num : Z) (b : list Z) (depth : Z) (consumed : nat) {struct fuel} : parsed nat :=
  match fuel with
  | O => inl OutOfFuel
  | S fuel' =>
      match ConsumeTag b with
      | inl e => inl e
      | inr (num2, typ2, n) =>
          let b := drop n b in
          if typ2 =? EndGroupType then
            if negb (num =? num2) then inl EndGroup else inr (consumed + n)%nat
          else
            match consumeFieldValueD fuel' num2 typ2 b (depth - 1) with
            | inl e => inl e
            | inr n2 => consume_group fuel' num (drop n2 b) depth (consumed + n + n2)
            end
      end
  end.

Definition ConsumeFieldValue (num typ : Z) (b : list Z) : parsed nat :=
  consumeFieldValueD (S (2 * length b + 1)) num typ b DefaultRecursionLimit.

(** ** The codec *)

(** The kinds of fields the messages have, and their values. *)
Inductive field_kind : Type := Int32Kind | StringKind.
Inductive field_value : Type := Int32 (v : Z) | Str (s : string).

#[export] Instance field_value_eq : EqDecision field_value.
Proof. solve_decision. Defined.

(** The table of a message type, ordered by field number. *)
Definition coder_fields : Type := list (Z * field_kind).

Record message : Type := mkMessage {
  fields : gmap Z field_value;
  unknown : list Z
}.

Definition empty_message : message := mkMessage ∅ [].
Definition set_field (m : message) (num : Z) (v : field_value) : message :=
  mkMessage (<[num := v]> (fields m)) (unknown m).

(** [uint64(v)] of an [int32], and [int32(v)] of a [uint64]. *)
Definition to_u64 (v : Z) : Z := v mod 2 ^ 64.
Definition to_i32 (v : Z) : Z := (v + 2 ^ 31) mod 2 ^ 32 - 2 ^ 31.

Definition wire_type (k : field_kind) : Z := match k with Int32Kind => VarintType | StringKind => BytesType end.

Definition appendInt32Ptr (b : list Z) (num v : Z) : list Z :=
  AppendVarint (AppendVarint b (EncodeTag num VarintType)) (to_u64 v).
Definition appendStringPtr (b : list Z) (num : Z) (v : string) : list Z :=
  AppendString (AppendVarint b (EncodeTag num BytesType)) v.

Definition append_field (b : list Z) (num : Z) (v : field_value) : list Z :=
  match v with Int32 v => appendInt32Ptr b num v | Str s => appendStringPtr b num s end.

Definition marshalAppendPointer (table : coder_fields) (b : list Z) (m : message) : list Z :=
  fold_left (fun b f => match fields m !! f.1 with None => b | Some v => append_field b f.1 v end) table b
    ++ unknown m.

Definition mergePointer (table : coder_fields) (dst src : message) : message :=
  let dst := fold_left (fun dst f => match fields src !! f.1 with None => dst | Some v => set_field dst f.1 v end) table dst in
  mkMessage (fields dst) (unknown dst ++ unknown src).

(** How a field value was read: not of the field's wire type, broken, or read. *)
Inductive consumed : Type :=
| ErrUnknown
| ErrDecode
| Consumed (v : field_value) (n : nat).

Definition consumeInt32Ptr (b : list Z) (wtyp : Z) : consumed :=
  if negb (wtyp =? VarintType) then ErrUnknown else
  match ConsumeVarint b with
  | inl _ => ErrDecode
  | inr (v, n) => Consumed (Int32 (to_i32 v)) n
  end.

Definition consumeStringPtr (b : list Z) (wtyp : Z) : consumed :=
  if negb (wtyp =? BytesType) then ErrUnknown else
  match ConsumeBytes b with
  | inl _ => ErrDecode
  | inr (v, n) => Consumed (Str (string_of_bytes v)) n
  end.

Definition find_field (table : coder_fields) (num : Z) : option field_kind :=
  snd <$> List.find (fun f => f.1 =? num) table.

Definition consume_field (table : coder_fields) (num wtyp : Z) (b : list Z) : consumed :=
  match find_field table num with
  | Some Int32Kind => consumeInt32Ptr b wtyp
  | Some StringKind => consumeStringPtr b wtyp
  | None => ErrUnknown
  end.

Definition errDecode : string := "proto: cannot parse invalid wire-format data".

(** One turn of the loop over the fields: the rest of the input and the
    message so far. *)
Definition unmarshal_field (table : coder_fields) (b : list Z) (m : message) : result (list Z * message) :=
  match ConsumeVarint b with
  | inl _ => Err errDecode
  | inr (tag, n) =>
      let b := drop n b in
      let num := Z.shiftr tag 3 in
      if (num <? MinValidNumber) || (MaxValidNumber <? num) then Err errDecode else
      let wtyp := Z.land tag 7 in
      if wtyp =? EndGroupType then Err errDecode else
      match consume_field table num wtyp b with
      | Consumed v n => Ok (drop n b, set_field m num v)
      | ErrDecode => Err errDecode
      | ErrUnknown =>
          match ConsumeFieldValue num wtyp b with
          | inl _ => Err errDecode
          | inr n => Ok (drop n b, mkMessage (fields m) (AppendTag (unknown m) num wtyp ++ take n b))
          end
      end
  end.

Fixpoint unmarshal_fields (fuel : nat) (table : coder_fields) (b : list Z) (m : message) : result message :=
  match b, fuel with
  | [], _ => Ok m
  | _, O => Err "out of fuel"
  | _, S fuel' =>
      match unmarshal_field table b m with
      | Err e => Err e
      | Ok (b, m) => unmarshal_fields fuel' table b m
      end
  end.

(** Into an existing message; every turn consumes a tag. *)
Definition unmarshalPointer (table : coder_fields) (b : list Z) (m : message) : result message :=
  unmarshal_fields (length b) table b m.

(** ** Varints *)

Lemma land_127 v : 0 <= v -> Z.land v 127 = v mod 128.
Proof. intros. change 127 with (Z.ones 7). by rewrite Z.land_ones. Qed.

(** A byte of a varint that is not the last one. *)
Lemma group_byte v : 0 <= v -> Z.lor (Z.land v 127) 128 = v mod 128 + 128.
Proof.
  intros Hv. rewrite land_127, Z.lor_comm by done. change 128 with (1 * 2 ^ 7) at 1.
  rewrite lor_disjoint; [lia|lia|]. apply Z.mod_pos_bound. lia.
Qed.

Lemma varint_groups_u8 k v : 0 <= v -> Forall is_u8 (varint_groups k v).
Proof.
  revert v. induction k as [|k IH]; intros v Hv; simpl; [constructor|].
  destruct (v <? 128) eqn:E; zbool; constructor; unfold is_u8; [lia|constructor| |].
  - rewrite group_byte by done. pose proof (Z.mod_pos_bound v 128). lia.
  - apply IH. by apply Z.shiftr_nonneg.
Qed.

Lemma varint_groups_length k v : (1 <= length (varint_groups (S k) v) <= S k)%nat.
Proof.
  revert v. induction k as [|k IH]; intros v.
  - simpl. destruct (v <? 128); simpl; lia.
  - remember (S k) as j. simpl. destruct (v <? 128); simpl; [lia|]. specialize (IH (Z.shiftr v 7)). lia.
Qed.

Lemma varint_groups_S k v :
  varint_groups (S k) v = if v <? 128 then [v] else Z.lor (Z.land v 127) 128 :: varint_groups k (Z.shiftr v 7).
Proof. done. Qed.

Lemma consume_groups_append k v r :
  0 <= v < 2 ^ (7 * Z.of_nat k + 1) ->
  consume_groups k (varint_groups (S k) v ++ r) = inr (v, length (varint_groups (S k) v)).
Proof.
  revert v. induction k as [|k IH]; intros v Hv.
  - change (2 ^ (7 * Z.of_nat 0 + 1)) with 2 in Hv. simpl. rewrite (proj2 (Z.ltb_lt v 128)) by lia. simpl.
    by rewrite (proj2 (Z.ltb_lt v 2)) by lia.
  - rewrite (varint_groups_S (S k)).
    destruct (v <? 128) eqn:E; cbn -[varint_groups]; [by rewrite E|]. zbool. rewrite group_byte by lia. pose proof (Z.mod_pos_bound v 128) as Hm.
    rewrite (proj2 (Z.ltb_ge _ _)) by lia. rewrite Z.shiftr_div_pow2 by lia. change (2 ^ 7) with 128.
    assert (Hd : 0 <= v / 128 < 2 ^ (7 * Z.of_nat k + 1)).
    { split; [apply Z.div_pos; lia|]. apply Z.div_lt_upper_bound; [lia|].
      replace (128 * 2 ^ (7 * Z.of_nat k + 1)) with (2 ^ (7 * Z.of_nat (S k) + 1)); [lia|].
      change 128 with (2 ^ 7). rewrite <- Z.pow_add_r by lia. f_equal. lia. }
    rewrite IH by done. do 2 f_equal. rewrite (Z.div_mod v 128) at 3 by lia. lia.
Qed.

Lemma ConsumeVarint_append v r :
  0 <= v < 2 ^ 64 -> ConsumeVarint (varint_groups 10 v ++ r) = inr (v, length (varint_groups 10 v)).
Proof. intros Hv. apply consume_groups_append. exact Hv. Qed.

(** *** What a parser reads

    A parser that succeeds has read [n] bytes of its input, at least one, and
    would do the same whatever followed these bytes. *)
Definition reads_prefix {A} (f : list Z -> parsed A) (len : A -> nat) : Prop :=
  forall b a, f b = inr a -> (1 <= len a <= length b)%nat /\ forall r, f (take (len a) b ++ r) = inr a.

Lemma consume_groups_prefix k : reads_prefix (consume_groups k) snd.
Proof.
  induction k as [|k IH]; intros [|y b] a Ha; simpl in Ha; try done.
  - destruct (y <? 2) eqn:E; [|done]. injection Ha as <-. simpl. split; [lia|]. intros r. by rewrite E.
  - destruct (y <? 128) eqn:E.
    + injection Ha as <-. simpl. split; [lia|]. intros r. by rewrite E.
    + destruct (consume_groups k b) as [|[v n]] eqn:Ec; [done|]. injection Ha as <-.
      destruct (IH b (v, n) Ec) as [Hn Hr]. simpl in *. split; [lia|]. intros r. by rewrite E, Hr.
Qed.

Lemma ConsumeVarint_prefix : reads_prefix ConsumeVarint snd.
Proof. apply consume_groups_prefix. Qed.

(** The value is not negative, of non-negative bytes. *)
Lemma consume_groups_nonneg k b v n : Forall is_u8 b -> consume_groups k b = inr (v, n) -> 0 <= v < 2 ^ (7 * Z.of_nat k + 1).
Proof.
  revert b v n. induction k as [|k IH]; intros [|y b] v n Hb Hc; simpl in Hc; try done;
    apply Forall_cons_1 in Hb as [Hy Hb]; unfold is_u8 in Hy.
  - destruct (y <? 2) eqn:E; [|done]. zbool. injection Hc as <- _. change (2 ^ (7 * Z.of_nat 0 + 1)) with 2. lia.
  - assert (Hp : 2 ^ (7 * Z.of_nat (S k) + 1) = 128 * 2 ^ (7 * Z.of_nat k + 1)).
    { change 128 with (2 ^ 7). rewrite <- Z.pow_add_r by lia. f_equal. lia. }
    assert (H0 : 0 < 2 ^ (7 * Z.of_nat k + 1)) by (apply Z.pow_pos_nonneg; lia).
    destruct (y <? 128) eqn:E; zbool; [injection Hc as <- _; lia|].
    destruct (consume_groups k b) as [|[v' n']] eqn:Ec; [done|]. injection Hc as <- _.
    specialize (IH _ _ _ Hb Ec). lia.
Qed.

Lemma take_drop_app_prefix {A} (b r : list A) n m :
  (n + m <= length b)%nat -> drop n (take (n + m) b ++ r) = take m (drop n b) ++ r.
Proof.
  intros Hl. rewrite drop_app_le by (rewrite length_take; lia). f_equal.
  rewrite skipn_firstn_comm. f_equal. lia.
Qed.

Lemma take_app_prefix {A} (b r : list A) n m :
  (n <= length b)%nat -> take (n + m) b ++ r = take n b ++ (drop n (take (n + m) b) ++ r).
Proof.
  intros Hl. rewrite (assoc_L (++)). f_equal. rewrite <- (take_drop n (take (n + m) b)) at 1.
  f_equal. rewrite take_take. f_equal. lia.
Qed.

Lemma ConsumeTag_prefix : reads_prefix ConsumeTag (fun a => a.2).
Proof.
  intros b a. unfold ConsumeTag. destruct (ConsumeVarint b) as [|[v n]] eqn:E; [done|].
  destruct (ConsumeVarint_prefix b _ E) as [Hn Hr].
  destruct (DecodeTag v) as [num typ] eqn:Ed. destruct (num <? MinValidNumber) eqn:Em; [done|]. intros [= <-]. simpl in *.
  split; [done|]. intros r. by rewrite Hr, Ed, Em.
Qed.

Lemma ConsumeBytes_prefix : reads_prefix ConsumeBytes snd.
Proof.
  intros b a. unfold ConsumeBytes. destruct (ConsumeVarint b) as [|[m n]] eqn:E; [done|].
  destruct (ConsumeVarint_prefix b _ E) as [Hn Hr]. cbn [snd] in *.
  destruct (zlen (drop n b) <? m) eqn:Em; [done|]. intros [= <-]. cbn [snd].
  zbool. unfold zlen in Em. rewrite length_drop in Em.
  assert (Hl : (n + Z.to_nat m <= length b)%nat) by lia. split; [lia|]. intros r.
  rewrite take_app_prefix, Hr by lia. rewrite <- take_app_prefix, take_drop_app_prefix by lia.
  assert (Hlen : length (take (Z.to_nat m) (drop n b)) = Z.to_nat m) by (rewrite length_take, length_drop; lia).
  rewrite (proj2 (Z.ltb_ge _ _)) by (unfold zlen; rewrite length_app, Hlen; lia).
  by rewrite take_app_length' by done.
Qed.

Lemma fixed_prefix k (b : list Z) n r :
  (1 <= k)%nat -> (if Nat.ltb (length b) k then inl Truncated else inr k) = (inr n : parsed nat) ->
  n = k /\ (k <= length b)%nat /\
  (if Nat.ltb (length (take n b ++ r)) k then inl Truncated else inr k) = (inr n : parsed nat).
Proof.
  intros Hk. destruct (Nat.ltb_spec (length b) k); [done|]. intros [= <-]. split; [done|]. split; [done|].
  destruct (Nat.ltb_spec (length (take k b ++ r)) k) as [Hl|]; [|done].
  rewrite length_app, length_take in Hl. lia.
Qed.

(** *** Groups: enough fuel, and what they read *)

Definition field_prefix (fuel : nat) : Prop := forall num typ b depth n,
  consumeFieldValueD fuel num typ b depth = inr n ->
  (1 <= n <= length b)%nat /\
  forall r fuel', (fuel <= fuel')%nat -> consumeFieldValueD fuel' num typ (take n b ++ r) depth = inr n.

Definition group_prefix (fuel : nat) : Prop := forall num b depth c n,
  consume_group fuel num b depth c = inr n ->
  exists l, (n = c + l)%nat /\ (1 <= l <= length b)%nat /\
  forall r c' fuel', (fuel <= fuel')%nat -> consume_group fuel' num (take l b ++ r) depth c' = inr (c' + l)%nat.

Lemma field_prefix_S fuel : group_prefix fuel -> field_prefix (S fuel).
Proof.
  intros IH num typ b depth n Hn. cbn [consumeFieldValueD] in Hn.
  assert (Hs : forall fuel', (S fuel <= fuel')%nat -> exists f, fuel' = S f /\ (fuel <= f)%nat)
    by (intros [|f] ?; [lia|]; exists f; lia).
  destruct (typ =? VarintType) eqn:E0.
  { destruct (ConsumeVarint b) as [|[v m]] eqn:E; [done|]. injection Hn as ->.
    destruct (ConsumeVarint_prefix _ _ E) as [Hm Hr]. cbn in *. split; [done|]. intros r f' (f & -> & _)%Hs. cbn. by rewrite E0, Hr. }
  destruct (typ =? Fixed32Type) eqn:E1.
  { destruct (fixed_prefix 4 b n [] ltac:(lia) Hn) as (-> & Hl & _). split; [lia|]. intros r f' (f & -> & _)%Hs. cbn [consumeFieldValueD].
    rewrite E0, E1. exact (proj2 (proj2 (fixed_prefix 4 b 4 r ltac:(lia) Hn))). }
  destruct (typ =? Fixed64Type) eqn:E2.
  { destruct (fixed_prefix 8 b n [] ltac:(lia) Hn) as (-> & Hl & _). split; [lia|]. intros r f' (f & -> & _)%Hs. cbn [consumeFieldValueD].
    rewrite E0, E1, E2. exact (proj2 (proj2 (fixed_prefix 8 b 8 r ltac:(lia) Hn))). }
  destruct (typ =? BytesType) eqn:E3.
  { destruct (ConsumeBytes b) as [|[v m]] eqn:E; [done|]. injection Hn as ->.
    destruct (ConsumeBytes_prefix _ _ E) as [Hm Hr]. cbn in *. split; [done|]. intros r f' (f & -> & _)%Hs.
    cbn [consumeFieldValueD]. by rewrite E0, E1, E2, E3, Hr. }
  destruct (typ =? StartGroupType) eqn:E4; [|by destruct (typ =? EndGroupType)].
  destruct (depth <? 0) eqn:Ed; [done|]. destruct (IH _ _ _ _ _ Hn) as (l & -> & Hl & Hr). split; [done|].
  intros r f' (f & -> & Hf)%Hs. cbn [consumeFieldValueD]. rewrite E0, E1, E2, E3, E4, Ed. by apply (Hr r 0%nat).
Qed.

Lemma group_prefix_S fuel : field_prefix fuel -> group_prefix fuel -> group_prefix (S fuel).
Proof.
  intros IHf IHg num b depth c n Hn. cbn [consume_group] in Hn.
  destruct (ConsumeTag b) as [|[[num2 typ2] t]] eqn:Et; [done|].
  destruct (ConsumeTag_prefix _ _ Et) as [Ht Hr]. cbn [snd] in *.
  destruct (typ2 =? EndGroupType) eqn:Ee.
  - destruct (negb (num =? num2)) eqn:En; [done|]. injection Hn as <-. exists t. split; [done|]. split; [done|].
    intros r c' [|f] Hf; [lia|]. cbn [consume_group]. by rewrite Hr, Ee, En.
  - destruct (consumeFieldValueD fuel num2 typ2 (drop t b) (depth - 1)) as [|n2] eqn:Ef; [done|].
    destruct (IHf _ _ _ _ _ Ef) as [Hn2 Hrf]. destruct (IHg _ _ _ _ _ Hn) as (l & -> & Hl & Hrg).
    rewrite !length_drop in *. exists (t + (n2 + l))%nat. split; [lia|]. split; [lia|].
    intros r c' [|f] Hf; [lia|]. cbn [consume_group]. rewrite take_app_prefix, Hr by lia. rewrite Ee.
    rewrite <- take_app_prefix, take_drop_app_prefix by lia. rewrite take_app_prefix by (rewrite length_drop; lia).
    rewrite Hrf by lia. rewrite <- take_app_prefix by (rewrite length_drop; lia).
    rewrite take_drop_app_prefix by (rewrite length_drop; lia). rewrite Hrg by lia. f_equal. lia.
Qed.

Lemma prefixes fuel : field_prefix fuel /\ group_prefix fuel.
Proof.
  induction fuel as [|fuel [IHf IHg]]; [split; intros; intros ?; intros; done|].
  split; [by apply field_prefix_S|by apply group_prefix_S].
Qed.

Lemma ConsumeVarint_fuel b : ConsumeVarint b <> inl OutOfFuel.
Proof.
  unfold ConsumeVarint. generalize 9%nat as k. intros k. revert b.
  induction k as [|k IH]; intros [|y b]; simpl; try done.
  - by destruct (y <? 2).
  - destruct (y <? 128); [done|]. specialize (IH b). destruct (consume_groups k b) as [e|[v n]]; [|done]. congruence.
Qed.

Lemma ConsumeBytes_fuel b : ConsumeBytes b <> inl OutOfFuel.
Proof.
  unfold ConsumeBytes. pose proof (ConsumeVarint_fuel b). destruct (ConsumeVarint b) as [e|[m n]]; [congruence|].
  by destruct (_ <? _).
Qed.

Lemma ConsumeTag_fuel b : ConsumeTag b <> inl OutOfFuel.
Proof.
  unfold ConsumeTag. pose proof (ConsumeVarint_fuel b). destruct (ConsumeVarint b) as [e|[m n]]; [congruence|].
  destruct (DecodeTag m). by destruct (_ <? _).
Qed.

Lemma fixed_fuel k (b : list Z) : (if Nat.ltb (length b) k then inl Truncated else inr k) <> (inl OutOfFuel : parsed nat).
Proof. by destruct (Nat.ltb _ _). Qed.

(** Fuel of twice the bytes is enough, and more of it changes nothing. *)
Lemma consume_fuel fuel :
  (forall num typ b depth, (2 * length b + 2 <= fuel)%nat -> consumeFieldValueD fuel num typ b depth <> inl OutOfFuel) /\
  (forall num b depth c, (2 * length b + 1 <= fuel)%nat -> consume_group fuel num b depth c <> inl OutOfFuel).
Proof.
  induction fuel as [|fuel [IHf IHg]]; [split; intros; lia|]. split.
  - intros num typ b depth Hl. cbn [consumeFieldValueD].
    pose proof (ConsumeVarint_fuel b). pose proof (ConsumeBytes_fuel b).
    repeat case_match; subst; try done; try congruence; try apply fixed_fuel. apply IHg. lia.
  - intros num b depth c Hl. cbn [consume_group]. pose proof (ConsumeTag_fuel b).
    destruct (ConsumeTag b) as [e|[[num2 typ2] t]] eqn:Et; [congruence|].
    destruct (ConsumeTag_prefix _ _ Et) as [Ht _]. cbn in Ht.
    destruct (typ2 =? EndGroupType); [by destruct (negb _)|].
    pose proof (IHf num2 typ2 (drop t b) (depth - 1)) as Hf. rewrite length_drop in Hf.
    destruct (consumeFieldValueD fuel num2 typ2 (drop t b) (depth - 1)) as [e|n2] eqn:Ef.
    { intros [= ->]. apply Hf; [lia|done]. }
    apply IHg. rewrite !length_drop. lia.
Qed.

Lemma consume_more_fuel fuel :
  (forall fuel' num typ b depth, (fuel <= fuel')%nat -> consumeFieldValueD fuel num typ b depth <> inl OutOfFuel ->
     consumeFieldValueD fuel' num typ b depth = consumeFieldValueD fuel num typ b depth) /\
  (forall fuel' num b depth c, (fuel <= fuel')%nat -> consume_group fuel num b depth c <> inl OutOfFuel ->
     consume_group fuel' num b depth c = consume_group fuel num b depth c).
Proof.
  induction fuel as [|fuel [IHf IHg]]; [split; intros; done|]. split.
  - intros [|f] num typ b depth Hf Hn; [lia|]. cbn [consumeFieldValueD] in *.
    repeat case_match; try done. apply IHg; [lia|done].
  - intros [|f] num b depth c Hf Hn; [lia|]. cbn [consume_group] in *.
    destruct (ConsumeTag b) as [e|[[num2 typ2] t]]; [done|]. destruct (typ2 =? EndGroupType); [done|].
    assert (Hx : consumeFieldValueD f num2 typ2 (drop t b) (depth - 1) = consumeFieldValueD fuel num2 typ2 (drop t b) (depth - 1)).
    { apply IHf; [lia|]. intros Hx. by rewrite Hx in Hn. }
    rewrite Hx. destruct (consumeFieldValueD fuel num2 typ2 (drop t b) (depth - 1)); [done|]. apply IHg; [lia|done].
Qed.

Lemma ConsumeFieldValue_prefix num typ : reads_prefix (ConsumeFieldValue num typ) id.
Proof.
  intros b n Hn. unfold ConsumeFieldValue in *. destruct (proj1 (prefixes _) _ _ _ _ _ Hn) as [Hl Hr].
  split; [done|]. intros r. unfold id. set (b' := take n b ++ r).
  rewrite <- (proj1 (consume_more_fuel _) (Nat.max (S (2 * length b + 1)) (S (2 * length b' + 1)))); [|lia|].
  - apply Hr. lia.
  - apply (proj1 (consume_fuel _)). lia.
Qed.

(** ** Fields *)

Lemma consume_field_prefix table num wtyp b v n :
  consume_field table num wtyp b = Consumed v n ->
  (1 <= n <= length b)%nat /\ forall r, consume_field table num wtyp (take n b ++ r) = Consumed v n.
Proof.
  unfold consume_field, consumeInt32Ptr, consumeStringPtr. destruct (find_field table num) as [[]|]; [| |done].
  - destruct (negb _); [done|]. destruct (ConsumeVarint b) as [|[x m]] eqn:E; [done|]. intros [= <- <-].
    destruct (ConsumeVarint_prefix _ _ E) as [Hm Hr]. split; [done|]. intros r. by rewrite Hr.
  - destruct (negb _); [done|]. destruct (ConsumeBytes b) as [|[x m]] eqn:E; [done|]. intros [= <- <-].
    destruct (ConsumeBytes_prefix _ _ E) as [Hm Hr]. split; [done|]. intros r. by rewrite Hr.
Qed.

(** Whether a value of the field is read as unknown depends on the types only. *)
Lemma consume_field_unknown table num wtyp b b' :
  consume_field table num wtyp b = ErrUnknown -> consume_field table num wtyp b' = ErrUnknown.
Proof.
  unfold consume_field, consumeInt32Ptr, consumeStringPtr. destruct (find_field table num) as [[]|]; [| |done];
    destruct (negb _); try done; [destruct (ConsumeVarint b) as [|[]]|destruct (ConsumeBytes b) as [|[]]]; done.
Qed.

(** One turn of the loop: how much it reads, what it does to the message, and
    that it would do the same whatever followed and whatever the message. *)
Lemma unmarshal_field_step table b m b' m' :
  unmarshal_field table b m = Ok (b', m') ->
  exists n, (1 <= n <= length b)%nat /\ b' = drop n b /\
  exists add u, m' = mkMessage (match add with Some (num, v) => <[num := v]> (fields m) | None => fields m end) (unknown m ++ u) /\
  forall r m0, unmarshal_field table (take n b ++ r) m0 =
    Ok (r, mkMessage (match add with Some (num, v) => <[num := v]> (fields m0) | None => fields m0 end) (unknown m0 ++ u)).
Proof.
  unfold unmarshal_field. destruct (ConsumeVarint b) as [|[tag t]] eqn:Et; [done|].
  destruct (ConsumeVarint_prefix _ _ Et) as [Ht Hrt]. cbn [snd] in *.
  destruct (_ || _) eqn:Enum; [done|]. destruct (Z.land tag 7 =? EndGroupType) eqn:Ee; [done|].
  destruct (consume_field table (Z.shiftr tag 3) (Z.land tag 7) (drop t b)) as [| |v n] eqn:Ec; [|done|].
  - destruct (ConsumeFieldValue (Z.shiftr tag 3) (Z.land tag 7) (drop t b)) as [|n] eqn:Ev; [done|].
    destruct (ConsumeFieldValue_prefix _ _ _ _ Ev) as [Hn Hr]. unfold id in *. rewrite length_drop in Hn. intros [= <- <-].
    exists (t + n)%nat. split; [lia|]. split; [by rewrite drop_drop|].
    exists None, (AppendTag [] (Z.shiftr tag 3) (Z.land tag 7) ++ take n (drop t b)). split.
    { f_equal. unfold AppendTag, AppendVarint. by rewrite <- !(assoc_L (++)). }
    intros r m0. rewrite take_app_prefix, Hrt by lia. rewrite Enum, Ee.
    rewrite <- take_app_prefix, take_drop_app_prefix by lia. rewrite (consume_field_unknown _ _ _ _ _ Ec), Hr.
    assert (Hlen : length (take n (drop t b)) = n) by (rewrite length_take, length_drop; lia).
    rewrite drop_app_length', take_app_length' by done. do 3 f_equal. unfold AppendTag, AppendVarint. by rewrite <- !(assoc_L (++)).
  - destruct (consume_field_prefix _ _ _ _ _ _ Ec) as [Hn Hr]. rewrite length_drop in Hn. intros [= <- <-].
    exists (t + n)%nat. split; [lia|]. split; [by rewrite drop_drop|].
    exists (Some (Z.shiftr tag 3, v)), []. split; [by rewrite app_nil_r|].
    intros r m0. rewrite take_app_prefix, Hrt by lia. rewrite Enum, Ee.
    rewrite <- take_app_prefix, take_drop_app_prefix by lia. rewrite Hr.
    assert (Hlen : length (take n (drop t b)) = n) by (rewrite length_take, length_drop; lia).
    rewrite drop_app_length' by done. unfold set_field. by rewrite app_nil_r.
Qed.

(** ** Messages *)

Lemma unmarshal_fields_fuel fuel table b m :
  (length b <= fuel)%nat -> unmarshal_fields fuel table b m = unmarshalPointer table b m.
Proof.
  unfold unmarshalPointer. remember (length b) as l eqn:El. revert fuel b m El.
  induction (lt_wf l) as [l _ IH]; intros fuel b m El Hl. destruct b as [|y b]; [by destruct fuel, l|].
  destruct fuel as [|fuel]; [simpl in El; lia|]. destruct l as [|l]; [simpl in El; lia|]. cbn [unmarshal_fields].
  destruct (unmarshal_field table (y :: b) m) as [[b' m']|] eqn:Ef; [|done].
  destruct (unmarshal_field_step _ _ _ _ _ Ef) as (n & Hn & -> & _).
  assert (Hd : (length (drop n (y :: b)) <= l)%nat) by (rewrite length_drop; lia).
  rewrite (IH (length (drop n (y :: b)))) by (rewrite ?length_drop in *; lia).
  symmetry. apply (IH (length (drop n (y :: b)))); rewrite ?length_drop in *; lia.
Qed.

Lemma unmarshalPointer_step table b m b' m' :
  unmarshal_field table b m = Ok (b', m') -> unmarshalPointer table b m = unmarshalPointer table b' m'.
Proof.
  intros Hf. destruct (unmarshal_field_step _ _ _ _ _ Hf) as (n & Hn & -> & _).
  destruct b as [|y b]; [simpl in Hn; lia|]. unfold unmarshalPointer at 1. cbn [unmarshal_fields length].
  rewrite Hf. apply unmarshal_fields_fuel. rewrite length_drop. simpl. lia.
Qed.

(** An induction over the turns of a successful run. *)
Lemma unmarshalPointer_ind table (P : list Z -> message -> message -> Prop) :
  (forall m, P [] m m) ->
  (forall b m b' m' m1, unmarshal_field table b m = Ok (b', m') -> P b' m' m1 -> P b m m1) ->
  forall b m m1, unmarshalPointer table b m = Ok m1 -> P b m m1.
Proof.
  intros H0 HS b. remember (length b) as l eqn:El. revert b El.
  induction (lt_wf l) as [l _ IH]; intros b El m m1 Hu. destruct b as [|y b]; [injection Hu as <-; apply H0|].
  destruct (unmarshal_field table (y :: b) m) as [[b' m']|e] eqn:Ef.
  - eapply HS; [exact Ef|]. destruct (unmarshal_field_step _ _ _ _ _ Ef) as (n & Hn & -> & _).
    rewrite (unmarshalPointer_step _ _ _ _ _ Ef) in Hu. eapply IH; [|reflexivity|exact Hu]. rewrite length_drop. lia.
  - unfold unmarshalPointer in Hu. cbn [unmarshal_fields length] in Hu. by rewrite Ef in Hu.
Qed.

(** Concatenated messages are merged: the later ones are read into what the
    earlier ones gave. *)
Lemma unmarshalPointer_app table a b m m1 :
  unmarshalPointer table a m = Ok m1 -> unmarshalPointer table (a ++ b) m = unmarshalPointer table b m1.
Proof.
  revert a m m1. apply (unmarshalPointer_ind table); [done|]. intros a m a' m' m1 Hf IH. rewrite <- IH.
  destruct (unmarshal_field_step _ _ _ _ _ Hf) as (n & Hn & -> & add & u & -> & Hr).
  apply unmarshalPointer_step. rewrite <- (take_drop n a) at 1. rewrite <- (assoc_L (++)). apply Hr.
Qed.

(** Bytes that are read as unknown fields and kept as they are. *)
Definition unknown_ok (table : coder_fields) (u : list Z) : Prop :=
  forall m, unmarshalPointer table u m = Ok (mkMessage (fields m) (unknown m ++ u)).

Definition kind_of (v : field_value) : field_kind := match v with Int32 _ => Int32Kind | Str _ => StringKind end.
Definition value_ok (v : field_value) : Prop :=
  match v with Int32 v => - 2 ^ 31 <= v < 2 ^ 31 | Str s => zlen (bytes_of_string s) < 2 ^ 64 end.

(** Messages as the table describes them. *)
Definition message_ok (table : coder_fields) (m : message) : Prop :=
  (forall num v, fields m !! num = Some v -> find_field table num = Some (kind_of v) /\ value_ok v) /\
  unknown_ok table (unknown m).

Definition table_ok (table : coder_fields) : Prop :=
  Forall (fun f => MinValidNumber <= f.1 <= MaxValidNumber) table.

Lemma find_field_elem table num k : find_field table num = Some k -> (num, k) ∈ table.
Proof.
  unfold find_field. destruct (List.find _ table) as [[n k']|] eqn:E; [|done]. intros [= ->].
  apply List.find_some in E as [Hin Hn]. simpl in Hn. zbool. subst n. by apply list_elem_of_In.
Qed.

Lemma empty_message_ok table : message_ok table empty_message.
Proof.
  split; [intros num v; cbn; by rewrite lookup_empty|]. intros m. unfold unmarshalPointer. simpl. rewrite app_nil_r. by destruct m.
Qed.

Lemma unknown_ok_app table u1 u2 : unknown_ok table u1 -> unknown_ok table u2 -> unknown_ok table (u1 ++ u2).
Proof. intros H1 H2 m. rewrite (unmarshalPointer_app _ _ _ _ _ (H1 m)), H2. simpl. by rewrite (assoc_L (++)). Qed.

(** *** Merging *)

Definition merged (dst src : message) : message := mkMessage (fields src ∪ fields dst) (unknown dst ++ unknown src).

(** Reading into a message is merging what is read into it. *)
Lemma unmarshalPointer_merged table b m m1 :
  unmarshalPointer table b m = Ok m1 -> forall m0, unmarshalPointer table b (merged m0 m) = Ok (merged m0 m1).
Proof.
  revert b m m1.
  apply (unmarshalPointer_ind table (fun b m m1 => forall m0, unmarshalPointer table b (merged m0 m) = Ok (merged m0 m1))); [done|].
  intros b m b' m' m1 Hf IH m0. rewrite <- IH.
  destruct (unmarshal_field_step _ _ _ _ _ Hf) as (n & Hn & -> & add & u & -> & Hr).
  apply unmarshalPointer_step. rewrite <- (take_drop n b) at 1. rewrite Hr. unfold merged. cbn [fields unknown].
  do 3 f_equal; [|by rewrite (assoc_L (++))]. destruct add as [[num v]|]; [|done]. by rewrite insert_union_l.
Qed.

Lemma fold_set_fields (table : coder_fields) src dst :
  let out := fold_left (fun dst f => match fields src !! f.1 with None => dst | Some v => set_field dst f.1 v end) table dst in
  unknown out = unknown dst /\
  forall num, fields out !! num = if bool_decide (num ∈ table.*1) then fields src !! num ∪ fields dst !! num else fields dst !! num.
Proof.
  revert dst. induction table as [|[k kind] table IH]; intros dst; [by split|]. cbn [fold_left fst].
  destruct (IH (match fields src !! k with None => dst | Some v => set_field dst k v end)) as [IHu IHf].
  split; [rewrite IHu; by destruct (fields src !! k)|]. intros num. rewrite IHf. clear IHu IHf IH. cbn [fmap list_fmap fst].
  destruct (decide (num = k)) as [-> |Hne].
  - rewrite (bool_decide_eq_true_2 (k ∈ k :: table.*1)) by set_solver.
    destruct (fields src !! k) as [v|] eqn:Ek; [unfold set_field; cbn [fields]; rewrite lookup_insert_eq|];
      by destruct (bool_decide _), (fields dst !! k).
  - assert (bool_decide (num ∈ k :: table.*1) = bool_decide (num ∈ table.*1)) as -> by (apply bool_decide_ext; set_solver).
    destruct (fields src !! k); [unfold set_field; cbn [fields]|done]. by rewrite lookup_insert_ne.
Qed.

Lemma mergePointer_merged table dst src : message_ok table src -> mergePointer table dst src = merged dst src.
Proof.
  intros [Hf _]. unfold mergePointer, merged. destruct (fold_set_fields table src dst) as [-> Hl]. f_equal.
  apply map_eq. intros num. rewrite Hl, lookup_union. destruct (fields src !! num) as [v|] eqn:En.
  - rewrite bool_decide_eq_true_2; [done|]. destruct (Hf _ _ En) as [Hin%find_field_elem _].
    apply list_elem_of_fmap. by exists (num, kind_of v).
  - destruct (bool_decide _); by destruct (fields dst !! num).
Qed.

(** *** Tags *)

Lemma EncodeTag_spec num typ : 0 <= num -> 0 <= typ < 8 -> EncodeTag num typ = num * 8 + typ.
Proof.
  intros Hn Ht. unfold EncodeTag. change 7 with (Z.ones 3). rewrite Z.land_ones, Z.mod_small by lia.
  rewrite Z.shiftl_mul_pow2 by lia. by apply (lor_disjoint num typ 3).
Qed.

Lemma tag_number x typ : 0 <= typ < 8 -> Z.shiftr (x * 8 + typ) 3 = x.
Proof. intros. rewrite Z.shiftr_div_pow2 by lia. change (2 ^ 3) with 8. rewrite Z.div_add_l by lia. rewrite Z.div_small by lia. lia. Qed.

Lemma tag_type x typ : 0 <= typ < 8 -> Z.land (x * 8 + typ) 7 = typ.
Proof.
  intros. change 7 with (Z.ones 3). rewrite Z.land_ones by lia. change (2 ^ 3) with 8.
  rewrite Z.add_comm, Z.mod_add by lia. by apply Z.mod_small.
Qed.

Lemma tag_split tag : 0 <= Z.land tag 7 < 8 /\ tag = Z.shiftr tag 3 * 8 + Z.land tag 7.
Proof.
  change 7 with (Z.ones 3). rewrite Z.land_ones, Z.shiftr_div_pow2 by lia. change (2 ^ 3) with 8.
  pose proof (Z.mod_pos_bound tag 8). pose proof (Z.div_mod tag 8). lia.
Qed.

(** Reading a field whose tag was written by [AppendTag]. *)
Lemma unmarshal_tag table num typ b m :
  MinValidNumber <= num <= MaxValidNumber -> 0 <= typ < 8 -> typ <> EndGroupType ->
  unmarshal_field table (varint_groups 10 (EncodeTag num typ) ++ b) m =
    match consume_field table num typ b with
    | Consumed v n => Ok (drop n b, set_field m num v)
    | ErrDecode => Err errDecode
    | ErrUnknown =>
        match ConsumeFieldValue num typ b with
        | inl _ => Err errDecode
        | inr n => Ok (drop n b, mkMessage (fields m) (AppendTag (unknown m) num typ ++ take n b))
        end
    end.
Proof.
  unfold MinValidNumber, MaxValidNumber. intros Hn Ht He. unfold unmarshal_field.
  rewrite EncodeTag_spec by lia. rewrite ConsumeVarint_append by lia. rewrite drop_app_length' by done.
  rewrite tag_number, tag_type by done. unfold MinValidNumber, MaxValidNumber.
  rewrite (proj2 (Z.ltb_ge _ _)), (proj2 (Z.ltb_ge _ _)), (proj2 (Z.eqb_neq _ _)) by lia. done.
Qed.

(** What was kept of an unknown field is read as the same unknown field. *)
Lemma kept_unknown_ok table num typ b n :
  MinValidNumber <= num <= MaxValidNumber -> 0 <= typ < 8 -> typ <> EndGroupType ->
  consume_field table num typ b = ErrUnknown -> ConsumeFieldValue num typ b = inr n ->
  unknown_ok table (AppendTag [] num typ ++ take n b).
Proof.
  intros Hn Ht He Hc Hv m. destruct (ConsumeFieldValue_prefix _ _ _ _ Hv) as [Hl Hr]. unfold id in *.
  specialize (Hr []). rewrite app_nil_r in Hr. unfold AppendTag, AppendVarint. rewrite app_nil_l.
  rewrite (unmarshalPointer_step table _ m [] (mkMessage (fields m) (unknown m ++ varint_groups 10 (EncodeTag num typ) ++ take n b))); [done|].
  rewrite unmarshal_tag by done. rewrite (consume_field_unknown _ _ _ _ _ Hc), Hr.
  rewrite drop_ge, take_take, Nat.min_id by (rewrite length_take; lia). do 3 f_equal.
  unfold AppendTag, AppendVarint. by rewrite <- (assoc_L (++)).
Qed.

(** *** Reading gives messages of the table *)

Lemma length_string_of_bytes b : zlen (bytes_of_string (string_of_bytes b)) = zlen b.
Proof. unfold zlen. f_equal. induction b as [|x b IH]; simpl; [done|]. by rewrite IH. Qed.

Lemma to_i32_range v : - 2 ^ 31 <= to_i32 v < 2 ^ 31.
Proof. unfold to_i32. pose proof (Z.mod_pos_bound (v + 2 ^ 31) (2 ^ 32)). lia. Qed.

Lemma consume_field_ok table num typ b v n :
  Forall is_u8 b -> consume_field table num typ b = Consumed v n ->
  find_field table num = Some (kind_of v) /\ value_ok v.
Proof.
  unfold consume_field, consumeInt32Ptr, consumeStringPtr. intros Hb. destruct (find_field table num) as [[]|]; [| |done];
    (destruct (negb _); [done|]).
  - destruct (ConsumeVarint b) as [|[x k]]; [done|]. intros [= <- _]. split; [done|]. apply to_i32_range.
  - unfold ConsumeBytes. destruct (ConsumeVarint b) as [|[x k]] eqn:Ec; [done|].
    destruct (_ <? _) eqn:El; [done|]. zbool. intros [= <- _]. split; [done|]. cbn [value_ok].
    apply consume_groups_nonneg in Ec; [|done]. change (2 ^ (7 * Z.of_nat 9 + 1)) with (2 ^ 64) in Ec.
    rewrite length_string_of_bytes, zlen_take. lia.
Qed.

Lemma unmarshal_field_ok table b m b' m' :
  Forall is_u8 b -> unmarshal_field table b m = Ok (b', m') -> message_ok table m ->
  Forall is_u8 b' /\ message_ok table m'.
Proof.
  intros Hb Hf [Hm Hu]. pose proof Hf as Hstep. unfold unmarshal_field in Hf.
  destruct (ConsumeVarint b) as [|[tag t]] eqn:Et; [done|].
  destruct (_ || _) eqn:En; [done|]. apply orb_false_iff in En as [E1 E2]. zbool.
  destruct (_ =? EndGroupType) eqn:Ee; [done|]. zbool.
  assert (Hd : forall k, Forall is_u8 (drop k b)) by (intros k; by apply Forall_drop).
  destruct (consume_field _ _ _ _) as [| |v n] eqn:Ec; [|done|].
  - destruct (ConsumeFieldValue _ _ _) as [|n] eqn:Ev; [done|]. injection Hf as <- <-.
    split; [by rewrite drop_drop|]. split; [done|]. cbn.
    assert (Happ : forall u l k, AppendTag u l k = u ++ AppendTag [] l k) by done.
    rewrite Happ, <- (assoc_L (++)). apply unknown_ok_app; [done|]. apply kept_unknown_ok; try done. by destruct (tag_split tag).
  - injection Hf as <- <-. split; [by rewrite drop_drop|]. split; [|done]. cbn. intros num w. rewrite lookup_insert.
    case_decide as Hx; [|apply Hm]. intros [= <-]. subst num. by apply (consume_field_ok table _ _ _ _ _ (Hd t) Ec).
Qed.

Lemma unmarshalPointer_ok table b m m1 :
  unmarshalPointer table b m = Ok m1 -> Forall is_u8 b -> message_ok table m -> message_ok table m1.
Proof.
  revert b m m1. apply (unmarshalPointer_ind table
    (fun b m m1 => Forall is_u8 b -> message_ok table m -> message_ok table m1)); [done|]. intros b m b' m' m1 Hf IH Hb Hm.
  destruct (unmarshal_field_ok _ _ _ _ _ Hb Hf Hm). by apply IH.
Qed.

(** *** The round trip *)

Lemma append_field_nil b num v : append_field b num v = b ++ append_field [] num v.
Proof.
  destruct v; cbn; unfold appendInt32Ptr, appendStringPtr, AppendString, AppendVarint; by rewrite ?app_nil_l, !(assoc_L (++)).
Qed.

Lemma to_i32_u64 v : - 2 ^ 31 <= v < 2 ^ 31 -> to_i32 (to_u64 v) = v.
Proof.
  intros Hv. unfold to_i32, to_u64.
  replace ((v mod 2 ^ 64 + 2 ^ 31) mod 2 ^ 32) with ((v + 2 ^ 31) mod 2 ^ 32); [rewrite Z.mod_small; lia|].
  rewrite <- (Zplus_mod_idemp_l (v mod 2 ^ 64)), <- (Zplus_mod_idemp_l v). do 2 f_equal.
  symmetry. apply Z.mod_mod_divide. exists (2 ^ 32). lia.
Qed.

Lemma unmarshal_append_field table num v r m :
  MinValidNumber <= num <= MaxValidNumber -> find_field table num = Some (kind_of v) -> value_ok v ->
  unmarshal_field table (append_field [] num v ++ r) m = Ok (r, set_field m num v).
Proof.
  intros Hn Hf Hv. destruct v as [v|s]; cbn [kind_of value_ok append_field] in *.
  - unfold appendInt32Ptr, AppendVarint. rewrite app_nil_l, <- (assoc_L (++)), unmarshal_tag by done.
    unfold consume_field, consumeInt32Ptr. rewrite Hf. change (negb (VarintType =? VarintType)) with false. cbv iota.
    rewrite ConsumeVarint_append by (unfold to_u64; apply Z.mod_pos_bound; lia).
    by rewrite drop_app_length', to_i32_u64.
  - unfold appendStringPtr, AppendString, AppendVarint. rewrite app_nil_l, <- !(assoc_L (++)), unmarshal_tag by done.
    unfold consume_field, consumeStringPtr. rewrite Hf. change (negb (BytesType =? BytesType)) with false. cbv iota.
    unfold ConsumeBytes.
    rewrite ConsumeVarint_append by (split; [apply zlen_nonneg|done]). rewrite drop_app_length' by done.
    unfold zlen. rewrite length_app, (proj2 (Z.ltb_ge _ _)) by lia. rewrite Nat2Z.id.
    rewrite take_app_length', string_of_bytes_of_string by done. do 2 f_equal.
    rewrite <- drop_drop, drop_app_length', drop_app_length' by done. done.
Qed.

(** The fields of a list of the table, as the loop of the marshaller visits them. *)
Definition pick_fields (m : message) (table : coder_fields) (g : gmap Z field_value) : gmap Z field_value :=
  fold_left (fun g f => match fields m !! f.1 with None => g | Some v => <[f.1 := v]> g end) table g.

Lemma unmarshal_marshalled table l m r m0 :
  table_ok table -> message_ok table m -> l ⊆ table ->
  unmarshalPointer table
    (fold_left (fun b f => match fields m !! f.1 with None => b | Some v => append_field b f.1 v end) l [] ++ r) m0 =
  unmarshalPointer table r (mkMessage (pick_fields m l (fields m0)) (unknown m0)).
Proof.
  intros Ht [Hm _]. revert r. induction l as [|f l IH] using rev_ind; intros r Hl; [by destruct m0|].
  unfold pick_fields. rewrite !fold_left_app. cbn [fold_left].
  assert (Hsub : l ⊆ table) by set_solver. destruct (fields m !! f.1) as [v|] eqn:Ev; [|by apply IH].
  rewrite append_field_nil, <- (assoc_L (++)), IH by done. apply unmarshalPointer_step.
  destruct (Hm _ _ Ev) as [Hk Hv]. rewrite unmarshal_append_field; [done| |done|done].
  unfold table_ok in Ht. rewrite list.Forall_forall in Ht. apply Ht. set_solver.
Qed.

Lemma pick_fields_lookup m l g num :
  pick_fields m l g !! num = if decide (num ∈ l.*1) then fields m !! num ∪ g !! num else g !! num.
Proof.
  induction l as [|f l IH] using rev_ind; [by rewrite decide_False by set_solver|].
  unfold pick_fields in *. rewrite fold_left_app. cbn [fold_left]. rewrite fmap_app. cbn.
  destruct (decide (f.1 = num)) as [<-|Hne].
  - rewrite decide_True by set_solver. destruct (fields m !! f.1) as [v|] eqn:Ev.
    + rewrite lookup_insert_eq. by destruct (g !! f.1).
    + rewrite IH. case_decide; by destruct (g !! f.1).
  - replace (match fields m !! f.1 with None => _ | Some v => _ end !! num)
      with (fold_left (fun g f => match fields m !! f.1 with None => g | Some v => <[f.1 := v]> g end) l g !! num).
    2:{ destruct (fields m !! f.1); [|done]. by rewrite lookup_insert_ne. }
    rewrite IH. destruct (decide (num ∈ l.*1)); [rewrite decide_True by set_solver|rewrite decide_False by set_solver]; done.
Qed.

Lemma marshal_unmarshal table m :
  table_ok table -> message_ok table m ->
  unmarshalPointer table (marshalAppendPointer table [] m) empty_message = Ok m.
Proof.
  intros Ht Hm. unfold marshalAppendPointer. rewrite unmarshal_marshalled by done.
  rewrite (proj2 Hm). cbn. f_equal. destruct m as [fs u]. cbn in *. f_equal.
  apply map_eq. intros num. rewrite pick_fields_lookup, lookup_empty. cbn.
  case_decide as Hin; [by destruct (fs !! num)|]. destruct (fs !! num) as [v|] eqn:Ev; [|done].
  destruct (proj1 Hm num v Ev) as [Hf _]. apply find_field_elem in Hf. exfalso. apply Hin.
  apply list_elem_of_fmap. by exists (num, kind_of v).
Qed.
