(* ===== verification/Messages.v ===== *)
(** * The messages of the tunnel

    [src/pkg/tunnel/pb/{proxy,discovery}/*.pb.go]: the generated message types
    with their accessors and their tables of fields, and the marshalling
    methods, which call the runtime ([ProtoWire]).  A class states what a
    message type offers to the streams that carry it. *)

From Stdlib Require Import ZArith Lia Ascii String.
From stdpp Require Import base list gmap strings option.
From S2P Require Import Prelude GoStrings ProtoWire.

Local Open Scope Z_scope.

(** ** The type of a message

    [Proxy_Type] and [Discovery_Type] are [int32]s; a peer may send any. *)
Definition Msg_Type : Type := Z.
Definition CONNECT : Msg_Type := 0.
Definition SUCCESS : Msg_Type := 1.
Definition FAILED : Msg_Type := 2.

Definition Type_name : list (Z * string) := [(0, "CONNECT"); (1, "SUCCESS"); (2, "FAILED")].
Definition Type_value : list (string * Z) := [("CONNECT", 0); ("SUCCESS", 1); ("FAILED", 2)].

(** [proto.EnumName]: the name, or the number of a value without a name. *)
Definition Msg_Type_String (x : Msg_Type) : string :=
  match List.find (fun e => e.1 =? x) Type_name with Some (_, n) => n | None => Itoa x end.

(** [Enum]: a pointer to a copy. *)
Definition Enum (x : Msg_Type) : option Msg_Type := Some x.

(** [UnmarshalJSON] of a type, by [proto.UnmarshalJSONEnum]: a string is the
    name of a value, anything else its number; a value that cannot be read
    leaves the type as it was.  [json.Unmarshal] into a string and into an
    [int32], and the formats [%q] and [%#q], are parameters. *)
Section json.
Context (json_string : list Z -> result string) (json_int32 : list Z -> result Z).
Context (quote : string -> string) (quote_data : list Z -> string).

Definition UnmarshalJSONEnum (m : list (string * Z)) (data : list Z) (enumName : string) : go (result Z) :=
  match data with
  | [] => Panic "index out of range"
  | c :: _ =>
      if c =? 34 then
        match json_string data with
        | Err e => Val (Err e)
        | Ok repr =>
            match List.find (fun e => String.eqb e.1 repr) m with
            | None => Val (Err ("unrecognized enum " +:+ enumName +:+ " value " +:+ quote repr))
            | Some (_, val) => Val (Ok val)
            end
        end
      else
        match json_int32 data with
        | Err _ => Val (Err ("cannot unmarshal " +:+ quote_data data +:+ " into enum " +:+ enumName))
        | Ok val => Val (Ok val)
        end
  end.

Definition Msg_Type_UnmarshalJSON (enumName : string) (x : Msg_Type) (data : list Z) : go (Msg_Type * option string) :=
  let! r := UnmarshalJSONEnum Type_value data enumName in
  match r with
  | Err e => Val (x, Some e)
  | Ok value => Val (value, None)
  end.

(** The name of a value, as JSON, is read back as the value. *)
Lemma Msg_Type_UnmarshalJSON_name enumName x y data :
  y ∈ [CONNECT; SUCCESS; FAILED] -> json_string (34 :: data) = Ok (Msg_Type_String y) ->
  Msg_Type_UnmarshalJSON enumName x (34 :: data) = Val (y, None).
Proof.
  intros Hy Hj. unfold Msg_Type_UnmarshalJSON, UnmarshalJSONEnum. rewrite Z.eqb_refl, Hj.
  rewrite !elem_of_cons, elem_of_nil in Hy. by destruct Hy as [-> |[-> |[-> |[]]]].
Qed.
End json.

(** ** Messages: all fields are optional *)

Module Proxy.
Record t : Type := mk {
  Type_ : option Msg_Type;
  Protocol : option string;
  NodeName : option string;
  Ip : option string;
  Port : option Z;
  XXX_unrecognized : list Z
}.

Definition Reset (m : t) : t := mk None None None None None [].

Definition GetType (m : t) : Msg_Type := default CONNECT (Type_ m).
Definition GetProtocol (m : t) : string := default "" (Protocol m).
Definition GetNodeName (m : t) : string := default "" (NodeName m).
Definition GetIp (m : t) : string := default "" (Ip m).
Definition GetPort (m : t) : Z := default 0 (Port m).

Definition set_Type (ty : Msg_Type) (m : t) : t :=
  mk (Enum ty) (Protocol m) (NodeName m) (Ip m) (Port m) (XXX_unrecognized m).

(** The answer of a handler that could not dial: reset, with a type. *)
Definition failed : t := mk (Enum FAILED) None None None None [].

(** The tags of the fields. *)
Definition table : coder_fields := [(1, Int32Kind); (2, StringKind); (3, StringKind); (4, StringKind); (5, Int32Kind)].
End Proxy.

Module Discovery.
Record t : Type := mk {
  Type_ : option Msg_Type;
  Protocol : option string;
  NodeName : option string;
  XXX_unrecognized : list Z
}.

Definition Reset (m : t) : t := mk None None None [].

Definition GetType (m : t) : Msg_Type := default CONNECT (Type_ m).
Definition GetProtocol (m : t) : string := default "" (Protocol m).
Definition GetNodeName (m : t) : string := default "" (NodeName m).

Definition table : coder_fields := [(1, Int32Kind); (2, StringKind); (3, StringKind)].
End Discovery.

(** ** What the runtime knows of a message type

    The runtime reads and writes the fields of the struct through the table;
    [pm_message] and [pm_of] are the struct seen as such a message. *)
Class ProtoMessage (M : Type) : Type := {
  pm_table : coder_fields;
  pm_reset : M;
  pm_message : M -> message;
  pm_of : message -> M;
  pm_table_ok : table_ok pm_table;
  pm_of_message : forall m, pm_of (pm_message m) = m;
  pm_message_of : forall m, message_ok pm_table m -> pm_message (pm_of m) = m;
  pm_message_reset : pm_message pm_reset = empty_message
}.

Definition opt_int (num : Z) (v : option Z) (g : gmap Z field_value) : gmap Z field_value :=
  match v with Some v => <[num := Int32 v]> g | None => g end.
Definition opt_str (num : Z) (v : option string) (g : gmap Z field_value) : gmap Z field_value :=
  match v with Some v => <[num := Str v]> g | None => g end.
Definition int_of (num : Z) (g : gmap Z field_value) : option Z :=
  match g !! num with Some (Int32 v) => Some v | _ => None end.
Definition str_of (num : Z) (g : gmap Z field_value) : option string :=
  match g !! num with Some (Str s) => Some s | _ => None end.

Definition proxy_message (m : Proxy.t) : message :=
  mkMessage
    (opt_int 1 (Proxy.Type_ m) (opt_str 2 (Proxy.Protocol m) (opt_str 3 (Proxy.NodeName m)
      (opt_str 4 (Proxy.Ip m) (opt_int 5 (Proxy.Port m) ∅)))))
    (Proxy.XXX_unrecognized m).
Definition proxy_of (m : message) : Proxy.t :=
  Proxy.mk (int_of 1 (fields m)) (str_of 2 (fields m)) (str_of 3 (fields m)) (str_of 4 (fields m)) (int_of 5 (fields m))
    (unknown m).

Definition discovery_message (m : Discovery.t) : message :=
  mkMessage
    (opt_int 1 (Discovery.Type_ m) (opt_str 2 (Discovery.Protocol m) (opt_str 3 (Discovery.NodeName m) ∅)))
    (Discovery.XXX_unrecognized m).
Definition discovery_of (m : message) : Discovery.t :=
  Discovery.mk (int_of 1 (fields m)) (str_of 2 (fields m)) (str_of 3 (fields m)) (unknown m).

(** *** Fields of the struct and of the message *)

Lemma opt_int_lookup num v g n : opt_int num v g !! n = if decide (num = n) then (Int32 <$> v) ∪ g !! n else g !! n.
Proof. destruct v as [v|]; simpl; [rewrite lookup_insert|]; case_decide; subst; by try destruct (g !! n). Qed.

Lemma opt_str_lookup num v g n : opt_str num v g !! n = if decide (num = n) then (Str <$> v) ∪ g !! n else g !! n.
Proof. destruct v as [v|]; simpl; [rewrite lookup_insert|]; case_decide; subst; by try destruct (g !! n). Qed.

Lemma int_of_ok table m num :
  message_ok table m -> find_field table num = Some Int32Kind -> Int32 <$> int_of num (fields m) = fields m !! num.
Proof.
  intros [Hm _] Hf. unfold int_of. destruct (fields m !! num) as [[]|] eqn:E; [done| |done].
  destruct (Hm _ _ E) as [Hk _]. by rewrite Hf in Hk.
Qed.

Lemma str_of_ok table m num :
  message_ok table m -> find_field table num = Some StringKind -> Str <$> str_of num (fields m) = fields m !! num.
Proof.
  intros [Hm _] Hf. unfold str_of. destruct (fields m !! num) as [[]|] eqn:E; [|done|done].
  destruct (Hm _ _ E) as [Hk _]. by rewrite Hf in Hk.
Qed.

(** A field the table does not have. *)
Lemma no_field table m num : message_ok table m -> num ∉ table.*1 -> fields m !! num = None.
Proof.
  intros [Hm _] Hn. destruct (fields m !! num) as [v|] eqn:E; [|done]. destruct (Hm _ _ E) as [Hf _].
  apply find_field_elem in Hf. exfalso. apply Hn, list_elem_of_fmap. by exists (num, kind_of v).
Qed.

Ltac read_fields := repeat first [rewrite opt_int_lookup|rewrite opt_str_lookup|rewrite lookup_empty]; cbn.

#[export] Program Instance proxy_proto : ProtoMessage Proxy.t := {|
  pm_table := Proxy.table;
  pm_reset := Proxy.mk None None None None None [];
  pm_message := proxy_message;
  pm_of := proxy_of
|}.
Next Obligation. repeat constructor; unfold MinValidNumber, MaxValidNumber; cbn; lia. Qed.
Next Obligation.
  intros [ty p n i pt u]. unfold proxy_of, proxy_message, int_of, str_of. cbn. read_fields.
  destruct ty, p, n, i, pt; done.
Qed.
Next Obligation.
  intros m Hm. destruct m as [g u] eqn:E. unfold proxy_message, proxy_of. cbn. f_equal. apply map_eq. intros num.
  read_fields. change g with (fields (mkMessage g u)).
  rewrite !(int_of_ok _ _ _ Hm), !(str_of_ok _ _ _ Hm) by done. cbn.
  repeat case_decide; subst; try by destruct (g !! _).
  symmetry. apply (no_field _ _ _ Hm). cbn. set_solver.
Qed.
Next Obligation. done. Qed.

#[export] Program Instance discovery_proto : ProtoMessage Discovery.t := {|
  pm_table := Discovery.table;
  pm_reset := Discovery.mk None None None [];
  pm_message := discovery_message;
  pm_of := discovery_of
|}.
Next Obligation. repeat constructor; unfold MinValidNumber, MaxValidNumber; cbn; lia. Qed.
Next Obligation.
  intros [ty p n u]. unfold discovery_of, discovery_message, int_of, str_of. cbn. read_fields.
  destruct ty, p, n; done.
Qed.
Next Obligation.
  intros m Hm. destruct m as [g u] eqn:E. unfold discovery_message, discovery_of. cbn. f_equal. apply map_eq. intros num.
  read_fields. change g with (fields (mkMessage g u)).
  rewrite !(int_of_ok _ _ _ Hm), !(str_of_ok _ _ _ Hm) by done. cbn.
  repeat case_decide; subst; try by destruct (g !! _).
  symmetry. apply (no_field _ _ _ Hm). cbn. set_solver.
Qed.
Next Obligation. done. Qed.

(** ** Marshalling *)

Definition Len64 (v : Z) : Z := if v =? 0 then 0 else Z.log2 v + 1.
Definition SizeVarint (v : Z) : Z := (9 * Len64 v + 64) / 64.
Definition SizeTag (num : Z) : Z := SizeVarint (EncodeTag num 0).
Definition SizeBytes (n : Z) : Z := SizeVarint n + n.

Definition size_field (num : Z) (v : field_value) : Z :=
  match v with
  | Int32 v => SizeTag num + SizeVarint (to_u64 v)
  | Str s => SizeTag num + SizeBytes (zlen (bytes_of_string s))
  end.

Definition sizePointer (table : coder_fields) (m : message) : Z :=
  fold_left (fun size f => match fields m !! f.1 with None => size | Some v => size + size_field f.1 v end) table 0
    + zlen (unknown m).

Section marshalling.
Context {M : Type} `{ProtoMessage M}.

Definition XXX_Size (m : M) : Z := sizePointer pm_table (pm_message m).
Definition XXX_Marshal (m : M) (b : list Z) : list Z := marshalAppendPointer pm_table b (pm_message m).
Definition XXX_Unmarshal (m : M) (b : list Z) : result M :=
  match unmarshalPointer pm_table b (pm_message m) with Ok m => Ok (pm_of m) | Err e => Err e end.

Definition XXX_Merge (m src : M) : M := pm_of (mergePointer pm_table (pm_message m) (pm_message src)).
(** [discardUnknown]; no field is a message. *)
Definition XXX_DiscardUnknown (m : M) : M := pm_of (mkMessage (fields (pm_message m)) []).

(** [proto.Marshal] and [proto.Unmarshal] of gogo/protobuf, which call the
    methods of the message. *)
Definition Marshal (m : M) : list Z := XXX_Marshal m [].
Definition Unmarshal (buf : list Z) : result M := XXX_Unmarshal pm_reset buf.

(** Messages whose fields have values of their types, and whose unrecognized
    bytes are unknown fields. *)
Definition wf (m : M) : Prop := message_ok pm_table (pm_message m).

Lemma Unmarshal_Marshal m : wf m -> Unmarshal (Marshal m) = Ok m.
Proof.
  intros Hm. unfold Unmarshal, Marshal, XXX_Unmarshal, XXX_Marshal.
  rewrite pm_message_reset, marshal_unmarshal by (done || apply pm_table_ok). by rewrite pm_of_message.
Qed.

(** Reading bytes into a message merges the message they hold into it. *)
Lemma XXX_Unmarshal_merges m b src :
  Forall is_u8 b -> Unmarshal b = Ok src -> XXX_Unmarshal m b = Ok (XXX_Merge m src).
Proof.
  intros Hb. unfold Unmarshal, XXX_Unmarshal, XXX_Merge. rewrite pm_message_reset.
  destruct (unmarshalPointer pm_table b empty_message) as [x|] eqn:Eu; [|done]. intros [= <-].
  assert (Hx : message_ok pm_table x) 
    by (apply unmarshalPointer_ok in Eu; [done|done|apply empty_message_ok]).
  rewrite pm_message_of by done. rewrite mergePointer_merged by done.
  apply unmarshalPointer_merged with (m0 := pm_message m) in Eu.
  assert (merged (pm_message m) empty_message = pm_message m) as Hm.
  { unfold merged. cbn. rewrite (left_id_L ∅ (∪)), app_nil_r. by destruct (pm_message m). }
  by rewrite Hm in Eu; rewrite Eu.
Qed.

(** A message without unknown bytes is one of the same fields. *)
Lemma XXX_DiscardUnknown_wf m : wf m -> wf (XXX_DiscardUnknown m) /\ unknown (pm_message (XXX_DiscardUnknown m)) = [].
Proof.
  intros [Hf _]. unfold wf, XXX_DiscardUnknown.
  assert (Hm : message_ok pm_table (mkMessage (fields (pm_message m)) [])).
  { split; [done|]. intros x. rewrite app_nil_r. by destruct x. }
  by rewrite !pm_message_of.
Qed.

Lemma Unmarshal_wf b m : Forall is_u8 b -> Unmarshal b = Ok m -> wf m.
Proof.
  intros Hb. unfold Unmarshal, XXX_Unmarshal, wf. rewrite pm_message_reset.
  destruct (unmarshalPointer pm_table b empty_message) as [x|] eqn:Eu; [|done]. intros [= <-].
  apply unmarshalPointer_ok in Eu; [|done|apply empty_message_ok]. by rewrite pm_message_of.
Qed.
End marshalling.

(** *** Sizes *)

Lemma varint_groups_count k v :
  0 < v < 2 ^ (7 * Z.of_nat (S k)) -> Z.of_nat (length (varint_groups (S k) v)) = Z.log2 v / 7 + 1.
Proof.
  revert v. induction k as [|k IH]; intros v Hv; rewrite varint_groups_S.
  - change (2 ^ (7 * Z.of_nat 1)) with 128 in Hv. rewrite (proj2 (Z.ltb_lt _ _)) by lia. cbn.
    rewrite Z.div_small; [lia|]. split; [apply Z.log2_nonneg|]. apply Z.log2_lt_pow2; lia.
  - destruct (v <? 128) eqn:E; zbool.
    + cbn. rewrite Z.div_small; [lia|]. split; [apply Z.log2_nonneg|]. apply Z.log2_lt_pow2; lia.
    + assert (H7 : 7 <= Z.log2 v) by (apply Z.log2_le_pow2; lia). cbn [length]. rewrite Nat2Z.inj_succ, IH.
      * rewrite Z.log2_shiftr, Z.max_r by lia. replace (Z.log2 v) with (Z.log2 v - 7 + 1 * 7) at 2 by lia.
        rewrite Z.div_add by lia. lia.
      * rewrite Z.shiftr_div_pow2 by lia. change (2 ^ 7) with 128. split; [apply Z.div_str_pos; lia|].
        apply Z.div_lt_upper_bound; [lia|].
        replace (128 * 2 ^ (7 * Z.of_nat (S k))) with (2 ^ (7 * Z.of_nat (S (S k)))); [lia|].
        change 128 with (2 ^ 7). rewrite <- Z.pow_add_r by lia. f_equal. lia.
Qed.

(** The approximation of one seventh by 9/64 is exact for [uint64]s. *)
Lemma SizeVarint_length v : 0 <= v < 2 ^ 64 -> SizeVarint v = zlen (varint_groups 10 v).
Proof.
  intros Hv. unfold SizeVarint, Len64, zlen. destruct (v =? 0) eqn:E; zbool; [by subst v|].
  rewrite varint_groups_count by lia. assert (Hl : 0 <= Z.log2 v < 64) by (split; [apply Z.log2_nonneg|apply Z.log2_lt_pow2; lia]).
  generalize dependent (Z.log2 v). intros l Hl. clear v Hv E.
  pose proof (Z.div_mod l 7). pose proof (Z.mod_pos_bound l 7). symmetry. apply Z.div_unique with (9 * (l + 1) - 64 * (l / 7)); lia.
Qed.

Lemma log2_tag num typ : 1 <= num -> 0 <= typ < 8 -> Z.log2 (num * 8 + typ) = Z.log2 num + 3.
Proof.
  intros Hn Ht. pose proof (Z.log2_shiftr (num * 8 + typ) 3) as Hl. rewrite tag_number in Hl by done.
  assert (3 <= Z.log2 (num * 8 + typ)) by (apply Z.log2_le_pow2; lia). lia.
Qed.

(** The wire type has no effect on the size of a tag. *)
Lemma SizeTag_length num typ :
  MinValidNumber <= num <= MaxValidNumber -> 0 <= typ < 8 -> SizeTag num = zlen (varint_groups 10 (EncodeTag num typ)).
Proof.
  unfold MinValidNumber, MaxValidNumber. intros Hn Ht. unfold SizeTag. rewrite !EncodeTag_spec by lia.
  rewrite <- SizeVarint_length by lia. unfold SizeVarint, Len64.
  by rewrite !(proj2 (Z.eqb_neq _ _)), !log2_tag by lia.
Qed.

Lemma size_field_length num v :
  MinValidNumber <= num <= MaxValidNumber -> value_ok v -> size_field num v = zlen (append_field [] num v).
Proof.
  intros Hn Hv. destruct v as [v|s]; unfold size_field, SizeBytes, append_field, appendInt32Ptr, appendStringPtr, AppendString, AppendVarint.
  - rewrite app_nil_l, zlen_app, (SizeTag_length _ VarintType), SizeVarint_length; [done| |done|done].
    unfold to_u64. apply Z.mod_pos_bound. lia.
  - rewrite app_nil_l, !zlen_app, (SizeTag_length _ BytesType), SizeVarint_length; [lia| |done|done].
    split; [apply zlen_nonneg|done].
Qed.

(** The size computed is that of the bytes marshalled. *)
Lemma sizePointer_length table m :
  table_ok table -> message_ok table m -> sizePointer table m = zlen (marshalAppendPointer table [] m).
Proof.
  intros Ht Hm. unfold sizePointer, marshalAppendPointer. rewrite zlen_app. f_equal.
  assert (Hsub : table ⊆ table) by done. revert Hsub. generalize table at 1 3 4 as l.
  induction l as [|f l IH] using rev_ind; intros Hl; [done|]. rewrite !fold_left_app. cbn [fold_left].
  rewrite IH by set_solver. destruct (fields m !! f.1) as [v|] eqn:Ev; [|done].
  rewrite append_field_nil, zlen_app. f_equal. destruct (proj1 Hm _ _ Ev) as [_ Hv].
  unfold table_ok in Ht. rewrite list.Forall_forall in Ht. apply size_field_length; [|done]. apply Ht. set_solver.
Qed.

(** ** Messages the tunnel writes *)

Definition int_ok (v : option Z) : Prop := forall x, v = Some x -> - 2 ^ 31 <= x < 2 ^ 31.
Definition str_ok (v : option string) : Prop := forall s, v = Some s -> Z.of_nat (String.length s) < 2 ^ 64.

Lemma value_ok_str s : value_ok (Str s) <-> Z.of_nat (String.length s) < 2 ^ 64.
Proof. cbn [value_ok]. unfold zlen. by rewrite length_bytes_of_string. Qed.

Lemma opt_int_ok table num v g :
  find_field table num = Some Int32Kind -> int_ok v ->
  (forall n w, g !! n = Some w -> find_field table n = Some (kind_of w) /\ value_ok w) ->
  forall n w, opt_int num v g !! n = Some w -> find_field table n = Some (kind_of w) /\ value_ok w.
Proof.
  intros Hf Hv Hg n w. destruct v as [x|]; [|apply Hg]. simpl. rewrite lookup_insert. case_decide as Hd; [|apply Hg].
  intros [= <-]. subst n. split; [done|]. by apply Hv.
Qed.

Lemma opt_str_ok table num v g :
  find_field table num = Some StringKind -> str_ok v ->
  (forall n w, g !! n = Some w -> find_field table n = Some (kind_of w) /\ value_ok w) ->
  forall n w, opt_str num v g !! n = Some w -> find_field table n = Some (kind_of w) /\ value_ok w.
Proof.
  intros Hf Hv Hg n w. destruct v as [x|]; [|apply Hg]. simpl. rewrite lookup_insert. case_decide as Hd; [|apply Hg].
  intros [= <-]. subst n. split; [done|]. by apply value_ok_str, Hv.
Qed.

Lemma proxy_wf m :
  int_ok (Proxy.Type_ m) -> int_ok (Proxy.Port m) ->
  str_ok (Proxy.Protocol m) -> str_ok (Proxy.NodeName m) -> str_ok (Proxy.Ip m) ->
  Proxy.XXX_unrecognized m = [] -> wf m.
Proof.
  intros Ht Hp Hpr Hn Hi Hu. split.
  - cbn [pm_message proxy_proto discovery_proto proxy_message discovery_message fields pm_table]. apply opt_int_ok; [done|done|]. repeat (apply opt_str_ok; [done|done|]). apply opt_int_ok; [done|done|].
    intros n w. by rewrite lookup_empty.
  - cbn [pm_message proxy_proto discovery_proto proxy_message discovery_message unknown pm_table]. rewrite Hu. apply empty_message_ok.
Qed.

Lemma discovery_wf m :
  int_ok (Discovery.Type_ m) -> str_ok (Discovery.Protocol m) -> str_ok (Discovery.NodeName m) ->
  Discovery.XXX_unrecognized m = [] -> wf m.
Proof.
  intros Ht Hpr Hn Hu. split.
  - cbn [pm_message proxy_proto discovery_proto proxy_message discovery_message fields pm_table]. apply opt_int_ok; [done|done|]. repeat (apply opt_str_ok; [done|done|]). intros n w. by rewrite lookup_empty.
  - cbn [pm_message proxy_proto discovery_proto proxy_message discovery_message unknown pm_table]. rewrite Hu. apply empty_message_ok.
Qed.

Lemma Unmarshal_error {M} `{ProtoMessage M} b e : Unmarshal (M:=M) b = Err e -> e = errDecode.
Proof.
  unfold Unmarshal, XXX_Unmarshal. destruct (unmarshalPointer _ _ _) as [x|e'] eqn:Eu; [done|]. intros [= <-].
  generalize dependent (pm_message (M:=M) pm_reset). remember (length b) as l eqn:El. revert b El.
  induction (lt_wf l) as [l _ IH]; intros b El m Hu. destruct b as [|y b]; [done|].
  destruct (unmarshal_field pm_table (y :: b) m) as [[b' m']|e] eqn:Ef.
  - destruct (unmarshal_field_step _ _ _ _ _ Ef) as (n & Hn & -> & _).
    rewrite (unmarshalPointer_step _ _ _ _ _ Ef) in Hu. eapply IH; [|reflexivity|exact Hu]. rewrite length_drop. lia.
  - unfold unmarshalPointer in Hu. cbn [unmarshal_fields length] in Hu. rewrite Ef in Hu. injection Hu as <-.
    clear - Ef. unfold unmarshal_field in Ef. repeat case_match; congruence.
Qed.

(** C11. What was marshalled is what is unmarshalled, for every message type.
    A message with values of its fields' types is read back as it was; its
    size is computed right; every message a peer can send is of that kind, so
    passing it on does not change it, unknown fields included, and reading it
    into a message merges it into that; and bytes that are no message are
    refused with the one error for that. *)
Theorem message_round_trip {M} `{ProtoMessage M} (m : M) b :
  (wf m -> Unmarshal (Marshal m) = Ok m /\ XXX_Size m = zlen (Marshal m)) /\
  (Forall is_u8 b ->
   match Unmarshal (M:=M) b with
   | Ok m' => wf m' /\ Unmarshal (Marshal m') = Ok m' /\ XXX_Unmarshal m b = Ok (XXX_Merge m m')
   | Err e => e = errDecode
   end).
Proof.
  split.
  - intros Hm. split; [by apply Unmarshal_Marshal|]. apply sizePointer_length; [apply pm_table_ok|done].
  - intros Hb. destruct (Unmarshal b) as [m'|e] eqn:Eu.
    + assert (Hw : wf m') by (by eapply Unmarshal_wf). split; [done|].
      split; [by apply Unmarshal_Marshal|by apply XXX_Unmarshal_merges].
    + by eapply Unmarshal_error.
Qed.

(** A message with every field, one of them negative, and its bytes. *)
Definition demo_msg : Proxy.t :=
  Proxy.mk (Enum CONNECT) (Some "tcp") (Some "edge-1") (Some "10.0.0.1") (Some (-1)) [].

Example demo_msg_bytes :
  Marshal demo_msg = [8; 0; 18; 3; 116; 99; 112; 26; 6; 101; 100; 103; 101; 45; 49; 34; 8; 49; 48; 46; 48; 46; 48; 46; 49;
                      40; 255; 255; 255; 255; 255; 255; 255; 255; 255; 1].
Proof. vm_compute. reflexivity. Qed.

(** A reply with a type that has no name, fields out of order and twice, and
    two unknown fields, one of them a group. *)
Definition demo_reply : list Z := [18; 1; 120; 8; 7; 18; 2; 117; 100; 59; 8; 1; 60; 80; 1].

Example demo_reply_message :
  Unmarshal demo_reply = Ok (Proxy.mk (Some 7) (Some "ud") None None None [59; 8; 1; 60; 80; 1]).
Proof. vm_compute. reflexivity. Qed.

Lemma demo_msg_wf : wf demo_msg.
Proof. apply proxy_wf; try (intros x [= <-]); done. Qed.

Lemma message_round_trip_witness :
  Unmarshal (Marshal demo_msg) = Ok demo_msg /\ XXX_Size demo_msg = zlen (Marshal demo_msg).
Proof.
  apply (message_round_trip demo_msg demo_reply). exact demo_msg_wf.
Defined.
