(* ===== verification/Msgio.v ===== *)
(** * Messages on a stream

    [github.com/libp2p/go-msgio/protoio] ([uvarint_reader.go],
    [uvarint_writer.go]) with [github.com/multiformats/go-varint], which the
    tunnel reads and writes its messages with: a message is preceded by its
    length.  The reader reads through a [bufio.Reader] of the standard
    library, which asks the stream for as much as it can buffer. *)

From Stdlib Require Import ZArith Lia Ascii String.
From stdpp Require Import base list gmap strings option.
From S2P Require Import Prelude GoStrings ProtoWire Messages.

Local Open Scope Z_scope.

(** ** Streams

    What the calls of [Read] find, one after another, and how the stream ends:
    with [io.EOF], or with an error. *)
Record stream : Type := mkStream {
  segments : list (list Z);
  stream_end : string
}.

Definition EOF : string := "EOF".
Definition ErrUnexpectedEOF : string := "unexpected EOF".
Definition ErrShortBuffer : string := "short buffer".
Definition ErrNoProgress : string := "multiple Read calls return no data or error".

(** [Read] into a slice of length [k]. *)
Definition stream_Read (k : nat) (s : stream) : stream * result (list Z) :=
  match segments s with
  | [] => (s, Err (stream_end s))
  | seg :: rest =>
      if Nat.leb (length seg) k then (mkStream rest (stream_end s), Ok seg)
      else (mkStream (drop k seg :: rest) (stream_end s), Ok (take k seg))
  end.

(** ** bufio.Reader *)

Definition defaultBufSize : nat := 4096.
Definition maxConsecutiveEmptyReads : nat := 100.

Record bufio : Type := mkBufio {
  buffered : list Z;
  rd : stream
}.

Definition NewReader (s : stream) : bufio := mkBufio [] s.

(** Filling an empty buffer. *)
Fixpoint fill (tries : nat) (s : stream) : stream * result (list Z) :=
  match tries with
  | O => (s, Err ErrNoProgress)
  | S tries' =>
      match stream_Read defaultBufSize s with
      | (s, Err e) => (s, Err e)
      | (s, Ok []) => fill tries' s
      | (s, Ok bs) => (s, Ok bs)
      end
  end.

Definition ReadByte (r : bufio) : bufio * result Z :=
  match buffered r with
  | x :: b => (mkBufio b (rd r), Ok x)
  | [] =>
      match fill maxConsecutiveEmptyReads (rd r) with
      | (s, Ok (x :: b)) => (mkBufio b s, Ok x)
      | (s, Ok []) => (mkBufio [] s, Err ErrNoProgress)
      | (s, Err e) => (mkBufio [] s, Err e)
      end
  end.

(** [Read] into a slice of length [k], not zero: at most one [Read] of the
    stream, past the buffer if the slice is at least as large. *)
Definition bufio_Read (k : nat) (r : bufio) : bufio * result (list Z) :=
  match buffered r with
  | [] =>
      if Nat.leb defaultBufSize k then
        let '(s, bs) := stream_Read k (rd r) in (mkBufio [] s, bs)
      else
        match stream_Read defaultBufSize (rd r) with
        | (s, Err e) => (mkBufio [] s, Err e)
        | (s, Ok bs) => (mkBufio (drop k bs) s, Ok (take k bs))
        end
  | b => (mkBufio (drop k b) (rd r), Ok (take k b))
  end.

(** [io.ReadFull]: reading until [need] bytes are there. *)
Fixpoint ReadFull (fuel need : nat) (buf : list Z) (r : bufio) : bufio * result (list Z) :=
  match need, fuel with
  | O, _ => (r, Ok buf)
  | _, O => (r, Err "out of fuel")
  | _, S fuel' =>
      match bufio_Read need r with
      | (r, Ok bs) => ReadFull fuel' (need - length bs) (buf ++ bs) r
      | (r, Err e) =>
          (r, Err (if String.eqb e EOF && negb (Nat.eqb (length buf) 0) then ErrUnexpectedEOF else e))
      end
  end.

(** ** go-varint *)

Definition MaxLenUvarint63 : nat := 9.
Definition ErrOverflow : string := "varints larger than uint63 not supported".
Definition ErrNotMinimal : string := "varint not minimally encoded".

(** The loop, with [k] more bytes to read at most. *)
Fixpoint read_uvarint (k : nat) (s x : Z) (r : bufio) : bufio * result Z :=
  match ReadByte r with
  | (r, Err e) => (r, Err (if String.eqb e EOF && negb (s =? 0) then ErrUnexpectedEOF else e))
  | (r, Ok b) =>
      if ((s =? 56) && (128 <=? b)) || (7 * Z.of_nat MaxLenUvarint63 <=? s) then (r, Err ErrOverflow)
      else if b <? 128 then
        if (b =? 0) && (0 <? s) then (r, Err ErrNotMinimal) else (r, Ok (Z.lor x (Z.shiftl b s)))
      else
        match k with
        | O => (r, Err ErrOverflow)
        | S k' => read_uvarint k' (s + 7) (Z.lor x (Z.shiftl (Z.land b 127) s)) r
        end
  end.

Definition ReadUvarint (r : bufio) : bufio * result Z := read_uvarint MaxLenUvarint63 0 0 r.
Definition PutUvarint (x : Z) : list Z := varint_groups 10 x.

(** ** protoio *)

Record uvarintReader : Type := mkReader {
  ur_r : bufio;
  maxSize : Z
}.

Definition NewDelimitedReader (s : stream) (maxSize : Z) : uvarintReader := mkReader (NewReader s) maxSize.

Section delimited.
Context {M : Type} `{ProtoMessage M}.

(** The fuel allows one empty read for every segment of the stream. *)
Definition ReadMsg (ur : uvarintReader) : uvarintReader * result M :=
  let '(r, length64) := ReadUvarint (ur_r ur) in
  match length64 with
  | Err e => (mkReader r (maxSize ur), Err e)
  | Ok len =>
      if (len <? 0) || (maxSize ur <? len) then (mkReader r (maxSize ur), Err ErrShortBuffer) else
      let '(r, buf) := ReadFull (Z.to_nat len + length (segments (rd r)) + 1) (Z.to_nat len) [] r in
      (mkReader r (maxSize ur), match buf with Err e => Err e | Ok buf => Unmarshal buf end)
  end.

(** The two writes of a message: its length and its bytes. *)
Definition WriteMsg (m : M) : list (list Z) :=
  let data := Marshal m in [PutUvarint (zlen data); data].

Definition frame (m : M) : list Z := concat (WriteMsg m).
End delimited.

(** ** What the reader has before it *)

Definition content (r : bufio) : list Z := buffered r ++ concat (segments (rd r)).

(** Reads find something while there is something. *)
Definition steady (s : stream) : Prop := Forall (fun seg => seg <> []) (segments s).

(** The stream goes on from [s] to [s']. *)
Definition goes_on (s s' : stream) : Prop := stream_end s' = stream_end s /\ (steady s -> steady s').

Lemma goes_on_refl s : goes_on s s.
Proof. done. Qed.

Lemma goes_on_trans s1 s2 s3 : goes_on s1 s2 -> goes_on s2 s3 -> goes_on s1 s3.
Proof. intros [H1 H2] [H3 H4]. split; [congruence|auto]. Qed.

Lemma stream_Read_goes_on k s s' r : stream_Read k s = (s', r) -> goes_on s s'.
Proof.
  unfold stream_Read, goes_on, steady. destruct s as [[|seg rest] e]; cbn; [by intros [= <- _]|].
  destruct (Nat.leb_spec (length seg) k) as [Hl|Hl]; intros [= <- _]; cbn; (split; [done|]); intros [Hs Hr]%Forall_cons_1.
  - done.
  - apply Forall_cons_2; [|done]. intros Hd. apply (f_equal length) in Hd. rewrite length_drop in Hd. cbn in Hd. lia.
Qed.

Lemma stream_Read_some k s c :
  (0 < k)%nat -> steady s -> concat (segments s) = c -> c <> [] ->
  exists bs s', stream_Read k s = (s', Ok bs) /\ bs <> [] /\ (length bs <= k)%nat /\ c = bs ++ concat (segments s').
Proof.
  intros Hk Hs <- Hne. destruct s as [[|seg rest] e]; [done|]. unfold stream_Read, steady in *. cbn in *.
  apply Forall_cons_1 in Hs as [Hseg _]. destruct (Nat.leb_spec (length seg) k) as [Hl|Hl].
  - exists seg, (mkStream rest e). done.
  - exists (take k seg), (mkStream (drop k seg :: rest) e). cbn. split; [done|].
    rewrite length_take, (assoc_L (++)), take_drop. split; [|split; [lia|done]].
    intros Ht. apply (f_equal length) in Ht. rewrite length_take in Ht. cbn in Ht. lia.
Qed.

Lemma steady_nil s : steady s -> concat (segments s) = [] -> segments s = [].
Proof. unfold steady. destruct (segments s) as [|seg l]; [done|]. intros [Hs _]%Forall_cons_1. cbn. by destruct seg. Qed.

Lemma ReadByte_some r x c :
  steady (rd r) -> content r = x :: c ->
  exists r', ReadByte r = (r', Ok x) /\ content r' = c /\ goes_on (rd r) (rd r').
Proof.
  unfold content, ReadByte. destruct r as [[|y b] s]; cbn [buffered rd].
  - intros Hs Hc. destruct (stream_Read_some defaultBufSize s (x :: c)) as (bs & s' & Hr & Hne & _ & Hbs); [unfold defaultBufSize; lia|done..|].
    unfold maxConsecutiveEmptyReads. cbn [fill]. rewrite Hr. destruct bs as [|z bs]; [done|]. injection Hbs as -> ->.
    exists (mkBufio bs s'). split; [done|]. split; [done|]. by eapply stream_Read_goes_on.
  - intros _ [= -> <-]. by exists (mkBufio b s).
Qed.

Lemma ReadByte_none r :
  steady (rd r) -> content r = [] -> exists r', ReadByte r = (r', Err (stream_end (rd r))) /\ content r' = [].
Proof.
  unfold content, ReadByte. destruct r as [[|y b] s]; cbn [buffered rd]; [|done]. intros Hs Hc.
  unfold maxConsecutiveEmptyReads. cbn [fill]. unfold stream_Read. rewrite (steady_nil _ Hs Hc).
  exists (mkBufio [] s). cbn. by rewrite (steady_nil _ Hs Hc).
Qed.

Lemma bufio_Read_some k r :
  (0 < k)%nat -> steady (rd r) -> content r <> [] ->
  exists bs r', bufio_Read k r = (r', Ok bs) /\ bs <> [] /\ (length bs <= k)%nat /\ content r = bs ++ content r' /\
    goes_on (rd r) (rd r').
Proof.
  assert (Htake : forall l : list Z, l <> [] -> (0 < k)%nat -> take k l <> []).
  { intros [|y l] ? ?; [done|]. by destruct k; [lia|]. }
  unfold content, bufio_Read. destruct r as [[|y b] s]; cbn [buffered rd]; intros Hk Hs Hc.
  - rewrite app_nil_l in Hc |- *. destruct (Nat.leb_spec defaultBufSize k) as [Hl|Hl].
    + destruct (stream_Read_some k s _ Hk Hs eq_refl Hc) as (bs & s' & Hr & Hne & Hlen & Hbs). rewrite Hr.
      exists bs, (mkBufio [] s'). split; [done|]. split; [done|]. split; [done|]. split; [done|]. by eapply stream_Read_goes_on.
    + destruct (stream_Read_some defaultBufSize s _ ltac:(lia) Hs eq_refl Hc) as (bs & s' & Hr & Hne & _ & Hbs). rewrite Hr.
      exists (take k bs), (mkBufio (drop k bs) s'). split; [done|]. split; [auto|]. rewrite length_take.
      split; [lia|]. split; [|by eapply stream_Read_goes_on]. cbn. by rewrite (assoc_L (++)), take_drop.
  - exists (take k (y :: b)), (mkBufio (drop k (y :: b)) s). split; [done|]. split; [auto|]. rewrite length_take.
    split; [lia|]. split; [|done]. cbn [buffered rd]. by rewrite (assoc_L (++)), take_drop.
Qed.

Lemma bufio_Read_none k r :
  steady (rd r) -> content r = [] -> exists r', bufio_Read k r = (r', Err (stream_end (rd r))) /\ content r' = [].
Proof.
  unfold content, bufio_Read, stream_Read. destruct r as [[|y b] s]; cbn [buffered rd]; [|done]. intros Hs Hc.
  rewrite (steady_nil _ Hs Hc). exists (mkBufio [] s). split; [by destruct (Nat.leb defaultBufSize k)|exact Hc].
Qed.

Lemma app_eq_prefix {A} (a c b d : list A) :
  a ++ c = b ++ d -> (length b <= length a)%nat -> exists a', a = b ++ a' /\ d = a' ++ c.
Proof.
  intros Heq Hl. destruct (app_eq_inv _ _ _ _ Heq) as [(k & -> & ->)|(k & -> & ->)]; [by exists k|].
  rewrite length_app in Hl. assert (k = []) as -> by (destruct k; [done|cbn in Hl; lia]). exists []. by rewrite !app_nil_r.
Qed.

Lemma ReadFull_some fuel a c buf r :
  (length a <= fuel)%nat -> steady (rd r) -> content r = a ++ c ->
  exists r', ReadFull fuel (length a) buf r = (r', Ok (buf ++ a)) /\ content r' = c /\ goes_on (rd r) (rd r').
Proof.
  revert a buf r. induction fuel as [|fuel IH]; intros [|x a] buf r Hf Hs Hc; try (cbn in Hf; lia);
    try (exists r; cbn; by rewrite app_nil_r).
  destruct (bufio_Read_some (length (x :: a)) r) as (bs & r1 & Hr & Hne & Hl & Hbs & Hg); [cbn; lia|done|by rewrite Hc|].
  cbn [ReadFull length] in *. rewrite Hr. rewrite Hc in Hbs.
  destruct (app_eq_prefix _ _ _ _ Hbs Hl) as (a' & Ha & Hc1). apply (f_equal length) in Ha as Hla.
  rewrite length_app in Hla. cbn in Hla. assert (length bs <> 0)%nat by (by destruct bs).
  replace (S (length a) - length bs)%nat with (length a') by lia.
  destruct (IH a' (buf ++ bs) r1) as (r' & Hr' & Hc' & Hg'); [lia|by apply Hg|done|].
  exists r'. rewrite Hr', <- (assoc_L (++)), Ha. split; [done|]. split; [done|]. by eapply goes_on_trans.
Qed.

Definition cut_off (e : string) (some : bool) : string := if String.eqb e EOF && some then ErrUnexpectedEOF else e.

Lemma ReadFull_short fuel need buf r :
  (length (content r) < need)%nat -> (length (content r) < fuel)%nat -> steady (rd r) ->
  exists r', ReadFull fuel need buf r =
    (r', Err (cut_off (stream_end (rd r)) (negb (Nat.eqb (length (buf ++ content r)) 0)))) /\ content r' = [].
Proof.
  revert need buf r. induction fuel as [|fuel IH]; intros [|need] buf r Hn Hf Hs; try lia. cbn [ReadFull].
  destruct (content r) as [|x c] eqn:Ec.
  - destruct (bufio_Read_none (S need) r Hs Ec) as (r' & -> & Hc'). exists r'. by rewrite app_nil_r.
  - destruct (bufio_Read_some (S need) r) as (bs & r1 & Hr & Hne & Hl & Hbs & Hg); [lia|done|by rewrite Ec|].
    rewrite Hr. rewrite Ec in Hbs. apply (f_equal length) in Hbs as Hlen. rewrite length_app in Hlen.
    assert (length bs <> 0)%nat by (by destruct bs).
    destruct (IH (S need - length bs)%nat (buf ++ bs) r1) as (r' & Hr' & Hc'); [lia|lia|by apply Hg|].
    exists r'. rewrite Hr', (proj1 Hg), Hbs, (assoc_L (++)). done.
Qed.

(** ** Lengths *)

Lemma varint_groups_more n j v :
  0 <= v < 2 ^ (7 * Z.of_nat (S n)) -> varint_groups (S n + j) v = varint_groups (S n) v.
Proof.
  revert v. induction n as [|n IH]; intros v Hv; cbn [Nat.add]; rewrite !varint_groups_S.
  - change (2 ^ (7 * Z.of_nat 1)) with 128 in Hv. by rewrite (proj2 (Z.ltb_lt _ _)) by lia.
  - destruct (v <? 128) eqn:E; [done|]. f_equal. apply (IH (Z.shiftr v 7)). rewrite Z.shiftr_div_pow2 by lia.
    change (2 ^ 7) with 128. split; [apply Z.div_pos; lia|]. apply Z.div_lt_upper_bound; [lia|].
    replace (128 * 2 ^ (7 * Z.of_nat (S n))) with (2 ^ (7 * Z.of_nat (S (S n)))); [lia|].
    change 128 with (2 ^ 7). rewrite <- Z.pow_add_r by lia. f_equal. lia.
Qed.

Lemma read_uvarint_some n k s x v c r :
  (n <= k)%nat -> s = 7 * Z.of_nat (8 - n) -> (n <= 8)%nat -> 0 <= x < 2 ^ s ->
  0 <= v < 2 ^ (7 * Z.of_nat (S n)) -> (s = 0 \/ 0 < v) ->
  steady (rd r) -> content r = varint_groups (S n) v ++ c ->
  exists r', read_uvarint k s x r = (r', Ok (x + v * 2 ^ s)) /\ content r' = c /\ goes_on (rd r) (rd r').
Proof.
  revert k s x v r. induction n as [|n IH]; intros k s x v r Hk Hs Hn Hx Hv Hmin Hst Hc; rewrite varint_groups_S in Hc.
  all: assert (Hov : (7 * Z.of_nat MaxLenUvarint63 <=? s) = false) by (apply Z.leb_gt; unfold MaxLenUvarint63; lia).
  all: assert (Hjoin : forall b, 0 <= b -> Z.lor x (Z.shiftl b s) = x + b * 2 ^ s)
    by (intros b Hb; rewrite Z.shiftl_mul_pow2, Z.lor_comm, lor_disjoint by lia; lia).
  all: destruct (v <? 128) eqn:E.
  2:{ change (2 ^ (7 * Z.of_nat 1)) with 128 in Hv. zbool. lia. }
  1,2: cbn [app] in Hc; destruct (ReadByte_some r v c Hst Hc) as (r1 & Hr1 & Hc1 & Hg1); exists r1; (split; [|done]);
    destruct k; cbn [read_uvarint]; rewrite Hr1, Hov; zbool; rewrite (proj2 (Z.leb_gt 128 v)) by lia;
    rewrite andb_false_r; cbn [orb]; rewrite (proj2 (Z.ltb_lt v 128)) by lia; rewrite Hjoin by lia;
    (destruct (v =? 0) eqn:E0; [zbool; destruct Hmin as [->|]; [done|lia]|done]).
  zbool. rewrite group_byte in Hc by lia. cbn [app] in Hc.
  destruct (ReadByte_some r _ _ Hst Hc) as (r1 & Hr1 & Hc1 & Hg1). pose proof (Z.mod_pos_bound v 128) as Hm.
  destruct k as [|k]; [lia|]. cbn [read_uvarint]. rewrite Hr1, (proj2 (Z.leb_gt _ _) Hov), (proj2 (Z.eqb_neq s 56)) by lia. cbn [andb orb].
  rewrite (proj2 (Z.ltb_ge _ 128)) by lia.
  assert (Hland : Z.land (v mod 128 + 128) 127 = v mod 128).
  { rewrite land_127 by lia. rewrite <- (Z.mul_1_l 128) at 2. rewrite Z.mod_add by lia. by rewrite Z.mod_mod by lia. }
  rewrite Hland, Hjoin by lia. rewrite Z.shiftr_div_pow2 in Hc1 by lia. change (2 ^ 7) with 128 in Hc1.
  assert (Hp : 2 ^ (s + 7) = 128 * 2 ^ s) by (rewrite Z.pow_add_r by lia; lia).
  destruct (IH k (s + 7) (x + v mod 128 * 2 ^ s) (v / 128) r1) as (r' & Hr' & Hc' & Hg'); [lia|lia|lia| | | |by apply Hg1|done|].
  - rewrite Hp. nia.
  - split; [apply Z.div_pos; lia|]. apply Z.div_lt_upper_bound; [lia|].
    replace (128 * 2 ^ (7 * Z.of_nat (S n))) with (2 ^ (7 * Z.of_nat (S (S n)))); [lia|].
    change 128 with (2 ^ 7). rewrite <- Z.pow_add_r by lia. f_equal. lia.
  - right. apply Z.div_str_pos. lia.
  - exists r'. split; [|split; [done|by eapply goes_on_trans]]. rewrite Hr'. do 2 f_equal. rewrite Hp.
    pose proof (Z.div_mod v 128). nia.
Qed.

Lemma ReadUvarint_some v c r :
  0 <= v < 2 ^ 63 -> steady (rd r) -> content r = PutUvarint v ++ c ->
  exists r', ReadUvarint r = (r', Ok v) /\ content r' = c /\ goes_on (rd r) (rd r').
Proof.
  intros Hv Hs Hc. unfold PutUvarint in Hc. rewrite (varint_groups_more 8 1) in Hc by done.
  destruct (read_uvarint_some 8 MaxLenUvarint63 0 0 v c r) as (r' & Hr & Hr'); try done; [unfold MaxLenUvarint63; lia|by left|].
  exists r'. split; [|done]. unfold ReadUvarint. rewrite Hr. do 2 f_equal. lia.
Qed.

(** ** Reading ahead

    The buffer asks for as much as it holds, so a reader has taken whole
    segments from the stream, also what follows the bytes it returned. *)

(** The buffer and the segments left after [n] more bytes were returned. *)
Fixpoint advance (segs : list (list Z)) (n : nat) (buf : list Z) : list Z * list (list Z) :=
  if Nat.leb n (length buf) then (drop n buf, segs)
  else match segs with
       | [] => ([], [])
       | seg :: rest => advance rest (n - length buf) seg
       end.

Lemma advance_le segs n buf : (n <= length buf)%nat -> advance segs n buf = (drop n buf, segs).
Proof. intros Hn. destruct segs; cbn; by rewrite (proj2 (Nat.leb_le _ _) Hn). Qed.

Lemma advance_gt seg rest n buf :
  (length buf < n)%nat -> advance (seg :: rest) n buf = advance rest (n - length buf) seg.
Proof. intros Hn. cbn. by rewrite (proj2 (Nat.leb_gt _ _) Hn). Qed.

Lemma advance_add segs n k buf :
  advance segs (n + k) buf = let '(b, s) := advance segs n buf in advance s k b.
Proof.
  revert n buf. induction segs as [|seg rest IH]; intros n buf; destruct (Nat.le_gt_cases n (length buf)) as [Hn|Hn].
  1,3: rewrite (advance_le _ n) by done; destruct (Nat.le_gt_cases (n + k) (length buf)) as [Hk|Hk].
  - rewrite !advance_le by (rewrite ?length_drop; lia). by rewrite drop_drop.
  - cbn. rewrite length_drop, !(proj2 (Nat.leb_gt _ _)) by lia. done.
  - rewrite !advance_le by (rewrite ?length_drop; lia). by rewrite drop_drop.
  - rewrite !advance_gt by (rewrite ?length_drop; lia). f_equal. rewrite length_drop. lia.
  - cbn. rewrite !(proj2 (Nat.leb_gt _ _)) by lia. by destruct k.
  - rewrite !advance_gt by lia. rewrite <- IH. f_equal. lia.
Qed.

(** The last segment that was needed has been taken as a whole. *)
Lemma advance_within segs1 x y segs2 buf :
  x <> [] -> advance (segs1 ++ (x ++ y) :: segs2) (length buf + length (concat segs1 ++ x)) buf = (y, segs2).
Proof.
  intros Hx. assert (0 < length x)%nat by (destruct x; [done|cbn; lia]). revert buf.
  induction segs1 as [|seg segs1 IH]; intros buf; cbn [app concat].
  - rewrite advance_gt by lia. rewrite advance_le by (rewrite length_app; lia). f_equal.
    replace (length buf + length x - length buf)%nat with (length x) by lia. by rewrite drop_app_length.
  - rewrite <- (assoc_L (++)). rewrite advance_gt by (rewrite !length_app; lia).
    rewrite <- (IH seg). f_equal. rewrite !length_app. lia.
Qed.

(** Segments that fit into the buffer. *)
Definition small (s : stream) : Prop := Forall (fun seg => (1 <= length seg <= defaultBufSize)%nat) (segments s).

(** From [r] to [r'] only whole segments were taken. *)
Definition took (r r' : bufio) : Prop :=
  small (rd r') /\ (length (content r') <= length (content r))%nat /\
  (buffered r', segments (rd r')) = advance (segments (rd r)) (length (content r) - length (content r')) (buffered r).

Lemma took_refl r : small (rd r) -> took r r.
Proof. intros Hs. split; [done|]. split; [done|]. rewrite Nat.sub_diag, advance_le by lia. by rewrite drop_0. Qed.

Lemma took_trans r1 r2 r3 : took r1 r2 -> took r2 r3 -> took r1 r3.
Proof.
  intros (H1 & L1 & A1) (H2 & L2 & A2). split; [done|]. split; [lia|].
  replace (length (content r1) - length (content r3))%nat
    with ((length (content r1) - length (content r2)) + (length (content r2) - length (content r3)))%nat by lia.
  rewrite advance_add, <- A1. exact A2.
Qed.

Lemma took_buffered k b s : small s -> (k <= length b)%nat -> took (mkBufio b s) (mkBufio (drop k b) s).
Proof.
  intros Hs Hk. split; [done|]. unfold content. cbn [buffered rd]. rewrite !length_app, length_drop. split; [lia|].
  replace (length b + length (concat (segments s)) - (length b - k + length (concat (segments s))))%nat with k by lia.
  by rewrite advance_le.
Qed.

Lemma took_segment k seg rest e :
  small (mkStream (seg :: rest) e) -> (1 <= k <= length seg)%nat ->
  took (mkBufio [] (mkStream (seg :: rest) e)) (mkBufio (drop k seg) (mkStream rest e)).
Proof.
  intros [_ Hs]%Forall_cons_1 Hk. split; [done|]. unfold content. cbn [buffered rd segments concat app].
  rewrite !length_app, length_drop. split; [lia|].
  replace (length seg + length (concat rest) - (length seg - k + length (concat rest)))%nat with k by lia.
  rewrite advance_gt, advance_le by (cbn; lia). by rewrite Nat.sub_0_r.
Qed.

Lemma ReadByte_took r r' x : ReadByte r = (r', Ok x) -> small (rd r) -> took r r'.
Proof.
  unfold ReadByte. destruct r as [[|y b] s]; cbn [buffered rd].
  - destruct s as [[|seg rest] e]; [done|]. intros Hr Hs. pose proof Hs as [Hseg _]%Forall_cons_1.
    unfold maxConsecutiveEmptyReads in Hr. cbn [fill] in Hr. unfold stream_Read in Hr. cbn [segments stream_end] in Hr.
    rewrite (proj2 (Nat.leb_le _ _)) in Hr by lia. destruct seg as [|z seg]; [cbn in Hseg; lia|]. injection Hr as <- _.
    apply (took_segment 1 (z :: seg)); [done|cbn; lia].
  - intros [= <- _] Hs. by apply (took_buffered 1 (y :: b)); [|cbn; lia].
Qed.

Lemma bufio_Read_took k r r' bs :
  bufio_Read k r = (r', Ok bs) -> (0 < k < defaultBufSize)%nat -> small (rd r) -> took r r'.
Proof.
  unfold bufio_Read. intros Hr Hk Hs.
  assert (Hmin : forall l : list Z, drop k l = drop (Nat.min k (length l)) l).
  { intros l. destruct (Nat.le_gt_cases k (length l)); [by rewrite Nat.min_l|].
    rewrite Nat.min_r by lia. by rewrite !drop_ge by lia. }
  destruct r as [[|y b] s]; cbn [buffered rd] in *.
  - rewrite (proj2 (Nat.leb_gt _ _)) in Hr by lia. destruct s as [[|seg rest] e]; [done|].
    pose proof Hs as [Hseg _]%Forall_cons_1. unfold stream_Read in Hr. cbn [segments stream_end] in Hr.
    rewrite (proj2 (Nat.leb_le _ _)) in Hr by lia. injection Hr as <- _. rewrite Hmin. apply took_segment; [done|lia].
  - injection Hr as <- _. rewrite Hmin. apply took_buffered; [done|lia].
Qed.

Lemma ReadFull_took fuel need buf r r' out :
  ReadFull fuel need buf r = (r', Ok out) -> (need < defaultBufSize)%nat -> small (rd r) -> took r r'.
Proof.
  revert need buf r. induction fuel as [|fuel IH]; intros [|need] buf r Hr Hn Hs; cbn [ReadFull] in Hr;
    try done; try (injection Hr as <- _; by apply took_refl).
  destruct (bufio_Read (S need) r) as [r1 [bs|]] eqn:Eb; [|done].
  assert (Ht : took r r1) by (eapply bufio_Read_took; [exact Eb|lia|done]).
  eapply took_trans; [exact Ht|]. eapply IH; [exact Hr|lia|apply Ht].
Qed.

Lemma read_uvarint_took k s x r r' v : read_uvarint k s x r = (r', Ok v) -> small (rd r) -> took r r'.
Proof.
  revert s x r. induction k as [|k IH]; intros s x r Hr Hs; cbn [read_uvarint] in Hr;
    destruct (ReadByte r) as [r1 [b|]] eqn:Eb; try done;
    (assert (Ht : took r r1) by (by eapply ReadByte_took));
    (destruct (_ || _); [done|]); (destruct (b <? 128); [destruct (_ && _); [done|]; by injection Hr as <- _|]); [done|].
  eapply took_trans; [exact Ht|]. eapply IH; [exact Hr|apply Ht].
Qed.

(** ** More of the stream

    What a reader returned it would also have returned if more segments had
    been there. *)

Definition more_stream (sgs : list (list Z)) (s : stream) : stream := mkStream (segments s ++ sgs) (stream_end s).
Definition more (sgs : list (list Z)) (r : bufio) : bufio := mkBufio (buffered r) (more_stream sgs (rd r)).

Lemma more_content sgs r : content (more sgs r) = content r ++ concat sgs.
Proof. unfold content, more, more_stream. cbn. by rewrite concat_app, (assoc_L (++)). Qed.

Lemma more_steady sgs r : steady (rd r) -> Forall (fun seg => seg <> []) sgs -> steady (rd (more sgs r)).
Proof. intros. by apply Forall_app_2. Qed.

Lemma stream_Read_more sgs k s s' bs :
  stream_Read k s = (s', Ok bs) -> stream_Read k (more_stream sgs s) = (more_stream sgs s', Ok bs).
Proof.
  unfold stream_Read, more_stream. destruct s as [[|seg rest] e]; [done|]. cbn.
  destruct (Nat.leb _ _); by intros [= <- <-].
Qed.

Lemma fill_more sgs tries s s' bs :
  fill tries s = (s', Ok bs) -> fill tries (more_stream sgs s) = (more_stream sgs s', Ok bs).
Proof.
  revert s. induction tries as [|tries IH]; intros s; [done|]. cbn [fill].
  destruct (stream_Read defaultBufSize s) as [s1 [bs1|]] eqn:Er; [|done].
  rewrite (stream_Read_more _ _ _ _ _ Er). destruct bs1; [apply IH|]. by intros [= <- <-].
Qed.

Lemma ReadByte_more sgs r r' x : ReadByte r = (r', Ok x) -> ReadByte (more sgs r) = (more sgs r', Ok x).
Proof.
  unfold ReadByte, more. destruct r as [[|y b] s]; cbn [buffered rd]; [|by intros [= <- <-]].
  destruct (fill maxConsecutiveEmptyReads s) as [s1 [[|z bs]|]] eqn:Ef; try done.
  rewrite (fill_more _ _ _ _ _ Ef). by intros [= <- <-].
Qed.

Lemma bufio_Read_more sgs k r r' bs : bufio_Read k r = (r', Ok bs) -> bufio_Read k (more sgs r) = (more sgs r', Ok bs).
Proof.
  unfold bufio_Read, more. destruct r as [[|y b] s]; cbn [buffered rd]; [|by intros [= <- <-]].
  destruct (Nat.leb defaultBufSize k).
  - destruct (stream_Read k s) as [s1 [bs1|]] eqn:Er; [|done]. rewrite (stream_Read_more _ _ _ _ _ Er). by intros [= <- <-].
  - destruct (stream_Read defaultBufSize s) as [s1 [bs1|]] eqn:Er; [|done]. rewrite (stream_Read_more _ _ _ _ _ Er). by intros [= <- <-].
Qed.

Lemma ReadFull_more sgs fuel fuel' need buf r r' out :
  (fuel <= fuel')%nat -> ReadFull fuel need buf r = (r', Ok out) ->
  ReadFull fuel' need buf (more sgs r) = (more sgs r', Ok out).
Proof.
  revert fuel' need buf r. induction fuel as [|fuel IH]; intros [|fuel'] [|need] buf r Hf; cbn [ReadFull];
    try lia; try done; try by intros [= <- <-].
  destruct (bufio_Read (S need) r) as [r1 [bs|]] eqn:Eb; [|done]. rewrite (bufio_Read_more _ _ _ _ _ Eb). apply IH. lia.
Qed.

Lemma read_uvarint_more sgs k s x r r' v :
  read_uvarint k s x r = (r', Ok v) -> read_uvarint k s x (more sgs r) = (more sgs r', Ok v).
Proof.
  revert s x r. induction k as [|k IH]; intros s x r; cbn [read_uvarint];
    destruct (ReadByte r) as [r1 [b|]] eqn:Eb; try done; rewrite (ReadByte_more _ _ _ _ Eb);
    (destruct (_ || _); [done|]); (destruct (b <? 128); [destruct (_ && _); [done|]; by intros [= <- <-]|]); [done|apply IH].
Qed.

Definition more_reader (sgs : list (list Z)) (ur : uvarintReader) : uvarintReader := mkReader (more sgs (ur_r ur)) (maxSize ur).

Lemma ReadMsg_more {M} `{ProtoMessage M} sgs ur ur' (m : M) :
  ReadMsg ur = (ur', Ok m) -> ReadMsg (more_reader sgs ur) = (more_reader sgs ur', Ok m).
Proof.
  unfold ReadMsg, ReadUvarint, more_reader. cbn [ur_r maxSize].
  destruct (read_uvarint _ 0 0 (ur_r ur)) as [r1 [len|]] eqn:Eu; [|done]. rewrite (read_uvarint_more _ _ _ _ _ _ _ Eu).
  destruct (_ || _); [done|].
  destruct (ReadFull _ _ [] r1) as [r2 [out|]] eqn:Ef; [|done]. intros [= <- Hu].
  assert (Hl : (Z.to_nat len + length (segments (rd r1)) + 1 <= Z.to_nat len + length (segments (rd (more sgs r1))) + 1)%nat).
  { unfold more, more_stream. cbn. rewrite length_app. lia. }
  by rewrite (ReadFull_more sgs _ _ _ _ _ _ _ Hl Ef), Hu.
Qed.

(** ** Messages *)

Section messages.
Context {M : Type} `{ProtoMessage M}.
Implicit Types (m : M) (ur : uvarintReader).

(** A message the reader accepts. *)
Definition fits (maxSize : Z) m : Prop := wf m /\ zlen (Marshal m) <= maxSize /\ zlen (Marshal m) < 2 ^ 63.

Lemma frame_eq m : frame m = PutUvarint (zlen (Marshal m)) ++ Marshal m.
Proof. unfold frame, WriteMsg. cbn. by rewrite app_nil_r. Qed.

Lemma ReadMsg_frame ur m c :
  fits (maxSize ur) m -> steady (rd (ur_r ur)) -> content (ur_r ur) = frame m ++ c ->
  exists ur', ReadMsg ur = (ur', Ok m) /\ content (ur_r ur') = c /\ maxSize ur' = maxSize ur /\
    goes_on (rd (ur_r ur)) (rd (ur_r ur')) /\
    (small (rd (ur_r ur)) -> (length (Marshal m) < defaultBufSize)%nat -> took (ur_r ur) (ur_r ur')).
Proof.
  intros (Hw & Hmax & Hlen) Hs Hc. rewrite frame_eq, <- (assoc_L (++)) in Hc. pose proof (zlen_nonneg (Marshal m)).
  destruct (ReadUvarint_some (zlen (Marshal m)) (Marshal m ++ c) (ur_r ur)) as (r1 & Hr1 & Hc1 & Hg1); [lia|done|exact Hc|].
  unfold ReadMsg. rewrite Hr1, (proj2 (Z.ltb_ge _ _)), (proj2 (Z.ltb_ge _ _)) by lia. cbn [orb].
  unfold zlen. rewrite Nat2Z.id.
  destruct (ReadFull_some (length (Marshal m) + length (segments (rd r1)) + 1) (Marshal m) c [] r1)
    as (r2 & Hr2 & Hc2 & Hg2); [lia|by apply Hg1|done|].
  rewrite Hr2. exists (mkReader r2 (maxSize ur)). rewrite app_nil_l, Unmarshal_Marshal by done.
  split; [done|]. split; [done|]. split; [done|]. split; [cbn; by eapply goes_on_trans|]. intros Hsm Hl.
  assert (Ht : took (ur_r ur) r1) by (by eapply read_uvarint_took). eapply took_trans; [exact Ht|].
  eapply ReadFull_took; [exact Hr2|done|apply Ht].
Qed.

(** A new reader that returned a message has taken the segment in which the
    message ends as a whole: what follows the message there stays in its buffer. *)
Lemma ReadMsg_reads_ahead maxSize m segs1 x y segs2 e :
  fits maxSize m -> (length (Marshal m) < defaultBufSize)%nat -> small (mkStream (segs1 ++ (x ++ y) :: segs2) e) ->
  concat segs1 ++ x = frame m -> x <> [] ->
  ReadMsg (NewDelimitedReader (mkStream (segs1 ++ (x ++ y) :: segs2) e) maxSize) =
    (mkReader (mkBufio y (mkStream segs2 e)) maxSize, Ok m).
Proof.
  intros Hf Hl Hs Hx Hne. set (ur := NewDelimitedReader _ _).
  assert (Hst : steady (rd (ur_r ur))) by (eapply List.Forall_impl; [|exact Hs]; intros [|] ?; [cbn in *; lia|done]).
  assert (Hc : content (ur_r ur) = frame m ++ (y ++ concat segs2)).
  { unfold content, ur, NewDelimitedReader, NewReader. cbn [ur_r buffered rd segments app]. rewrite concat_app. cbn [concat].
    rewrite <- Hx. by rewrite <- !(assoc_L (++)). }
  destruct (ReadMsg_frame ur m _ Hf Hst Hc) as (ur' & Hr & Hc' & Hmax & [He _] & Ht).
  destruct (Ht Hs Hl) as (_ & _ & Ha). rewrite Hr. f_equal.
  assert (Hn : (length (content (ur_r ur)) - length (content (ur_r ur')) = length (@nil Z) + length (concat segs1 ++ x))%nat).
  { rewrite Hc, Hc', Hx, length_app. cbn. lia. }
  rewrite Hn in Ha. unfold ur, NewDelimitedReader, NewReader in Ha. cbn [ur_r rd segments buffered] in Ha.
  rewrite advance_within in Ha by done. injection Ha as Hb Hsegs.
  destruct ur' as [[b [sg e']] mx]. cbn in *. congruence.
Qed.

(** A message that is too large is refused before its bytes are read. *)
Lemma ReadMsg_large ur m c :
  maxSize ur < zlen (Marshal m) < 2 ^ 63 -> steady (rd (ur_r ur)) -> content (ur_r ur) = frame m ++ c ->
  exists ur', ReadMsg (M:=M) ur = (ur', Err ErrShortBuffer) /\ content (ur_r ur') = Marshal m ++ c.
Proof.
  intros Hmax Hs Hc. rewrite frame_eq, <- (assoc_L (++)) in Hc. pose proof (zlen_nonneg (Marshal m)).
  destruct (ReadUvarint_some (zlen (Marshal m)) (Marshal m ++ c) (ur_r ur)) as (r1 & Hr1 & Hc1 & Hg1); [lia|done|exact Hc|].
  unfold ReadMsg. rewrite Hr1, (proj2 (Z.ltb_lt (maxSize ur) _)), orb_true_r by lia.
  by exists (mkReader r1 (maxSize ur)).
Qed.

Lemma ReadMsg_end ur :
  steady (rd (ur_r ur)) -> content (ur_r ur) = [] ->
  exists ur', ReadMsg (M:=M) ur = (ur', Err (stream_end (rd (ur_r ur)))).
Proof.
  intros Hs Hc. unfold ReadMsg, ReadUvarint, MaxLenUvarint63. destruct (ReadByte_none _ Hs Hc) as (r & Hr & _).
  cbn [read_uvarint]. rewrite Hr. rewrite andb_false_r. by eexists.
Qed.

(** [n] calls of [ReadMsg]. *)
Fixpoint read_many (n : nat) ur : uvarintReader * list (result M) :=
  match n with
  | O => (ur, [])
  | S n' =>
      let '(ur, x) := ReadMsg ur in
      let '(ur, xs) := read_many n' ur in (ur, x :: xs)
  end.

Lemma read_many_frames ms ur c :
  Forall (fits (maxSize ur)) ms -> steady (rd (ur_r ur)) -> content (ur_r ur) = concat (map frame ms) ++ c ->
  exists ur', read_many (length ms) ur = (ur', map Ok ms) /\ content (ur_r ur') = c /\ maxSize ur' = maxSize ur /\
    goes_on (rd (ur_r ur)) (rd (ur_r ur')).
Proof.
  revert ur. induction ms as [|m ms IH]; intros ur Hf Hs Hc; [by exists ur|].
  apply Forall_cons_1 in Hf as [Hm Hf]. cbn [map concat] in Hc. rewrite <- (assoc_L (++)) in Hc.
  destruct (ReadMsg_frame ur m _ Hm Hs Hc) as (ur1 & Hr1 & Hc1 & Hmax1 & Hg1 & _).
  destruct (IH ur1) as (ur' & Hr' & Hc' & Hmax' & Hg'); [by rewrite Hmax1|by apply Hg1|done|].
  exists ur'. cbn [length read_many map]. rewrite Hr1, Hr'. split; [done|]. split; [done|]. split; [congruence|by eapply goes_on_trans].
Qed.

(** C22. A stream carries messages like a queue.  Whatever writes, buffers and
    reads make of the bytes on the way, the messages written with [WriteMsg]
    are read with [ReadMsg] as they were and in their order; then the end of
    the stream is reported as such, and a message larger than the limit as
    too large. *)
Theorem stream_carries_messages maxSize ms segs e next :
  Forall (fits maxSize) ms -> Forall (fun seg => seg <> []) segs ->
  concat segs = concat (map frame ms) ++ concat (map frame next) ->
  exists ur', read_many (length ms) (NewDelimitedReader (mkStream segs e) maxSize) = (ur', map Ok ms) /\
    match next with
    | [] => exists ur'', ReadMsg (M:=M) ur' = (ur'', Err e)
    | m :: _ => maxSize < zlen (Marshal m) < 2 ^ 63 -> exists ur'', ReadMsg (M:=M) ur' = (ur'', Err ErrShortBuffer)
    end.
Proof.
  intros Hf Hs Hc.
  destruct (read_many_frames ms (NewDelimitedReader (mkStream segs e) maxSize) (concat (map frame next)))
    as (ur' & Hr & Hc' & Hmax & [He Hst]); [done|done|exact Hc|].
  exists ur'. split; [done|]. destruct next as [|m next]; cbn [map concat] in Hc'.
  - destruct (ReadMsg_end ur') as (ur'' & Hx); [by apply Hst|done|]. exists ur''. rewrite Hx. by rewrite He.
  - intros Hl. destruct (ReadMsg_large ur' m (concat (map frame next))) as (ur'' & Hr'' & _);
      [by rewrite Hmax|by apply Hst|done|]. by exists ur''.
Qed.
End messages.

(** ** Concrete streams *)

Lemma demo_msg_fits : fits 4096 demo_msg.
Proof. split; [exact demo_msg_wf|]. split; vm_compute; [discriminate|reflexivity]. Qed.

(** Two messages, the second one in three pieces, the first of which comes
    with the first message. *)
Definition demo_segments : list (list Z) :=
  let f := frame demo_msg in [f ++ take 1 f; take 20 (drop 1 f); drop 21 f].

Lemma stream_carries_messages_witness :
  exists ur', read_many 2 (NewDelimitedReader (mkStream demo_segments EOF) 4096) = (ur', [Ok demo_msg; Ok demo_msg]) /\
    exists ur'', ReadMsg (M:=Proxy.t) ur' = (ur'', Err EOF).
Proof.
  apply (stream_carries_messages 4096 [demo_msg; demo_msg] demo_segments EOF []).
  - repeat apply Forall_cons_2; [exact demo_msg_fits..|apply Forall_nil_2].
  - repeat apply Forall_cons_2; [discriminate..|apply Forall_nil_2].
  - vm_compute. reflexivity.
Defined.

(** Lengths that are not minimal, too long or cut off. *)
Definition read_length (bs : list Z) : result Z := (ReadUvarint (NewReader (mkStream [bs] EOF))).2.

Example read_length_errors :
  map read_length [[128; 0]; replicate 9 255; [128]; []; [172; 2]] =
    [Err ErrNotMinimal; Err ErrOverflow; Err ErrUnexpectedEOF; Err EOF; Ok 300].
Proof. vm_compute. reflexivity. Qed.
