(* ===== verification/Config.v ===== *)
(** * The configuration

    [src/pkg/apis/config]: the configuration types, the defaults, the
    adjustment to the place the program runs at, and validation.  A pointer to
    a struct is an [option]: a configuration file may set a section to null.
    The types the modules share ([LbConfig], [RelayNode], ...) are used by the
    files that model them. *)

From Stdlib Require Import ZArith Lia Ascii String QArith.
From stdpp Require Import base list gmap strings option.
From S2P Require Import Prelude GoStrings.

Local Open Scope Z_scope.

(** ** Pointers *)

(** Reading through a pointer, and changing what it points to. *)
Definition deref {A} (p : option A) : go A :=
  match p with Some a => Val a | None => Panic "nil pointer dereference" end.

Definition write {A} (p : option A) (f : A -> go A) : go (option A) :=
  let! a := deref p in let! a := f a in Val (Some a).

Lemma write_Some {A} (a : A) (f : A -> A) : write (Some a) (fun a => Val (f a)) = Val (Some (f a)).
Proof. done. Qed.

Lemma write_Val_inv {A} (p : option A) f q :
  write p f = Val q -> exists a a', p = Some a /\ f a = Val a' /\ q = Some a'.
Proof.
  unfold write. intros Hw. inv_go. destruct p as [a|]; [|done].
  injection H as ->. by eexists _, _.
Qed.

(** ** Constants ([defaults/default.go]) *)

Definition EdgeMode : string := "EdgeMode".
Definition CloudMode : string := "CloudMode".
Definition ManualMode : string := "ManualMode".
Definition ProxyCaller : string := "ProxyCaller".
Definition GatewayCaller : string := "GatewayCaller".
Definition ClientMode : string := "ClientOnly".
Definition ServerClientMode : string := "ServerAndClient".
Definition FilterIfLabelExistsMode : string := "FilterIfLabelExists".
Definition FilterIfLabelDoesNotExistsMode : string := "FilterIfLabelDoesNotExists".
Definition LabelEdgeMeshServiceProxyName : string := "service.edgemesh.kubeedge.io/service-proxy-name".
Definition EdgeDNSModuleName : string := "EdgeDNS".
Definition EdgeProxyModuleName : string := "EdgeProxy".
Definition EdgeGatewayModuleName : string := "EdgeGateway".
Definition EdgeTunnelModuleName : string := "EdgeTunnel".
Definition EdgeCNIModuleName : string := "EdgeCNI".
Definition BaseDir : string := "/etc/edgemesh/".
Definition ConfigDir : string := BaseDir +:+ "config/".
Definition ConfigFilePath : string := "config-file".
Definition EdgeMeshAgentConfigName : string := "edgemesh-agent.yaml".
Definition EdgeMeshGatewayConfigName : string := "edgemesh-gateway.yaml".
Definition BridgeDeviceName : string := "edgemesh0".
Definition BridgeDeviceIP : string := "169.254.96.16".
Definition TempKubeConfigPath : string := "kubeconfig".
Definition TempCorefilePath : string := "Corefile".
Definition MetaServerAddress : string := "http://127.0.0.1:10550".
Definition MetaServerCertDir : string := BaseDir +:+ "metaserver/".
Definition MetaServerCaFile : string := MetaServerCertDir +:+ "rootCA.crt".
Definition MetaServerCertFile : string := MetaServerCertDir +:+ "server.crt".
Definition MetaServerKeyFile : string := MetaServerCertDir +:+ "server.key".
Definition Rendezvous : string := "EDGEMESH_PLAYGOUND".
Definition PSKPath : string := BaseDir +:+ "psk".
Definition TunnelBaseStreamIn : Z := 10240.
Definition TunnelBaseStreamOut : Z := 10240.
Definition TunnelPeerBaseStreamIn : Z := 1024.
Definition TunnelPeerBaseStreamOut : Z := 1024.

(** [k8s.io/apimachinery/pkg/runtime] and kubeedge's [constants]. *)
Definition ContentTypeJSON : string := "application/json".
Definition ContentTypeProtobuf : string := "application/vnd.kubernetes.protobuf".
Definition DefaultKubeQPS : Z := 100.
Definition DefaultKubeBurst : Z := 200.

(** ** Types ([v1alpha1/types.go]) *)

Module MetaServerSecurity.
Record t : Type := mk {
  RequireAuthorization : bool;
  InsecureSkipTLSVerify : bool;
  TLSCaFile : string;
  TLSCertFile : string;
  TLSPrivateKeyFile : string
}.
End MetaServerSecurity.

Module MetaServer.
Record t : Type := mk {
  Server : string;
  Security : option MetaServerSecurity.t
}.
End MetaServer.

Module KubeAPIConfig.
Record t : Type := mk {
  Master : string;
  ContentType : string;
  QPS : Z;
  Burst : Z;
  KubeConfig : string;
  Mode : string;
  MetaServer : option MetaServer.t;
  DeleteKubeConfig : bool
}.
Definition set_Mode (c : t) (m : string) : t :=
  mk (Master c) (ContentType c) (QPS c) (Burst c) (KubeConfig c) m (MetaServer c) (DeleteKubeConfig c).
Definition set_ContentType (c : t) (s : string) : t :=
  mk (Master c) s (QPS c) (Burst c) (KubeConfig c) (Mode c) (MetaServer c) (DeleteKubeConfig c).
Definition set_KubeConfig (c : t) (s : string) : t :=
  mk (Master c) (ContentType c) (QPS c) (Burst c) s (Mode c) (MetaServer c) (DeleteKubeConfig c).
Definition set_MetaServer (c : t) (m : option MetaServer.t) : t :=
  mk (Master c) (ContentType c) (QPS c) (Burst c) (KubeConfig c) (Mode c) m (DeleteKubeConfig c).
End KubeAPIConfig.

Module PprofConfig.
Record t : Type := mk {
  EnableProfiling : bool;
  ProfilingAddress : string;
  ProfilingPort : Z
}.
End PprofConfig.

Module CommonConfig.
Record t : Type := mk {
  BridgeDeviceName : string;
  BridgeDeviceIP : string;
  PprofConfig : option PprofConfig.t
}.
End CommonConfig.

Module CacheDNS.
Record t : Type := mk {
  Enable : bool;
  AutoDetect : bool;
  UpstreamServers : list string;
  CacheTTL : Z
}.
End CacheDNS.

Module EdgeDNSConfig.
Record t : Type := mk {
  Enable : bool;
  KubeAPIConfig : option KubeAPIConfig.t;
  ListenInterface : string;
  ListenPort : Z;
  CacheDNS : option CacheDNS.t
}.
Definition set_Enable (c : t) (b : bool) : t :=
  mk b (KubeAPIConfig c) (ListenInterface c) (ListenPort c) (CacheDNS c).
Definition set_KubeAPIConfig (c : t) k : t :=
  mk (Enable c) k (ListenInterface c) (ListenPort c) (CacheDNS c).
Definition set_ListenInterface (c : t) (s : string) : t :=
  mk (Enable c) (KubeAPIConfig c) s (ListenPort c) (CacheDNS c).
End EdgeDNSConfig.

Module Socks5ProxyConfig.
Record t : Type := mk {
  Enable : bool;
  ListenPort : Z;
  NodeName : string;
  Namespace : string
}.
End Socks5ProxyConfig.

(** [ConsistentHash] and [LoadBalancer] *)
Record RingConfig : Type := mkRingConfig {
  PartitionCount : Z;
  ReplicationFactor : Z;
  Load : Q
}.

Record LbConfig : Type := mkLbConfig {
  Caller : string;
  lb_NodeName : string;
  lb_ConsistentHash : RingConfig
}.

Definition set_lb_NodeName (c : LbConfig) (s : string) : LbConfig :=
  mkLbConfig (Caller c) s (lb_ConsistentHash c).

Definition set_Caller (c : LbConfig) (s : string) : LbConfig :=
  mkLbConfig s (lb_NodeName c) (lb_ConsistentHash c).

Module EdgeProxyConfig.
Record t : Type := mk {
  Enable : bool;
  ListenInterface : string;
  Socks5Proxy : option Socks5ProxyConfig.t;
  LoadBalancer : option LbConfig;
  ServiceFilterMode : string
}.
Definition set_ListenInterface (c : t) (s : string) : t :=
  mk (Enable c) s (Socks5Proxy c) (LoadBalancer c) (ServiceFilterMode c).
Definition set_LoadBalancer (c : t) l : t :=
  mk (Enable c) (ListenInterface c) (Socks5Proxy c) l (ServiceFilterMode c).
Definition set_Socks5Proxy (c : t) s : t :=
  mk (Enable c) (ListenInterface c) s (LoadBalancer c) (ServiceFilterMode c).
End EdgeProxyConfig.

Module MeshCIDRConfig.
Record t : Type := mk { CloudCIDR : list string; EdgeCIDR : list string }.
End MeshCIDRConfig.

Module EdgeCNIConfig.
Record t : Type := mk {
  Enable : bool;
  EncapIP : string;
  TunMode : Z;
  MeshCIDRConfig : option MeshCIDRConfig.t
}.
End EdgeCNIConfig.

Module EdgeGatewayConfig.
Record t : Type := mk {
  Enable : bool;
  NIC : string;
  IncludeIP : string;
  ExcludeIP : string;
  LoadBalancer : option LbConfig
}.
Definition set_LoadBalancer (c : t) l : t := mk (Enable c) (NIC c) (IncludeIP c) (ExcludeIP c) l.
End EdgeGatewayConfig.

Record RelayNode : Type := mkRelayNode { rn_NodeName : string; AdvertiseAddress : list string }.

Module PSK.
Record t : Type := mk { Enable : bool; Path : string }.
End PSK.

Module TunnelLimitConfig.
Record t : Type := mk {
  Enable : bool;
  TunnelBaseStreamIn : Z;
  TunnelBaseStreamOut : Z;
  TunnelPeerBaseStreamIn : Z;
  TunnelPeerBaseStreamOut : Z
}.
End TunnelLimitConfig.

Module MetricConfig.
Record t : Type := mk { Enable : bool; Port : Z }.
End MetricConfig.

Module EdgeTunnelConfig.
Record t : Type := mk {
  Enable : bool;
  Mode : string;
  NodeName : string;
  ListenPort : Z;
  Transport : string;
  Rendezvous : string;
  RelayNodes : list RelayNode;
  EnableIpfsLog : bool;
  MaxCandidates : Z;
  HeartbeatPeriod : Z;
  FinderPeriod : Z;
  PSK : option PSK.t;
  TunnelLimitConfig : option TunnelLimitConfig.t;
  ConfigPath : string;
  ListenInterfaces : string;
  ExtraFilteredInterfaces : string;
  MetricConfig : option MetricConfig.t
}.
Definition set_identity (c : t) (mode node : string) : t :=
  mk (Enable c) mode node (ListenPort c) (Transport c) (Rendezvous c) (RelayNodes c) (EnableIpfsLog c)
    (MaxCandidates c) (HeartbeatPeriod c) (FinderPeriod c) (PSK c) (TunnelLimitConfig c) (ConfigPath c)
    (ListenInterfaces c) (ExtraFilteredInterfaces c) (MetricConfig c).
Definition set_Mode (c : t) (mode : string) : t := set_identity c mode (NodeName c).
Definition set_NodeName (c : t) (node : string) : t := set_identity c (Mode c) node.
Definition set_MaxCandidates (c : t) (n : Z) : t :=
  mk (Enable c) (Mode c) (NodeName c) (ListenPort c) (Transport c) (Rendezvous c) (RelayNodes c) (EnableIpfsLog c)
    n (HeartbeatPeriod c) (FinderPeriod c) (PSK c) (TunnelLimitConfig c) (ConfigPath c)
    (ListenInterfaces c) (ExtraFilteredInterfaces c) (MetricConfig c).
End EdgeTunnelConfig.

Module AgentModules.
Record t : Type := mk {
  EdgeDNSConfig : option EdgeDNSConfig.t;
  EdgeProxyConfig : option EdgeProxyConfig.t;
  EdgeTunnelConfig : option EdgeTunnelConfig.t;
  EdgeCNIConfig : option EdgeCNIConfig.t
}.
Definition set_EdgeDNSConfig (m : t) d : t := mk d (EdgeProxyConfig m) (EdgeTunnelConfig m) (EdgeCNIConfig m).
Definition set_EdgeProxyConfig (m : t) p : t := mk (EdgeDNSConfig m) p (EdgeTunnelConfig m) (EdgeCNIConfig m).
Definition set_EdgeTunnelConfig (m : t) c : t := mk (EdgeDNSConfig m) (EdgeProxyConfig m) c (EdgeCNIConfig m).
End AgentModules.

Module GatewayModules.
Record t : Type := mk {
  EdgeGatewayConfig : option EdgeGatewayConfig.t;
  EdgeTunnelConfig : option EdgeTunnelConfig.t
}.
Definition set_EdgeGatewayConfig (m : t) g : t := mk g (EdgeTunnelConfig m).
Definition set_EdgeTunnelConfig (m : t) c : t := mk (EdgeGatewayConfig m) c.
End GatewayModules.

Module EdgeMeshAgentConfig.
Record t : Type := mk {
  Kind : string;
  APIVersion : string;
  KubeAPIConfig : option KubeAPIConfig.t;
  CommonConfig : option CommonConfig.t;
  Modules : option AgentModules.t
}.
Definition set_KubeAPIConfig (c : t) k : t := mk (Kind c) (APIVersion c) k (CommonConfig c) (Modules c).
Definition set_Modules (c : t) m : t := mk (Kind c) (APIVersion c) (KubeAPIConfig c) (CommonConfig c) m.
End EdgeMeshAgentConfig.

Module EdgeMeshGatewayConfig.
Record t : Type := mk {
  Kind : string;
  APIVersion : string;
  KubeAPIConfig : option KubeAPIConfig.t;
  Modules : option GatewayModules.t;
  PprofConfig : option PprofConfig.t
}.
Definition set_KubeAPIConfig (c : t) k : t := mk (Kind c) (APIVersion c) k (Modules c) (PprofConfig c).
Definition set_Modules (c : t) m : t := mk (Kind c) (APIVersion c) (KubeAPIConfig c) m (PprofConfig c).
End EdgeMeshGatewayConfig.

(** ** Defaults ([v1alpha1/default.go]) *)

(** [defaultKubeConfig] and [defaultLoadBalancerConfig] are package variables:
    every configuration made points to the same two objects, which
    [preConfigAgent] and [preConfigGateway] change. *)
Record globals : Type := mkGlobals {
  defaultKubeConfig : KubeAPIConfig.t;
  defaultLoadBalancerConfig : LbConfig
}.

Definition init_globals : globals :=
  mkGlobals
    (KubeAPIConfig.mk "" ContentTypeProtobuf DefaultKubeQPS DefaultKubeBurst "" ManualMode
       (Some (MetaServer.mk MetaServerAddress
                (Some (MetaServerSecurity.mk false false MetaServerCaFile MetaServerCertFile MetaServerKeyFile))))
       false)
    (mkLbConfig ProxyCaller "" (mkRingConfig 100 10 1.25)).

Definition newDefaultEdgeCNIConfig : EdgeCNIConfig.t := EdgeCNIConfig.mk false "" 0 None.

Definition newDefaultEdgeTunnelConfig (configPath : string) : EdgeTunnelConfig.t := {|
  EdgeTunnelConfig.Enable := false;
  EdgeTunnelConfig.Mode := ServerClientMode;
  EdgeTunnelConfig.NodeName := "";
  EdgeTunnelConfig.ListenPort := 20006;
  EdgeTunnelConfig.Transport := "tcp";
  EdgeTunnelConfig.Rendezvous := Rendezvous;
  EdgeTunnelConfig.RelayNodes := [];
  EdgeTunnelConfig.EnableIpfsLog := false;
  EdgeTunnelConfig.MaxCandidates := 15;
  EdgeTunnelConfig.HeartbeatPeriod := 120;
  EdgeTunnelConfig.FinderPeriod := 60;
  EdgeTunnelConfig.PSK := Some (PSK.mk true PSKPath);
  EdgeTunnelConfig.TunnelLimitConfig :=
    Some (TunnelLimitConfig.mk true TunnelBaseStreamIn TunnelBaseStreamOut TunnelPeerBaseStreamIn TunnelPeerBaseStreamOut);
  EdgeTunnelConfig.ConfigPath := configPath;
  EdgeTunnelConfig.ListenInterfaces := "*";
  EdgeTunnelConfig.ExtraFilteredInterfaces := "";
  EdgeTunnelConfig.MetricConfig := Some (MetricConfig.mk false 9999)
|}.

(** Only what a user has to fill in; every other section is nil. *)
Definition NewDefaultEdgeMeshAgentMinConfig : EdgeMeshAgentConfig.t :=
  EdgeMeshAgentConfig.mk "" "" None None
    (Some (AgentModules.mk None
       (Some (EdgeProxyConfig.mk true "" None None ""))
       (Some (EdgeTunnelConfig.mk true "" "" 0 "" ""
                [mkRelayNode "your relay node name" ["address1"; "address2"; "address3"]]
                false 0 0 0 None None "" "" "" None))
       None)).

(** [os.LookupEnv]; the KUBERNETES_PORT variable is set in the cloud only. *)
Abbreviation environment := (gmap string string).

Definition DetectRunningMode (env : environment) : string :=
  match env !! "KUBERNETES_PORT" with Some _ => CloudMode | None => EdgeMode end.

Definition preConfigAgent (c : EdgeMeshAgentConfig.t) (mode : string) : go EdgeMeshAgentConfig.t :=
  let! k := write (EdgeMeshAgentConfig.KubeAPIConfig c) (fun k => Val (KubeAPIConfig.set_Mode k mode)) in
  let c := EdgeMeshAgentConfig.set_KubeAPIConfig c k in
  let enable b c :=
    let! m := write (EdgeMeshAgentConfig.Modules c) (fun m =>
        let! d := write (AgentModules.EdgeDNSConfig m) (fun d => Val (EdgeDNSConfig.set_Enable d b)) in
        Val (AgentModules.set_EdgeDNSConfig m d)) in
    Val (EdgeMeshAgentConfig.set_Modules c m) in
  let! c :=
    if String.eqb mode EdgeMode then
      let! k := write (EdgeMeshAgentConfig.KubeAPIConfig c)
          (fun k => Val (KubeAPIConfig.set_ContentType k ContentTypeJSON)) in
      enable true (EdgeMeshAgentConfig.set_KubeAPIConfig c k)
    else Val c in
  if String.eqb mode CloudMode then enable false c else Val c.

Definition preConfigGateway (c : EdgeMeshGatewayConfig.t) (mode : string) : go EdgeMeshGatewayConfig.t :=
  let! k := write (EdgeMeshGatewayConfig.KubeAPIConfig c) (fun k => Val (KubeAPIConfig.set_Mode k mode)) in
  let c := EdgeMeshGatewayConfig.set_KubeAPIConfig c k in
  if String.eqb mode EdgeMode then
    let! k := write (EdgeMeshGatewayConfig.KubeAPIConfig c)
        (fun k => Val (KubeAPIConfig.set_ContentType k ContentTypeJSON)) in
    Val (EdgeMeshGatewayConfig.set_KubeAPIConfig c k)
  else Val c.

(** The object [c.KubeAPIConfig] points to is the package variable, so the
    variable has changed when the function returns. *)
Definition written_back (g : globals) (k : option KubeAPIConfig.t) : globals :=
  mkGlobals (default (defaultKubeConfig g) k) (defaultLoadBalancerConfig g).

Definition NewDefaultEdgeMeshAgentConfig (g : globals) (env : environment) (configPath : string)
    : go (EdgeMeshAgentConfig.t * globals) :=
  let c := EdgeMeshAgentConfig.mk "EdgeMeshAgent" "agent.edgemesh.config.kubeedge.io/v1alpha1"
    (Some (defaultKubeConfig g))
    (Some (CommonConfig.mk BridgeDeviceName BridgeDeviceIP None))
    (Some (AgentModules.mk
       (Some (EdgeDNSConfig.mk false None "" 53 (Some (CacheDNS.mk false true [] 30))))
       (Some (EdgeProxyConfig.mk false "" (Some (Socks5ProxyConfig.mk false 10800 "" ""))
                (Some (defaultLoadBalancerConfig g)) FilterIfLabelExistsMode))
       (Some (newDefaultEdgeTunnelConfig configPath))
       (Some newDefaultEdgeCNIConfig))) in
  let! c := preConfigAgent c (DetectRunningMode env) in
  Val (c, written_back g (EdgeMeshAgentConfig.KubeAPIConfig c)).

Definition NewDefaultEdgeMeshGatewayConfig (g : globals) (env : environment) (configPath : string)
    : go (EdgeMeshGatewayConfig.t * globals) :=
  let c := EdgeMeshGatewayConfig.mk "EdgeMeshGateway" "gateway.edgemesh.config.kubeedge.io/v1alpha1"
    (Some (defaultKubeConfig g))
    (Some (GatewayModules.mk
       (Some (EdgeGatewayConfig.mk false "*" "*" "*" (Some (defaultLoadBalancerConfig g))))
       (Some (newDefaultEdgeTunnelConfig configPath))))
    None in
  let! c := preConfigGateway c (DetectRunningMode env) in
  Val (c, written_back g (EdgeMeshGatewayConfig.KubeAPIConfig c)).

(** ** Validation ([v1alpha1/validation/validation.go]) *)

(** [field.Invalid(path, value, detail)] *)
Record FieldError : Type := mkFieldError { fe_Path : string; fe_Value : string; fe_Detail : string }.

Section validation.
(** Whether a file exists. *)
Context (FileIsExist : string -> bool).

(** [filepath.IsAbs] *)
Definition IsAbs (path : string) : bool := HasPrefix path "/".

Definition ValidateKubeAPIConfig (c : option KubeAPIConfig.t) : go (list FieldError) :=
  let! c := deref c in
  let kc := KubeAPIConfig.KubeConfig c in
  Val ((if negb (String.eqb kc "") && negb (IsAbs kc)
        then [mkFieldError "kubeconfig" kc "kubeconfig need abs path"] else []) ++
       (if negb (String.eqb kc "") && negb (FileIsExist kc)
        then [mkFieldError "kubeconfig" kc "kubeconfig not exist"] else [])).

Definition isValidServiceFilterMode (mode : string) (validValues : list string) : bool :=
  existsb (String.eqb mode) validValues.

Definition ValidateModuleEdgeProxy (c : option EdgeProxyConfig.t) : go (list FieldError) :=
  let! c := deref c in
  if negb (EdgeProxyConfig.Enable c) then Val []
  else
    let mode := EdgeProxyConfig.ServiceFilterMode c in
    Val (if negb (isValidServiceFilterMode mode [FilterIfLabelDoesNotExistsMode; FilterIfLabelExistsMode])
         then [mkFieldError "serviceFilterMode" mode "invalid serviceFilterMode"] else []).

Definition IsValidTransport (transport : string) : list string :=
  let supportedTransports := ["tcp"; "ws"; "quic"] in
  if existsb (String.eqb transport) supportedTransports then [] else supportedTransports.

Definition ValidateModuleEdgeTunnel (c : option EdgeTunnelConfig.t) : go (list FieldError) :=
  let! c := deref c in
  if negb (EdgeTunnelConfig.Enable c) then Val []
  else
    let transport := EdgeTunnelConfig.Transport c in
    Val (map (mkFieldError "Transport" transport) (IsValidTransport transport)).

Definition ValidateModuleEdgeCNI (c : option EdgeCNIConfig.t) : go (list FieldError) :=
  let! c := deref c in
  if negb (EdgeCNIConfig.Enable c) then Val [] else Val [].

Definition ValidateEdgeMeshAgentConfiguration (c : EdgeMeshAgentConfig.t) : go (list FieldError) :=
  let! e1 := ValidateKubeAPIConfig (EdgeMeshAgentConfig.KubeAPIConfig c) in
  let! m := deref (EdgeMeshAgentConfig.Modules c) in
  let! e2 := ValidateModuleEdgeTunnel (AgentModules.EdgeTunnelConfig m) in
  let! e3 := ValidateModuleEdgeProxy (AgentModules.EdgeProxyConfig m) in
  let! e4 := ValidateModuleEdgeCNI (AgentModules.EdgeCNIConfig m) in
  Val (e1 ++ e2 ++ e3 ++ e4).

Definition ValidateEdgeMeshGatewayConfiguration (c : EdgeMeshGatewayConfig.t) : go (list FieldError) :=
  let! e1 := ValidateKubeAPIConfig (EdgeMeshGatewayConfig.KubeAPIConfig c) in
  let! m := deref (EdgeMeshGatewayConfig.Modules c) in
  let! e2 := ValidateModuleEdgeTunnel (GatewayModules.EdgeTunnelConfig m) in
  Val (e1 ++ e2).
End validation.

(** ** What validation guarantees *)

Definition kubeconfig_ok (FileIsExist : string -> bool) (k : KubeAPIConfig.t) : Prop :=
  KubeAPIConfig.KubeConfig k = "" \/
  (exists rest, KubeAPIConfig.KubeConfig k = "/" +:+ rest) /\ FileIsExist (KubeAPIConfig.KubeConfig k) = true.

Definition transport_ok (c : EdgeTunnelConfig.t) : Prop :=
  EdgeTunnelConfig.Enable c = true -> EdgeTunnelConfig.Transport c ∈ ["tcp"; "ws"; "quic"].

Definition filter_mode_ok (c : EdgeProxyConfig.t) : Prop :=
  EdgeProxyConfig.Enable c = true ->
  EdgeProxyConfig.ServiceFilterMode c ∈ [FilterIfLabelDoesNotExistsMode; FilterIfLabelExistsMode].

Lemma existsb_eqb_elem_of s l : existsb (String.eqb s) l = true <-> s ∈ l.
Proof.
  rewrite existsb_exists, list_elem_of_In. split.
  - by intros (x & Hin & ->%String.eqb_eq).
  - intros Hin. exists s. split; [done|]. apply String.eqb_refl.
Qed.

Lemma ValidateKubeAPIConfig_spec fe k :
  exists errs, ValidateKubeAPIConfig fe (Some k) = Val errs /\ (errs = [] <-> kubeconfig_ok fe k).
Proof.
  unfold ValidateKubeAPIConfig, kubeconfig_ok, IsAbs. cbn [mbind go_bind deref]. eexists. split; [done|].
  destruct (String.eqb_spec (KubeAPIConfig.KubeConfig k) "") as [E|E]; cbn [negb andb].
  - split; [by left | done].
  - rewrite <- HasPrefix_spec. destruct (HasPrefix _ _), (fe _); cbn; naive_solver.
Qed.

Lemma ValidateModuleEdgeTunnel_spec c :
  exists errs, ValidateModuleEdgeTunnel (Some c) = Val errs /\ (errs = [] <-> transport_ok c).
Proof.
  unfold ValidateModuleEdgeTunnel, transport_ok, IsValidTransport. cbn [mbind go_bind deref].
  destruct (EdgeTunnelConfig.Enable c); cbn [negb]; [|by exists []].
  eexists. split; [done|]. rewrite <- existsb_eqb_elem_of. destruct (existsb _ _); naive_solver.
Qed.

Lemma ValidateModuleEdgeProxy_spec c :
  exists errs, ValidateModuleEdgeProxy (Some c) = Val errs /\ (errs = [] <-> filter_mode_ok c).
Proof.
  unfold ValidateModuleEdgeProxy, filter_mode_ok, isValidServiceFilterMode. cbn [mbind go_bind deref].
  destruct (EdgeProxyConfig.Enable c); cbn [negb]; [|by exists []].
  eexists. split; [done|]. rewrite <- existsb_eqb_elem_of. destruct (existsb _ _); naive_solver.
Qed.

Lemma ValidateModuleEdgeCNI_spec c : ValidateModuleEdgeCNI (Some c) = Val [].
Proof. unfold ValidateModuleEdgeCNI. cbn. by destruct (EdgeCNIConfig.Enable c). Qed.

(** Validation of an agent configuration: if a section it reads is nil it
    panics; otherwise it reports no error exactly when the kubeconfig is unset
    or an absolute path to a file that exists, the transport of an enabled
    tunnel is tcp, ws or quic, and the filter mode of an enabled proxy is one
    of the two modes.  Nothing is asked of modules that are disabled, nor of
    the EdgeCNI section. *)
Theorem agent_validation_spec FileIsExist (c : EdgeMeshAgentConfig.t) :
  match EdgeMeshAgentConfig.KubeAPIConfig c, EdgeMeshAgentConfig.Modules c with
  | Some k, Some (AgentModules.mk _ (Some p) (Some t) (Some _)) =>
      exists errs, ValidateEdgeMeshAgentConfiguration FileIsExist c = Val errs /\
        (errs = [] <-> kubeconfig_ok FileIsExist k /\ transport_ok t /\ filter_mode_ok p)
  | _, _ => is_panic (ValidateEdgeMeshAgentConfiguration FileIsExist c) = true
  end.
Proof.
  unfold ValidateEdgeMeshAgentConfiguration.
  destruct (EdgeMeshAgentConfig.KubeAPIConfig c) as [k|]; [|done].
  destruct (ValidateKubeAPIConfig_spec FileIsExist k) as (e1 & -> & H1). cbn [mbind go_bind].
  destruct (EdgeMeshAgentConfig.Modules c) as [[d p t n]|]; [|done].
  cbn [mbind go_bind deref AgentModules.EdgeTunnelConfig AgentModules.EdgeProxyConfig AgentModules.EdgeCNIConfig].
  destruct t as [t|]; [|by destruct p, n].
  destruct (ValidateModuleEdgeTunnel_spec t) as (e2 & -> & H2). cbn [mbind go_bind].
  destruct p as [p|]; [|done].
  destruct (ValidateModuleEdgeProxy_spec p) as (e3 & -> & H3). cbn [mbind go_bind].
  destruct n as [n|]; [|done]. rewrite ValidateModuleEdgeCNI_spec. cbn [mbind go_bind].
  eexists. split; [done|]. rewrite !list.app_nil, H1, H2, H3. naive_solver.
Qed.

(** ** The defaults *)

Ltac run_go := cbn [mbind go_bind write deref].

(** The default configuration depends on the environment only, also when one
    has been made before; it is the same object in the package variable. *)
Lemma NewDefaultEdgeMeshAgentConfig_again g env path path' c g' :
  NewDefaultEdgeMeshAgentConfig g env path = Val (c, g') ->
  exists c', NewDefaultEdgeMeshAgentConfig g' env path' = Val (c', g') /\
    EdgeMeshAgentConfig.KubeAPIConfig c' = EdgeMeshAgentConfig.KubeAPIConfig c.
Proof.
  unfold NewDefaultEdgeMeshAgentConfig, DetectRunningMode. destruct (env !! "KUBERNETES_PORT");
    (vm_compute; intros [= <- <-]; eexists; split; reflexivity).
Qed.
