(* ===== verification/NetUtil.v ===== *)
(** * Network utilities

    [src/pkg/util/net/{errors,net,netif}.go]: the predicates on network
    errors, the address of an interface, and the bridge device the agent's
    modules listen on.  The host's network interfaces are the class
    [HostNet]; what the code relies on of them is [HostNetSpec]. *)

From Stdlib Require Import ZArith Lia Ascii String.
From stdpp Require Import base list gmap strings option.
From S2P Require Import Prelude GoStrings GoNet.

Local Open Scope Z_scope.

(** ** Errors ([errors.go]) *)

(** An error of a connection: its message, and its [Timeout] and [Temporary]
    methods if it is a [net.Error]. *)
Record neterror : Type := mkNetError {
  Error : string;
  net_Error : option (bool * bool)
}.

Definition IsTooManyFDsError (err : string) : bool := Contains err "too many open files".
Definition IsClosedError (err : string) : bool := HasSuffix err "use of closed network connection".
Definition IsStreamResetError (err : string) : bool := HasSuffix err "stream reset".
Definition IsEOFError (err : string) : bool := HasSuffix err "EOF".

Definition IsTimeoutError (err : neterror) : bool :=
  match net_Error err with Some (timeout, _) => timeout | None => false end.

Definition is_temporary (err : neterror) : bool :=
  match net_Error err with Some (_, temporary) => temporary | None => false end.

(** ** The interfaces of the host *)

#[export] Instance IPNet_eq_dec : EqDecision IPNet.
Proof. solve_decision. Defined.

(** [netlink] and [net.Interface]; [N] is the state of the host's network.
    The addresses of an interface are printed ones. *)
Class HostNet (N : Type) : Type := {
  Link : Type;
  LinkByName : N -> string -> result Link;
  LinkAdd : N -> string -> N * result unit;
  AddrAdd : N -> Link -> IPNet -> N * result unit;
  LinkDel : N -> Link -> N * result unit;
  LinkSetUp : N -> Link -> N * result unit;
  InterfaceByName : N -> string -> result Link;
  Interface_Addrs : N -> Link -> result (list string)
}.

(** An IPv4 network, by its mask. *)
Definition is_v4 (n : IPNet) : bool := Nat.eqb (length (net_Mask n)) 4.

(** A printed address of an interface. *)
Definition denotes (s : string) (a : IPNet) : Prop :=
  exists ipn, ParseCIDR s = Ok (net_IP a, ipn) /\ net_Mask ipn = net_Mask a.

(** What the operations do, in terms of the addresses each interface has, in
    the order they are reported in: a new address comes after the others of
    its family, and IPv4 addresses come first. *)
Class HostNetSpec (N : Type) `{HostNet N} : Type := {
  addresses : N -> gmap string (list IPNet);
  link_name : Link -> string;
  LinkByName_Ok : forall n name l, LinkByName n name = Ok l ->
    link_name l = name /\ is_Some (addresses n !! name);
  LinkByName_present : forall n name, is_Some (addresses n !! name) -> exists l, LinkByName n name = Ok l;
  LinkAdd_Ok : forall n name n', LinkAdd n name = (n', Ok tt) -> addresses n' = <[name := []]> (addresses n);
  AddrAdd_Ok : forall n l a n', AddrAdd n l a = (n', Ok tt) ->
    exists pre post, addresses n !! link_name l = Some (pre ++ post) /\
      addresses n' = <[link_name l := pre ++ a :: post]> (addresses n) /\
      (is_v4 a = true -> existsb is_v4 post = false);
  AddrAdd_Err : forall n l a n' e, AddrAdd n l a = (n', Err e) -> addresses n' = addresses n;
  (** an interface that is brought up may get IPv6 addresses of its own *)
  LinkSetUp_Ok : forall n l n' name addrs, LinkSetUp n l = (n', Ok tt) -> addresses n !! name = Some addrs ->
    exists more, addresses n' !! name = Some (addrs ++ more) /\ existsb is_v4 more = false;
  Interface_present : forall n name addrs, addresses n !! name = Some addrs ->
    exists i ss, InterfaceByName n name = Ok i /\ Interface_Addrs n i = Ok ss /\ Forall2 denotes ss addrs
}.

Section netif.
Context {N : Type} `{HostNet N}.

(** ** The address of an interface ([net.go]) *)

Definition IPv4Mask : nat := 4.

(** The loop: the first address whose mask is an IPv4 mask. *)
Fixpoint first_ipv4 (name : string) (addrs : list string) : result (list Z) :=
  match addrs with
  | [] => Err ("no ip of version 4 found for interface " +:+ name)
  | addr :: rest =>
      match ParseCIDR addr with
      | Err e => Err e
      | Ok (ip, ipn) => if Nat.eqb (length (net_Mask ipn)) IPv4Mask then Ok ip else first_ipv4 name rest
      end
  end.

Definition GetInterfaceIP (n : N) (name : string) : result (list Z) :=
  match InterfaceByName n name with
  | Err e => Err e
  | Ok ifi =>
      match Interface_Addrs n ifi with
      | Err e => Err e
      | Ok addrs => first_ipv4 name addrs
      end
  end.

(** ** The bridge device ([netif.go]) *)

(** [netlink.NewIPNet] *)
Definition NewIPNet (ip : list Z) : IPNet :=
  if Nat.eqb (length (To4 ip)) 4 then mkIPNet ip (CIDRMask 32 32) else mkIPNet ip (CIDRMask 128 128).

Record NetifManager : Type := mkNetifManager { Addrs : list IPNet }.

Definition NewNetifManager (ips : list (list Z)) : NetifManager :=
  mkNetifManager (fold_left (fun addrs ip => addrs ++ [NewIPNet ip]) ips []).

(** Errors of adding an address are logged only: the address may be there. *)
Definition ensure_addrs (n : N) (l : Link) (addrs : list IPNet) : N :=
  fold_left (fun n addr => (AddrAdd n l addr).1) addrs n.

(** Add the addresses up to the first failure. *)
Fixpoint add_addrs (n : N) (l : Link) (addrs : list IPNet) : N * result unit :=
  match addrs with
  | [] => (n, Ok tt)
  | addr :: rest =>
      match AddrAdd n l addr with
      | (n, Ok _) => add_addrs n l rest
      | (n, Err e) => (n, Err e)
      end
  end.

(** The link added is looked up without regard to the error, and a nil link
    is dereferenced by [AddrAdd]. *)
Definition AddBridgeDevice (m : NetifManager) (n : N) (name : string) : go (N * result unit) :=
  match LinkByName n name with
  | Ok _ => Val (n, Err ("link " +:+ name +:+ " exists"))
  | Err _ =>
      match LinkAdd n name with
      | (n, Err e) => Val (n, Err e)
      | (n, Ok _) =>
          match LinkByName n name with
          | Ok l => Val (add_addrs n l (Addrs m))
          | Err _ => if Nat.eqb (length (Addrs m)) 0 then Val (n, Ok tt) else Panic "nil pointer dereference"
          end
      end
  end.

(** Whether the device was there. *)
Definition EnsureBridgeDevice (m : NetifManager) (n : N) (name : string) : go (N * (bool * result unit)) :=
  match LinkByName n name with
  | Ok l => Val (ensure_addrs n l (Addrs m), (true, Ok tt))
  | Err _ => let! r := AddBridgeDevice m n name in Val (r.1, (false, r.2))
  end.

Definition RemoveBridgeDevice (n : N) (name : string) : N * result unit :=
  match LinkByName n name with
  | Err e => (n, Err e)
  | Ok link => LinkDel n link
  end.

Definition SetupBridgeDevice (n : N) (name : string) : N * result unit :=
  match LinkByName n name with
  | Err e => (n, Err e)
  | Ok link => LinkSetUp n link
  end.

Definition CreateEdgeMeshDevice (n : N) (deviceName deviceIP : string) : go (N * result unit) :=
  match ParseIP deviceIP with
  | None => Val (n, Err ("failed to parse bridge device IP " +:+ deviceIP))
  | Some devIP =>
      let mgr := NewNetifManager [devIP] in
      let! r := EnsureBridgeDevice mgr n deviceName in
      match r with
      | (n, (_, Err e)) => Val (n, Err e)
      | (n, (_, Ok _)) => Val (SetupBridgeDevice n deviceName)
      end
  end.

(** ** What the device gives its listeners *)

Section facts.
Context `{!HostNetSpec N}.

(** The first IPv4 address of the list. *)
Definition first_v4 (addrs : list IPNet) : option (list Z) := net_IP <$> List.find is_v4 addrs.

Lemma find_v4_app (l k : list IPNet) :
  List.find is_v4 (l ++ k) = match List.find is_v4 l with Some a => Some a | None => List.find is_v4 k end.
Proof. induction l as [|a l IH]; cbn; [done|]. by destruct (is_v4 a). Qed.

Lemma find_v4_none (l : list IPNet) : existsb is_v4 l = false -> List.find is_v4 l = None.
Proof. induction l as [|a l IH]; cbn; [done|]. by destruct (is_v4 a). Qed.

Lemma first_ipv4_spec name ss addrs :
  Forall2 denotes ss addrs ->
  first_ipv4 name ss = match first_v4 addrs with
                       | Some ip => Ok ip
                       | None => Err ("no ip of version 4 found for interface " +:+ name)
                       end.
Proof.
  induction 1 as [|s a ss addrs (ipn & Hp & Hm) _ IH]; [done|]. cbn [first_ipv4]. rewrite Hp, Hm.
  unfold first_v4. cbn [List.find]. unfold is_v4 at 1, IPv4Mask. by destruct (Nat.eqb (length (net_Mask a)) 4).
Qed.

Lemma GetInterfaceIP_spec n name addrs :
  addresses n !! name = Some addrs ->
  GetInterfaceIP n name = match first_v4 addrs with
                          | Some ip => Ok ip
                          | None => Err ("no ip of version 4 found for interface " +:+ name)
                          end.
Proof.
  intros Ha. destruct (Interface_present n name addrs Ha) as (i & ss & Hi & Hss & Hd).
  unfold GetInterfaceIP. rewrite Hi, Hss. by apply first_ipv4_spec.
Qed.

(** Adding an IPv4 address never displaces the first one. *)
Lemma first_v4_insert pre post a :
  is_v4 a = true -> existsb is_v4 post = false ->
  first_v4 (pre ++ a :: post) = Some (default (net_IP a) (first_v4 (pre ++ post))).
Proof.
  intros Ha Hp. unfold first_v4. rewrite !find_v4_app. cbn. rewrite Ha, (find_v4_none _ Hp).
  by destruct (List.find is_v4 pre).
Qed.

Lemma first_v4_app addrs more : existsb is_v4 more = false -> first_v4 (addrs ++ more) = first_v4 addrs.
Proof. intros Hm. unfold first_v4. rewrite find_v4_app, (find_v4_none _ Hm). by destruct (List.find is_v4 addrs). Qed.

Lemma SetupBridgeDevice_address n n' name addrs :
  SetupBridgeDevice n name = (n', Ok tt) -> addresses n !! name = Some addrs ->
  exists addrs', addresses n' !! name = Some addrs' /\ first_v4 addrs' = first_v4 addrs.
Proof.
  unfold SetupBridgeDevice. destruct (LinkByName n name) as [l|]; [|done]. intros Hs Ha.
  destruct (LinkSetUp_Ok n l n' name addrs Hs Ha) as (more & Hn & Hm). eexists. split; [done|]. by apply first_v4_app.
Qed.

Lemma NewIPNet_v4 ip : length (To4 ip) = 4%nat -> NewIPNet ip = mkIPNet ip [255; 255; 255; 255].
Proof. intros E. unfold NewIPNet. by rewrite E. Qed.

(** The addresses after the device has been ensured. *)
Lemma EnsureBridgeDevice_address ip n n' name ex :
  length (To4 ip) = 4%nat -> EnsureBridgeDevice (NewNetifManager [ip]) n name = Val (n', (ex, Ok tt)) ->
  exists addrs', addresses n' !! name = Some addrs' /\
    match addresses n !! name with
    | None => first_v4 addrs' = Some ip
    | Some addrs => first_v4 addrs' = first_v4 addrs \/ first_v4 addrs' = Some (default ip (first_v4 addrs))
    end.
Proof.
  intros Hip. pose (a := mkIPNet ip [255; 255; 255; 255]). assert (Ha : is_v4 a = true) by done.
  unfold EnsureBridgeDevice, NewNetifManager. cbn [fold_left app Addrs]. rewrite (NewIPNet_v4 ip Hip). fold a.
  destruct (LinkByName n name) as [l|] eqn:El.
  - destruct (LinkByName_Ok n name l El) as [Hl [addrs Hn]]. unfold ensure_addrs. cbn. intros [= <- _]. rewrite Hn.
    destruct (AddrAdd n l a) as [n2 [[]|e]] eqn:Ea; cbn.
    + destruct (AddrAdd_Ok n l a n2 Ea) as (pre & post & Hpp & Hn2 & Hv). rewrite Hl in Hpp, Hn2.
      rewrite Hn in Hpp. injection Hpp as ->. exists (pre ++ a :: post). rewrite Hn2, lookup_insert_eq. split; [done|].
      right. by apply first_v4_insert, Hv.
    + rewrite (AddrAdd_Err n l a n2 e Ea). eauto.
  - assert (Hn : addresses n !! name = None).
    { destruct (addresses n !! name) eqn:E; [|done].
      destruct (LinkByName_present n name) as [l' Hl']; [by eexists|congruence]. }
    rewrite Hn. unfold AddBridgeDevice. rewrite El. destruct (LinkAdd n name) as [n1 [[]|]] eqn:Ead; [|done].
    pose proof (LinkAdd_Ok n name n1 Ead) as Hn1. cbn [Addrs].
    destruct (LinkByName n1 name) as [l|] eqn:El1; [|done]. destruct (LinkByName_Ok n1 name l El1) as [Hl _].
    cbn [add_addrs]. destruct (AddrAdd n1 l a) as [n2 [[]|]] eqn:Ea; cbn; [|done]. intros [= <- _].
    destruct (AddrAdd_Ok n1 l a n2 Ea) as (pre & post & Hpp & Hn2 & Hv). rewrite Hl in Hpp, Hn2.
    rewrite Hn1, lookup_insert_eq in Hpp. injection Hpp as Hpp. symmetry in Hpp. apply list.app_nil in Hpp as [-> ->].
    exists [a]. by rewrite Hn2, lookup_insert_eq.
Qed.

(** A device that was not there has the configured address only. *)
Lemma CreateEdgeMeshDevice_new n n' name deviceIP ip :
  ParseIP deviceIP = Some ip -> length (To4 ip) = 4%nat -> addresses n !! name = None ->
  CreateEdgeMeshDevice n name deviceIP = Val (n', Ok tt) -> GetInterfaceIP n' name = Ok ip.
Proof.
  unfold CreateEdgeMeshDevice. intros -> Hip Hnew Hc. apply go_bind_Val_inv in Hc as ([n1 [ex [[]|e]]] & He & Hs); [|done].
  destruct (EnsureBridgeDevice_address ip n n1 name ex Hip He) as (addrs1 & Hn1 & Hcase). rewrite Hnew in Hcase.
  injection Hs as Hs. destruct (SetupBridgeDevice_address n1 n' name addrs1 Hs Hn1) as (addrs2 & Hn2 & Hf).
  by rewrite (GetInterfaceIP_spec n' name addrs2 Hn2), Hf, Hcase.
Qed.

(** The address the modules of the agent listen on, the one
    [GetInterfaceIP] finds on the bridge device that [CreateEdgeMeshDevice] has
    set up: the configured one if the device was new; the first IPv4 address
    the device had, whatever is configured, if it was there before. *)
Theorem bridge_device_address n n' name deviceIP ip :
  ParseIP deviceIP = Some ip -> length (To4 ip) = 4%nat ->
  CreateEdgeMeshDevice n name deviceIP = Val (n', Ok tt) ->
  match addresses n !! name with
  | None => GetInterfaceIP n' name = Ok ip
  | Some addrs =>
      match first_v4 addrs with
      | Some old => GetInterfaceIP n' name = Ok old
      | None => GetInterfaceIP n' name = Ok ip \/
          GetInterfaceIP n' name = Err ("no ip of version 4 found for interface " +:+ name)
      end
  end.
Proof.
  unfold CreateEdgeMeshDevice. intros -> Hip Hc. apply go_bind_Val_inv in Hc as ([n1 [ex [[]|e]]] & He & Hs); [|done].
  destruct (EnsureBridgeDevice_address ip n n1 name ex Hip He) as (addrs1 & Hn1 & Hcase).
  injection Hs as Hs. destruct (SetupBridgeDevice_address n1 n' name addrs1 Hs Hn1) as (addrs2 & Hn2 & Hf).
  rewrite (GetInterfaceIP_spec n' name addrs2 Hn2), Hf.
  destruct (addresses n !! name) as [addrs|]; [|by rewrite Hcase].
  destruct (first_v4 addrs); cbn in Hcase; destruct Hcase as [-> | ->]; auto.
Qed.
End facts.
End netif.

(** ** A host *)

(** A host whose interfaces have IPv4 addresses, each of prefix length 32. *)
Definition is_byte (b : Z) : bool := (0 <=? b) && (b <? 256).
Definition all_bytes (q : Z * Z * Z * Z) : Prop :=
  (let '(a, b, c, d) := q in is_byte a && is_byte b && is_byte c && is_byte d) = true.

Abbreviation host := (gmap string (list (sig all_bytes))).

Definition quad_net (q : sig all_bytes) : IPNet :=
  let '(a, b, c, d) := proj1_sig q in mkIPNet (v4InV6Prefix ++ [a; b; c; d]) [255; 255; 255; 255].
Definition quad_string (q : sig all_bytes) : string :=
  let '(a, b, c, d) := proj1_sig q in dotted a b c d +:+ "/32".

Lemma quad_denotes q : denotes (quad_string q) (quad_net q).
Proof.
  destruct q as [[[[a b] c] d] Hq]. unfold all_bytes, is_byte in Hq. zbool.
  destruct (ParseCIDR_dotted a b c d) as (ipn & Hp & Hm); [unfold is_u8; lia..|]. by exists ipn.
Qed.

Definition net_quad (n : IPNet) : option (sig all_bytes) :=
  match drop 12 (net_IP n) with
  | [a; b; c; d] =>
      match bool_eq_dec (is_byte a && is_byte b && is_byte c && is_byte d) true with
      | left p => if bool_decide (n = quad_net ((a, b, c, d) ↾ p)) then Some ((a, b, c, d) ↾ p) else None
      | right _ => None
      end
  | _ => None
  end.

Lemma net_quad_Some n q : net_quad n = Some q -> quad_net q = n.
Proof.
  unfold net_quad. intros Hq. repeat (case_match; try done). injection Hq as <-. case_bool_decide; done.
Qed.

Definition find_link (n : host) (name : string) : result string :=
  match n !! name with Some _ => Ok name | None => Err "Link not found" end.

#[export] Instance host_net : HostNet host := {|
  Link := string;
  LinkByName := find_link;
  LinkAdd n name := match n !! name with Some _ => (n, Err "file exists") | None => (<[name := []]> n, Ok tt) end;
  AddrAdd n l a :=
    match n !! l, net_quad a with
    | Some addrs, Some q => (<[l := addrs ++ [q]]> n, Ok tt)
    | _, _ => (n, Err "invalid argument")
    end;
  LinkDel n l := (delete l n, Ok tt);
  LinkSetUp n l := (n, Ok tt);
  InterfaceByName := find_link;
  Interface_Addrs n l := Ok (map quad_string (default [] (n !! l)))
|}.

Definition host_addresses (n : host) : gmap string (list IPNet) := map quad_net <$> n.

#[export] Instance host_net_spec : HostNetSpec host.
Proof.
  refine (Build_HostNetSpec host host_net host_addresses (fun l : string => l) _ _ _ _ _ _ _); unfold host_addresses.
  - intros n name l. cbn. unfold find_link. rewrite lookup_fmap. destruct (n !! name); [|done]. intros [= <-]. eauto.
  - intros n name. cbn. unfold find_link. rewrite lookup_fmap. intros [x Hx]. destruct (n !! name); [eauto|done].
  - intros n name n'. cbn. destruct (n !! name); [done|]. intros [= <-]. by rewrite fmap_insert.
  - intros n l a n'. cbn. change Link with string in *. destruct (n !! l) as [addrs|] eqn:El; [|done].
    destruct (net_quad a) as [q|] eqn:Eq; [|done]. intros [= <-]. apply net_quad_Some in Eq.
    exists (map quad_net addrs), []. rewrite lookup_fmap, El, fmap_insert, map_app, app_nil_r, <- Eq. done.
  - intros n l a n' e. cbn. change Link with string in *. destruct (n !! l), (net_quad a); intros [=]; by subst.
  - intros n l n' name addrs [= <-] Ha. exists []. by rewrite app_nil_r.
  - intros n name addrs. cbn. unfold find_link. rewrite lookup_fmap. destruct (n !! name) as [qs|] eqn:En; [|done].
    intros [= <-]. eexists _, _. split; [done|]. split; [done|]. rewrite En. cbn. clear En.
    induction qs as [|q qs IH]; constructor; [apply quad_denotes|apply IH].
Defined.

Definition created (r : go (host * result unit)) : bool := match r with Val (_, Ok _) => true | _ => false end.

Lemma bridge_device_address_witness :
  exists n, CreateEdgeMeshDevice (∅ : host) "edgemesh0" "169.254.96.16" = Val (n, Ok tt) /\
    GetInterfaceIP n "edgemesh0" = Ok (v4InV6Prefix ++ [169; 254; 96; 16]).
Proof.
  assert (Hc : created (CreateEdgeMeshDevice (∅ : host) "edgemesh0" "169.254.96.16") = true) by (vm_compute; reflexivity).
  destruct (CreateEdgeMeshDevice (∅ : host) "edgemesh0" "169.254.96.16") as [[n [[]|e]]|] eqn:E; [|discriminate Hc..].
  exists n. split; [reflexivity|].
  exact (bridge_device_address (∅ : host) n "edgemesh0" "169.254.96.16" (v4InV6Prefix ++ [169; 254; 96; 16])
           eq_refl eq_refl E).
Defined.
