(* ===== verification/ConnCopy.v ===== *)
(** * Copying between connections

    [src/pkg/util/net/conn.go]: [ProxyConn] runs two [copyBytes] goroutines,
    one per direction, that end by closing both connections; [ProxyConnUDP]
    forwards the datagrams of a stream to a UDP connection and starts a
    [copyDatagram] goroutine for the replies.  The goroutines interleave at
    their reads, writes and closes; the network decides how each of them ends. *)

From Stdlib Require Import ZArith Lia Ascii String.
From stdpp Require Import base list relations strings option.
From S2P Require Import Prelude GoStrings NetUtil.

(** ** [ProxyConn] *)

(** One end: what its peer has sent, how much of it has not been read, whether
    the peer has ended its stream, what was written to the peer, and whether
    the connection has been closed here. *)
Record conn : Type := mkConn {
  received : list Z;
  inbox : list Z;
  peer_eof : bool;
  written : list Z;
  closed : bool
}.

Definition close (c : conn) : conn := mkConn (received c) (inbox c) (peer_eof c) (written c) true.
Definition put (c : conn) (bs : list Z) : conn :=
  mkConn (received c) (inbox c) (peer_eof c) (written c ++ bs) (closed c).
Definition take_inbox (c : conn) (n : nat) : conn :=
  mkConn (received c) (drop n (inbox c)) (peer_eof c) (written c) (closed c).

(** Where a [copyBytes] goroutine is: in [io.Copy], before its read or before
    the write of what it read, before [dest.Close()], before [src.Close()], or
    at its end, where it calls [wg.Done()]. *)
Inductive copy_pc : Type :=
| Reading
| Writing (buf : list Z)
| ClosingDest
| ClosingSrc
| CopyDone.

(** How the network lets a call end: a read gives some bytes, the end of the
    stream or an error; a write gives all bytes away, or some of them and an
    error; on a connection closed here every call fails. *)
Inductive io_event : Type :=
| IoRead (n : nat)
| IoEOF
| IoError
| IoWrite
| IoWriteError (n : nat)
| IoClose.

(** The next call of [copyBytes(dest, src)]; none if the event cannot happen. *)
Definition copyBytes (pc : copy_pc) (dest src : conn) (e : io_event) : option (copy_pc * conn * conn) :=
  match pc, e with
  | Reading, IoRead n =>
      if closed src || Nat.eqb n 0 || Nat.ltb (length (inbox src)) n then None
      else Some (Writing (take n (inbox src)), dest, take_inbox src n)
  | Reading, IoEOF =>
      if closed src || negb (peer_eof src) || negb (Nat.eqb (length (inbox src)) 0) then None
      else Some (ClosingDest, dest, src)
  | Reading, IoError => Some (ClosingDest, dest, src)
  | Writing buf, IoWrite => if closed dest then None else Some (Reading, put dest buf, src)
  | Writing buf, IoWriteError n =>
      if Nat.leb n (length buf) && (negb (closed dest) || Nat.eqb n 0)
      then Some (ClosingDest, put dest (take n buf), src) else None
  | ClosingDest, IoClose => Some (ClosingSrc, close dest, src)
  | ClosingSrc, IoClose => Some (CopyDone, dest, close src)
  | _, _ => None
  end.

Record proxy_state : Type := mkProxy {
  in_ : conn;
  out_ : conn;
  from_backend : copy_pc;  (** [copyBytes("from backend", in, out)] *)
  to_backend : copy_pc     (** [copyBytes("to backend", out, in)] *)
}.

(** [ProxyConn(in, out)] when both goroutines have been started. *)
Definition ProxyConn (in_ out_ : conn) : proxy_state := mkProxy in_ out_ Reading Reading.

(** [wg.Wait()] returns. *)
Definition proxy_returns (s : proxy_state) : bool :=
  match from_backend s, to_backend s with CopyDone, CopyDone => true | _, _ => false end.

Inductive goroutine_step : proxy_state -> proxy_state -> Prop :=
| step_from_backend s e pc i o :
    copyBytes (from_backend s) (in_ s) (out_ s) e = Some (pc, i, o) ->
    goroutine_step s (mkProxy i o pc (to_backend s))
| step_to_backend s e pc o i :
    copyBytes (to_backend s) (out_ s) (in_ s) e = Some (pc, o, i) ->
    goroutine_step s (mkProxy i o (from_backend s) pc).

(** What a peer does: send, until it ends its stream. *)
Inductive peer_step : conn -> conn -> Prop :=
| peer_sends c bs : peer_eof c = false ->
    peer_step c (mkConn (received c ++ bs) (inbox c ++ bs) false (written c) (closed c))
| peer_ends c : peer_step c (mkConn (received c) (inbox c) true (written c) (closed c)).

Inductive proxy_step : proxy_state -> proxy_state -> Prop :=
| proxy_goroutine s s' : goroutine_step s s' -> proxy_step s s'
| proxy_client s c : peer_step (in_ s) c -> proxy_step s (mkProxy c (out_ s) (from_backend s) (to_backend s))
| proxy_backend s c : peer_step (out_ s) c -> proxy_step s (mkProxy (in_ s) c (from_backend s) (to_backend s)).

Definition fresh (c : conn) : Prop := inbox c = received c /\ written c = [] /\ closed c = false.

Definition proxy_reaches (i o : conn) (s : proxy_state) : Prop := rtc proxy_step (ProxyConn i o) s.

(** *** One direction *)

(** Bytes arrive in order; until the copying ends none are missing. *)
Definition flow (pc : copy_pc) (dest src : conn) : Prop :=
  match pc with
  | Reading => written dest ++ inbox src = received src
  | Writing buf => written dest ++ buf ++ inbox src = received src
  | _ => True
  end /\ written dest `prefix_of` received src.

(** What closes have happened. *)
Definition closes (pc : copy_pc) (dest src : conn) : Prop :=
  match pc with
  | ClosingSrc => closed dest = true
  | CopyDone => closed dest = true /\ closed src = true
  | _ => True
  end.

Lemma copyBytes_flow pc dest src e pc' dest' src' :
  copyBytes pc dest src e = Some (pc', dest', src') -> flow pc dest src -> flow pc' dest' src'.
Proof.
  unfold flow. intros Hs [Hf Hp]. destruct pc, e; cbn in Hs; try done; repeat case_match; try done;
    simplify_eq; cbn in *; split; auto.
  - by rewrite take_drop.
  - by rewrite <- app_assoc.
  - rewrite <- Hf, app_assoc. by eexists.
  - rewrite <- Hf. rewrite <- (take_drop n buf) at 2. rewrite <- (app_assoc (take n buf)), app_assoc. by eexists.
Qed.

Lemma copyBytes_closes pc dest src e pc' dest' src' :
  copyBytes pc dest src e = Some (pc', dest', src') -> closes pc dest src -> closes pc' dest' src'.
Proof. intros Hs Hc. destruct pc, e; cbn in Hs; repeat case_match; simplify_eq; by cbn in *. Qed.

(** What one goroutine leaves to the other: the bytes of the other direction,
    and closed connections stay closed. *)
Lemma copyBytes_frame pc dest src e pc' dest' src' :
  copyBytes pc dest src e = Some (pc', dest', src') ->
  written src' = written src /\ inbox dest' = inbox dest /\ received dest' = received dest /\
  received src' = received src /\ (closed dest = true -> closed dest' = true) /\ (closed src = true -> closed src' = true).
Proof. intros Hs. destruct pc, e; cbn in Hs; repeat case_match; simplify_eq; by cbn. Qed.

Lemma flow_frame pc dest src dest' src' :
  flow pc dest src -> written dest' = written dest -> inbox src' = inbox src -> received src' = received src ->
  flow pc dest' src'.
Proof. unfold flow. intros Hf -> -> ->. done. Qed.

Lemma closes_frame pc dest src dest' src' :
  closes pc dest src -> (closed dest = true -> closed dest' = true) -> (closed src = true -> closed src' = true) ->
  closes pc dest' src'.
Proof. destruct pc; cbn; naive_solver. Qed.

Lemma flow_peer pc dest src c : peer_step src c -> flow pc dest src -> flow pc dest c.
Proof.
  intros Hp. destruct Hp as [src bs|]; unfold flow; cbn; [|done]. intros [Hf Hpre]. split.
  - destruct pc; auto; rewrite <- Hf; by rewrite <- !app_assoc.
  - by apply prefix_app_r.
Qed.

Lemma peer_frame c c' : peer_step c c' -> written c' = written c /\ closed c' = closed c.
Proof. by destruct 1. Qed.

(** *** Both directions *)

Record proxy_inv (s : proxy_state) : Prop := mkProxyInv {
  inv_to : flow (to_backend s) (out_ s) (in_ s);
  inv_from : flow (from_backend s) (in_ s) (out_ s);
  inv_cto : closes (to_backend s) (out_ s) (in_ s);
  inv_cfrom : closes (from_backend s) (in_ s) (out_ s)
}.

Lemma proxy_step_inv s s' : proxy_step s s' -> proxy_inv s -> proxy_inv s'.
Proof.
  intros Hs [Ht Hf Hct Hcf]. destruct Hs as [s s' Hg|s c Hp|s c Hp].
  - destruct Hg as [s e pc i o Hc|s e pc o i Hc]; destruct (copyBytes_frame _ _ _ _ _ _ _ Hc) as (H1 & H2 & H3 & H4 & H5 & H6);
      constructor; cbn; eauto using copyBytes_flow, copyBytes_closes, flow_frame, closes_frame.
  - destruct (peer_frame _ _ Hp) as [Hw Hcl]. constructor; cbn; eauto using flow_peer, flow_frame.
    + eapply closes_frame; [done|done|by rewrite Hcl].
    + eapply closes_frame; [done|by rewrite Hcl|done].
  - destruct (peer_frame _ _ Hp) as [Hw Hcl]. constructor; cbn; eauto using flow_peer, flow_frame.
    + eapply closes_frame; [done|by rewrite Hcl|done].
    + eapply closes_frame; [done|done|by rewrite Hcl].
Qed.

Lemma ProxyConn_inv i o : fresh i -> fresh o -> proxy_inv (ProxyConn i o).
Proof.
  intros (Hi1 & Hi2 & Hi3) (Ho1 & Ho2 & Ho3).
  constructor; cbn; try done; unfold flow; rewrite ?Hi2, ?Ho2, ?Hi1, ?Ho1; (split; [done|apply prefix_nil]).
Qed.

Lemma proxy_reaches_inv i o s : fresh i -> fresh o -> proxy_reaches i o s -> proxy_inv s.
Proof.
  intros Hi Ho Hr. pose proof (ProxyConn_inv i o Hi Ho) as Hinv. unfold proxy_reaches in Hr.
  induction Hr; eauto using proxy_step_inv.
Qed.

(** How many calls a goroutine still makes once its source is closed. *)
Definition calls_left (pc : copy_pc) : nat :=
  match pc with Writing _ => 4 | Reading => 3 | ClosingDest => 2 | ClosingSrc => 1 | CopyDone => 0 end.

(** A direction has closed its destination. *)
Definition shut (pc : copy_pc) : bool := match pc with ClosingSrc | CopyDone => true | _ => false end.

Definition total_left (s : proxy_state) : nat := calls_left (from_backend s) + calls_left (to_backend s).

Lemma copyBytes_shut pc dest src e pc' dest' src' :
  copyBytes pc dest src e = Some (pc', dest', src') -> closed src = true \/ shut pc = true ->
  calls_left pc' < calls_left pc /\ (shut pc = true -> shut pc' = true).
Proof.
  intros Hs Hc. destruct pc, e; cbn in *; repeat case_match; simplify_eq; cbn; try (split; [lia|done]); try done.
  all: destruct Hc as [Hc|Hc]; [|done]; by rewrite Hc in *.
Qed.

Lemma copyBytes_enabled pc dest src : pc <> CopyDone -> exists e r, copyBytes pc dest src e = Some r.
Proof.
  intros Hpc. destruct pc as [|buf| | |]; [exists IoError|exists (IoWriteError 0)|exists IoClose|exists IoClose|done];
    cbn; rewrite ?orb_true_r; by eexists.
Qed.

(** One direction has closed its destination, so the source of the other one
    is closed. *)
Definition ending (s : proxy_state) : Prop :=
  proxy_inv s /\ (shut (from_backend s) = true \/ shut (to_backend s) = true).

Lemma closes_shut pc dest src : closes pc dest src -> shut pc = true -> closed dest = true.
Proof. destruct pc; cbn; naive_solver. Qed.

Lemma ending_step s s' : ending s -> goroutine_step s s' -> ending s' /\ total_left s' < total_left s.
Proof.
  intros [Hinv Hshut] Hg. pose proof (proxy_step_inv _ _ (proxy_goroutine _ _ Hg) Hinv) as Hinv'.
  destruct Hinv as [_ _ Hct Hcf].
  assert (Hin : shut (from_backend s) = true -> closed (in_ s) = true) by eauto using closes_shut.
  assert (Hout : shut (to_backend s) = true -> closed (out_ s) = true) by eauto using closes_shut.
  unfold ending, total_left. destruct Hg as [s e pc i o Hc|s e pc o i Hc]; cbn in *;
    destruct (copyBytes_shut _ _ _ _ _ _ _ Hc) as [Hlt Hsh]; [naive_solver| |naive_solver|]; (split; [split; [done|naive_solver]|lia]).
Qed.

Lemma returned_closed s : proxy_inv s -> total_left s = 0 ->
  proxy_returns s = true /\ closed (in_ s) = true /\ closed (out_ s) = true.
Proof.
  intros [_ _ Hct Hcf] Ht. unfold total_left, proxy_returns in *.
  destruct (from_backend s), (to_backend s); cbn in *; try lia. naive_solver.
Qed.

Lemma not_returned_steps s : total_left s <> 0 -> exists s', goroutine_step s s'.
Proof.
  intros Ht. unfold total_left in Ht. destruct (decide (calls_left (from_backend s) = 0)) as [E|E].
  - destruct (copyBytes_enabled (to_backend s) (out_ s) (in_ s)) as (e & [[pc o] i] & He).
    { intros Ec. rewrite Ec in Ht. cbn in Ht. lia. }
    eexists. by eapply step_to_backend.
  - destruct (copyBytes_enabled (from_backend s) (in_ s) (out_ s)) as (e & [[pc i] o] & He).
    { intros Ec. by rewrite Ec in E. }
    eexists. by eapply step_from_backend.
Qed.

(** C20. The end of a proxied connection: once one direction has closed its
    destination, [ProxyConn] is over within seven calls of the goroutines,
    whatever the network does: no run of them is longer, and one that cannot go
    on has returned with both connections closed. *)
Theorem ProxyConn_closes_both i o s n s' :
  fresh i -> fresh o -> proxy_reaches i o s -> shut (from_backend s) = true \/ shut (to_backend s) = true ->
  nsteps goroutine_step n s s' ->
  n <= 7 /\
  ((forall s2, ~ goroutine_step s' s2) ->
   proxy_returns s' = true /\ closed (in_ s') = true /\ closed (out_ s') = true).
Proof.
  intros Hi Ho Hr Hshut Hn. assert (He : ending s) by (split; [exact (proxy_reaches_inv i o s Hi Ho Hr)|done]).
  assert (Hs : total_left s <= 7).
  { unfold total_left. destruct Hshut as [H|H]; [destruct (from_backend s), (to_backend s) | destruct (to_backend s), (from_backend s)];
      cbn in *; try done; lia. }
  assert (Hall : ending s' /\ n + total_left s' <= total_left s).
  { clear Hs. induction Hn as [s|n s1 s2 s3 H12 _ IH]; [split; [done|lia]|].
    destruct (ending_step _ _ He H12) as [He2 Hlt]. destruct IH as [IH1 IH2]; [|apply He2|done|split; [done|lia]].
    apply (rtc_r _ _ _ Hr). by apply proxy_goroutine. }
  destruct Hall as [[Hinv _] Hle]. split; [lia|]. intros Hstuck. apply returned_closed; [done|].
  destruct (decide (total_left s' = 0)) as [E|E]; [done|]. destruct (not_returned_steps s' E) as [s2 Hs2]. by apply Hstuck in Hs2.
Qed.

(** Nothing is missing: what was written, what is in the goroutine's hands, and
    what it has not read. *)
Definition complete (pc : copy_pc) (dest src : conn) : Prop :=
  match pc with
  | Reading => received src = written dest ++ inbox src
  | Writing buf => received src = written dest ++ buf ++ inbox src
  | ClosingDest | ClosingSrc | CopyDone => True
  end.

(** C17. Bytes are delivered in order and none are invented: in both directions,
    whatever fails, what was written to one peer is a prefix of what the other
    sent.  As long as a direction is copying, what it has read and not written it
    still holds, and the rest has not been read; so when it can read the end of the
    stream, everything the peer sent has been written.  Once its copying has ended
    otherwise (by an error, or because the other direction closed one of the
    connections) nothing more is written, and bytes that were sent, even some that
    were read, may be lost: see [half_closed_client_loses_reply]. *)
Theorem ProxyConn_delivers i o s :
  fresh i -> fresh o -> proxy_reaches i o s ->
  (written (out_ s) `prefix_of` received (in_ s) /\ written (in_ s) `prefix_of` received (out_ s)) /\
  (complete (to_backend s) (out_ s) (in_ s) /\ complete (from_backend s) (in_ s) (out_ s)) /\
  (is_Some (copyBytes (to_backend s) (out_ s) (in_ s) IoEOF) -> written (out_ s) = received (in_ s)) /\
  (is_Some (copyBytes (from_backend s) (in_ s) (out_ s) IoEOF) -> written (in_ s) = received (out_ s)).
Proof.
  intros Hi Ho Hr. destruct (proxy_reaches_inv i o s Hi Ho Hr) as [[Ht Htp] [Hf Hfp] _ _]. split; [done|].
  split; [by destruct (to_backend s), (from_backend s); cbn in *|].
  assert (Hend : forall pc dest src, flow pc dest src -> is_Some (copyBytes pc dest src IoEOF) -> written dest = received src).
  { intros pc dest src [Hfl _] [r Hr']. destruct pc; cbn in *; try done.
    destruct (inbox src); [by rewrite <- Hfl, app_nil_r|]. cbn in *. by rewrite orb_true_r in Hr'. }
  split; apply Hend; by split.
Qed.

(** *** Witnesses *)

(** The peer has sent the data and ended its stream. *)
Definition demo_conn (data : list Z) : conn := mkConn data data true [] false.

Lemma demo_fresh data : fresh (demo_conn data).
Proof. done. Qed.

(** The client's data has been copied and the backend's connection closed. *)
Definition demo_ending : proxy_state :=
  mkProxy (take_inbox (demo_conn [1%Z]) 1) (close (put (demo_conn [2%Z]) [1%Z])) Reading ClosingSrc.

Definition demo_returned : proxy_state :=
  mkProxy (close (take_inbox (demo_conn [1%Z]) 1)) (close (put (demo_conn [2%Z]) [1%Z])) CopyDone CopyDone.

Ltac to_step e := eapply rtc_l; [apply proxy_goroutine, (step_to_backend _ e); reflexivity|cbn].

Lemma demo_reaches : proxy_reaches (demo_conn [1%Z]) (demo_conn [2%Z]) demo_ending.
Proof. to_step (IoRead 1). to_step IoWrite. to_step IoEOF. to_step IoClose. apply rtc_refl. Qed.

Lemma demo_end_run : nsteps goroutine_step 4 demo_ending demo_returned.
Proof.
  eapply (nsteps_l _ 3); [apply (step_to_backend _ IoClose); reflexivity|].
  eapply (nsteps_l _ 2); [apply (step_from_backend _ IoError); reflexivity|].
  eapply (nsteps_l _ 1); [apply (step_from_backend _ IoClose); reflexivity|].
  eapply (nsteps_l _ 0); [apply (step_from_backend _ IoClose); reflexivity|]. apply nsteps_O.
Qed.

Lemma ProxyConn_closes_both_witness :
  proxy_returns demo_returned = true /\ closed (in_ demo_returned) = true /\ closed (out_ demo_returned) = true.
Proof.
  refine (proj2 (ProxyConn_closes_both _ _ demo_ending 4 demo_returned (demo_fresh _) (demo_fresh _)
                   demo_reaches (or_intror eq_refl) demo_end_run) _).
  intros s2 Hs. inversion Hs as [s e pc i o Hc|s e pc o i Hc]; destruct e; discriminate Hc.
Defined.

Lemma ProxyConn_delivers_witness :
  written (out_ demo_ending) = [1%Z] /\ written (out_ demo_ending) `prefix_of` received (in_ demo_ending).
Proof.
  split; [reflexivity|].
  exact (proj1 (proj1 (ProxyConn_delivers _ _ demo_ending (demo_fresh _) (demo_fresh _) demo_reaches))).
Defined.

(** The reply of a backend is lost if the client has ended its half of the
    stream: the end of one direction closes both connections.  No call failed
    but those on the connections that [ProxyConn] closed itself. *)
Lemma half_closed_client_loses_reply :
  proxy_reaches (demo_conn [1%Z]) (demo_conn [2%Z]) demo_returned /\
  received (out_ demo_returned) = [2%Z] /\ written (in_ demo_returned) = [].
Proof.
  split; [|done]. unfold proxy_reaches. etrans; [exact demo_reaches|]. generalize demo_end_run.
  generalize demo_ending, demo_returned, 4. intros s s' n Hn.
  induction Hn; [apply rtc_refl|eapply rtc_l; [by apply proxy_goroutine|done]].
Qed.

(** ** [ProxyConnUDP] *)

Definition buffer_size : Z := 4096.

(** Where the loop of [ProxyConnUDP] is: before its read, before the write of
    what it read, before [SetDeadline], or at its end. *)
Inductive udp_pc : Type :=
| UdpRead
| UdpWrite (buf : list Z)
| UdpDeadline
| UdpDone.

(** [stream]: the bytes of [inConn] not yet read; [readers]: how many
    [copyDatagram] goroutines run; [forwarded], [replies]: the datagrams
    written to either side. *)
Record udp_state : Type := mkUdp {
  stream : list Z;
  forwarded : list (list Z);
  replies : list (list Z);
  udp_closed : bool;
  readers : nat;
  udp_main : udp_pc
}.

Inductive udp_event : Type :=
| InRead (n : nat)                           (** [inConn.Read] gives [n] bytes *)
| InFails (err : neterror)                   (** or fails *)
| UdpWrites (ok : bool)                      (** [udpConn.Write] *)
| UdpSetDeadline                             (** [udpConn.SetDeadline], whose failure is logged *)
| Datagram (data : list Z) (delivered : bool)  (** a reader gets a reply and hands it on, or fails to *)
| ReadFails.                                 (** [ReadFromUDP] of a reader fails: deadline, or closed *)

(** A [copyDatagram] goroutine ends: its deferred call closes the connection. *)
Definition reader_ends (s : udp_state) : udp_state :=
  mkUdp (stream s) (forwarded s) (replies s) true (readers s - 1) (udp_main s).

Definition set_main (s : udp_state) (pc : udp_pc) : udp_state :=
  mkUdp (stream s) (forwarded s) (replies s) (udp_closed s) (readers s) pc.

Definition ProxyConnUDP (s : udp_state) (e : udp_event) : option udp_state :=
  match udp_main s, e with
  | UdpRead, InRead n =>
      if Nat.eqb n 0 || (buffer_size <? Z.of_nat n)%Z || Nat.ltb (length (stream s)) n then None
      else Some (mkUdp (drop n (stream s)) (forwarded s) (replies s) (udp_closed s) (S (readers s))
                   (UdpWrite (take n (stream s))))
  | UdpRead, InFails err => Some (if is_temporary err then s else set_main s UdpDone)
  | UdpWrite buf, UdpWrites true =>
      if udp_closed s then None
      else Some (mkUdp (stream s) (forwarded s ++ [buf]) (replies s) (udp_closed s) (readers s) UdpDeadline)
  | UdpWrite buf, UdpWrites false => Some (set_main s UdpRead)
  | UdpDeadline, UdpSetDeadline => Some (set_main s UdpRead)
  | _, _ => None
  end.

Definition copyDatagram (s : udp_state) (e : udp_event) : option udp_state :=
  if Nat.eqb (readers s) 0 then None else
  match e with
  | Datagram data delivered =>
      if udp_closed s || (buffer_size <? zlen data)%Z then None
      else if delivered
      then Some (mkUdp (stream s) (forwarded s) (replies s ++ [data]) (udp_closed s) (readers s) (udp_main s))
      else Some (reader_ends s)
  | ReadFails => Some (reader_ends s)
  | _ => None
  end.

Definition udp_step (s : udp_state) (e : udp_event) : option udp_state :=
  match e with Datagram _ _ | ReadFails => copyDatagram s e | _ => ProxyConnUDP s e end.

Fixpoint udp_run (s : udp_state) (es : list udp_event) : option udp_state :=
  match es with [] => Some s | e :: es => match udp_step s e with Some s => udp_run s es | None => None end end.

(** The loop has been entered; the peer has sent the bytes. *)
Definition udp_start (bytes : list Z) : udp_state := mkUdp bytes [] [] false 0 UdpRead.

(** While the connection is open no reader has ended, so there is one for
    every chunk that was read. *)
Definition udp_inv (s : udp_state) : Prop :=
  udp_closed s = false ->
  length (forwarded s) + match udp_main s with UdpWrite _ => 1 | _ => 0 end <= readers s.

Lemma udp_step_inv s e s' : udp_step s e = Some s' -> udp_inv s -> udp_inv s'.
Proof.
  unfold udp_inv. intros Hs Hi. destruct e; cbn in Hs; unfold ProxyConnUDP, copyDatagram in Hs;
    repeat case_match; simplify_eq; cbn in *; try done; intros Hc; specialize (Hi Hc); rewrite ?length_app; cbn; try lia; congruence.
Qed.

Lemma udp_run_inv es s s' : udp_run s es = Some s' -> udp_inv s -> udp_inv s'.
Proof.
  revert s. induction es as [|e es IH]; intros s Hr Hi; cbn in Hr; [by simplify_eq|].
  destruct (udp_step s e) as [s1|] eqn:E; [|done]. eauto using udp_step_inv.
Qed.

Lemma udp_step_closed s e s' :
  udp_step s e = Some s' -> udp_closed s = true ->
  udp_closed s' = true /\ forwarded s' = forwarded s /\ replies s' = replies s.
Proof.
  intros Hs Hc. destruct e; cbn in Hs; unfold ProxyConnUDP, copyDatagram in Hs; rewrite ?Hc in Hs;
    repeat case_match; simplify_eq; by cbn.
Qed.

(** The goroutines of a UDP proxy: as long as none has ended there is one
    for every datagram forwarded; when the first of them ends, for instance
    because no reply came for a second, its deferred close takes the connection
    from all, and from then on no datagram is forwarded and no reply handed on,
    although the loop goes on reading. *)
Theorem udp_proxy_falls_silent bytes es s :
  udp_run (udp_start bytes) es = Some s ->
  (udp_closed s = false -> length (forwarded s) <= readers s) /\
  (udp_closed s = true -> forall es' s', udp_run s es' = Some s' ->
     forwarded s' = forwarded s /\ replies s' = replies s).
Proof.
  intros Hr. split.
  - intros Hc. assert (Hi : udp_inv s) by (by eapply udp_run_inv; [exact Hr|]; intros _; cbn; lia).
    specialize (Hi Hc). lia.
  - intros Hc es' s'. clear Hr. revert s Hc. induction es' as [|e es' IH]; intros s Hc Hr; cbn in Hr; [by simplify_eq|].
    destruct (udp_step s e) as [s1|] eqn:E; [|done]. destruct (udp_step_closed s e s1 E Hc) as (Hc1 & <- & <-). by apply IH.
Qed.

(** Two datagrams of the client; no reply to the first one. *)
Definition demo_silence : list udp_event :=
  [InRead 2; UdpWrites true; UdpSetDeadline; ReadFails].
Definition demo_silent : udp_state :=
  mkUdp [3%Z; 4%Z] [[1%Z; 2%Z]] [] true 0 UdpRead.

Lemma udp_proxy_falls_silent_witness :
  udp_run (udp_start [1%Z; 2%Z; 3%Z; 4%Z]) demo_silence = Some demo_silent /\
  forall es' s', udp_run demo_silent es' = Some s' -> forwarded s' = [[1%Z; 2%Z]] /\ replies s' = [].
Proof.
  split; [reflexivity|].
  exact (proj2 (udp_proxy_falls_silent [1%Z; 2%Z; 3%Z; 4%Z] demo_silence demo_silent eq_refl) eq_refl).
Defined.

(** The stream does not keep the datagrams apart: two of them read at once are
    forwarded as one. *)
Lemma datagrams_coalesce :
  forwarded <$> udp_run (udp_start ([1%Z; 2%Z] ++ [3%Z; 4%Z])) [InRead 4; UdpWrites true] = Some [[1%Z; 2%Z; 3%Z; 4%Z]].
Proof. reflexivity. Qed.
