(* ===== verification/Dns.v ===== *)
(** * The node-level DNS

    [src/pkg/dns]: the Corefile made for the embedded CoreDNS from the
    configuration and the DNS services of the cluster, and the module around
    it.  The API server, the file system, CoreDNS itself and the interfaces of
    the host are parameters. *)

From Stdlib Require Import ZArith Lia Ascii String.
From stdpp Require Import base list gmap strings option.
From S2P Require Import Prelude GoStrings GoNet Config NetUtil.

Local Open Scope Z_scope.

(** ** Templates

    What the templates use of [text/template]: text and fields of the data. *)

Inductive piece : Type := Text (s : string) | Field (name : string).

(** [strings.Cut] *)
Fixpoint Cut (sep s : string) : option (string * string) :=
  if HasPrefix s sep then Some ("", str_drop (String.length sep) s)
  else match s with
       | EmptyString => None
       | String c s' => match Cut sep s' with Some (a, b) => Some (String c a, b) | None => None end
       end.

(** Every turn consumes a pair of braces, so the length of the text is enough
    fuel. *)
Fixpoint parse_pieces (fuel : nat) (s : string) : result (list piece) :=
  match fuel with
  | O => Err "out of fuel"
  | S fuel =>
      match Cut "{{" s with
      | None => Ok [Text s]
      | Some (before, after) =>
          match Cut "}}" after with
          | None => Err "unclosed action"
          | Some (action, rest) =>
              match TrimSpace action with
              | String "." name =>
                  match parse_pieces fuel rest with
                  | Ok ps => Ok (Text before :: Field name :: ps)
                  | Err e => Err e
                  end
              | _ => Err "unexpected action"
              end
          end
      end
  end.

(** [template.New(name).Parse(s)] *)
Definition Parse (s : string) : result (list piece) := parse_pieces (S (String.length s)) s.

(** [tmpl.Execute]: the fields of the data by name. *)
Fixpoint Execute (ps : list piece) (data : list (string * string)) : result string :=
  match ps with
  | [] => Ok ""
  | p :: ps =>
      match p with
      | Text s => match Execute ps data with Ok t => Ok (s +:+ t) | Err e => Err e end
      | Field name =>
          match List.find (fun kv => String.eqb (fst kv) name) data with
          | None => Err ("can't evaluate field " +:+ name)
          | Some (_, v) => match Execute ps data with Ok t => Ok (v +:+ t) | Err e => Err e end
          end
      end
  end.

(** ** The Corefile ([corefile.go]) *)

Definition stubDomainBlock : string := "{{.DomainName}}:{{.Port}} {
    bind {{.LocalIP}}
    cache {{.CacheTTL}}
    errors
    forward . {{.UpstreamServers}} {
        force_tcp
    }
    {{ .KubernetesPlugin }}
    log
    loop
    reload
}
".

Definition kubernetesPluginBlock : string := "kubernetes cluster.local in-addr.arpa ip6.arpa {
        {{ .APIServer }}
        pods insecure
        fallthrough in-addr.arpa ip6.arpa
        ttl {{ .TTL }}
    }".

Definition defaultTTL : Z := 30.
Definition defaultUpstreamServer : string := "/etc/resolv.conf".
Definition kubeSystem : string := "kube-system".
Definition coreDNS : string := "coredns".
Definition kubeDNS : string := "kube-dns".
Definition ClusterIPNone : string := "None".

Record stubDomainInfo : Type := mkStubDomainInfo {
  DomainName : string;
  LocalIP : string;
  Port : string;
  CacheTTL : Z;
  UpstreamServers : string;
  KubernetesPlugin : string
}.

Record KubernetesPluginInfo : Type := mkKubernetesPluginInfo { APIServer : string; TTL : Z }.

Definition stub_fields (i : stubDomainInfo) : list (string * string) :=
  [("DomainName", DomainName i); ("LocalIP", LocalIP i); ("Port", Port i); ("CacheTTL", Itoa (CacheTTL i));
   ("UpstreamServers", UpstreamServers i); ("KubernetesPlugin", KubernetesPlugin i)].

Definition plugin_fields (i : KubernetesPluginInfo) : list (string * string) :=
  [("APIServer", APIServer i); ("TTL", Itoa (TTL i))].

Definition empty_literal : string := String "034" (String "034" "").

(** The endpoint and the kubeconfig of the API server, as far as they are set. *)
Definition api_server (k : KubeAPIConfig.t) : string :=
  let apiServer :=
    if negb (String.eqb (KubeAPIConfig.Master k) "") then "endpoint " +:+ KubeAPIConfig.Master k else "" in
  if negb (String.eqb (KubeAPIConfig.KubeConfig k) "") then
    let kubeConfigStr := "kubeconfig " +:+ KubeAPIConfig.KubeConfig k +:+ " " +:+ empty_literal in
    if String.eqb apiServer "" then apiServer +:+ kubeConfigStr
    else apiServer +:+ "
        " +:+ kubeConfigStr
  else apiServer.

Definition getKubernetesPluginStr (cfg : EdgeDNSConfig.t) : go (result string) :=
  let! k := deref (EdgeDNSConfig.KubeAPIConfig cfg) in
  let info := mkKubernetesPluginInfo (api_server k) defaultTTL in
  Val (match Parse kubernetesPluginBlock with
       | Err e => Err ("failed to parse kubernetesPluginBlock template, err : " +:+ e)
       | Ok tmpl =>
           match Execute tmpl (plugin_fields info) with
           | Err e => Err ("failed to create kubernetesPlugin template, err : " +:+ e)
           | Ok s => Ok s
           end
       end).

Section corefile.
Context `{RangeOrder}.

(** One block per domain. *)
Fixpoint stub_blocks (domains : list (string * list string)) (info : stubDomainInfo) : result string :=
  match domains with
  | [] => Ok ""
  | (domainName, servers) :: rest =>
      match Parse stubDomainBlock with
      | Err e => Err ("failed to parse stubDomainBlock template, err : " +:+ e)
      | Ok tmpl =>
          let info := mkStubDomainInfo domainName (LocalIP info) (Port info) (CacheTTL info)
                        (Join " " servers) (KubernetesPlugin info) in
          match Execute tmpl (stub_fields info) with
          | Err e => Err ("failed to create stubDomain template, err : " +:+ e)
          | Ok s => match stub_blocks rest info with Ok t => Ok (s +:+ t) | Err e => Err e end
          end
      end
  end.

Definition getStubDomainStr (stubDomainMap : gmap string (list string)) (info : stubDomainInfo) : result string :=
  stub_blocks (range stubDomainMap) info.

(** ** Addresses of DNS servers *)

Definition isValidIP (ip : string) : bool := match ParseIP ip with Some _ => true | None => false end.

Definition isValidPort (port : string) : bool :=
  match Atoi port with
  | None => false
  | Some pnum => (0 <? pnum) && (pnum <? 65536)
  end.

Definition isValidAddress (addr : string) : bool :=
  match Split ":" addr with
  | [ip] => isValidIP ip
  | [ip; port] => isValidIP ip && isValidPort port
  | _ => false
  end.

(** The loop keeps what it has seen in a map. *)
Definition removeDuplicate (ss : list string) : list string :=
  fst (fold_left (fun '(ret, tmp) s =>
         if decide (s ∈ tmp) then (ret, tmp) else (ret ++ [s], {[s]} ∪ tmp)) ss ([], ∅ : gset string)).

(** *** The cluster's DNS services *)

(** [Get]: the ClusterIP of a service by namespace and name; [List]: those of
    the services with label k8s-app=kube-dns. *)
Context (GetService : string -> string -> result string) (ListKubeDNS : result (list string)).

Definition cluster_ip (r : result string) : list string :=
  match r with Ok ip => if negb (String.eqb ip ClusterIPNone) then [ip] else [] | Err _ => [] end.

Definition detectClusterDNS : list string :=
  let servers := cluster_ip (GetService kubeSystem coreDNS) ++ cluster_ip (GetService kubeSystem kubeDNS) ++
    match ListKubeDNS with
    | Ok items => List.filter (fun ip => negb (String.eqb ip ClusterIPNone)) items
    | Err _ => []
    end in
  removeDuplicate servers.

(** The configured servers that are used. *)
Definition configured_servers (servers : list string) : list string :=
  fold_left (fun acc server =>
      let server := TrimSpace server in
      if String.eqb server "" then acc
      else if isValidAddress server then acc ++ [server] else acc)
    servers [].

(** ** Writing the Corefile *)

Context {N : Type} `{HostNet N} (net : N).
(** [ioutil.WriteFile] of the given path and content. *)
Context (WriteFile : string -> string -> result unit).

(** The servers, time to live and plugin text of a cache DNS. *)
Definition cache_settings (c : CacheDNS.t) : result (list string * Z * string) :=
  let upstreamServers :=
    (if CacheDNS.AutoDetect c then detectClusterDNS else []) ++ configured_servers (CacheDNS.UpstreamServers c) in
  let upstreamServers := removeDuplicate upstreamServers in
  if Nat.eqb (length upstreamServers) 0 then Err "failed to get nodelocal dns upstream servers"
  else Ok (upstreamServers, CacheDNS.CacheTTL c, "").

(** The content written, if there was no error. *)
Definition UpdateCorefile (cfg : EdgeDNSConfig.t) : go (result string) :=
  match GetInterfaceIP net (EdgeDNSConfig.ListenInterface cfg) with
  | Err e => Val (Err e)
  | Ok ListenIP =>
      let! plugin := getKubernetesPluginStr cfg in
      match plugin with
      | Err e => Val (Err e)
      | Ok kubernetesPlugin =>
          let! cache := deref (EdgeDNSConfig.CacheDNS cfg) in
          let settings :=
            if CacheDNS.Enable cache then cache_settings cache
            else Ok ([defaultUpstreamServer], defaultTTL, kubernetesPlugin) in
          match settings with
          | Err e => Val (Err e)
          | Ok (upstreamServers, cacheTTL, kubernetesPlugin) =>
              let stubDomainMap : gmap string (list string) := {["." := upstreamServers]} in
              match getStubDomainStr stubDomainMap
                      (mkStubDomainInfo "" (IP_String ListenIP) (Itoa (EdgeDNSConfig.ListenPort cfg)) cacheTTL ""
                         kubernetesPlugin) with
              | Err e => Val (Err e)
              | Ok content =>
                  match WriteFile TempCorefilePath content with
                  | Err e => Val (Err ("failed to write " +:+ TempCorefilePath +:+ ", err " +:+ e))
                  | Ok _ => Val (Ok content)
                  end
              end
          end
      end
  end.
End corefile.

(** ** The module ([module.go], [dns.go]) *)

Record EdgeDNS : Type := mkEdgeDNS { dns_Config : EdgeDNSConfig.t }.

Section dns_module.
Context `{RangeOrder} {N : Type} `{HostNet N}.

(** [update]: [UpdateCorefile] of the configuration. *)
Definition newEdgeDNS (update : EdgeDNSConfig.t -> go (result string)) (c : EdgeDNSConfig.t)
    : go (result EdgeDNS) :=
  if negb (EdgeDNSConfig.Enable c) then Val (Ok (mkEdgeDNS c))
  else
    let! r := update c in
    Val (match r with
         | Err e => Err ("failed to update corefile, err: " +:+ e)
         | Ok _ => Ok (mkEdgeDNS c)
         end).

(** How [Run] goes: the process exits, or CoreDNS serves until it is stopped,
    and the files that were removed before. *)
Inductive dns_run : Type :=
| DnsExit (msg : string)
| DnsServing (removed : list string).

(** [LoadCaddyfile] and [Start]: what CoreDNS answers. *)
Definition EdgeDNS_Run (LoadCaddyfile Start Remove : result unit) (d : EdgeDNS) : go dns_run :=
  let! _ := deref (EdgeDNSConfig.CacheDNS (dns_Config d)) in
  match LoadCaddyfile with
  | Err e => Val (DnsExit e)
  | Ok _ =>
      match Start with
      | Err e => Val (DnsExit e)
      | Ok _ =>
          let! k := deref (EdgeDNSConfig.KubeAPIConfig (dns_Config d)) in
          Val (DnsServing (if KubeAPIConfig.DeleteKubeConfig k
                           then match Remove with Ok _ => [TempKubeConfigPath] | Err _ => [] end
                           else []))
      end
  end.
End dns_module.

(** ** [removeDuplicate] *)

(** Reference: the elements that do not occur before their position. *)
Definition first_occurrences (ss : list string) : list string :=
  omap (fun '(i, s) => if decide (s ∈ take i ss) then None else Some s) (zip (seq 0 (length ss)) ss).

Lemma removeDuplicate_loop ss pre ret tmp :
  (forall s, s ∈ tmp <-> s ∈ pre) ->
  fst (fold_left (fun '(ret, tmp) s =>
         if decide (s ∈ tmp) then (ret, tmp) else (ret ++ [s], {[s]} ∪ tmp)) ss (ret, tmp : gset string)) =
  ret ++ omap (fun '(i, s) => if decide (s ∈ take i (pre ++ ss)) then None else Some s)
           (zip (seq (length pre) (length ss)) ss).
Proof.
  revert pre ret tmp. induction ss as [|s ss IH]; intros pre ret tmp Htmp; cbn [fold_left]; [by rewrite app_nil_r|].
  cbn [length seq zip zip_with omap list_omap].
  assert (Htake : take (length pre) (pre ++ s :: ss) = pre) by apply take_app_length. rewrite Htake.
  replace (pre ++ s :: ss) with ((pre ++ [s]) ++ ss) by (by rewrite <- app_assoc).
  replace (S (length pre)) with (length (pre ++ [s])) by (rewrite length_app; cbn; lia).
  destruct (decide (s ∈ tmp)) as [Hin|Hin].
  - rewrite decide_True by (by apply Htmp). apply IH. set_solver.
  - rewrite decide_False by (by rewrite <- Htmp). rewrite (IH (pre ++ [s])) by set_solver. by rewrite <- app_assoc.
Qed.

Lemma removeDuplicate_ref ss : removeDuplicate ss = first_occurrences ss.
Proof. unfold removeDuplicate, first_occurrences. by rewrite (removeDuplicate_loop ss [] [] ∅) by set_solver. Qed.

(** C39. [removeDuplicate], which remembers the strings seen in a map, returns
    the elements of the list that do not occur earlier in it, in order. *)
Theorem removeDuplicate_first_occurrences ss : removeDuplicate ss = first_occurrences ss.
Proof. apply removeDuplicate_ref. Qed.

Lemma removeDuplicate_spec ss :
  NoDup (removeDuplicate ss) /\ forall s, s ∈ removeDuplicate ss <-> s ∈ ss.
Proof.
  unfold removeDuplicate. assert (Hgen : forall ret (tmp : gset string),
    NoDup ret -> (forall s, s ∈ tmp <-> s ∈ ret) ->
    let ret' := fst (fold_left (fun '(ret, tmp) s =>
         if decide (s ∈ tmp) then (ret, tmp) else (ret ++ [s], {[s]} ∪ tmp)) ss (ret, tmp)) in
    NoDup ret' /\ forall s, s ∈ ret' <-> s ∈ ret \/ s ∈ ss).
  { induction ss as [|s ss IH]; intros ret tmp Hnd Htmp; cbn [fold_left]; [set_solver|].
    destruct (decide (s ∈ tmp)) as [Hin|Hin].
    - destruct (IH ret tmp Hnd Htmp) as [H1 H2]. split; [done|]. set_solver.
    - destruct (IH (ret ++ [s]) ({[s]} ∪ tmp)) as [H1 H2]; [|set_solver|split; [done|set_solver]].
      apply list.NoDup_app. split; [done|]. split; [|apply NoDup_singleton]. set_solver. }
  destruct (Hgen [] ∅) as [H1 H2]; [apply NoDup_nil_2|set_solver|]. split; [done|]. set_solver.
Qed.

(** ** Which addresses are accepted *)

(** The host of an address and, if it has one, its port. *)
Definition address_parts (addr host : string) (port : option string) : Prop :=
  lacks ":" host = true /\
  match port with
  | None => addr = host
  | Some p => lacks ":" p = true /\ addr = host +:+ ":" +:+ p
  end.

Lemma Split_one s w : Split ":" s = [w] <-> lacks ":" s = true /\ w = s.
Proof.
  split.
  - intros E. pose proof (Split_all_lack ":" s) as Hl. rewrite E in Hl. rewrite list.Forall_singleton in Hl.
    pose proof (Join_Split ":" s) as Hj. rewrite E in Hj. cbn in Hj. by subst.
  - intros [Hl ->]. by apply Split_lacks.
Qed.

Lemma Split_two s a b :
  Split ":" s = [a; b] <-> lacks ":" a = true /\ lacks ":" b = true /\ s = a +:+ ":" +:+ b.
Proof.
  split.
  - intros E. pose proof (Split_all_lack ":" s) as Hl. rewrite E in Hl. rewrite !list.Forall_cons in Hl.
    pose proof (Join_Split ":" s) as Hj. rewrite E in Hj. naive_solver.
  - intros (Ha & Hb & ->). rewrite Split_app_sep by done. by rewrite Split_lacks.
Qed.

Lemma isValidAddress_iff addr :
  isValidAddress addr = true <->
  exists host port, address_parts addr host port /\ is_Some (ParseIP host) /\
    match port with
    | None => True
    | Some p => exists n, Atoi p = Some n /\ 1 <= n <= 65535
    end.
Proof.
  assert (Hip : forall ip, isValidIP ip = true <-> is_Some (ParseIP ip)).
  { intros ip. unfold isValidIP. destruct (ParseIP ip); split; intros Hx; done. }
  assert (Hport : forall p, isValidPort p = true <-> exists n, Atoi p = Some n /\ 1 <= n <= 65535).
  { intros p. unfold isValidPort. destruct (Atoi p) as [n|]; [|split; [done|by intros (n & ? & ?)]].
    rewrite andb_true_iff, !Z.ltb_lt. split; [intros; exists n; split; [done|lia] | intros (m & [= ->] & ?); lia]. }
  unfold isValidAddress, address_parts. split.
  - destruct (Split ":" addr) as [|ip [|port [|]]] eqn:E; try done.
    + apply Split_one in E as [Hl ->]. rewrite Hip. intros Hi. by exists addr, None.
    + apply Split_two in E as (Ha & Hb & ->). rewrite andb_true_iff, Hip, Hport. intros [Hi Hp].
      by exists ip, (Some port).
  - intros (host & [p|] & [Hl Hadr] & Hi & Hp).
    + destruct Hadr as [Hlp Hadr]. rewrite (proj2 (Split_two addr host p)) by done.
      by rewrite andb_true_iff, Hip, Hport.
    + subst. rewrite (proj2 (Split_one host host)) by done. by apply Hip.
Qed.

Lemma addr_family_lacks s : lacks ":" s = true -> addr_family s = Some ":"%char -> False.
Proof.
  induction s as [|c s IH]; [done|]. cbn. intros [Hc Hs]%andb_true_iff.
  destruct (Ascii.eqb_spec c ":") as [->|Hne]; [done|]. destruct (Ascii.eqb c ".") eqn:Ed; cbn; [|by apply IH].
  intros [= ->]. done.
Qed.

Lemma ParseIP_no_colon s : lacks ":" s = true -> is_Some (ParseIP s) -> is_Some (parseIPv4 s).
Proof.
  intros Hl. unfold ParseIP. destruct (addr_family s) as [c|] eqn:Ef; [|by intros []].
  destruct (Ascii.eqb_spec c "."); [done|]. exfalso. apply (addr_family_lacks s Hl). rewrite Ef. f_equal.
  clear Hl. induction s as [|d s IH]; [done|]. cbn in Ef.
  destruct (Ascii.eqb_spec d "."), (Ascii.eqb_spec d ":"); cbn in *; simplify_eq; auto.
Qed.

Lemma isValidPort_Itoa n : isValidPort (Itoa n) = (1 <=? n) && (n <=? 65535).
Proof.
  unfold isValidPort, Atoi, ParseInt. rewrite parse_decimal_Itoa. change (2 ^ (64 - 1)) with 9223372036854775808.
  match goal with |- context [if ?b then Some n else None] => destruct b eqn:E end.
  - destruct (Z.ltb_spec 0 n), (Z.ltb_spec n 65536), (Z.leb_spec 1 n), (Z.leb_spec n 65535); try done; lia.
  - apply andb_false_iff in E. symmetry. apply andb_false_iff. rewrite !Z.leb_gt in *. rewrite Z.ltb_ge in E. lia.
Qed.

(** Which upstream addresses are accepted: an IPv4 address with a port
    exactly if the port is between 1 and 65535; and nothing but IPv4 addresses
    without or with such a port, so that no IPv6 upstream can be configured. *)
Theorem isValidAddress_bounds :
  (forall a b c d n, is_u8 a -> is_u8 b -> is_u8 c -> is_u8 d ->
     isValidAddress (dotted a b c d +:+ ":" +:+ Itoa n) = (1 <=? n) && (n <=? 65535)) /\
  (forall addr, isValidAddress addr = true ->
     exists host port, address_parts addr host port /\ is_Some (parseIPv4 host) /\
       match port with None => True | Some p => exists n, Atoi p = Some n /\ 1 <= n <= 65535 end).
Proof.
  split.
  - intros a b c d n Ha Hb Hc Hd. unfold isValidAddress.
    rewrite (proj2 (Split_two _ (dotted a b c d) (Itoa n))).
    + unfold isValidIP. by rewrite (ParseIP_dotted a b c d Ha Hb Hc Hd), isValidPort_Itoa.
    + split; [apply dotted_lacks; vm_compute; tauto|]. split; [apply Itoa_lacks; vm_compute; tauto|done].
  - intros addr Hv. apply isValidAddress_iff in Hv as (host & port & Hp & Hi & Hn). exists host, port.
    split; [done|]. split; [|done]. apply ParseIP_no_colon; [apply Hp|done].
Qed.

(** ** The Corefile *)

(** The lines of a server block, written out. *)
Definition corefile_text (listenIP : string) (port ttl : Z) (servers : list string) (plugin : string) : string :=
  ".:" +:+ Itoa port +:+ " {
    bind " +:+ listenIP +:+ "
    cache " +:+ Itoa ttl +:+ "
    errors
    forward . " +:+ Join " " servers +:+ " {
        force_tcp
    }
    " +:+ plugin +:+ "
    log
    loop
    reload
}
".

Definition plugin_text (k : KubeAPIConfig.t) : string :=
  "kubernetes cluster.local in-addr.arpa ip6.arpa {
        " +:+ api_server k +:+ "
        pods insecure
        fallthrough in-addr.arpa ip6.arpa
        ttl 30
    }".

Lemma getKubernetesPluginStr_text cfg k :
  EdgeDNSConfig.KubeAPIConfig cfg = Some k -> getKubernetesPluginStr cfg = Val (Ok (plugin_text k)).
Proof.
  intros Hk. unfold getKubernetesPluginStr. rewrite Hk. cbn [mbind go_bind deref].
  replace (Parse kubernetesPluginBlock) with
    (Ok [Text "kubernetes cluster.local in-addr.arpa ip6.arpa {
        "; Field "APIServer"; Text "
        pods insecure
        fallthrough in-addr.arpa ip6.arpa
        ttl "; Field "TTL"; Text "
    }"]) by (vm_compute; reflexivity).
  cbn -[api_server Itoa]. done.
Qed.

Section corefile_facts.
Context `{RangeOrder}.

Lemma getStubDomainStr_text servers listenIP port ttl plugin :
  getStubDomainStr {["." := servers]} (mkStubDomainInfo "" listenIP (Itoa port) ttl "" plugin) =
  Ok (corefile_text listenIP port ttl servers plugin).
Proof.
  unfold getStubDomainStr.
  assert (Hr : range ({["." := servers]} : gmap string (list string)) = [(".", servers)]).
  { apply Permutation_singleton_r. by rewrite range_perm, map_to_list_singleton. }
  rewrite Hr. cbn [stub_blocks].
  replace (Parse stubDomainBlock) with
    (Ok [Text ""; Field "DomainName"; Text ":"; Field "Port"; Text " {
    bind "; Field "LocalIP"; Text "
    cache "; Field "CacheTTL"; Text "
    errors
    forward . "; Field "UpstreamServers"; Text " {
        force_tcp
    }
    "; Field "KubernetesPlugin"; Text "
    log
    loop
    reload
}
"]) by (vm_compute; reflexivity).
  cbn -[Itoa Join]. f_equal. unfold corefile_text. rewrite string_app_nil_r. done.
Qed.

(** The configured servers in use: trimmed, and valid, which no empty string is. *)
Definition usable_servers (servers : list string) : list string := List.filter isValidAddress (map TrimSpace servers).

Lemma configured_servers_usable servers : configured_servers servers = usable_servers servers.
Proof.
  unfold configured_servers, usable_servers.
  assert (Hgen : forall acc, fold_left (fun acc server => let server := TrimSpace server in
      if String.eqb server "" then acc else if isValidAddress server then acc ++ [server] else acc) servers acc =
    acc ++ List.filter isValidAddress (map TrimSpace servers)); [|apply Hgen].
  induction servers as [|w servers IH]; intros acc; cbn [fold_left map List.filter]; [by rewrite app_nil_r|].
  destruct (String.eqb_spec (TrimSpace w) "") as [E|E]; [rewrite E; apply IH|].
  destruct (isValidAddress (TrimSpace w)); rewrite IH; [by rewrite <- app_assoc|done].
Qed.

(** The addresses of the cluster's DNS services, as they are found. *)
Definition cluster_servers (GetService : string -> string -> result string) (ListKubeDNS : result (list string))
    : list string :=
  cluster_ip (GetService kubeSystem coreDNS) ++ cluster_ip (GetService kubeSystem kubeDNS) ++
  match ListKubeDNS with
  | Ok items => List.filter (fun ip => negb (String.eqb ip ClusterIPNone)) items
  | Err _ => []
  end.

Context {N : Type} `{HostNet N}.

(** C19. The Corefile of a node whose device has address [ip], when it can be
    written.  Without cache it forwards to /etc/resolv.conf and has the
    Kubernetes plugin for the API server of the configuration.  As a cache it
    has no plugin and forwards to the cluster's DNS services, if they are to
    be detected, followed by the valid configured servers, each once and in
    this order; if there are none, an error is returned and nothing is
    written. *)
Theorem UpdateCorefile_outcome GetService ListKubeDNS (net : N) WriteFile cfg k cache ip :
  EdgeDNSConfig.KubeAPIConfig cfg = Some k -> EdgeDNSConfig.CacheDNS cfg = Some cache ->
  GetInterfaceIP net (EdgeDNSConfig.ListenInterface cfg) = Ok ip ->
  (forall content, WriteFile TempCorefilePath content = Ok tt) ->
  let servers := first_occurrences
    ((if CacheDNS.AutoDetect cache then first_occurrences (cluster_servers GetService ListKubeDNS) else []) ++
     usable_servers (CacheDNS.UpstreamServers cache)) in
  let corefile := corefile_text (IP_String ip) (EdgeDNSConfig.ListenPort cfg) in
  UpdateCorefile GetService ListKubeDNS net WriteFile cfg =
    Val (if negb (CacheDNS.Enable cache) then Ok (corefile 30 ["/etc/resolv.conf"] (plugin_text k))
         else if bool_decide (servers = []) then Err "failed to get nodelocal dns upstream servers"
         else Ok (corefile (CacheDNS.CacheTTL cache) servers "")).
Proof.
  intros Hk Hc Hip Hw servers corefile. unfold UpdateCorefile. rewrite Hip, (getKubernetesPluginStr_text cfg k Hk), Hc.
  cbn [mbind go_bind deref]. destruct (CacheDNS.Enable cache); cbn [negb];
    [|by rewrite getStubDomainStr_text, Hw]. unfold cache_settings, detectClusterDNS. fold (cluster_servers GetService ListKubeDNS).
  rewrite !removeDuplicate_ref, configured_servers_usable. fold servers.
  destruct servers as [|s ss] eqn:Es; [done|]. cbn [length Nat.eqb]. rewrite getStubDomainStr_text, Hw. done.
Qed.
End corefile_facts.

Definition demo_net : host := match CreateEdgeMeshDevice (∅ : host) "edgemesh0" "169.254.96.16" with Val (n, _) => n | Panic _ => ∅ end.
Definition demo_dns : EdgeDNSConfig.t :=
  EdgeDNSConfig.mk true (Some (defaultKubeConfig init_globals)) "edgemesh0" 53
    (Some (CacheDNS.mk true true [" 10.96.0.10 "; ""; "8.8.8.8:53"; "::1"; "8.8.8.8:0"] 60)).
Definition demo_services (namespace name : string) : result string :=
  if String.eqb name "kube-dns" then Ok "10.96.0.10" else Err "not found".

Lemma UpdateCorefile_outcome_witness :
  UpdateCorefile demo_services (Ok ["10.96.0.10"; "None"]) demo_net (fun _ _ => Ok tt) demo_dns =
  Val (Ok (corefile_text "169.254.96.16" 53 60 ["10.96.0.10"; "8.8.8.8:53"] "")).
Proof.
  etransitivity.
  - apply (UpdateCorefile_outcome demo_services (Ok ["10.96.0.10"; "None"]) demo_net (fun _ _ => Ok tt) demo_dns
             (defaultKubeConfig init_globals) (CacheDNS.mk true true [" 10.96.0.10 "; ""; "8.8.8.8:53"; "::1"; "8.8.8.8:0"] 60)
             (v4InV6Prefix ++ [169; 254; 96; 16])); [reflexivity|reflexivity|vm_compute; reflexivity|reflexivity].
  - vm_compute. reflexivity.
Defined.
