(* ===== verification/RecycleBuffer.v ===== *)
(** * The recycle byte buffer

    [src/pkg/util/tunutils/bytebuffer.go] declares the interface [ByteBuffer]
    and [recycle_bytebuffer.go] its only implementation, a ring buffer over a
    fixed slice.  The interface is the class [ByteBuffer]; what its users rely
    on is the class [ByteBufferSpec], a bounded FIFO queue of bytes with a
    restore point.  [RecycleByteBuffer] is shown to implement it. *)

From Stdlib Require Import ZArith Lia.
From stdpp Require Import base list list_numbers option.
From S2P Require Import Prelude.

Local Open Scope Z_scope.

(** ** The interface *)

Class ByteBuffer (B : Type) : Type := {
  bb_Write : B -> list Z -> go B;
  bb_Read : B -> list Z -> go (B * list Z * Z);
  bb_Capacity : B -> Z;
  bb_ReadableBytes : B -> Z;
  bb_ReadIndex : B -> Z;
  bb_WriteIndex : B -> Z;
  bb_Mark : B -> B;
  bb_Recover : B -> B;
  bb_Clean : B -> B
}.

(** What a buffer promises its clients: [bb_contents] is the queue, [bb_wf]
    the representation invariant, [bb_marked b q] says that [Recover] would
    bring back the queue [q]. *)
Class ByteBufferSpec (B : Type) `{ByteBuffer B} : Type := {
  bb_wf : B -> Prop;
  bb_contents : B -> list Z;
  bb_marked : B -> list Z -> Prop;
  bb_readable_spec : forall b, bb_wf b -> bb_ReadableBytes b = zlen (bb_contents b);
  bb_write_spec : forall b src, bb_wf b ->
    exists b', bb_Write b src = Val b' /\ bb_wf b' /\ bb_Capacity b' = bb_Capacity b /\
      bb_contents b' = bb_contents b ++
        take (Z.to_nat (bb_Capacity b - zlen (bb_contents b))) src;
  bb_read_spec : forall b dst, bb_wf b ->
    exists b' n, bb_Read b dst =
        Val (b', take (Z.to_nat n) (bb_contents b) ++ drop (Z.to_nat n) dst, n) /\
      n = Z.min (zlen (bb_contents b)) (zlen dst) /\
      bb_wf b' /\ bb_Capacity b' = bb_Capacity b /\
      bb_contents b' = drop (Z.to_nat n) (bb_contents b) /\
      (forall q, bb_marked b q -> bb_marked b' q);
  bb_mark_spec : forall b, bb_wf b ->
    bb_wf (bb_Mark b) /\ bb_contents (bb_Mark b) = bb_contents b /\
    bb_Capacity (bb_Mark b) = bb_Capacity b /\
    bb_marked (bb_Mark b) (bb_contents b);
  bb_recover_spec : forall b q, bb_wf b -> bb_marked b q ->
    bb_wf (bb_Recover b) /\ bb_contents (bb_Recover b) = q /\
    bb_Capacity (bb_Recover b) = bb_Capacity b /\ bb_marked (bb_Recover b) q;
  bb_clean_spec : forall b, bb_wf b ->
    bb_wf (bb_Clean b) /\ bb_contents (bb_Clean b) = [] /\
    bb_Capacity (bb_Clean b) = bb_Capacity b
}.

(** ** The implementation *)

Module Recycle.

Record RecycleByteBuffer : Type := mkRecycleByteBuffer {
  mem : list Z;
  capacity : Z;
  readableBytes : Z;
  readIndex : Z;
  writeIndex : Z;
  markReadableBytes : Z;
  markReadIndex : Z;
  markWriteIndex : Z
}.

Definition set_write (b : RecycleByteBuffer) (m : list Z) (wi rb : Z) : RecycleByteBuffer :=
  mkRecycleByteBuffer m (capacity b) rb (readIndex b) wi
    (markReadableBytes b) (markReadIndex b) (markWriteIndex b).

Definition set_read (b : RecycleByteBuffer) (ri rb : Z) : RecycleByteBuffer :=
  mkRecycleByteBuffer (mem b) (capacity b) rb ri (writeIndex b)
    (markReadableBytes b) (markReadIndex b) (markWriteIndex b).

Definition Write (buffer : RecycleByteBuffer) (src : list Z) : go RecycleByteBuffer :=
  let srcLen := zlen src in
  let remainSpace := capacity buffer - readableBytes buffer in
  let actualWritableLen := if remainSpace <=? srcLen then remainSpace else srcLen in
  let tailLen := capacity buffer - writeIndex buffer in
  if tailLen <=? actualWritableLen then
    let tailWritableLen := tailLen in
    let headWritableLen := actualWritableLen - tailWritableLen in
    let! s1 := go_slice src 0 tailWritableLen in
    let! m1 := go_copy (mem buffer) (writeIndex buffer) (zlen (mem buffer)) s1 in
    let! s2 := go_slice src tailWritableLen actualWritableLen in
    let! m2 := go_copy m1 0 headWritableLen s2 in
    Val (set_write buffer m2 headWritableLen (readableBytes buffer + actualWritableLen))
  else
    let! s := go_slice src 0 actualWritableLen in
    let! m := go_copy (mem buffer) (writeIndex buffer) (writeIndex buffer + actualWritableLen) s in
    Val (set_write buffer m (writeIndex buffer + actualWritableLen)
           (readableBytes buffer + actualWritableLen)).

Definition Read (buffer : RecycleByteBuffer) (dst : list Z)
    : go (RecycleByteBuffer * list Z * Z) :=
  if readableBytes buffer <=? 0 then Val (buffer, dst, 0) else
  let dstLen := zlen dst in
  let actualReadLen :=
    if readableBytes buffer <=? dstLen then readableBytes buffer else dstLen in
  let tailLen := capacity buffer - readIndex buffer in
  if tailLen <=? actualReadLen then
    let tailReadableLen := tailLen in
    let headReadableLen := actualReadLen - tailReadableLen in
    let! s1 := go_slice (mem buffer) (readIndex buffer) (zlen (mem buffer)) in
    let! d1 := go_copy dst 0 tailReadableLen s1 in
    let! s2 := go_slice (mem buffer) 0 headReadableLen in
    let! d2 := go_copy d1 tailReadableLen actualReadLen s2 in
    Val (set_read buffer headReadableLen (readableBytes buffer - actualReadLen),
         d2, actualReadLen)
  else
    let! s := go_slice (mem buffer) (readIndex buffer) (readIndex buffer + actualReadLen) in
    let! d := go_copy dst 0 actualReadLen s in
    Val (set_read buffer (readIndex buffer + actualReadLen)
           (readableBytes buffer - actualReadLen), d, actualReadLen).

Definition Capacity (buffer : RecycleByteBuffer) : Z := capacity buffer.
Definition ReadableBytes (buffer : RecycleByteBuffer) : Z := readableBytes buffer.
Definition ReadIndex (buffer : RecycleByteBuffer) : Z := readIndex buffer.
Definition WriteIndex (buffer : RecycleByteBuffer) : Z := writeIndex buffer.

Definition Mark (buffer : RecycleByteBuffer) : RecycleByteBuffer :=
  mkRecycleByteBuffer (mem buffer) (capacity buffer) (readableBytes buffer)
    (readIndex buffer) (writeIndex buffer)
    (readableBytes buffer) (readIndex buffer) (writeIndex buffer).

Definition Recover (buffer : RecycleByteBuffer) : RecycleByteBuffer :=
  mkRecycleByteBuffer (mem buffer) (capacity buffer) (markReadableBytes buffer)
    (markReadIndex buffer) (markWriteIndex buffer)
    (markReadableBytes buffer) (markReadIndex buffer) (markWriteIndex buffer).

Definition Clean (buffer : RecycleByteBuffer) : RecycleByteBuffer :=
  mkRecycleByteBuffer (mem buffer) (capacity buffer) 0 0 0
    (markReadableBytes buffer) (markReadIndex buffer) (markWriteIndex buffer).

Definition NewRecycleByteBuffer (size : Z) : go RecycleByteBuffer :=
  let! m := go_make 0 size in
  Val (mkRecycleByteBuffer m size 0 0 0 0 0 0).

(** ** Representation invariant and abstraction *)

(** The indices of a window of [rb] bytes starting at [ri] in a ring of [c]. *)
Definition window_ok (c ri wi rb : Z) : Prop :=
  0 <= rb <= c /\ 0 <= ri /\ (ri < c \/ c = 0 /\ ri = 0) /\
  wi = if ri + rb <? c then ri + rb else ri + rb - c.

Definition wf (b : RecycleByteBuffer) : Prop :=
  zlen (mem b) = capacity b /\
  window_ok (capacity b) (readIndex b) (writeIndex b) (readableBytes b).

Definition window (m : list Z) (ri rb : Z) : list Z :=
  take (Z.to_nat rb) (drop (Z.to_nat ri) m ++ take (Z.to_nat ri) m).

Definition contents (b : RecycleByteBuffer) : list Z :=
  window (mem b) (readIndex b) (readableBytes b).

(** [Recover] would restore the queue [q]. *)
Definition marked (b : RecycleByteBuffer) (q : list Z) : Prop :=
  window_ok (capacity b) (markReadIndex b) (markWriteIndex b) (markReadableBytes b) /\
  window (mem b) (markReadIndex b) (markReadableBytes b) = q.

Lemma window_lookup m ri wi rb i :
  window_ok (zlen m) ri wi rb ->
  window m ri rb !! i =
  if decide (Z.of_nat i < rb)
  then m !! (if decide (ri + Z.of_nat i < zlen m)
             then (Z.to_nat ri + i)%nat else (Z.to_nat ri + i - length m)%nat)
  else None.
Proof.
  intros (Hrb & Hri & Hlt & _). unfold window, zlen in *. case_decide as Hi.
  - rewrite lookup_take_lt by lia. case_decide.
    + rewrite lookup_app_l by (rewrite length_drop; lia). by rewrite lookup_drop.
    + rewrite lookup_app_r by (rewrite length_drop; lia).
      rewrite length_drop, lookup_take_lt by lia. f_equal. lia.
  - apply lookup_take_ge. lia.
Qed.

Lemma window_length m ri wi rb :
  window_ok (zlen m) ri wi rb -> zlen (window m ri rb) = rb.
Proof.
  intros (Hrb & Hri & Hlt & _). unfold window, zlen in *.
  rewrite length_take, length_app, length_drop, length_take. lia.
Qed.

Lemma window_app m m' ri wi rb a src t h :
  window_ok (zlen m) ri wi rb -> length m' = length m ->
  0 <= a <= zlen src -> rb + a <= zlen m ->
  0 <= t -> 0 <= h -> a = t + h ->
  wi + t <= zlen m -> (h = 0 \/ wi + t = zlen m) ->
  (forall j, m' !! j =
     if decide (j < Z.to_nat h)%nat then src !! (Z.to_nat t + j)%nat else
     if decide (Z.to_nat wi <= j < Z.to_nat wi + Z.to_nat t)%nat
     then src !! (j - Z.to_nat wi)%nat else m !! j) ->
  window m' ri (rb + a) = window m ri rb ++ take (Z.to_nat a) src.
Proof.
  intros Hok Hlen Ha Hrb Ht Hh Hath Hwt Hend Hm'. pose proof Hok as (Hrb0 & Hri & Hlt & Hwi).
  assert (Hlen' : zlen m' = zlen m) by (unfold zlen; by rewrite Hlen).
  assert (Hok' : window_ok (zlen m') ri (if ri + (rb + a) <? zlen m' then ri + (rb + a)
            else ri + (rb + a) - zlen m') (rb + a)).
  { rewrite Hlen'. split_and!; try done; lia. }
  assert (Hn : length (window m ri rb) = Z.to_nat rb).
  { pose proof (window_length _ _ _ _ Hok). unfold zlen in *. lia. }
  apply list_eq. intros i. rewrite (window_lookup m' _ _ _ _ Hok'), Hlen', Hlen.
  destruct (decide (Z.of_nat i < rb)) as [Hi|Hi].
  - rewrite lookup_app_l by lia. rewrite (window_lookup m _ _ _ _ Hok), Hm'. unfold zlen in *.
    destruct (ri + rb <? Z.of_nat (length m)) eqn:E; zbool; repeat case_decide; try lia; done.
  - rewrite lookup_app_r, Hn by lia. case_decide as Hi2.
    + rewrite lookup_take_lt by lia. rewrite Hm'. unfold zlen in *.
      destruct (ri + rb <? Z.of_nat (length m)) eqn:E; zbool; repeat case_decide; try lia;
        f_equal; lia.
    + symmetry. apply lookup_take_ge. lia.
Qed.

(** Overwriting the segment [lo, hi) of a slice. *)
Lemma copy_lookup (m src : list Z) lo hi :
  0 <= lo <= hi -> hi <= zlen m -> zlen src = hi - lo ->
  exists m', go_copy m lo hi src = Val m' /\ length m' = length m /\
  forall j, m' !! j = if decide (Z.to_nat lo <= j < Z.to_nat lo + length src)%nat
                     then src !! (j - Z.to_nat lo)%nat else m !! j.
Proof.
  intros Hlo Hhi Hsrc. rewrite go_copy_ok by done. eexists. split; [done|].
  assert (Z.to_nat hi = Z.to_nat lo + length src)%nat as -> by (unfold zlen in *; lia).
  unfold zlen in *. split.
  - rewrite !length_app, length_take, length_drop. lia.
  - intros j. apply lookup_splice. lia.
Qed.

Lemma window_ok_empty c : 0 <= c -> window_ok c 0 0 0.
Proof. intros Hc. split_and!; try lia. destruct (_ <? _) eqn:E; zbool; lia. Qed.

Lemma window_ok_write c ri wi rb a :
  window_ok c ri wi rb -> 0 <= a -> rb + a <= c ->
  window_ok c ri (if c - wi <=? a then a - (c - wi) else wi + a) (rb + a).
Proof.
  intros (Hrb & Hri & Hlt & ->) Ha Hc. split_and!; try lia.
  destruct (ri + rb <? c) eqn:E1; zbool;
    destruct (_ <=? a) eqn:E2; zbool; destruct (ri + (rb + a) <? c) eqn:E3; zbool; lia.
Qed.

Lemma window_ok_read c ri wi rb a :
  window_ok c ri wi rb -> 0 <= a <= rb ->
  window_ok c (if c - ri <=? a then a - (c - ri) else ri + a) wi (rb - a).
Proof.
  intros (Hrb & Hri & Hlt & ->) Ha.
  destruct (c - ri <=? a) eqn:E2; zbool; split_and!; try lia;
    repeat match goal with |- context [?x <? ?y] => destruct (x <? y) eqn:?; zbool end; lia.
Qed.

Lemma Write_correct b src :
  wf b ->
  exists b', Write b src = Val b' /\ wf b' /\ capacity b' = capacity b /\
    contents b' = contents b ++ take (Z.to_nat (capacity b - zlen (contents b))) src.
Proof.
  intros [Hmem Hok]. pose proof Hok as (Hrb & Hri & Hlt & Hwi). unfold Write, contents.
  rewrite <- Hmem in Hok. rewrite (window_length _ _ _ _ Hok). rewrite Hmem in Hok.
  set (rem := capacity b - readableBytes b).
  set (a := if rem <=? zlen src then rem else zlen src).
  pose proof (zlen_nonneg src).
  assert (0 <= a <= zlen src /\ readableBytes b + a <= capacity b /\
               take (Z.to_nat rem) src = take (Z.to_nat a) src) as (Ha & Hac & ->).
  { subst a rem. destruct (_ <=? zlen src) eqn:E; zbool; split_and!; try lia; [done|].
    unfold zlen in *. rewrite !take_ge by lia. done. }
  assert (Hw0 : 0 <= writeIndex b <= capacity b).
  { rewrite Hwi. destruct (_ <? _) eqn:E; zbool; lia. }
  pose proof (window_ok_write _ _ _ _ a Hok (proj1 Ha) Hac) as Hok'.
  destruct (capacity b - writeIndex b <=? a) eqn:E; zbool.
  - set (t := capacity b - writeIndex b) in *. rewrite go_slice_prefix by lia. simpl.
    destruct (copy_lookup (mem b) (take (Z.to_nat t) src) (writeIndex b) (zlen (mem b)))
      as (m1 & -> & Hl1 & Hm1); [rewrite ?zlen_take; lia ..|]. simpl.
    rewrite go_slice_ok by lia. simpl.
    destruct (copy_lookup m1 (take (Z.to_nat (a - t)) (drop (Z.to_nat t) src)) 0 (a - t))
      as (m2 & -> & Hl2 & Hm2);
      [rewrite ?zlen_take, ?zlen_drop; unfold zlen in *; lia ..|]. simpl.
    eexists. split; [done|]. split; [split; [unfold zlen in *; simpl; lia|exact Hok']|].
    split; [done|]. simpl. rewrite <- Hmem in Hok.
    apply (window_app _ _ _ _ _ _ _ t (a - t) Hok); try (unfold zlen in *; lia).
    intros j. rewrite Hm2, Hm1, !length_take, !length_drop. unfold zlen in *.
    repeat case_decide; try lia; rewrite ?lookup_take_lt, ?lookup_drop by lia; f_equal; lia.
  - rewrite go_slice_prefix by lia. simpl.
    destruct (copy_lookup (mem b) (take (Z.to_nat a) src) (writeIndex b) (writeIndex b + a))
      as (m1 & -> & Hl1 & Hm1); [rewrite ?zlen_take; lia ..|]. simpl.
    eexists. split; [done|]. split; [split; [unfold zlen in *; simpl; lia|exact Hok']|].
    split; [done|]. simpl. rewrite <- Hmem in Hok.
    apply (window_app _ _ _ _ _ _ _ a 0 Hok); try (unfold zlen in *; lia).
    intros j. rewrite Hm1, !length_take. unfold zlen in *.
    repeat case_decide; try lia; rewrite ?lookup_take_lt by lia; done.
Qed.

(** Dropping the first [a] bytes of a window. *)
Lemma window_drop m ri wi rb a :
  window_ok (zlen m) ri wi rb -> 0 <= a <= rb ->
  window m (if zlen m - ri <=? a then a - (zlen m - ri) else ri + a) (rb - a) =
  drop (Z.to_nat a) (window m ri rb).
Proof.
  intros Hok Ha. pose proof Hok as (Hrb & Hri & Hlt & _). apply list_eq. intros i.
  rewrite lookup_drop, (window_lookup m _ _ _ _ Hok).
  rewrite (window_lookup m _ _ _ _ (window_ok_read _ _ _ _ _ Hok Ha)). unfold zlen in *.
  destruct (_ <=? a) eqn:E; zbool; repeat case_decide; try lia; f_equal; lia.
Qed.

(** The two segments copied out by a read are the first bytes of the window. *)
Lemma window_take m ri wi rb a :
  window_ok (zlen m) ri wi rb -> 0 <= a <= rb ->
  take (Z.to_nat a) (window m ri rb) =
  if zlen m - ri <=? a then drop (Z.to_nat ri) m ++ take (Z.to_nat (a - (zlen m - ri))) m
  else take (Z.to_nat a) (drop (Z.to_nat ri) m).
Proof.
  intros (Hrb & Hri & Hlt & _) Ha. unfold window, zlen in *. rewrite take_take, Nat.min_l by lia.
  destruct (_ <=? a) eqn:E; zbool.
  - rewrite take_app, take_ge by (rewrite length_drop; lia). f_equal.
    rewrite take_take, length_drop. f_equal. lia.
  - rewrite take_app_le by (rewrite length_drop; lia). done.
Qed.

Lemma Read_correct b dst :
  wf b ->
  exists b' n, Read b dst = Val (b', take (Z.to_nat n) (contents b) ++ drop (Z.to_nat n) dst, n) /\
    n = Z.min (zlen (contents b)) (zlen dst) /\
    wf b' /\ capacity b' = capacity b /\ contents b' = drop (Z.to_nat n) (contents b) /\
    (forall q, marked b q -> marked b' q).
Proof.
  intros [Hmem Hok]. pose proof Hok as (Hrb & Hri & Hlt & Hwi). unfold Read, contents.
  rewrite <- Hmem in Hok. rewrite (window_length _ _ _ _ Hok).
  pose proof (zlen_nonneg dst).
  destruct (readableBytes b <=? 0) eqn:E0; zbool.
  { exists b, 0. split; [done|]. split; [lia|]. split; [|done]. by rewrite Hmem in Hok. }
  set (n := Z.min (readableBytes b) (zlen dst)).
  assert ((if readableBytes b <=? zlen dst then readableBytes b else zlen dst) = n) as ->.
  { subst n. destruct (_ <=? zlen dst) eqn:E; zbool; lia. }
  assert (Hn : 0 <= n <= readableBytes b /\ n <= zlen dst) by lia.
  pose proof (window_ok_read _ _ _ _ n Hok (proj1 Hn)) as Hok'.
  pose proof (window_take _ _ _ _ _ Hok (proj1 Hn)) as Htake.
  pose proof (window_drop _ _ _ _ _ Hok (proj1 Hn)) as Hdrop.
  rewrite Hmem in Hok', Htake, Hdrop.
  destruct (capacity b - readIndex b <=? n) eqn:E; zbool.
  - set (t := capacity b - readIndex b) in *.
    rewrite go_slice_suffix by lia. simpl.
    rewrite go_copy_ok by (rewrite ?zlen_drop; lia). simpl.
    rewrite go_slice_prefix by lia. simpl.
    rewrite go_copy_ok by (autorewrite with zlen; lia). simpl.
    exists (set_read b (n - t) (readableBytes b - n)), n. split; [|done].
    rewrite Htake. do 3 f_equal. rewrite take_app_length' by (rewrite length_drop; unfold zlen in *; lia).
    rewrite <- app_assoc. do 2 f_equal. rewrite drop_app_ge by (rewrite length_drop; unfold zlen in *; lia).
    rewrite drop_drop, length_drop. f_equal. unfold zlen in *. lia.
  - rewrite go_slice_ok by lia. simpl. replace (readIndex b + n - readIndex b) with n by lia.
    rewrite go_copy_ok by (autorewrite with zlen; lia). simpl.
    exists (set_read b (readIndex b + n) (readableBytes b - n)), n. by rewrite Htake.
Qed.

(** The mark is that of a ring, also if what it marks was overwritten. *)
Definition mark_ok (b : RecycleByteBuffer) : Prop :=
  window_ok (capacity b) (markReadIndex b) (markWriteIndex b) (markReadableBytes b).

Lemma Write_mark b src b' : Write b src = Val b' -> mark_ok b -> mark_ok b'.
Proof.
  unfold Write. intros Hw. destruct (_ <=? _) in Hw;
    repeat (apply go_bind_Val_inv in Hw as (? & _ & Hw)); by injection Hw as <-.
Qed.

Lemma Read_mark b dst b' dst' n : Read b dst = Val (b', dst', n) -> mark_ok b -> mark_ok b'.
Proof.
  unfold Read. intros Hr. destruct (_ <=? 0) in Hr; [by injection Hr as <-|]. destruct (_ <=? _) in Hr;
    repeat (apply go_bind_Val_inv in Hr as (? & _ & Hr)); by injection Hr as <-.
Qed.

Lemma NewRecycleByteBuffer_correct size :
  0 <= size ->
  exists b, NewRecycleByteBuffer size = Val b /\ wf b /\ capacity b = size /\ contents b = [] /\ mark_ok b.
Proof.
  intros Hs. unfold NewRecycleByteBuffer, go_make. rewrite (proj2 (Z.leb_le _ _) Hs). simpl.
  eexists. split_and!; [done| |done|done|by apply window_ok_empty]. split; simpl.
  - rewrite zlen_replicate. lia.
  - by apply window_ok_empty.
Qed.

End Recycle.

(** ** The implementation meets the interface *)

#[export] Instance recycle_buffer : ByteBuffer Recycle.RecycleByteBuffer := {|
  bb_Write := Recycle.Write;
  bb_Read := Recycle.Read;
  bb_Capacity := Recycle.Capacity;
  bb_ReadableBytes := Recycle.ReadableBytes;
  bb_ReadIndex := Recycle.ReadIndex;
  bb_WriteIndex := Recycle.WriteIndex;
  bb_Mark := Recycle.Mark;
  bb_Recover := Recycle.Recover;
  bb_Clean := Recycle.Clean
|}.

#[export] Program Instance recycle_buffer_spec : ByteBufferSpec Recycle.RecycleByteBuffer := {|
  bb_wf := Recycle.wf;
  bb_contents := Recycle.contents;
  bb_marked := Recycle.marked
|}.
Next Obligation.
  intros b [Hmem Hok]. rewrite <- Hmem in Hok. symmetry. by eapply Recycle.window_length.
Qed.
Next Obligation. intros b src. apply Recycle.Write_correct. Qed.
Next Obligation. intros b dst. apply Recycle.Read_correct. Qed.
Next Obligation. intros b [Hmem Hok]. done. Qed.
Next Obligation. intros b q [Hmem Hok] [Hm Hq]. done. Qed.
Next Obligation.
  intros b [Hmem (Hrb & Hri & Hlt & Hwi)]. split; [|done]. split; simpl; [done|].
  apply Recycle.window_ok_empty. lia.
Qed.

(** ** Refinement: a buffer is a bounded FIFO queue

    A client's session with a buffer is a sequence of operations; after each
    one the client sees the bytes it was given and the number still readable. *)

Inductive buf_op : Type :=
| OpWrite (src : list Z)
| OpRead (dst : list Z)
| OpMark
| OpRecover
| OpClean.

Section session.
Context {B : Type} `{ByteBuffer B}.

Definition buf_step (b : B) (o : buf_op) : go (B * list Z) :=
  match o with
  | OpWrite src => let! b' := bb_Write b src in Val (b', [])
  | OpRead dst => let! (b', dst', _) := bb_Read b dst in Val (b', dst')
  | OpMark => Val (bb_Mark b, [])
  | OpRecover => Val (bb_Recover b, [])
  | OpClean => Val (bb_Clean b, [])
  end.

Fixpoint buf_run (b : B) (ops : list buf_op) : go (B * list (list Z * Z)) :=
  match ops with
  | [] => Val (b, [])
  | o :: ops =>
      let! (b', out) := buf_step b o in
      let! (b'', outs) := buf_run b' ops in
      Val (b'', (out, bb_ReadableBytes b') :: outs)
  end.
End session.

(** The queue: its capacity, its bytes, and what a restore would bring back.
    A write may overwrite marked bytes, so it ends the life of the mark;
    restoring without a mark is not allowed. *)
Record queue : Type := mkQueue { q_cap : Z; q_bytes : list Z; q_saved : option (list Z) }.

Definition queue_step (q : queue) (o : buf_op) : option (queue * list Z) :=
  match o with
  | OpWrite src =>
      Some (mkQueue (q_cap q) (q_bytes q ++ take (Z.to_nat (q_cap q - zlen (q_bytes q))) src) None, [])
  | OpRead dst =>
      let n := length dst in
      Some (mkQueue (q_cap q) (drop n (q_bytes q)) (q_saved q),
            take n (q_bytes q) ++ drop (length (q_bytes q)) dst)
  | OpMark => Some (mkQueue (q_cap q) (q_bytes q) (Some (q_bytes q)), [])
  | OpRecover => match q_saved q with
                 | Some s => Some (mkQueue (q_cap q) s (Some s), [])
                 | None => None
                 end
  | OpClean => Some (mkQueue (q_cap q) [] None, [])
  end.

Fixpoint queue_run (q : queue) (ops : list buf_op) : option (queue * list (list Z * Z)) :=
  match ops with
  | [] => Some (q, [])
  | o :: ops =>
      match queue_step q o with
      | None => None
      | Some (q', out) =>
          match queue_run q' ops with
          | None => None
          | Some (q'', outs) => Some (q'', (out, zlen (q_bytes q')) :: outs)
          end
      end
  end.

Section refinement.
Context {B : Type} `{ByteBufferSpec B}.

Definition buf_rel (b : B) (q : queue) : Prop :=
  bb_wf b /\ bb_Capacity b = q_cap q /\ bb_contents b = q_bytes q /\
  match q_saved q with Some s => bb_marked b s | None => True end.

Lemma buf_step_sim b q o q' out :
  buf_rel b q -> queue_step q o = Some (q', out) ->
  exists b', buf_step b o = Val (b', out) /\ buf_rel b' q'.
Proof.
  intros (Hwf & Hcap & Hq & Hs) Hstep. destruct o as [src|dst| | |]; simpl in *; simplify_eq.
  - destruct (bb_write_spec b src Hwf) as (b' & -> & Hwf' & Hcap' & Hc'). exists b'.
    split; [done|]. split_and!; simpl; [done|congruence| |done]. by rewrite Hc', Hq, Hcap.
  - destruct (bb_read_spec b dst Hwf) as (b' & n & -> & Hn & Hwf' & Hcap' & Hc' & Hm').
    exists b'. simpl. rewrite Hq in *.
    assert (take (Z.to_nat n) (q_bytes q) = take (length dst) (q_bytes q) /\
            drop (Z.to_nat n) (q_bytes q) = drop (length dst) (q_bytes q) /\
            drop (Z.to_nat n) dst = drop (length (q_bytes q)) dst) as (-> & Hd & ->).
    { unfold zlen in *. destruct (decide (length dst <= length (q_bytes q))%nat).
      - assert (Z.to_nat n = length dst) as -> by lia. split_and!; try done.
        by rewrite !drop_ge by lia.
      - assert (Z.to_nat n = length (q_bytes q)) as -> by lia. split_and!; try done.
        + by rewrite !take_ge by lia.
        + by rewrite !drop_ge by lia. }
    split; [done|]. split_and!; simpl; [done|congruence|congruence|].
    destruct (q_saved q); [by apply Hm'|done].
  - destruct (bb_mark_spec b Hwf) as (Hwf' & Hc' & Hcap' & Hm'). eexists. split; [done|].
    split_and!; simpl; [done|congruence|congruence|by rewrite <- Hq].
  - destruct (q_saved q) as [s|] eqn:E; simplify_eq.
    destruct (bb_recover_spec b s Hwf Hs) as (Hwf' & Hc' & Hcap' & Hm'). eexists. split; [done|].
    split_and!; simpl; congruence || done.
  - destruct (bb_clean_spec b Hwf) as (Hwf' & Hc' & Hcap'). eexists. split; [done|].
    split_and!; simpl; congruence || done.
Qed.

Lemma buf_run_sim b q ops q' outs :
  buf_rel b q -> queue_run q ops = Some (q', outs) ->
  exists b', buf_run b ops = Val (b', outs) /\ buf_rel b' q'.
Proof.
  revert b q outs. induction ops as [|o ops IH]; intros b q outs Hrel Hrun; simpl in *.
  - simplify_eq. by exists b.
  - destruct (queue_step q o) as [[q1 out]|] eqn:E1; [|done].
    destruct (queue_run q1 ops) as [[q2 outs1]|] eqn:E2; [|done]. simplify_eq.
    destruct (buf_step_sim _ _ _ _ _ Hrel E1) as (b1 & -> & Hrel1).
    destruct (IH _ _ _ Hrel1 E2) as (b2 & Hr & Hrel2). simpl. rewrite Hr. simpl.
    exists b2. split; [|done]. destruct Hrel1 as (Hwf1 & _ & Hc1 & _).
    by rewrite bb_readable_spec, Hc1.
Qed.
End refinement.

(** No operation panics, and none leads out of the ring. *)
Lemma recycle_step_total (b : Recycle.RecycleByteBuffer) o :
  Recycle.wf b -> Recycle.mark_ok b ->
  exists b' out, buf_step b o = Val (b', out) /\ Recycle.wf b' /\ Recycle.mark_ok b' /\
    Recycle.capacity b' = Recycle.capacity b.
Proof.
  intros Hwf Hm. destruct o as [src|dst| | |]; cbn.
  - destruct (Recycle.Write_correct b src Hwf) as (b' & Hw & Hwf' & Hc & _). rewrite Hw. exists b', []. cbn.
    split_and!; try done. by eapply Recycle.Write_mark.
  - destruct (Recycle.Read_correct b dst Hwf) as (b' & n & Hr & _ & Hwf' & Hc & _). rewrite Hr. eexists b', _. cbn.
    split_and!; try done. by eapply Recycle.Read_mark.
  - eexists _, _. split; [done|]. by destruct Hwf.
  - eexists _, _. split; [done|]. by destruct Hwf.
  - eexists _, _. split; [done|]. split; [|done]. exact (proj1 (bb_clean_spec b Hwf)).
Qed.

Lemma recycle_run_total (b : Recycle.RecycleByteBuffer) ops :
  Recycle.wf b -> Recycle.mark_ok b ->
  exists b' outs, buf_run b ops = Val (b', outs) /\ length outs = length ops /\
    Forall (fun o => 0 <= o.2 <= Recycle.capacity b) outs.
Proof.
  revert b. induction ops as [|o ops IH]; intros b Hwf Hm; cbn; [by exists b, []|].
  destruct (recycle_step_total b o Hwf Hm) as (b1 & out & -> & Hwf1 & Hm1 & Hc1).
  destruct (IH b1 Hwf1 Hm1) as (b' & outs & Hr & Hl & Hf). cbn. rewrite Hr. cbn. eexists _, _. split; [done|].
  split; [cbn; lia|]. rewrite Hc1 in Hf. constructor; [|done]. cbn. destruct Hwf1 as [_ (Hrb & _)]. by rewrite Hc1 in Hrb.
Qed.

Lemma buf_run_app {B} `{ByteBuffer B} (b : B) ops ops' b' outs :
  buf_run b (ops ++ ops') = Val (b', outs) ->
  exists b1, buf_run b ops = Val (b1, take (length ops) outs).
Proof.
  revert b outs. induction ops as [|o ops IH]; intros b outs Hr; cbn in *; [by exists b|].
  apply go_bind_Val_inv in Hr as ([b1 out] & Hs & Hr). apply go_bind_Val_inv in Hr as ([b2 outs2] & Hr & [= <- <-]).
  destruct (IH _ _ Hr) as [b3 Hb3]. exists b3. rewrite Hs. cbn. by rewrite Hb3.
Qed.


(** The last operation is outside of what the queue describes. *)
Definition demo_session : list buf_op :=
  [OpWrite [1; 2; 3]; OpMark; OpRead [0; 0]; OpRecover; OpRead [9; 9]; OpWrite [4; 5; 6; 7]; OpRead [0; 0; 0; 0; 8]; OpRecover].

