(* ===== verification/IPFrame.v ===== *)
(** * IP frames

    [src/pkg/util/tunutils/byteutils.go] and [ipframe.go]: big-endian integers,
    cutting IPv4 frames out of a byte buffer, writing them back with a fresh
    header checksum.  [ParseIPFrame] is proved against the interface
    [ByteBufferSpec] of the buffer it reads from. *)

From Stdlib Require Import ZArith Lia Ascii String.
From stdpp Require Import base list list_numbers strings option.
From S2P Require Import Prelude GoStrings GoNet RecycleBuffer.

Local Open Scope Z_scope.

(** ** byteutils.go *)

Definition BytesToUint16 (bytes : list Z) (offset : Z) : go Z :=
  let! b0 := go_index bytes offset in
  let! b1 := go_index bytes (offset + 1) in
  Val (Z.lor (u16 (Z.shiftl (u16 b0) 8)) (u16 b1)).

Definition BytesToUint32 (bytes : list Z) (offset : Z) : go Z :=
  let! b0 := go_index bytes offset in
  let! b1 := go_index bytes (offset + 1) in
  let! b2 := go_index bytes (offset + 2) in
  let! b3 := go_index bytes (offset + 3) in
  Val (Z.lor (Z.lor (Z.lor (u32 (Z.shiftl (u32 b0) 24)) (u32 (Z.shiftl (u32 b1) 16)))
                    (u32 (Z.shiftl (u32 b2) 8))) (u32 b3)).

Definition Uint16ToBytes (value : Z) : list Z :=
  [u8 (Z.shiftr (Z.land value 65280) 8); u8 (Z.land value 255)].

Definition Uint32ToBytes (value : Z) : list Z :=
  [u8 (Z.shiftr (Z.land value 4278190080) 24); u8 (Z.shiftr (Z.land value 16711680) 16);
   u8 (Z.shiftr (Z.land value 65280) 8); u8 (Z.land value 255)].

Definition IPToArray4 (ip : list Z) : go (list Z) :=
  let! a := go_index ip 0 in
  let! b := go_index ip 1 in
  let! c := go_index ip 2 in
  let! d := go_index ip 3 in
  Val [a; b; c; d].

(** ** ipframe.go *)

Definition minimumHeaderLen : Z := 5.

Record Option_ : Type := mkOption { Key : Z; Value : Z }.

Record IPFrame : Type := mkIPFrame {
  Version : Z;
  HeaderLen : Z;
  Tos : Z;
  TotalLen : Z;
  Identification : Z;
  Flag : Z;
  Offset : Z;
  TTL : Z;
  Protocol : Z;
  HeaderCheckSum : Z;
  Source : list Z;
  Target : list Z;
  Options : list Option_;
  Payload : list Z
}.

(** The option words of the header, from word [line] on. *)
Fixpoint parse_options (bytes : list Z) (line : Z) (n : nat) : go (list Option_) :=
  match n with
  | O => Val []
  | S n' =>
      let index := line * 4 in
      let! k := BytesToUint16 bytes index in
      let! v := BytesToUint16 bytes (index + 2) in
      let! rest := parse_options bytes (line + 1) n' in
      Val (mkOption k v :: rest)
  end.

(** The fields of a frame whose [totalLen] bytes have been read. *)
Definition frame_of_bytes (version headerLen tos totalLen : Z) (bytes : list Z) : go IPFrame :=
  let! identification := BytesToUint16 bytes 4 in
  let! b6 := go_index bytes 6 in
  let flag := Z.shiftr (Z.land b6 224) 5 in
  let! b7 := go_index bytes 7 in
  let offset := Z.lor (Z.lor 0 (u16 (Z.shiftl (u16 (Z.land b6 31)) 8))) (u16 (Z.land b7 255)) in
  let! ttl := go_index bytes 8 in
  let! protocol := go_index bytes 9 in
  let! headerCheckSum := BytesToUint16 bytes 10 in
  let! source := go_slice bytes 12 16 in
  let! target := go_slice bytes 16 20 in
  let! options :=
    if minimumHeaderLen <? headerLen
    then parse_options bytes minimumHeaderLen (Z.to_nat (headerLen - minimumHeaderLen))
    else Val [] in
  let! payload := go_slice bytes (u8 (headerLen * 4)) totalLen in
  Val (mkIPFrame version headerLen tos totalLen identification flag offset ttl protocol
         headerCheckSum source target options payload).

(** ["header len is small than " + string(rune(minimumHeaderLen))] *)
Definition err_header_len : string :=
  "header len is small than " +:+ String (ascii_of_N (Z.to_N minimumHeaderLen)) "".

Section parse.
Context {B : Type} `{ByteBuffer B}.

(** [Ok None] is the Go result [nil, nil]: more data is needed. *)
Definition ParseIPFrame (buffer : B) : go (B * result (option IPFrame)) :=
  if bb_ReadableBytes buffer <? 4 then Val (buffer, Ok None) else
  let! zeros := go_make 0 4 in
  let buffer := bb_Mark buffer in
  let! (buffer, first4Bytes, _) := bb_Read buffer zeros in
  let buffer := bb_Recover buffer in
  let! b0 := go_index first4Bytes 0 in
  let version := Z.shiftr (Z.land 240 b0) 4 in
  let headerLen := Z.land 15 b0 in
  if headerLen <? minimumHeaderLen then Val (buffer, Err err_header_len) else
  if bb_ReadableBytes buffer <? u8 (headerLen * 4) then Val (buffer, Ok None) else
  let! tos := go_index first4Bytes 1 in
  let! totalLen := BytesToUint16 first4Bytes 2 in
  if bb_ReadableBytes buffer <? totalLen then Val (buffer, Ok None) else
  let! zeros := go_make 0 totalLen in
  let! (buffer, bytes, _) := bb_Read buffer zeros in
  let! frame := frame_of_bytes version headerLen tos totalLen bytes in
  Val (buffer, Ok (Some frame)).
End parse.

Definition nl : string := String "010" "".
Definition tab : string := String "009" "".

Definition Strings (frame : IPFrame) : string :=
  "IPFrame {" +:+ nl +:+
  tab +:+ "version=" +:+ Itoa (Version frame) +:+ nl +:+
  tab +:+ "headerLen=" +:+ Itoa (HeaderLen frame) +:+ nl +:+
  tab +:+ "tos=" +:+ Itoa (Tos frame) +:+ nl +:+
  tab +:+ "totalLen=" +:+ Itoa (TotalLen frame) +:+ nl +:+
  tab +:+ "identification=" +:+ Itoa (Identification frame) +:+ nl +:+
  tab +:+ "flag=" +:+ Itoa (Flag frame) +:+ nl +:+
  tab +:+ "offset=" +:+ Itoa (Offset frame) +:+ nl +:+
  tab +:+ "ttl=" +:+ Itoa (TTL frame) +:+ nl +:+
  tab +:+ "protocol=" +:+ Itoa (Protocol frame) +:+ nl +:+
  tab +:+ "headerCheckSum=" +:+ Itoa (HeaderCheckSum frame) +:+ nl +:+
  tab +:+ "source=" +:+ IP_String (Source frame) +:+ nl +:+
  tab +:+ "target=" +:+ IP_String (Target frame) +:+ nl +:+
  tab +:+ "payloadLen=" +:+ Itoa (zlen (Payload frame)) +:+ nl +:+
  "}" +:+ nl.

Definition GetProtocol (frame : IPFrame) : string :=
  tab +:+ "protocol=" +:+ Itoa (Protocol frame) +:+ nl.

Definition GetSourceIP (frame : IPFrame) : string := IP_String (Source frame).
Definition GetTargetIP (frame : IPFrame) : string := IP_String (Target frame).
Definition GetPayloadLen (frame : IPFrame) : Z := zlen (Payload frame).

Definition option_toBytes (option : Option_) : list Z :=
  Uint16ToBytes (Key option) ++ Uint16ToBytes (Value option).

Definition toBytes (options : list Option_) : list Z :=
  concat (map option_toBytes options).

(** The 32-bit sum of [num] 16-bit words from word [i] on. *)
Fixpoint sum_words (bytes : list Z) (i : Z) (num : nat) (checkSum : Z) : go Z :=
  match num with
  | O => Val checkSum
  | S num' =>
      let! w := BytesToUint16 bytes (i * 2) in
      sum_words bytes (i + 1) num' (u32 (checkSum + u32 w))
  end.

(** [^x] on 16 bits *)
Definition not16 (x : Z) : Z := 65535 - x.

Definition toCheckSum (bytes : list Z) : go Z :=
  let num := Z.to_nat (Z.shiftr (zlen bytes) 1) in
  let! checkSum := sum_words bytes 0 num 0 in
  Val (not16 (u16 (u16 (Z.shiftr checkSum 16) + u16 (Z.land checkSum 65535)))).

Definition set_checksum (frame : IPFrame) (c : Z) : IPFrame :=
  mkIPFrame (Version frame) (HeaderLen frame) (Tos frame) (TotalLen frame)
    (Identification frame) (Flag frame) (Offset frame) (TTL frame) (Protocol frame) c
    (Source frame) (Target frame) (Options frame) (Payload frame).

(** The header [ToBytes] assembles, with the checksum field zero. *)
Definition header_bytes (frame : IPFrame) : list Z :=
  [u8 (u8 (Z.shiftl (Version frame) 4) + HeaderLen frame)] ++
  [Tos frame] ++
  Uint16ToBytes (TotalLen frame) ++
  Uint16ToBytes (Identification frame) ++
  [Z.lor (u8 (Z.shiftl (Flag frame) 5)) (u8 (Z.shiftr (Z.land (Offset frame) 7936) 8))] ++
  [u8 (Z.land (Offset frame) 255)] ++
  [TTL frame] ++
  [Protocol frame] ++
  [0; 0] ++
  Source frame ++
  Target frame ++
  toBytes (Options frame).

(** The bytes of a frame and the frame, whose checksum field the call sets. *)
Definition ToBytes (frame : IPFrame) : go (list Z * IPFrame) :=
  let bytes := header_bytes frame in
  let! checkSum := toCheckSum bytes in
  let! bytes := go_copy bytes 10 12 (Uint16ToBytes checkSum) in
  Val (bytes ++ Payload frame, set_checksum frame checkSum).

(** ** Bytes and words *)

Lemma forall_u8 (P : Z -> bool) :
  forallb P (seqZ 0 256) = true -> forall b, is_u8 b -> P b = true.
Proof.
  intros Hall b Hb. rewrite forallb_forall in Hall. apply Hall.
  apply list_elem_of_In, elem_of_seqZ. unfold is_u8 in Hb. lia.
Qed.

(** A statement about one byte, decided by evaluation at the 256 values. *)
Ltac by_bytes b :=
  match goal with
  | H : is_u8 b |- ?G =>
      let P := eval pattern b in G in
      match P with
      | (fun x => ?lhs = ?rhs) _ =>
          apply Z.eqb_eq; apply (forall_u8 (fun x => lhs =? rhs)); [vm_compute; reflexivity|exact H]
      end
  end.

Lemma high_nibble b : is_u8 b -> Z.shiftr (Z.land 240 b) 4 = b / 16.
Proof. intros Hb. by_bytes b. Qed.

Lemma low_nibble b : is_u8 b -> Z.land 15 b = b mod 16.
Proof. intros Hb. by_bytes b. Qed.

Lemma flag_bits b : is_u8 b -> Z.shiftr (Z.land b 224) 5 = b / 32.
Proof. intros Hb. by_bytes b. Qed.

Lemma offset_bits b : is_u8 b -> Z.land b 31 = b mod 32.
Proof. intros Hb. by_bytes b. Qed.

Lemma land_255 x : Z.land x 255 = x mod 256.
Proof. change 255 with (Z.ones 8). by rewrite Z.land_ones. Qed.

Lemma join16 h l : is_u8 h -> is_u8 l ->
  Z.lor (u16 (Z.shiftl (u16 h) 8)) (u16 l) = h * 256 + l.
Proof.
  unfold is_u8. intros Hh Hl. rewrite !(u16_small h), (u16_small l) by (unfold is_u16; lia).
  rewrite Z.shiftl_mul_pow2 by lia. rewrite u16_small by (unfold is_u16; lia).
  apply (lor_disjoint h l 8); lia.
Qed.

Lemma BytesToUint16_val bytes i h l :
  go_index bytes i = Val h -> go_index bytes (i + 1) = Val l -> is_u8 h -> is_u8 l ->
  BytesToUint16 bytes i = Val (h * 256 + l).
Proof. intros Hh Hl Hbh Hbl. unfold BytesToUint16. rewrite Hh, Hl. simpl. by rewrite join16. Qed.

Lemma Uint16ToBytes_val v : is_u16 v -> Uint16ToBytes v = [v / 256; v mod 256].
Proof.
  unfold is_u16. intros Hv. unfold Uint16ToBytes. rewrite Z.shiftr_land.
  change (Z.shiftr 65280 8) with 255. rewrite !land_255. unfold u8.
  rewrite Z.shiftr_div_pow2 by lia. change (2 ^ 8) with 256. rewrite !Zmod_mod.
  do 2 f_equal. apply Z.mod_small. split; [apply Z.div_pos; lia|apply Z.div_lt_upper_bound; lia].
Qed.

(** ** Well-formed frames and their wire format *)

Definition bytes_ok (l : list Z) : Prop := Forall is_u8 l.

Lemma bytes_okb_spec l : forallb (fun b => (0 <=? b) && (b <? 256)) l = true -> bytes_ok l.
Proof.
  intros H. apply Forall_forall. intros b Hb. rewrite forallb_forall in H.
  apply H in Hb. zbool. unfold is_u8. lia.
Qed.

Ltac inv_bytes :=
  repeat match goal with
  | H : bytes_ok (_ :: _) |- _ => inversion_clear H
  | H : Forall is_u8 (_ :: _) |- _ => inversion_clear H
  end.

Record frame_wf (fr : IPFrame) : Prop := {
  wf_version : 0 <= Version fr < 16;
  wf_header : 5 <= HeaderLen fr < 16;
  wf_tos : is_u8 (Tos fr);
  wf_total : TotalLen fr = 4 * HeaderLen fr + zlen (Payload fr);
  wf_total_u16 : is_u16 (TotalLen fr);
  wf_ident : is_u16 (Identification fr);
  wf_flag : 0 <= Flag fr < 8;
  wf_offset : 0 <= Offset fr < 8192;
  wf_ttl : is_u8 (TTL fr);
  wf_protocol : is_u8 (Protocol fr);
  wf_checksum : is_u16 (HeaderCheckSum fr);
  wf_source : length (Source fr) = 4%nat /\ bytes_ok (Source fr);
  wf_target : length (Target fr) = 4%nat /\ bytes_ok (Target fr);
  wf_options : zlen (Options fr) = HeaderLen fr - 5 /\
               Forall (fun o => is_u16 (Key o) /\ is_u16 (Value o)) (Options fr);
  wf_payload : bytes_ok (Payload fr)
}.

Definition option_words (o : Option_) : list Z :=
  [Key o / 256; Key o mod 256; Value o / 256; Value o mod 256].

(** The header of RFC 791 as a sequence of bytes. *)
Definition wire_header (fr : IPFrame) (checksum : Z) : list Z :=
  [Version fr * 16 + HeaderLen fr; Tos fr; TotalLen fr / 256; TotalLen fr mod 256;
   Identification fr / 256; Identification fr mod 256;
   Flag fr * 32 + Offset fr / 256; Offset fr mod 256;
   TTL fr; Protocol fr; checksum / 256; checksum mod 256] ++
  Source fr ++ Target fr ++
  concat (map option_words (Options fr)).

Lemma toBytes_val opts :
  Forall (fun o => is_u16 (Key o) /\ is_u16 (Value o)) opts ->
  toBytes opts =
  concat (map option_words opts).
Proof.
  unfold toBytes. induction 1 as [|o opts [Hk Hv] _ IH]; [done|].
  cbn [map concat]. rewrite <- IH. unfold option_toBytes. by rewrite !Uint16ToBytes_val.
Qed.

Lemma offset_high o : 0 <= o < 8192 -> u8 (Z.shiftr (Z.land o 7936) 8) = o / 256.
Proof.
  intros Ho. rewrite Z.shiftr_land. change (Z.shiftr 7936 8) with (Z.ones 5).
  rewrite Z.land_ones, Z.shiftr_div_pow2 by lia. change (2 ^ 8) with 256. change (2 ^ 5) with 32.
  assert (0 <= o / 256 < 32) by (split; [apply Z.div_pos; lia|apply Z.div_lt_upper_bound; lia]).
  rewrite Z.mod_small by lia. apply u8_small. unfold is_u8. lia.
Qed.

Lemma header_bytes_val fr : frame_wf fr -> header_bytes fr = wire_header fr 0.
Proof.
  intros Hwf. destruct Hwf. unfold header_bytes, wire_header.
  rewrite !Uint16ToBytes_val, toBytes_val by (done || apply wf_options0).
  rewrite !Z.shiftl_mul_pow2 by lia. rewrite land_255, offset_high by done.
  assert (0 <= Offset fr / 256 < 32)
    by (split; [apply Z.div_pos; lia|apply Z.div_lt_upper_bound; lia]).
  rewrite !(u8_small (_ * _)) by (unfold is_u8; lia).
  rewrite (u8_small (_ + _)) by (unfold is_u8; lia).
  rewrite (lor_disjoint (Flag fr) _ 5) by lia.
  unfold u8. rewrite Zmod_mod. done.
Qed.

(** ** The header checksum *)

Fixpoint words16 (bs : list Z) : list Z :=
  match bs with
  | h :: l :: r => h * 256 + l :: words16 r
  | _ => []
  end.

Fixpoint zsum (l : list Z) : Z := match l with [] => 0 | x :: r => x + zsum r end.

(** Adding the carries back into the low 16 bits. *)
Definition fold16 (x : Z) : Z := x / 65536 + x mod 65536.

(** The receiver's test of RFC 1071: the one's complement sum of all words,
    the checksum included, is all ones. *)
Definition checksum_verifies (hdr : list Z) : bool :=
  fold16 (fold16 (zsum (words16 hdr))) =? 65535.

Lemma go_index_app {A} (pre : list A) x r i :
  i = zlen pre -> go_index (pre ++ x :: r) i = Val x.
Proof.
  intros ->. apply go_index_lookup; [apply zlen_nonneg|]. unfold zlen. rewrite Nat2Z.id.
  rewrite lookup_app_r, Nat.sub_diag by lia. done.
Qed.

Lemma pair_induction (P : list Z -> Prop) :
  P [] -> (forall x, P [x]) -> (forall x y r, P r -> P (x :: y :: r)) -> forall l, P l.
Proof.
  intros H0 H1 H2. assert (forall l, P l /\ forall x, P (x :: l)) as H; [|intros l; apply H].
  intros l. induction l as [|y l [IH1 IH2]]; [done|]. split; [apply IH2|]. intros x. by apply H2.
Qed.

Lemma words16_bounds bs :
  bytes_ok bs -> 0 <= zsum (words16 bs) <= 65535 * (zlen bs / 2).
Proof.
  intros Hok. induction bs as [|x|x y r IH] using pair_induction; [done|vm_compute; done|].
  inversion_clear Hok as [|? ? Hx Hok']. inversion_clear Hok' as [|? ? Hy Hr].
  specialize (IH Hr). cbn [words16 zsum]. unfold is_u8 in *.
  replace (zlen (x :: y :: r)) with (zlen r + 1 * 2) by (rewrite !zlen_cons; lia).
  rewrite Z.div_add by lia. lia.
Qed.

Lemma sum_words_val pre bs acc i :
  zlen pre = 2 * i -> bytes_ok bs -> 0 <= acc -> acc + zsum (words16 bs) < 4294967296 ->
  sum_words (pre ++ bs) i (Z.to_nat (zlen bs / 2)) acc = Val (acc + zsum (words16 bs)).
Proof.
  revert pre acc i. induction bs as [|x|x y r IH] using pair_induction; intros pre acc i Hi Hok Ha Hs.
  - simpl. f_equal. lia.
  - change (Z.to_nat (zlen [x] / 2)) with 0%nat. simpl. f_equal. lia.
  - inversion_clear Hok as [|? ? Hx Hok']. inversion_clear Hok' as [|? ? Hy Hr].
    replace (zlen (x :: y :: r)) with (zlen r + 1 * 2) by (rewrite !zlen_cons; lia).
    rewrite Z.div_add by lia.
    pose proof (zlen_nonneg r). pose proof (words16_bounds r Hr).
    assert (0 <= zlen r / 2) by (apply Z.div_pos; lia).
    replace (Z.to_nat (zlen r / 2 + 1)) with (S (Z.to_nat (zlen r / 2))) by lia.
    cbn [sum_words words16 zsum] in *.
    rewrite (BytesToUint16_val _ _ x y); [|apply go_index_app; lia| |done|done].
    2: { change (x :: y :: r) with ([x] ++ y :: r). rewrite app_assoc.
         apply go_index_app. rewrite zlen_app. change (zlen [x]) with 1. lia. }
    simpl. unfold is_u8 in *. rewrite !u32_small by (rewrite ?u32_small; lia).
    replace (pre ++ x :: y :: r) with ((pre ++ [x; y]) ++ r) by (by rewrite <- app_assoc).
    rewrite IH; [f_equal; lia| |done|lia|lia].
    rewrite zlen_app. change (zlen [x; y]) with 2. lia.
Qed.

(** The checksum of a header: the carries are added back once only. *)
Lemma toCheckSum_val bs :
  bytes_ok bs -> zlen bs <= 131072 ->
  toCheckSum bs = Val (not16 (u16 (fold16 (zsum (words16 bs))))).
Proof.
  intros Hok Hlen. pose proof (words16_bounds bs Hok). pose proof (zlen_nonneg bs).
  assert (zlen bs / 2 <= 65536) by (apply Z.div_le_upper_bound; lia).
  unfold toCheckSum. rewrite Z.shiftr_div_pow2 by lia. change (2 ^ 1) with 2.
  pose proof (sum_words_val [] bs 0 0) as Hsum. rewrite app_nil_l in Hsum.
  rewrite Hsum by (done || lia). simpl. do 2 f_equal.
  change 65535 with (Z.ones 16). rewrite Z.land_ones, Z.shiftr_div_pow2 by lia.
  change (2 ^ 16) with 65536. unfold fold16, u16. by rewrite Zmod_mod, <- Zplus_mod_idemp_l, Zmod_mod, Zplus_mod_idemp_l.
Qed.

Lemma div256_u8 v : is_u16 v -> is_u8 (v / 256) /\ is_u8 (v mod 256).
Proof.
  unfold is_u16, is_u8. intros Hv. split; [|apply Z.mod_pos_bound; lia].
  split; [apply Z.div_pos; lia|apply Z.div_lt_upper_bound; lia].
Qed.

Lemma options_bytes_ok opts :
  Forall (fun o => is_u16 (Key o) /\ is_u16 (Value o)) opts ->
  bytes_ok (concat (map option_words opts)) /\
  zlen (concat (map option_words opts)) =
    4 * zlen opts.
Proof.
  induction 1 as [|o opts [Hk Hv] _ [IH1 IH2]]; [split; [constructor|done]|].
  cbn [map concat]. split.
  - apply Forall_app. split; [|done].
    destruct (div256_u8 _ Hk), (div256_u8 _ Hv). repeat (constructor; [done|]). constructor.
  - rewrite zlen_app, IH2, (zlen_cons o). change (zlen (option_words o)) with 4. lia.
Qed.

Lemma wire_header_ok fr c :
  frame_wf fr -> is_u16 c ->
  bytes_ok (wire_header fr c) /\ zlen (wire_header fr c) = 4 * HeaderLen fr.
Proof.
  intros Hwf Hc. destruct Hwf. destruct wf_source0 as [Hsl Hs], wf_target0 as [Htl Ht].
  destruct wf_options0 as [Hol Ho]. destruct (options_bytes_ok _ Ho) as [Hob Hoz].
  unfold wire_header. split.
  - apply Forall_app. split; [|apply Forall_app; split; [done|apply Forall_app; by split]].
    destruct (div256_u8 _ wf_total_u17), (div256_u8 _ wf_ident0), (div256_u8 _ Hc).
    assert (is_u8 (Offset fr mod 256)) by apply u8_range.
    assert (0 <= Offset fr / 256 < 32)
      by (split; [apply Z.div_pos; lia|apply Z.div_lt_upper_bound; lia]).
    repeat (constructor; [done || (unfold is_u8; lia)|]). constructor.
  - rewrite !zlen_app, Hoz, Hol. unfold zlen. rewrite Hsl, Htl. simpl. lia.
Qed.

(** Writing the checksum into its field. *)
Lemma wire_header_set_checksum fr c :
  frame_wf fr -> is_u16 c ->
  go_copy (wire_header fr 0) 10 12 (Uint16ToBytes c) = Val (wire_header fr c).
Proof.
  intros Hwf Hc. destruct (wire_header_ok fr 0 Hwf) as [_ Hl]; [unfold is_u16; lia|].
  pose proof (wf_header _ Hwf). rewrite Uint16ToBytes_val by done.
  rewrite go_copy_ok by (done || lia). done.
Qed.

Lemma words16_wire_header fr c :
  is_u16 c -> zsum (words16 (wire_header fr c)) = zsum (words16 (wire_header fr 0)) + c.
Proof.
  intros Hc. unfold wire_header. cbn [app words16 zsum].
  pose proof (Z.div_mod c 256). change (0 / 256) with 0. change (0 mod 256) with 0. lia.
Qed.

(** The sum of the header's words before the checksum is known. *)
Definition header_sum (fr : IPFrame) : Z := zsum (words16 (wire_header fr 0)).

Definition checksum_of (fr : IPFrame) : Z := not16 (u16 (fold16 (header_sum fr))).

Lemma checksum_of_u16 fr : is_u16 (checksum_of fr).
Proof.
  unfold checksum_of, not16, is_u16. pose proof (u16_range (fold16 (header_sum fr))) as H.
  unfold is_u16 in H. lia.
Qed.

(** What [ToBytes] writes: the RFC 791 header with the computed checksum,
    followed by the payload. *)
Lemma ToBytes_val fr :
  frame_wf fr ->
  ToBytes fr = Val (wire_header fr (checksum_of fr) ++ Payload fr, set_checksum fr (checksum_of fr)).
Proof.
  intros Hwf. unfold ToBytes. rewrite header_bytes_val by done.
  destruct (wire_header_ok fr 0 Hwf) as [Hok Hl]; [unfold is_u16; lia|].
  pose proof (wf_header _ Hwf). rewrite toCheckSum_val by (done || lia). simpl.
  rewrite wire_header_set_checksum; [done|done|apply checksum_of_u16].
Qed.

Lemma fold16_mod x : 0 <= x -> fold16 x mod 65535 = x mod 65535.
Proof.
  intros Hx. unfold fold16. rewrite (Z.div_mod x 65536) at 3 by lia.
  replace (65536 * (x / 65536) + x mod 65536)
    with (x / 65536 + x mod 65536 + (x / 65536) * 65535) by lia.
  by rewrite Z.mod_add.
Qed.

Lemma fold16_twice x :
  0 < x < 4294967296 -> 0 < fold16 (fold16 x) <= 65535.
Proof.
  intros Hx. unfold fold16.
  pose proof (Z.div_mod x 65536). pose proof (Z.mod_pos_bound x 65536).
  assert (0 <= x / 65536 <= 65535)
    by (split; [apply Z.div_pos; lia|apply Z.lt_succ_r, Z.div_lt_upper_bound; lia]).
  set (y := x / 65536 + x mod 65536) in *.
  pose proof (Z.div_mod y 65536). pose proof (Z.mod_pos_bound y 65536).
  assert (0 <= y / 65536 <= 1)
    by (split; [apply Z.div_pos; lia|apply Z.lt_succ_r, Z.div_lt_upper_bound; lia]). lia.
Qed.

Lemma checksum_verifies_mod hdr :
  0 < zsum (words16 hdr) < 4294967296 ->
  checksum_verifies hdr = (zsum (words16 hdr) mod 65535 =? 0).
Proof.
  intros Hs. unfold checksum_verifies. pose proof (fold16_twice _ Hs).
  rewrite <- (fold16_mod (zsum (words16 hdr))) by lia.
  assert (0 <= fold16 (zsum (words16 hdr))).
  { unfold fold16. pose proof (Z.mod_pos_bound (zsum (words16 hdr)) 65536).
    pose proof (Z.div_pos (zsum (words16 hdr)) 65536). lia. }
  rewrite <- (fold16_mod (fold16 _)) by done. set (z := fold16 (fold16 _)) in *.
  destruct (z =? 65535) eqn:E; zbool; symmetry.
  - rewrite E. done.
  - rewrite Z.mod_small by lia. apply Z.eqb_neq. lia.
Qed.

Lemma header_sum_bounds fr : frame_wf fr -> 0 < header_sum fr <= 1966050.
Proof.
  intros Hwf. destruct (wire_header_ok fr 0 Hwf) as [Hok Hl]; [unfold is_u16; lia|].
  pose proof (words16_bounds _ Hok) as Hb. pose proof (wf_header _ Hwf).
  assert (zlen (wire_header fr 0) / 2 <= 30) by (apply Z.div_le_upper_bound; lia).
  split; [|unfold header_sum; lia].
  assert (Hb' : bytes_ok (drop 2 (wire_header fr 0))) by (by apply Forall_drop).
  pose proof (words16_bounds _ Hb'). pose proof (wf_version _ Hwf). pose proof (wf_tos _ Hwf) as Ht.
  unfold is_u8 in Ht. unfold header_sum, wire_header in *. cbn [app words16 zsum drop] in *. lia.
Qed.

Lemma checksum_of_sound fr :
  frame_wf fr ->
  checksum_verifies (wire_header fr (checksum_of fr)) = (fold16 (header_sum fr) <? 65536).
Proof.
  intros Hwf. pose proof (header_sum_bounds fr Hwf) as Hs. pose proof (checksum_of_u16 fr) as Hc.
  assert (Hsum : zsum (words16 (wire_header fr (checksum_of fr))) = header_sum fr + checksum_of fr)
    by (by apply words16_wire_header).
  unfold is_u16 in Hc. rewrite checksum_verifies_mod, Hsum by lia.
  unfold checksum_of, not16, u16, fold16 in *.
  pose proof (Z.div_mod (header_sum fr) 65536). pose proof (Z.mod_pos_bound (header_sum fr) 65536).
  assert (0 <= header_sum fr / 65536 <= 30)
    by (split; [apply Z.div_pos; lia|apply Z.lt_succ_r, Z.div_lt_upper_bound; lia]).
  set (q := header_sum fr / 65536) in *. set (r := header_sum fr mod 65536) in *.
  destruct (q + r <? 65536) eqn:E; zbool.
  - rewrite (Z.mod_small (q + r)) by lia. apply Z.eqb_eq.
    replace (header_sum fr + (65535 - (q + r))) with ((q + 1) * 65535) by lia. apply Z.mod_mul. lia.
  - replace ((q + r) mod 65536) with (q + r - 65536)
      by (apply (Z.mod_unique _ _ 1); lia).
    apply Z.eqb_neq. replace (header_sum fr + (65535 - (q + r - 65536))) with (1 + (q + 2) * 65535) by lia.
    rewrite Z.mod_add by lia. done.
Qed.

(** The header [ToBytes] writes passes the receiver's checksum test
    exactly when adding the carries of the header's word sum back once leaves
    no further carry; a sum that needs a second folding gets a checksum every
    conforming receiver rejects. *)
Theorem ToBytes_checksum fr bs fr' :
  frame_wf fr -> ToBytes fr = Val (bs, fr') ->
  checksum_verifies (take (Z.to_nat (4 * HeaderLen fr)) bs) = (fold16 (header_sum fr) <? 65536).
Proof.
  intros Hwf Hto. rewrite ToBytes_val in Hto by done.
  assert (bs = wire_header fr (checksum_of fr) ++ Payload fr) as -> by congruence.
  destruct (wire_header_ok fr (checksum_of fr) Hwf (checksum_of_u16 fr)) as [_ Hl].
  rewrite take_app_length' by (unfold zlen in Hl; lia). by apply checksum_of_sound.
Qed.

(** A UDP datagram from 10.244.1.7 to 10.244.3.9. *)
Definition demo_frame : IPFrame :=
  mkIPFrame 4 5 0 24 4660 2 0 64 17 0 [10; 244; 1; 7] [10; 244; 3; 9] [] [222; 173; 190; 239].

(** A datagram whose header sum, 196606, needs two foldings. *)
Definition carry_frame : IPFrame :=
  mkIPFrame 4 5 0 24 46453 2 0 64 17 0 [192; 168; 1; 7] [192; 168; 3; 9] [] [222; 173; 190; 239].

(** Decide well-formedness of a concrete frame. *)
Ltac solve_frame_wf :=
  constructor; simpl; unfold is_u8, is_u16, bytes_ok, zlen; simpl;
  repeat first [lia | split | constructor | unfold is_u8, is_u16].

Lemma demo_frame_wf : frame_wf demo_frame.
Proof. solve_frame_wf. Qed.

Lemma carry_frame_wf : frame_wf carry_frame.
Proof. solve_frame_wf. Qed.

Definition demo_bytes : list Z :=
  [69; 0; 0; 24; 18; 52; 64; 0; 64; 17; 14; 170; 10; 244; 1; 7; 10; 244; 3; 9; 222; 173; 190; 239].

Definition carry_bytes : list Z :=
  [69; 0; 0; 24; 181; 117; 64; 0; 64; 17; 255; 255; 192; 168; 1; 7; 192; 168; 3; 9; 222; 173; 190; 239].

Lemma ToBytes_checksum_witness :
  checksum_verifies (take 20 demo_bytes) = true /\ checksum_verifies (take 20 carry_bytes) = false.
Proof.
  split.
  - exact (ToBytes_checksum demo_frame demo_bytes (set_checksum demo_frame 3754) demo_frame_wf eq_refl).
  - exact (ToBytes_checksum carry_frame carry_bytes (set_checksum carry_frame 65535) carry_frame_wf eq_refl).
Defined.

(** ** Cutting a frame out of a byte string *)

Inductive view : Type :=
| NeedMore
| BadHeader
| FrameAt (version headerLen tos totalLen : Z).

(** What the first bytes of the buffer announce. *)
Definition view_bytes (c : list Z) : view :=
  match c with
  | b0 :: b1 :: b2 :: b3 :: _ =>
      let headerLen := Z.land 15 b0 in
      let totalLen := Z.lor (u16 (Z.shiftl (u16 b2) 8)) (u16 b3) in
      if headerLen <? minimumHeaderLen then BadHeader
      else if zlen c <? u8 (headerLen * 4) then NeedMore
      else if zlen c <? totalLen then NeedMore
      else FrameAt (Z.shiftr (Z.land 240 b0) 4) headerLen b1 totalLen
  | _ => NeedMore
  end.

Section parse_facts.
Context {B : Type} `{ByteBufferSpec B}.

(** Peeking at four bytes leaves the queue as it was. *)
Lemma peek4 (b : B) b0 b1 b2 b3 r :
  bb_wf b -> bb_contents b = b0 :: b1 :: b2 :: b3 :: r ->
  exists b' n, bb_Read (bb_Mark b) [0; 0; 0; 0] = Val (b', [b0; b1; b2; b3], n) /\
    bb_wf (bb_Recover b') /\ bb_contents (bb_Recover b') = bb_contents b /\
    bb_Capacity (bb_Recover b') = bb_Capacity b.
Proof.
  intros Hwf Hc. destruct (bb_mark_spec b Hwf) as (Hwf1 & Hc1 & Hcap1 & Hm1).
  destruct (bb_read_spec (bb_Mark b) [0; 0; 0; 0] Hwf1) as (b' & n & Hr & Hn & Hwf2 & Hcap2 & _ & Hm2).
  assert (n = 4) as ->.
  { rewrite Hn, Hc1, Hc, !zlen_cons. pose proof (zlen_nonneg r). change (zlen []) with 0. lia. }
  destruct (bb_recover_spec b' (bb_contents b) Hwf2 (Hm2 _ Hm1)) as (Hwf3 & Hc3 & Hcap3 & _).
  exists b', 4. rewrite Hr, Hc1, Hc. split; [done|]. split_and!; [done|congruence|congruence].
Qed.

(** Reading [n] bytes that are there takes them off the queue. *)
Lemma read_n (b : B) n :
  bb_wf b -> 0 <= n <= zlen (bb_contents b) ->
  exists b' k, bb_Read b (replicate (Z.to_nat n) 0) = Val (b', take (Z.to_nat n) (bb_contents b), k) /\
    bb_wf b' /\ bb_contents b' = drop (Z.to_nat n) (bb_contents b) /\ bb_Capacity b' = bb_Capacity b.
Proof.
  intros Hwf Hn.
  destruct (bb_read_spec b (replicate (Z.to_nat n) 0) Hwf) as (b' & k & Hr & Hk & Hwf' & Hcap & Hc & _).
  assert (k = n) as -> by (rewrite Hk, zlen_replicate; lia).
  exists b', n. rewrite Hr. rewrite drop_ge by (rewrite length_replicate; lia).
  by rewrite app_nil_r.
Qed.

Lemma ParseIPFrame_view (b : B) :
  bb_wf b ->
  exists b', bb_wf b' /\ bb_Capacity b' = bb_Capacity b /\
    match view_bytes (bb_contents b) with
    | NeedMore => ParseIPFrame b = Val (b', Ok None) /\ bb_contents b' = bb_contents b
    | BadHeader => ParseIPFrame b = Val (b', Err err_header_len) /\ bb_contents b' = bb_contents b
    | FrameAt v h t n =>
        bb_contents b' = drop (Z.to_nat n) (bb_contents b) /\
        ParseIPFrame b =
          (let! fr := frame_of_bytes v h t n (take (Z.to_nat n) (bb_contents b)) in
           Val (b', Ok (Some fr)))
    end.
Proof.
  intros Hwf. unfold ParseIPFrame, view_bytes. rewrite bb_readable_spec by done.
  destruct (bb_contents b) as [|b0 [|b1 [|b2 [|b3 r]]]] eqn:Hc; try (exists b; by rewrite Hc).
  assert ((zlen (b0 :: b1 :: b2 :: b3 :: r) <? 4) = false) as ->.
  { apply Z.ltb_ge. rewrite !zlen_cons. pose proof (zlen_nonneg r). lia. }
  change (go_make 0 4) with (Val [0; 0; 0; 0]). cbn [mbind go_bind].
  destruct (peek4 b b0 b1 b2 b3 r Hwf Hc) as (b' & n & -> & Hwf' & Hc' & Hcap').
  cbn [mbind go_bind]. rewrite Hc in Hc'.
  change (go_index [b0; b1; b2; b3] 0) with (Val b0). change (go_index [b0; b1; b2; b3] 1) with (Val b1).
  change (BytesToUint16 [b0; b1; b2; b3] 2) with (Val (Z.lor (u16 (Z.shiftl (u16 b2) 8)) (u16 b3))).
  cbn [mbind go_bind]. rewrite !bb_readable_spec, Hc' by done.
  set (tl := Z.lor _ _). set (c := b0 :: b1 :: b2 :: b3 :: r) in *.
  destruct (Z.land 15 b0 <? minimumHeaderLen); [by exists (bb_Recover b')|].
  destruct (zlen c <? u8 (Z.land 15 b0 * 4)); [by exists (bb_Recover b')|].
  destruct (zlen c <? tl) eqn:Etl; [by exists (bb_Recover b')|]. zbool.
  assert (Htl : 0 <= tl).
  { subst tl. apply Z.lor_nonneg. split; apply Z.mod_pos_bound; lia. }
  unfold go_make. rewrite (proj2 (Z.leb_le _ _) Htl). cbn [mbind go_bind].
  destruct (read_n (bb_Recover b') tl) as (b2' & k & -> & Hwf2 & Hc2 & Hcap2); [done|by rewrite Hc'|].
  exists b2'. rewrite Hc' in *. split; [done|]. split; [congruence|]. done.
Qed.
End parse_facts.

(** ** Decoding the bytes of a frame *)

Lemma u16_split v : v / 256 * 256 + v mod 256 = v.
Proof. pose proof (Z.div_mod v 256). lia. Qed.

Lemma go_index_app_r {A} (pre l : list A) i k :
  0 <= k -> i = zlen pre + k -> go_index (pre ++ l) i = go_index l k.
Proof.
  intros Hk ->. pose proof (zlen_nonneg pre). unfold go_index.
  rewrite (proj2 (Z.leb_le 0 k) Hk), (proj2 (Z.leb_le 0 (zlen pre + k))) by lia.
  unfold zlen. rewrite lookup_app_r by lia.
  by replace (Z.to_nat (Z.of_nat (length pre) + k) - length pre)%nat with (Z.to_nat k) by lia.
Qed.

Lemma go_slice_in {A} (pre mid post : list A) lo hi :
  lo = zlen pre -> hi = lo + zlen mid -> go_slice (pre ++ mid ++ post) lo hi = Val mid.
Proof.
  intros -> ->. pose proof (zlen_nonneg pre). pose proof (zlen_nonneg mid). pose proof (zlen_nonneg post).
  rewrite go_slice_ok by (rewrite ?zlen_app; lia). f_equal. unfold zlen in *.
  rewrite drop_app_length' by lia. by rewrite take_app_length' by lia.
Qed.

Lemma parse_options_wire pre opts rest line :
  zlen pre = 4 * line -> Forall (fun o => is_u16 (Key o) /\ is_u16 (Value o)) opts ->
  parse_options (pre ++ concat (map option_words opts) ++ rest) line (length opts) = Val opts.
Proof.
  intros Hpre Hok. revert pre line Hpre.
  induction Hok as [|[k v] opts [Hk Hv] _ IH]; intros pre line Hpre; [done|].
  cbn [length parse_options map concat]. simpl in Hk, Hv.
  destruct (div256_u8 _ Hk), (div256_u8 _ Hv).
  set (tl := concat (map option_words opts) ++ rest).
  replace (pre ++ (option_words (mkOption k v) ++ concat (map option_words opts)) ++ rest)
    with (pre ++ option_words (mkOption k v) ++ tl) by (unfold tl; by rewrite <- !app_assoc).
  rewrite (BytesToUint16_val _ (line * 4) (k / 256) (k mod 256)), 
    (BytesToUint16_val _ (line * 4 + 2) (v / 256) (v mod 256)); try done.
  2: rewrite (go_index_app_r _ _ _ 2) by lia; reflexivity.
  2: rewrite (go_index_app_r _ _ _ 3) by lia; reflexivity.
  2: rewrite (go_index_app_r _ _ _ 0) by lia; reflexivity.
  2: rewrite (go_index_app_r _ _ _ 1) by lia; reflexivity.
  cbn [mbind go_bind]. rewrite !u16_split, app_assoc. unfold tl. rewrite IH; [done|].
  rewrite zlen_app. change (zlen (option_words _)) with 4. lia.
Qed.

(** The options and the payload that follow a header of [hl] words. *)
Lemma options_of_wire pre opts pl hl :
  zlen pre = 20 -> zlen opts = hl - 5 -> Forall (fun o => is_u16 (Key o) /\ is_u16 (Value o)) opts ->
  (if minimumHeaderLen <? hl
   then parse_options (pre ++ concat (map option_words opts) ++ pl) minimumHeaderLen (Z.to_nat (hl - minimumHeaderLen))
   else Val []) = Val opts.
Proof.
  intros Hpre Hol Ho. unfold minimumHeaderLen. destruct (5 <? hl) eqn:E; zbool.
  - unfold zlen in Hol. replace (Z.to_nat (hl - 5)) with (length opts) by lia. by apply parse_options_wire.
  - destruct opts; [done|]. rewrite zlen_cons in Hol. pose proof (zlen_nonneg opts). lia.
Qed.

Lemma payload_of_wire (w pl : list Z) hl tl :
  0 <= hl < 16 -> zlen w = hl * 4 -> tl = zlen w + zlen pl -> go_slice (w ++ pl) (u8 (hl * 4)) tl = Val pl.
Proof.
  intros Hhl Hlen ->. rewrite u8_small by (unfold is_u8; lia).
  replace (zlen w + zlen pl) with (zlen (w ++ pl)) by (rewrite zlen_app; lia).
  rewrite go_slice_suffix by (rewrite zlen_app; pose proof (zlen_nonneg pl); lia).
  f_equal. by rewrite drop_app_length' by (unfold zlen in Hlen; lia).
Qed.

(** The bytes of a well-formed frame decode to that frame. *)
Lemma frame_of_bytes_wire fr c :
  frame_wf fr -> is_u16 c ->
  frame_of_bytes (Version fr) (HeaderLen fr) (Tos fr) (TotalLen fr)
    (wire_header fr c ++ Payload fr) = Val (set_checksum fr c).
Proof.
  intros Hwf Hc. destruct (wire_header_ok fr c Hwf Hc) as [Hbok Hlen].
  destruct fr as [ver hl tos tl id fl off ttl pr cs src tgt opts pl]. destruct Hwf.
  destruct wf_source0 as [Hsl Hs], wf_target0 as [Htl Ht], wf_options0 as [Hol Ho].
  cbn [Version HeaderLen Tos TotalLen Identification Flag Offset TTL Protocol HeaderCheckSum
       Source Target Options Payload] in *.
  destruct src as [|s0 [|s1 [|s2 [|s3 [|? ?]]]]]; try discriminate.
  destruct tgt as [|t0 [|t1 [|t2 [|t3 [|? ?]]]]]; try discriminate.
  destruct (div256_u8 _ wf_ident0), (div256_u8 _ Hc).
  assert (0 <= off / 256 < 32)
    by (split; [apply Z.div_pos; lia|apply Z.div_lt_upper_bound; lia]).
  assert (Hf : is_u8 (fl * 32 + off / 256)) by (unfold is_u8; lia).
  assert (Hom : is_u8 (off mod 256)) by apply u8_range.
  set (w := wire_header _ c) in *. unfold frame_of_bytes.
  set (pre := [ver * 16 + hl; tos; tl / 256; tl mod 256; id / 256; id mod 256;
     fl * 32 + off / 256; off mod 256; ttl; pr; c / 256; c mod 256;
     s0; s1; s2; s3; t0; t1; t2; t3]).
  assert (Hw : w ++ pl = pre ++ concat (map option_words opts) ++ pl)
    by (unfold w, wire_header, pre; simpl; by rewrite <- ?app_assoc).
  rewrite (payload_of_wire w pl hl tl) by lia.
  rewrite Hw, (options_of_wire pre opts pl hl) by done.
  rewrite (BytesToUint16_val _ 4 (id / 256) (id mod 256)) by done.
  rewrite (BytesToUint16_val _ 10 (c / 256) (c mod 256)) by done.
  set (rest := concat (map option_words opts) ++ pl).
  change (go_index (pre ++ rest) 6) with (Val (fl * 32 + off / 256)).
  change (go_index (pre ++ rest) 7) with (Val (off mod 256)).
  change (go_index (pre ++ rest) 8) with (Val ttl).
  change (go_index (pre ++ rest) 9) with (Val pr). cbn [mbind go_bind].
  assert (go_slice (pre ++ rest) 12 16 = Val [s0; s1; s2; s3]) as ->
    by exact (go_slice_in (take 12 pre) [s0; s1; s2; s3] ([t0; t1; t2; t3] ++ rest) 12 16 eq_refl eq_refl).
  assert (go_slice (pre ++ rest) 16 20 = Val [t0; t1; t2; t3]) as ->
    by exact (go_slice_in (take 16 pre) [t0; t1; t2; t3] rest 16 20 eq_refl eq_refl).
  cbn [mbind go_bind]. rewrite flag_bits, offset_bits, land_255, Z.lor_0_l, join16, !u16_split; try done.
  2: { unfold is_u8. pose proof (Z.mod_pos_bound (fl * 32 + off / 256) 32). lia. }
  2: { apply u8_range. }
  rewrite Z.div_add_l, Z.div_small, Z.add_0_r, Zmod_mod by lia.
  replace ((fl * 32 + off / 256) mod 32) with (off / 256)
    by (rewrite Z.add_comm, Z.mod_add, Z.mod_small; lia).
  by rewrite u16_split.
Qed.

Lemma view_wire fr c rest :
  frame_wf fr ->
  view_bytes (wire_header fr c ++ Payload fr ++ rest) =
  FrameAt (Version fr) (HeaderLen fr) (Tos fr) (TotalLen fr).
Proof.
  intros Hwf. assert (Hz : zlen (wire_header fr c) = 4 * HeaderLen fr).
  { transitivity (zlen (wire_header fr 0)); [done|]. by apply wire_header_ok. }
  pose proof (wf_version _ Hwf). pose proof (wf_header _ Hwf). pose proof (wf_total _ Hwf).
  destruct (div256_u8 _ (wf_total_u16 _ Hwf)) as [Hh Hl].
  pose proof (zlen_nonneg (Payload fr)). pose proof (zlen_nonneg rest).
  assert (Hb0 : is_u8 (Version fr * 16 + HeaderLen fr)) by (unfold is_u8; lia).
  set (s := wire_header fr c ++ Payload fr ++ rest).
  assert (Hlen : zlen s = TotalLen fr + zlen rest) by (unfold s; rewrite !zlen_app; lia).
  change (view_bytes s) with
    (let b0 := Version fr * 16 + HeaderLen fr in
     let headerLen := Z.land 15 b0 in
     let totalLen := Z.lor (u16 (Z.shiftl (u16 (TotalLen fr / 256)) 8)) (u16 (TotalLen fr mod 256)) in
     if headerLen <? minimumHeaderLen then BadHeader
     else if zlen s <? u8 (headerLen * 4) then NeedMore
     else if zlen s <? totalLen then NeedMore
     else FrameAt (Z.shiftr (Z.land 240 b0) 4) headerLen (Tos fr) totalLen).
  cbv zeta. rewrite join16, u16_split, high_nibble, low_nibble by done.
  rewrite Z.div_add_l, Z.div_small, Z.add_0_r by lia.
  rewrite Z.add_comm, Z.mod_add, Z.mod_small by lia.
  rewrite u8_small by (unfold is_u8; lia). unfold minimumHeaderLen.
  rewrite !(proj2 (Z.ltb_ge _ _)) by lia. done.
Qed.

Lemma options_surj (n : nat) bs :
  length bs = (4 * n)%nat -> bytes_ok bs ->
  exists opts, bs = concat (map option_words opts) /\ length opts = n /\
    Forall (fun o => is_u16 (Key o) /\ is_u16 (Value o)) opts.
Proof.
  revert bs. induction n as [|n IH]; intros bs Hl Hok.
  { destruct bs; [|done]. exists []. done. }
  destruct bs as [|a [|b [|c [|d r]]]]; try (simpl in Hl; lia).
  inv_bytes.
  unfold is_u8 in *. destruct (IH r) as (opts & -> & Hlo & Ho); [simpl in Hl; lia|done|].
  exists (mkOption (a * 256 + b) (c * 256 + d) :: opts). split.
  - cbn [map concat option_words Key Value app]. 
    rewrite !Z.div_add_l, !Z.div_small, !Z.add_0_r by lia.
    by rewrite !(Z.add_comm (_ * 256)), !Z.mod_add, !Z.mod_small by lia.
  - split; [simpl; lia|]. constructor; [|done]. unfold is_u16. simpl. lia.
Qed.

Lemma byte_pair_u16 a b : is_u8 a -> is_u8 b -> is_u16 (a * 256 + b).
Proof. unfold is_u8, is_u16. lia. Qed.

Lemma div_pair a b k : 0 <= b < k -> (a * k + b) / k = a.
Proof. intros Hb. rewrite Z.div_add_l, Z.div_small by lia. lia. Qed.

Lemma mod_pair a b k : 0 <= b < k -> (a * k + b) mod k = b.
Proof. intros Hb. rewrite Z.add_comm, Z.mod_add, Z.mod_small by lia. lia. Qed.

(** What a complete frame announces, as numbers. *)
Lemma view_inv bs v h t n :
  bytes_ok bs -> view_bytes bs = FrameAt v h t n ->
  exists b0 b2 b3 r, bs = b0 :: t :: b2 :: b3 :: r /\ is_u8 b0 /\ is_u8 t /\ is_u8 b2 /\ is_u8 b3 /\
    bytes_ok r /\ v = b0 / 16 /\ h = b0 mod 16 /\ 5 <= h < 16 /\ n = b2 * 256 + b3 /\ n <= zlen bs.
Proof.
  intros Hok Hv. destruct bs as [|b0 [|b1 [|b2 [|b3 r]]]]; try discriminate.
  remember (zlen (b0 :: b1 :: b2 :: b3 :: r)) as z eqn:Hz.
  unfold view_bytes in Hv. rewrite <- Hz in Hv. inv_bytes.
  rewrite join16, high_nibble, low_nibble in Hv by done. unfold minimumHeaderLen in Hv.
  destruct (b0 mod 16 <? 5) eqn:E1; [done|]. destruct (z <? u8 _); [done|].
  destruct (z <? b2 * 256 + b3) eqn:E2; [done|].
  injection Hv as <- <- <- <-. zbool. pose proof (Z.mod_pos_bound b0 16).
  exists b0, b2, b3, r. by repeat (split; [done || lia|]).
Qed.

(** The frame a buffer starts with is seen in its bytes alone. *)
Lemma view_take c v h t n :
  bytes_ok c -> view_bytes c = FrameAt v h t n -> 4 * h <= n ->
  view_bytes (take (Z.to_nat n) c) = FrameAt v h t n.
Proof.
  intros Hok Hv Hn. destruct (view_inv _ _ _ _ _ Hok Hv)
    as (b0 & b2 & b3 & r & -> & ? & ? & ? & ? & _ & Hvb & Hhb & ? & Htl & Hle).
  assert (Hz : zlen (take (Z.to_nat n) (b0 :: t :: b2 :: b3 :: r)) = n) by (rewrite zlen_take; lia).
  replace (Z.to_nat n) with (S (S (S (S (Z.to_nat (n - 4)))))) in * by lia.
  cbn [take view_bytes] in *. rewrite Hz, join16, high_nibble, low_nibble, <- Hhb, <- Htl, <- Hvb by done.
  unfold minimumHeaderLen. rewrite u8_small by (unfold is_u8; lia).
  rewrite !(proj2 (Z.ltb_ge _ _)) by lia. done.
Qed.

(** Every byte string that announces its own length and has room for its
    header is the wire format of a well-formed frame. *)
Lemma wire_surj bs v h t :
  bytes_ok bs -> view_bytes bs = FrameAt v h t (zlen bs) -> 4 * h <= zlen bs ->
  exists fr, frame_wf fr /\ bs = wire_header fr (HeaderCheckSum fr) ++ Payload fr.
Proof.
  intros Hok Hv Hh.
  destruct (view_inv _ _ _ _ _ Hok Hv)
    as (b0 & b2 & b3 & r & Hbs & ? & ? & ? & ? & ? & Hvb & Hhb & ? & Htl & _).
  assert (Hb0 : b0 = v * 16 + h) by (subst; pose proof (Z.div_mod b0 16); lia).
  clear Hv Hhb. remember (zlen bs) as n eqn:Hn. subst bs. rename t into b1.
  rewrite !zlen_cons in Hn.
  assert (Hr : exists b4 b5 b6 b7 b8 b9 b10 b11 b12 b13 b14 b15 b16 b17 b18 b19 q,
    r = b4 :: b5 :: b6 :: b7 :: b8 :: b9 :: b10 :: b11 :: b12 :: b13 :: b14 :: b15 :: b16 :: b17 :: b18 :: b19 :: q).
  { unfold zlen in Hn. do 16 (destruct r as [|? r]; [simpl in Hn; lia|]). eauto 20. }
  destruct Hr as (b4&b5&b6&b7&b8&b9&b10&b11&b12&b13&b14&b15&b16&b17&b18&b19&q&->).
  inv_bytes.
  rewrite !zlen_cons in Hn.
  set (k := Z.to_nat (h - 5)).
  destruct (options_surj k (take (4 * k) q)) as (opts & Hopts & Hlo & Ho).
  { rewrite length_take. unfold zlen in Hn. lia. }
  { by apply Forall_take. }
  assert (Hb6 : b6 = b6 / 32 * 32 + b6 mod 32) by (pose proof (Z.div_mod b6 32); lia).
  assert (0 <= b6 mod 32 < 32) by (apply Z.mod_pos_bound; lia).
  assert (0 <= b6 / 32 < 8) by (unfold is_u8 in *; lia).
  assert (0 <= v < 16) by (subst v; unfold is_u8 in *; lia). clear Hvb.
  exists (mkIPFrame v h b1 n (b4 * 256 + b5) (b6 / 32) (b6 mod 32 * 256 + b7) b8 b9 (b10 * 256 + b11)
    [b12; b13; b14; b15] [b16; b17; b18; b19] opts (drop (4 * k) q)). split.
  - constructor; cbn [Version HeaderLen Tos TotalLen Identification Flag Offset TTL Protocol
      HeaderCheckSum Source Target Options Payload]; try done; try lia; try (by apply byte_pair_u16).
    + rewrite zlen_drop. lia.
    + rewrite Htl. by apply byte_pair_u16.
    + unfold is_u8 in *. lia.
    + split; [done|]. repeat (constructor; [done|]). constructor.
    + split; [done|]. repeat (constructor; [done|]). constructor.
    + split; [unfold zlen; lia|done].
    + by apply Forall_drop.
  - unfold wire_header. cbn [Version HeaderLen Tos TotalLen Identification Flag Offset TTL Protocol
      HeaderCheckSum Source Target Options Payload app].
    rewrite Htl. unfold is_u8 in *.
    rewrite !div_pair, !mod_pair by lia. rewrite <- Hb0, <- Hb6. 
    by rewrite <- Hopts, take_drop.
Qed.

Lemma frame_of_bytes_short v h t n bs :
  0 <= h < 16 -> n < 4 * h -> is_panic (frame_of_bytes v h t n bs) = true.
Proof.
  intros Hh Hn. destruct (frame_of_bytes v h t n bs) as [fr|] eqn:E; [|done].
  unfold frame_of_bytes in E. inv_go.
  match goal with H : go_slice _ _ n = Val _ |- _ =>
    rewrite u8_small in H by (unfold is_u8; lia); rewrite go_slice_bad in H by lia; discriminate H end.
Qed.

Section parse_theorems.
Context {B : Type} `{ByteBufferSpec B}.

(** The outcome of [ParseIPFrame] on a buffer holding the bytes of a frame. *)
Lemma ParseIPFrame_wire (b : B) fr c rest :
  bb_wf b -> frame_wf fr -> is_u16 c ->
  bb_contents b = wire_header fr c ++ Payload fr ++ rest ->
  exists b', ParseIPFrame b = Val (b', Ok (Some (set_checksum fr c))) /\
    bb_wf b' /\ bb_Capacity b' = bb_Capacity b /\ bb_contents b' = rest.
Proof.
  intros Hb Hwf Hc Hcont. destruct (ParseIPFrame_view b Hb) as (b' & Hb' & Hcap & Hv).
  rewrite Hcont, view_wire in Hv by done. destruct Hv as [Hd ->].
  destruct (wire_header_ok fr c Hwf Hc) as [_ Hz]. pose proof (wf_total _ Hwf) as Ht.
  assert (Hn : Z.to_nat (TotalLen fr) = length (wire_header fr c ++ Payload fr))
    by (rewrite length_app; unfold zlen in *; lia).
  rewrite app_assoc, take_app_length' by done. rewrite frame_of_bytes_wire by done.
  exists b'. rewrite Hd, app_assoc, drop_app_length' by done. done.
Qed.

Lemma ParseIPFrame_short (b : B) v h t n :
  bb_wf b -> bytes_ok (bb_contents b) -> view_bytes (bb_contents b) = FrameAt v h t n -> n < 4 * h ->
  is_panic (ParseIPFrame b) = true.
Proof.
  intros Hb Hok E Hlt. destruct (ParseIPFrame_view b Hb) as (b' & _ & _ & Hv).
  rewrite E in Hv. destruct Hv as [_ ->]. rewrite go_bind_is_panic.
  destruct (view_inv _ _ _ _ _ Hok E) as (b0 & b2 & b3 & r & _ & _ & _ & _ & _ & _ & _ & _ & ? & _ & _).
  pose proof (frame_of_bytes_short v h t n (take (Z.to_nat n) (bb_contents b))) as Hs.
  destruct (frame_of_bytes _ _ _ _ _); [apply Hs; lia|done].
Qed.

Lemma ParseIPFrame_at (b : B) v h t n :
  bb_wf b -> bytes_ok (bb_contents b) -> view_bytes (bb_contents b) = FrameAt v h t n -> 4 * h <= n ->
  exists b' fr, ParseIPFrame b = Val (b', Ok (Some fr)) /\ frame_wf fr /\ bb_wf b' /\
    bb_Capacity b' = bb_Capacity b /\
    bb_contents b = wire_header fr (HeaderCheckSum fr) ++ Payload fr ++ bb_contents b'.
Proof.
  intros Hb Hok E Hle. set (c := bb_contents b) in *.
  destruct (view_inv _ _ _ _ _ Hok E) as (b0 & b2 & b3 & r & Hc & ? & ? & ? & ? & _ & ? & Hh & ? & Hn & Hz).
  destruct (wire_surj (take (Z.to_nat n) c) v h t) as (fr & Hfr & Hw).
  - by apply Forall_take.
  - rewrite zlen_take. replace (_ `min` _) with n by lia. apply view_take; [done|done|lia].
  - rewrite zlen_take. lia.
  - destruct (ParseIPFrame_wire b fr (HeaderCheckSum fr) (drop (Z.to_nat n) c))
      as (b1 & Hp1 & Hb1 & Hcap1 & Hc1); [done|done|by apply wf_checksum| |].
    { rewrite app_assoc, <- Hw. by rewrite take_drop. }
    exists b1, fr. rewrite Hp1, Hc1, app_assoc, <- Hw, take_drop. by destruct fr.
Qed.

(** C8. Whatever buffer implementation the parser reads from, the bytes
    [ToBytes] produces for a well-formed frame, followed by any further bytes,
    parse back to that frame (with the checksum [ToBytes] stored in it), and
    exactly the further bytes are left in the buffer. *)
Theorem ToBytes_ParseIPFrame (b : B) fr bs fr' rest :
  bb_wf b -> frame_wf fr -> ToBytes fr = Val (bs, fr') -> bb_contents b = bs ++ rest ->
  exists b', ParseIPFrame b = Val (b', Ok (Some fr')) /\ bb_wf b' /\ bb_contents b' = rest.
Proof.
  intros Hb Hwf Hto Hc. rewrite ToBytes_val in Hto by done.
  assert (bs = wire_header fr (checksum_of fr) ++ Payload fr /\ fr' = set_checksum fr (checksum_of fr))
    as [-> ->] by (split; congruence).
  rewrite <- app_assoc in Hc.
  destruct (ParseIPFrame_wire b fr _ rest Hb Hwf (checksum_of_u16 fr) Hc) as (b' & ? & ? & ? & ?).
  by exists b'.
Qed.

End parse_theorems.

(** A buffer of 64 bytes in which [bs] was written after 50 bytes had come and
    gone, so that a frame wraps around the end of the memory. *)
Definition wrapped_buffer (bs : list Z) : go Recycle.RecycleByteBuffer :=
  let! b := Recycle.NewRecycleByteBuffer 64 in
  let! b := Recycle.Write b (replicate 50 7) in
  let! (b, _, _) := Recycle.Read b (replicate 50 0) in
  Recycle.Write b bs.

(** The bytes of [TestParseIPFrame] announce 60 bytes and are 20: the frame that
    the test goes on to look at is nil. *)
Definition test_bytes : list Z :=
  [0x45; 0x00; 0x00; 0x3c; 0x1c; 0x46; 0x40; 0x00; 0x40; 0x06; 0xd2; 0x1e; 0xc0; 0xa8; 0x00; 0x0a; 0xc0; 0xa8; 0x00; 0x14].

Lemma test_frame_incomplete :
  match (let! b := Recycle.NewRecycleByteBuffer 64 in let! b := Recycle.Write b test_bytes in ParseIPFrame b) with
  | Val (b, Ok None) => Recycle.contents b = test_bytes
  | _ => False
  end.
Proof. vm_compute. reflexivity. Qed.

(** The frame of [demo_bytes] and the first two bytes of the next one. *)
Definition demo_buffer : Recycle.RecycleByteBuffer :=
  match wrapped_buffer (demo_bytes ++ [69; 0]) with
  | Val b => b
  | Panic _ => Recycle.mkRecycleByteBuffer [] 0 0 0 0 0 0 0
  end.

Lemma demo_buffer_wf : Recycle.wf demo_buffer.
Proof. split; [vm_compute; done|]. vm_compute. intuition discriminate. Qed.

Lemma ToBytes_ParseIPFrame_witness :
  exists b', ParseIPFrame demo_buffer = Val (b', Ok (Some (set_checksum demo_frame 3754))) /\
    Recycle.wf b' /\ Recycle.contents b' = [69; 0].
Proof.
  refine (ToBytes_ParseIPFrame demo_buffer demo_frame demo_bytes (set_checksum demo_frame 3754) [69; 0]
    demo_buffer_wf demo_frame_wf eq_refl _). vm_compute. reflexivity.
Defined.

(** A header of 20 bytes that announces a total length of 16. *)
Definition short_buffer : Recycle.RecycleByteBuffer :=
  match wrapped_buffer (69 :: 0 :: 0 :: 16 :: replicate 16 0) with
  | Val b => b
  | Panic _ => Recycle.mkRecycleByteBuffer [] 0 0 0 0 0 0 0
  end.

Lemma short_buffer_wf : Recycle.wf short_buffer.
Proof. split; [vm_compute; done|]. vm_compute. intuition discriminate. Qed.

