(* ===== verification/TunConn.v ===== *)
(** * The tun connection

    [src/pkg/util/tunutils/tun.go]: the tun device and its routes, the two
    pipes of a [TunConn], and the loops that cut IP frames out of the bytes of
    the device, of the write pipe and of a peer's stream. *)

From Stdlib Require Import ZArith Lia.
From stdpp Require Import base list list_numbers strings option.
From S2P Require Import Prelude GoStrings GoNet RecycleBuffer IPFrame.

Local Open Scope Z_scope.

Definition PacketSize : Z := 65536.
Definition ReceiveSize : Z := 50.
Definition SendSize : Z := 50.

(** ** The device

    [water.New], [syscall.Socket], the kernel's raw sockets and the shell that
    runs the [ip] command are outside the program: what they answer is a
    parameter. *)
Section device.
Context {Interface : Type}.
Context (water_New : string -> result Interface).
Context (syscall_Socket : result Z).
Context (cmd_Run : string -> result unit).

(** The package variables [tunDev] and [once]. *)
Record tun_globals : Type := mkGlobals { tunDev : option Interface; once_done : bool }.

Definition ExecCommand (command : string) : result unit := cmd_Run command.

(** [fmt.Errorf(prefix + "%v", err)] *)
Definition wrap {A} (prefix : string) (r : result A) : result A :=
  match r with Ok a => Ok a | Err e => Err (prefix +:+ e) end.

(** The function [once.Do] runs, with the error it leaves in [err]. *)
Definition create_tun (g : tun_globals) (name : string) : tun_globals * option string :=
  match water_New name with
  | Err e => (mkGlobals None true, Some ("failed to create TunInterface, error: " +:+ e))
  | Ok dev =>
      match ExecCommand ("ip link set dev " +:+ name +:+ " up") with
      | Err e => (mkGlobals (Some dev) true,
                  Some ("failed to set up TunInterface " +:+ name +:+ ", error: " +:+ e))
      | Ok _ => (mkGlobals (Some dev) true, None)
      end
  end.

Definition getTun (g : tun_globals) (name : string) : tun_globals * option Interface * option string :=
  match tunDev g with
  | Some dev => (g, Some dev, None)
  | None =>
      if once_done g then (g, None, None)
      else let '(g', err) := create_tun g name in (g', tunDev g', err)
  end.

(** [tun.Close]: the interface shared by all connections is closed. *)
Definition TunConn_Close (tun_Close : result unit) : result unit :=
  wrap "failed to close tun interface, error: " tun_Close.

(** ** A connection and its pipes

    A pipe is a buffered channel of byte slices; [None] is the nil slice.  No
    code closes the pipes. *)
Record TunConn : Type := mkTunConn {
  tunName : string;
  tun : option Interface;
  ReceivePipe : list (option (list Z));
  WritePipe : list (option (list Z));
  fd : Z
}.

Definition NewTunConn (g : tun_globals) (name : string) : tun_globals * result TunConn :=
  let '(g, tun, err) := getTun g name in
  match err with
  | Some e => (g, Err ("failed to get TunInterface, error: " +:+ e))
  | None =>
      match syscall_Socket with
      | Err e => (g, Err ("failed to create raw socket, error: " +:+ e))
      | Ok fd => (g, Ok (mkTunConn name tun [] [] fd))
      end
  end.

Definition SetupTunDevice (name : string) : result unit :=
  wrap ("failed to set up TunInterface " +:+ name +:+ ", error: ")
    (ExecCommand ("ip link set dev " +:+ name +:+ " up")).

Definition AddRouteToTun (cidr name : string) : result unit :=
  let cmdStr := "ip route add " +:+ cidr +:+ " dev " +:+ name in
  wrap ("failed to exec '" +:+ cmdStr +:+ "', error: ") (ExecCommand cmdStr).

Definition CleanTunDevice (t : TunConn) : result unit :=
  wrap ("failed to delete tun device " +:+ tunName t +:+ ", error: ")
    (ExecCommand ("ip link del dev " +:+ tunName t +:+ " mode tun")).

Definition CleanTunRoute (t : TunConn) : result unit :=
  wrap ("failed to clean tun device " +:+ tunName t +:+ " routes, error: ")
    (ExecCommand ("ip route flush dev " +:+ tunName t)).

Definition CleanSingleTunRoute (t : TunConn) (cidr : string) : result unit :=
  wrap ("failed to clean tun device " +:+ tunName t +:+ " single route " +:+ cidr +:+ ", error: ")
    (ExecCommand ("ip route del table main " +:+ cidr +:+ " dev " +:+ tunName t)).

Definition set_ReceivePipe (t : TunConn) (p : list (option (list Z))) : TunConn :=
  mkTunConn (tunName t) (tun t) p (WritePipe t) (fd t).

Definition set_WritePipe (t : TunConn) (p : list (option (list Z))) : TunConn :=
  mkTunConn (tunName t) (tun t) (ReceivePipe t) p (fd t).

(** [copy(packet, data)]: the elements of [packet] after the call. *)
Definition copy_into (packet data : list Z) : list Z :=
  take (length packet) data ++ drop (length data) packet.

(** The connection, the caller's slice, the count and the error. *)
Definition Read (t : TunConn) (packet : list Z) : TunConn * list Z * Z * option string :=
  match ReceivePipe t with
  | [] => (t, packet, 0, None)
  | None :: p => (set_ReceivePipe t p, packet, 0, Some "EOF")
  | Some data :: p =>
      if 65535 <? zlen data
      then (set_ReceivePipe t p, packet, 0, Some "data length exceeds the maximum allowed size")
      else (set_ReceivePipe t p, copy_into packet data, zlen data, None)
  end.

Definition Write (t : TunConn) (packet : list Z) : TunConn * Z * option string :=
  let n := zlen packet in
  if n =? 0 then (t, 0, Some "it's invalid to write none to TunConn")
  else if 65535 <? n then (t, n, Some "cni length exceeds the maximum allowed size")
  else if zlen (WritePipe t) <? SendSize
  then (set_WritePipe t (WritePipe t ++ [Some packet]), n, None)
  else (t, 0, Some "failed to send packet to WritePipe channel").
End device.
Arguments tun_globals : clear implicits.
Arguments TunConn : clear implicits.

(** ** The frame loops *)

(** What a loop hands on: bytes put into the receive pipe, or a datagram given
    to [syscall.Sendto] (whose error is only logged). *)
Inductive tun_event : Type :=
| ToReceivePipe (bytes : list Z)
| Sendto (fd : Z) (bytes : list Z) (addr : list Z).

Section loops.
Context {B : Type} `{ByteBuffer B}.

(** The inner [for] loop: parse frames and hand each one on until no complete
    frame is left or the bytes are no frame.  The Boolean tells that the loop
    was left; each turn takes a frame off the buffer. *)
Fixpoint drain (emit : IPFrame -> go tun_event) (fuel : nat) (buffer : B)
  : go (B * list tun_event * bool) :=
  match fuel with
  | O => Val (buffer, [], false)
  | S fuel' =>
      let! (buffer, r) := ParseIPFrame buffer in
      match r with
      | Err _ => Val (bb_Clean buffer, [], true)
      | Ok None => Val (buffer, [], true)
      | Ok (Some frame) =>
          let! ev := emit frame in
          let! (buffer, evs, done) := drain emit fuel' buffer in
          Val (buffer, ev :: evs, done)
      end
  end.

(** [buffer.Write(packet[:n])] followed by the inner loop; a turn of the loop
    needs four bytes, so the number of readable bytes bounds the turns. *)
Definition feed (emit : IPFrame -> go tun_event) (buffer : B) (chunk : list Z)
  : go (B * list tun_event * bool) :=
  let! buffer := bb_Write buffer chunk in
  drain emit (S (Z.to_nat (bb_ReadableBytes buffer))) buffer.

Definition receive_emit (frame : IPFrame) : go tun_event :=
  let! (bytes, _) := ToBytes frame in Val (ToReceivePipe bytes).

Definition send_emit (fd : Z) (frame : IPFrame) : go tun_event :=
  let! addr := IPToArray4 (Target frame) in
  let! (bytes, _) := ToBytes frame in
  Val (Sendto fd bytes addr).

(** A loop over the chunks [tun.tun.Read] or [stream.Read] returns, up to the
    first error; [Ok chunk] holds the [n] bytes the call has read. *)
Fixpoint read_loop (emit : IPFrame -> go tun_event) (buffer : B) (reads : list (result (list Z)))
  : go (B * list tun_event) :=
  match reads with
  | [] => Val (buffer, [])
  | Err _ :: _ => Val (buffer, [])
  | Ok chunk :: reads' =>
      let! (buffer, evs, _) := feed emit buffer chunk in
      let! (buffer, evs') := read_loop emit buffer reads' in
      Val (buffer, evs ++ evs')
  end.

Fixpoint write_loop (emit : IPFrame -> go tun_event) (buffer : B) (packets : list (list Z))
  : go (B * list tun_event) :=
  match packets with
  | [] => Val (buffer, [])
  | packet :: packets' =>
      let! (buffer, evs) :=
        if zlen packet =? 0 then Val (buffer, [])
        else let! (buffer, evs, _) := feed emit buffer packet in Val (buffer, evs) in
      let! (buffer, evs') := write_loop emit buffer packets' in
      Val (buffer, evs ++ evs')
  end.
End loops.

Definition TunReceiveLoop (reads : list (result (list Z))) : go (list tun_event) :=
  let! buffer := Recycle.NewRecycleByteBuffer PacketSize in
  let! (_, evs) := read_loop receive_emit buffer reads in Val evs.

Definition TunWriteLoop (fd : Z) (packets : list (list Z)) : go (list tun_event) :=
  let! buffer := Recycle.NewRecycleByteBuffer PacketSize in
  let! (_, evs) := write_loop (send_emit fd) buffer packets in Val evs.

(** The goroutine of [DialTun], once [NewTunConn] has succeeded. *)
Definition DialTun (fd : Z) (reads : list (result (list Z))) : go (list tun_event) :=
  let! buffer := Recycle.NewRecycleByteBuffer PacketSize in
  let! (_, evs) := read_loop (send_emit fd) buffer reads in Val evs.

(** ** Termination of the frame loop *)

(** The datagram a loop hands on for a frame. *)
Definition wire (fr : IPFrame) : list Z := wire_header fr (checksum_of fr) ++ Payload fr.

Lemma receive_emit_val fr : frame_wf fr -> receive_emit fr = Val (ToReceivePipe (wire fr)).
Proof. intros Hwf. unfold receive_emit. by rewrite ToBytes_val. Qed.

Lemma send_emit_val fd fr : frame_wf fr -> send_emit fd fr = Val (Sendto fd (wire fr) (Target fr)).
Proof.
  intros Hwf. unfold send_emit, IPToArray4. destruct (wf_target _ Hwf) as [Hl _].
  rewrite ToBytes_val by done.
  destruct (Target fr) as [|a [|b [|c [|d [|? ?]]]]]; try discriminate. done.
Qed.

Section loop_facts.
Context {B : Type} `{ByteBufferSpec B}.
Context (emit : IPFrame -> go tun_event) (ev : IPFrame -> tun_event).
Hypothesis emit_val : forall fr, frame_wf fr -> emit fr = Val (ev fr).

Lemma drain_terminates fuel (b : B) :
  bb_wf b -> bytes_ok (bb_contents b) -> (length (bb_contents b) < fuel)%nat ->
  match drain emit fuel b with
  | Val (b', _, finished) => finished = true /\ bb_wf b' /\ view_bytes (bb_contents b') = NeedMore
  | Panic _ => True
  end.
Proof.
  revert b. induction fuel as [|fuel IH]; intros b Hb Hok Hlt; [lia|]. cbn [drain].
  destruct (ParseIPFrame_view b Hb) as (b' & Hb' & _ & Hv).
  destruct (view_bytes (bb_contents b)) as [| |v h t n] eqn:E.
  - destruct Hv as [-> Hc]. simpl. by rewrite Hc.
  - destruct Hv as [-> _]. simpl. destruct (bb_clean_spec b' Hb') as (Hb2 & Hc2 & _). by rewrite Hc2.
  - destruct (decide (4 * h <= n)) as [Hle|Hgt].
    + destruct (ParseIPFrame_at b v h t n Hb Hok E Hle) as (b1 & fr & -> & Hfr & Hb1 & _ & Hc).
      cbn [mbind go_bind]. rewrite emit_val by done. cbn [mbind go_bind].
      rewrite Hc in Hok, Hlt. apply Forall_app in Hok as [_ Hok]. apply Forall_app in Hok as [_ Hok].
      assert (Hl : (length (bb_contents b1) < fuel)%nat).
      { rewrite !length_app in Hlt.
        destruct (wire_header_ok fr _ Hfr (wf_checksum _ Hfr)) as [_ Hz].
        pose proof (wf_header _ Hfr). unfold zlen in Hz. lia. }
      specialize (IH b1 Hb1 Hok Hl). by destruct (drain emit fuel b1) as [[[? ?] ?]|].
    + pose proof (ParseIPFrame_short b v h t n Hb Hok E) as Hp.
      destruct (ParseIPFrame b) as [[? ?]|]; [|done]. exfalso. simpl in Hp.
      assert (false = true) by (apply Hp; lia). done.
Qed.

Lemma feed_terminates (b : B) chunk :
  bb_wf b -> bytes_ok (bb_contents b) -> bytes_ok chunk ->
  match feed emit b chunk with
  | Val (b', _, finished) => finished = true /\ bb_wf b' /\ view_bytes (bb_contents b') = NeedMore
  | Panic _ => True
  end.
Proof.
  intros Hb Hok Hch. unfold feed. destruct (bb_write_spec b chunk Hb) as (b1 & -> & Hb1 & _ & Hc1).
  cbn [mbind go_bind]. apply drain_terminates; [done| |].
  - rewrite Hc1. apply Forall_app. split; [done|by apply Forall_take].
  - rewrite bb_readable_spec by done. unfold zlen. lia.
Qed.

(** ** Reassembly *)

(** A proper prefix of a frame is not yet a frame. *)
Lemma view_prefix fr c p q :
  frame_wf fr -> is_u16 c -> wire_header fr c ++ Payload fr = p ++ q -> q <> [] ->
  view_bytes p = NeedMore.
Proof.
  intros Hwf Hc Hpq Hq. destruct (wire_header_ok fr c Hwf Hc) as [Hok Hz].
  assert (Hlt : zlen p < TotalLen fr).
  { rewrite (wf_total _ Hwf), <- Hz, <- zlen_app, Hpq, zlen_app. destruct q; [done|].
    rewrite zlen_cons. pose proof (zlen_nonneg q). lia. }
  destruct (view_bytes p) as [| |v h t n] eqn:E; [done| |]; exfalso.
  - pose proof (view_wire fr c [] Hwf) as Hv. rewrite app_nil_r, Hpq in Hv.
    destruct p as [|b0 [|b1 [|b2 [|b3 r]]]]; try discriminate. unfold view_bytes in E, Hv.
    cbn [app] in Hv. destruct (Z.land 15 b0 <? minimumHeaderLen); [done|].
    repeat case_match; discriminate.
  - pose proof (view_wire fr c [] Hwf) as Hv. rewrite app_nil_r, Hpq in Hv.
    destruct p as [|b0 [|b1 [|b2 [|b3 r]]]]; try discriminate. unfold view_bytes in E, Hv.
    cbn [app] in Hv. repeat case_match; simplify_eq. zbool. lia.
Qed.

Hypothesis ev_checksum : forall fr c, ev (set_checksum fr c) = ev fr.

(** What is left of [frames] after the complete ones were taken: [p] is a
    proper prefix of the next frame. *)
Definition pending (p : list Z) (frames : list IPFrame) : Prop :=
  match frames with [] => p = [] | fr :: _ => zlen p < TotalLen fr end.

Lemma zlen_wire fr : frame_wf fr -> zlen (wire fr) = TotalLen fr.
Proof.
  intros Hwf. destruct (wire_header_ok fr _ Hwf (checksum_of_u16 fr)) as [_ Hz].
  unfold wire. rewrite zlen_app, (wf_total _ Hwf). lia.
Qed.

Lemma set_checksum_wf fr c : frame_wf fr -> is_u16 c -> frame_wf (set_checksum fr c).
Proof. intros Hwf Hc. destruct fr, Hwf. by constructor. Qed.

Lemma drain_wait fuel (b : B) :
  bb_wf b -> view_bytes (bb_contents b) = NeedMore ->
  exists b', drain emit (S fuel) b = Val (b', [], true) /\ bb_wf b' /\
    bb_Capacity b' = bb_Capacity b /\ bb_contents b' = bb_contents b.
Proof.
  intros Hb E. destruct (ParseIPFrame_view b Hb) as (b' & Hb' & Hcap & Hv).
  rewrite E in Hv. destruct Hv as [Hp Hc]. exists b'. cbn [drain]. by rewrite Hp.
Qed.

Lemma app_split {A} (w r c f : list A) :
  zlen w <= zlen c -> c ++ f = w ++ r -> exists k, c = w ++ k /\ k ++ f = r.
Proof.
  intros Hle Heq. apply app_eq_inv in Heq as [(k & -> & ->)|(k & -> & ->)].
  - by exists k.
  - rewrite zlen_app in Hle. pose proof (zlen_nonneg k). destruct k as [|x k].
    + exists []. by rewrite !app_nil_r.
    + rewrite zlen_cons in Hle. pose proof (zlen_nonneg k). lia.
Qed.

Lemma contents_prefix fr c future r :
  frame_wf fr -> zlen c < zlen (wire fr) -> c ++ future = wire fr ++ r -> view_bytes c = NeedMore.
Proof.
  intros Hfr Hlt Hs. symmetry in Hs. apply app_split in Hs as (k & Hw & _); [|lia].
  apply (view_prefix fr (checksum_of fr) _ k Hfr (checksum_of_u16 fr) Hw).
  intros ->. rewrite Hw, app_nil_r in Hlt. lia.
Qed.

Lemma drain_stream frames fuel (b : B) future :
  bb_wf b -> Forall frame_wf frames -> (length (bb_contents b) < fuel)%nat ->
  bb_contents b ++ future = concat (map wire frames) ->
  exists done rest b', frames = done ++ rest /\
    drain emit fuel b = Val (b', map ev done, true) /\ bb_wf b' /\ bb_Capacity b' = bb_Capacity b /\
    bb_contents b' ++ future = concat (map wire rest) /\ pending (bb_contents b') rest.
Proof.
  revert fuel b. induction frames as [|fr frames IH]; intros fuel b Hb Hwf Hfuel Hs;
    (destruct fuel as [|fuel]; [lia|]).
  - apply app_eq_nil in Hs as [Hc Hf].
    destruct (drain_wait fuel b Hb) as (b' & Hd & Hb' & Hcap & Hc'); [by rewrite Hc|].
    exists [], [], b'. by rewrite Hc', Hc, Hf.
  - inversion_clear Hwf as [|? ? Hfr Hfrs]. cbn [map concat] in Hs.
    destruct (decide (zlen (bb_contents b) < zlen (wire fr))) as [Hlt|Hge].
    + destruct (drain_wait fuel b Hb) as (b' & Hd & Hb' & Hcap & Hc').
      { by apply (contents_prefix fr _ future (concat (map wire frames))). }
      exists [], (fr :: frames), b'. rewrite Hc'. rewrite zlen_wire in Hlt by done. done.
    + destruct (app_split (wire fr) (concat (map wire frames)) (bb_contents b) future)
        as (k & Hc & Hk); [lia|done|]. unfold wire in Hc. rewrite <- app_assoc in Hc.
      destruct (ParseIPFrame_wire b fr _ k Hb Hfr (checksum_of_u16 fr) Hc) as (b1 & Hp & Hb1 & Hcap1 & Hc1).
      cbn [drain]. rewrite Hp. cbn [mbind go_bind].
      rewrite emit_val by (apply set_checksum_wf; [done|apply checksum_of_u16]). cbn [mbind go_bind].
      destruct (IH fuel b1 Hb1 Hfrs) as (dn & rest & b' & -> & -> & Hb' & Hcap' & Hs' & Hp').
      * rewrite Hc1. apply (f_equal length) in Hc. rewrite !length_app in Hc.
        destruct (wire_header_ok fr _ Hfr (checksum_of_u16 fr)) as [_ Hz].
        pose proof (wf_header _ Hfr). unfold zlen in Hz. lia.
      * by rewrite Hc1.
      * exists (fr :: dn), rest, b'. cbn [mbind go_bind]. rewrite ev_checksum.
        repeat (split; [done || congruence|]). done.
Qed.

Lemma pending_all rest p : Forall frame_wf rest -> pending p rest -> p = concat (map wire rest) -> rest = [].
Proof.
  intros Hwf Hp Hs. destruct rest as [|fr rest]; [done|]. exfalso. simpl in Hp.
  inversion_clear Hwf. rewrite Hs in Hp. cbn [map concat] in Hp.
  rewrite zlen_app, zlen_wire in Hp by done. pose proof (zlen_nonneg (concat (map wire rest))). lia.
Qed.

(** A loop that is given whole frames hands each of them on. *)
Lemma write_loop_frames frames (b : B) :
  bb_wf b -> bb_contents b = [] -> 65535 <= bb_Capacity b -> Forall frame_wf frames ->
  exists b', write_loop emit b (map wire frames) = Val (b', map ev frames).
Proof.
  intros Hb Hc Hcap Hwf. revert b Hb Hc Hcap.
  induction Hwf as [|fr frames Hfr Hwf IH]; intros b Hb Hc Hcap; [by exists b|].
  pose proof (wf_total_u16 _ Hfr) as Hu. unfold is_u16 in Hu.
  pose proof (wf_header _ Hfr). pose proof (wf_total _ Hfr). pose proof (zlen_nonneg (Payload fr)).
  cbn [map write_loop]. rewrite zlen_wire, (proj2 (Z.eqb_neq _ 0)) by (done || lia). unfold feed.
  destruct (bb_write_spec b (wire fr) Hb) as (b1 & -> & Hb1 & Hcap1 & Hc1). cbn [mbind go_bind].
  rewrite Hc, take_ge, app_nil_l in Hc1
    by (change (zlen []) with 0; pose proof (zlen_wire fr Hfr); unfold zlen in *; lia).
  destruct (drain_stream [fr] (S (Z.to_nat (bb_ReadableBytes b1))) b1 [])
    as (dn & rest & b2 & Hsp & -> & Hb2 & Hcap2 & Hs2 & Hp2); [done|by constructor| | |].
  { rewrite bb_readable_spec by done. unfold zlen. lia. }
  { by rewrite Hc1. }
  assert (Hr : Forall frame_wf rest).
  { assert (Hall : Forall frame_wf (dn ++ rest)) by (rewrite <- Hsp; by constructor).
    by apply Forall_app in Hall as [_ ?]. }
  rewrite app_nil_r in Hs2. pose proof (pending_all _ _ Hr Hp2 Hs2) as ->.
  rewrite app_nil_r in Hsp. subst dn. cbn [mbind go_bind].
  destruct (IH b2) as [b3 ->]; [done|done|lia|]. by exists b3.
Qed.

(** A loop that reads the bytes of a sequence of frames, in chunks of at most
    [c] bytes, hands every frame on, once and in order. *)
Lemma read_loop_stream chunks frames (b : B) m c :
  bb_wf b -> Forall frame_wf frames -> Forall (fun fr => TotalLen fr <= m) frames ->
  Forall (fun ch => zlen ch <= c) chunks -> m - 1 + c <= bb_Capacity b -> 0 < m ->
  pending (bb_contents b) frames -> bb_contents b ++ concat chunks = concat (map wire frames) ->
  exists b', read_loop emit b (map Ok chunks) = Val (b', map ev frames).
Proof.
  intros Hb Hwf Hm Hc Hcap Hpos. revert frames b Hb Hwf Hm Hcap.
  induction Hc as [|ch chunks Hch Hc IH]; intros frames b Hb Hwf Hm Hcap Hp Hs.
  - simpl in Hs. rewrite app_nil_r in Hs. rewrite (pending_all frames _ Hwf Hp Hs). by exists b.
  - cbn [map read_loop concat] in *. unfold feed.
    destruct (bb_write_spec b ch Hb) as (b1 & -> & Hb1 & Hcap1 & Hc1). cbn [mbind go_bind].
    rewrite take_ge in Hc1.
    2: { assert (zlen (bb_contents b) <= m - 1).
         { destruct frames; simpl in Hp; [rewrite Hp; change (zlen []) with 0; lia|].
           inversion_clear Hm. lia. }
         unfold zlen in *. lia. }
    destruct (drain_stream frames (S (Z.to_nat (bb_ReadableBytes b1))) b1 (concat chunks))
      as (dn & rest & b2 & -> & -> & Hb2 & Hcap2 & Hs2 & Hp2); [done|done| | |].
    { rewrite bb_readable_spec by done. unfold zlen. lia. }
    { by rewrite Hc1, <- app_assoc. }
    apply Forall_app in Hwf as [_ Hwf]. apply Forall_app in Hm as [_ Hm]. cbn [mbind go_bind].
    destruct (IH rest b2) as [b3 ->]; [done|done|done|lia|done|done|].
    exists b3. simpl. by rewrite map_app.
Qed.
End loop_facts.

(** Every turn of the frame loops comes to an end: after a chunk of bytes
    has been written to the buffer, the inner loop stops within one turn per
    readable byte, and unless a malformed frame makes it panic it leaves a
    well-formed buffer that holds no further complete frame. *)
Theorem frame_loop_terminates `{ByteBufferSpec B} (fd : Z) (b : B) chunk :
  bb_wf b -> bytes_ok (bb_contents b) -> bytes_ok chunk ->
  Forall (fun emit =>
    match feed emit b chunk with
    | Val (b', _, finished) => finished = true /\ bb_wf b' /\ view_bytes (bb_contents b') = NeedMore
    | Panic _ => True
    end) [receive_emit; send_emit fd].
Proof.
  intros Hb Hok Hch. constructor; [|constructor; [|constructor]].
  - by apply (feed_terminates _ _ receive_emit_val).
  - by apply (feed_terminates _ _ (send_emit_val fd)).
Qed.

Lemma frame_loop_terminates_witness :
  match feed receive_emit demo_buffer (repeat 0 6) with
  | Val (b', _, finished) => finished = true /\ Recycle.wf b' /\ view_bytes (Recycle.contents b') = NeedMore
  | Panic _ => True
  end /\ is_panic (feed receive_emit demo_buffer (repeat 0 6)) = false.
Proof.
  split; [|vm_compute; reflexivity].
  refine (Forall_inv (frame_loop_terminates 3 demo_buffer (repeat 0 6) demo_buffer_wf _ _));
    by apply bytes_okb_spec.
Defined.

(** A reading loop on a new buffer hands on the frames of the bytes it reads. *)
Lemma new_loop_stream emit ev frames chunks m c :
  (forall fr, frame_wf fr -> emit fr = Val (ev fr)) ->
  (forall fr c, ev (set_checksum fr c) = ev fr) ->
  Forall frame_wf frames -> Forall (fun fr => TotalLen fr <= m) frames ->
  Forall (fun ch => zlen ch <= c) chunks -> 0 < m -> m - 1 + c <= PacketSize ->
  concat chunks = concat (map wire frames) ->
  (let! buffer := Recycle.NewRecycleByteBuffer PacketSize in
   let! (_, evs) := read_loop emit buffer (map Ok chunks) in Val evs) = Val (map ev frames).
Proof.
  intros Hemit Hev Hwf Hm Hc Hpos Hcap Hs.
  destruct (Recycle.NewRecycleByteBuffer_correct PacketSize) as (b0 & Hb0 & Hwf0 & Hcap0 & Hc0 & _); [done|].
  assert (Hp : pending (Recycle.contents b0) frames).
  { rewrite Hc0. destruct frames as [|fr frames]; [done|]. simpl. inversion_clear Hwf as [|? ? Hfr _].
    pose proof (wf_header _ Hfr). pose proof (wf_total _ Hfr). pose proof (zlen_nonneg (Payload fr)).
    change (zlen []) with 0. lia. }
  rewrite Hb0. cbn [mbind go_bind].
  destruct (read_loop_stream emit ev Hemit Hev chunks frames b0 m c) as [b' ->]; try done.
  - by rewrite <- Hcap0 in Hcap.
  - simpl. by rewrite Hc0.
Qed.

(** However the bytes of a sequence of frames are split into reads (of at
    most [c] bytes, with frames of at most [m] bytes and [m - 1 + c] within
    the packet buffer), both reading loops hand on exactly these frames, each
    once, whole and in order, to the raw socket or to the receive pipe. *)
Theorem read_loops_reassemble fd frames chunks m c :
  Forall frame_wf frames -> Forall (fun fr => TotalLen fr <= m) frames ->
  Forall (fun ch => zlen ch <= c) chunks -> 0 < m -> m - 1 + c <= PacketSize ->
  concat chunks = concat (map wire frames) ->
  DialTun fd (map Ok chunks) = Val (map (fun fr => Sendto fd (wire fr) (Target fr)) frames) /\
  TunReceiveLoop (map Ok chunks) = Val (map (fun fr => ToReceivePipe (wire fr)) frames).
Proof.
  intros Hwf Hm Hc Hpos Hcap Hs.
  split; [apply (new_loop_stream _ _ _ _ m c (send_emit_val fd))|apply (new_loop_stream _ _ _ _ m c receive_emit_val)]; done.
Qed.

(** Two datagrams that arrive in reads of 10 and 38 bytes. *)
Lemma read_loops_reassemble_witness :
  let s := wire demo_frame ++ wire carry_frame in
  DialTun 5 [Ok (take 10 s); Ok (drop 10 s)] =
    Val [Sendto 5 (wire demo_frame) [10; 244; 3; 9]; Sendto 5 (wire carry_frame) [192; 168; 3; 9]] /\
  TunReceiveLoop [Ok (take 10 s); Ok (drop 10 s)] =
    Val [ToReceivePipe (wire demo_frame); ToReceivePipe (wire carry_frame)].
Proof.
  intros s. apply (read_loops_reassemble 5 [demo_frame; carry_frame] [take 10 s; drop 10 s] 1500 1500).
  - constructor; [exact demo_frame_wf|constructor; [exact carry_frame_wf|constructor]].
  - constructor; [vm_compute; discriminate|constructor; [vm_compute; discriminate|constructor]].
  - constructor; [vm_compute; discriminate|constructor; [vm_compute; discriminate|constructor]].
  - lia.
  - unfold PacketSize. lia.
  - vm_compute. reflexivity.
Defined.

Section pipe.
Context {Interface : Type}.
Implicit Types t : TunConn Interface.

(** Successive calls of [Write] and the errors they return. *)
Fixpoint Writes t (packets : list (list Z)) : TunConn Interface * list (option string) :=
  match packets with
  | [] => (t, [])
  | p :: packets' =>
      let '(t, _, err) := Write t p in
      let '(t, errs) := Writes t packets' in (t, err :: errs)
  end.

Lemma Write_frame t fr :
  frame_wf fr ->
  Write t (wire fr) =
    if zlen (WritePipe t) <? SendSize
    then (set_WritePipe t (WritePipe t ++ [Some (wire fr)]), TotalLen fr, None)
    else (t, 0, Some "failed to send packet to WritePipe channel").
Proof.
  intros Hwf. pose proof (wf_total_u16 _ Hwf) as Hu. unfold is_u16 in Hu.
  pose proof (wf_header _ Hwf). pose proof (wf_total _ Hwf). pose proof (zlen_nonneg (Payload fr)).
  unfold Write. rewrite zlen_wire by done.
  rewrite (proj2 (Z.eqb_neq _ 0)), (proj2 (Z.ltb_ge 65535 _)) by lia. done.
Qed.

Lemma Writes_frames t frames :
  Forall frame_wf frames ->
  let room := Z.to_nat (SendSize - zlen (WritePipe t)) in
  let '(t', errs) := Writes t (map wire frames) in
  WritePipe t' = WritePipe t ++ map (fun fr => Some (wire fr)) (take room frames) /\
  errs = map (fun _ => None) (take room frames) ++
         map (fun _ => Some "failed to send packet to WritePipe channel") (drop room frames).
Proof.
  intros Hwf. revert t. induction Hwf as [|fr frames Hfr Hwf IH]; intros t room.
  { simpl. by rewrite take_nil, drop_nil, !app_nil_r. }
  cbn [map Writes]. rewrite Write_frame by done. destruct (zlen (WritePipe t) <? SendSize) eqn:E; zbool.
  - specialize (IH (set_WritePipe t (WritePipe t ++ [Some (wire fr)]))). cbv zeta in IH.
    destruct (Writes _ _) as [t' errs]. simpl in IH. rewrite zlen_app in IH. change (zlen [_]) with 1 in IH.
    subst room. replace (Z.to_nat (SendSize - zlen (WritePipe t)))
      with (S (Z.to_nat (SendSize - (zlen (WritePipe t) + 1)))) by lia.
    cbn [take drop map app]. destruct IH as [-> ->]. by rewrite <- app_assoc.
  - specialize (IH t). cbv zeta in IH. destruct (Writes t _) as [t' errs].
    replace room with 0%nat in * by (unfold room; lia). destruct IH as [-> ->].
    replace (Z.to_nat (SendSize - zlen (WritePipe t))) with 0%nat by lia. done.
Qed.

(** Frames written to a new connection go through the write pipe to the
    raw socket: the first fifty calls of [Write] succeed and their frames are
    sent, whole and in order, each to its own target address; every further
    call fails and its frame is not sent. *)
Theorem Write_reaches_socket (t : TunConn Interface) frames :
  WritePipe t = [] -> Forall frame_wf frames ->
  let '(t', errs) := Writes t (map wire frames) in
  errs = map (fun _ => None) (take 50 frames) ++
         map (fun _ => Some "failed to send packet to WritePipe channel") (drop 50 frames) /\
  TunWriteLoop (fd t) (omap id (WritePipe t')) =
    Val (map (fun fr => Sendto (fd t) (wire fr) (Target fr)) (take 50 frames)).
Proof.
  intros Hp Hwf. pose proof (Writes_frames t frames Hwf) as Hw. cbv zeta in Hw.
  destruct (Writes t (map wire frames)) as [t' errs]. rewrite Hp in Hw.
  change (Z.to_nat (SendSize - zlen [])) with 50%nat in Hw. destruct Hw as [Hw ->]. split; [done|].
  replace (omap id (WritePipe t')) with (map wire (take 50 frames)).
  2: { rewrite Hw, app_nil_l. clear Hw. induction (take 50 frames) as [|fr l IH]; [done|]. simpl. f_equal. exact IH. }
  destruct (Recycle.NewRecycleByteBuffer_correct PacketSize) as (b0 & Hb0 & Hwf0 & Hcap0 & Hc0 & _); [done|].
  unfold TunWriteLoop. rewrite Hb0. cbn [mbind go_bind].
  destruct (write_loop_frames _ _ (send_emit_val (fd t)) (fun _ _ => eq_refl) (take 50 frames) b0)
    as [b' ->]; [done|done| |by apply Forall_take|done].
  change (65535 <= Recycle.capacity b0). rewrite Hcap0. done.
Qed.
End pipe.

Lemma Write_reaches_socket_witness :
  let '(t', errs) := Writes (mkTunConn "tun0" (Some tt) [] [] 7) (map wire [demo_frame; carry_frame]) in
  errs = [None; None] /\
  TunWriteLoop 7 (omap id (WritePipe t')) =
    Val [Sendto 7 (wire demo_frame) [10; 244; 3; 9]; Sendto 7 (wire carry_frame) [192; 168; 3; 9]].
Proof.
  apply (Write_reaches_socket (mkTunConn "tun0" (Some tt) [] [] 7) [demo_frame; carry_frame]).
  - reflexivity.
  - constructor; [exact demo_frame_wf|constructor; [exact carry_frame_wf|constructor]].
Defined.

(** A failure to create the tun device is reported once only: the call
    that ran into it returns the error, and the next call of [NewTunConn], for
    any name, returns a connection without a device and without an error. *)
Theorem NewTunConn_masks_failure {Interface} (water_New : string -> result Interface)
    (cmd_Run : string -> result unit) name name' e fd :
  water_New name = Err e ->
  let g0 := mkGlobals None false in
  let '(g1, r1) := NewTunConn water_New (Ok fd) cmd_Run g0 name in
  let '(g2, r2) := NewTunConn water_New (Ok fd) cmd_Run g1 name' in
  r1 = Err ("failed to get TunInterface, error: " +:+
            ("failed to create TunInterface, error: " +:+ e)) /\
  r2 = Ok (mkTunConn name' None [] [] fd).
Proof.
  intros Hn. cbv zeta. unfold NewTunConn, getTun, create_tun. cbn [tunDev once_done].
  rewrite Hn. done.
Qed.

Lemma NewTunConn_masks_failure_witness :
  let water_New := fun _ : string => @Err unit "permission denied" in
  let '(g1, r1) := NewTunConn water_New (Ok 9) (fun _ => Ok tt) (mkGlobals None false) "tun0" in
  let '(g2, r2) := NewTunConn water_New (Ok 9) (fun _ => Ok tt) g1 "tun0" in
  r1 = Err "failed to get TunInterface, error: failed to create TunInterface, error: permission denied" /\
  r2 = Ok (mkTunConn "tun0" None [] [] 9).
Proof.
  apply (NewTunConn_masks_failure (fun _ => Err "permission denied") (fun _ => Ok tt) "tun0" "tun0").
  reflexivity.
Defined.
