(* ===== verification/LbUtil.v ===== *)
(** * Load balancer helpers

    [src/pkg/loadbalancer/util.go] and the API objects the load balancer reads:
    Kubernetes services and endpoints, Istio destination rules.  An API object
    is a record of the fields the load balancer reads; the remaining fields of
    a service, which only [reflect.DeepEqual] sees, are kept as one value. *)

From Stdlib Require Import ZArith Lia Ascii String.
From stdpp Require Import base list gmap sets sorting strings option.
From S2P Require Import Prelude GoStrings GoNet.

Local Open Scope Z_scope.

(** ** API objects *)

Record NamespacedName : Type := mkNN { Namespace : string; Name : string }.

Record ServicePortName : Type := mkSPN {
  spn_name : NamespacedName;
  spn_Port : string;
  spn_Protocol : string
}.

#[export] Instance NamespacedName_eq_dec : EqDecision NamespacedName.
Proof. solve_decision. Defined.
#[export] Program Instance NamespacedName_countable : Countable NamespacedName :=
  inj_countable' (fun n => (Namespace n, Name n)) (fun p => mkNN p.1 p.2) _.
Next Obligation. by intros []. Qed.

#[export] Instance ServicePortName_eq_dec : EqDecision ServicePortName.
Proof. solve_decision. Defined.
#[export] Program Instance ServicePortName_countable : Countable ServicePortName :=
  inj_countable' (fun n => (spn_name n, spn_Port n, spn_Protocol n))
                 (fun p => mkSPN p.1.1 p.1.2 p.2) _.
Next Obligation. by intros []. Qed.

(** [proxy.ServicePortName{NamespacedName: n, Port: p}] *)
Definition svc_port (n : NamespacedName) (p : string) : ServicePortName := mkSPN n p "".

Record EndpointAddress : Type := mkAddress {
  IP : string;
  NodeName : option string;
  TargetRef : option string
}.

Record EndpointPort : Type := mkEndpointPort { ep_port_Name : string; ep_port_Port : Z }.

Record EndpointSubset : Type := mkSubset { Addresses : list EndpointAddress; Ports : list EndpointPort }.

Record Endpoints : Type := mkEndpoints {
  ep_Namespace : string;
  ep_Name : string;
  Subsets : list EndpointSubset
}.

(** The oneof fields of a destination rule's load balancer settings. *)
Inductive HashKeyField : Type :=
| HttpHeaderName (name : string)
| HttpCookie
| UseSourceIp (b : bool)
| HttpQueryParameterName (name : string).

Inductive LbPolicy : Type :=
| LoadBalancerSettings_Simple (simple : string)
| LoadBalancerSettings_ConsistentHash (lb : option (option HashKeyField)).

Record DestinationRule : Type := mkDR {
  dr_Namespace : string;
  dr_Name : string;
  TrafficPolicy : option (option (option LbPolicy))
}.

(** ** Endpoints as strings *)

Definition EmptyNodeName : string := "EMPTY_NODE_NAME".
Definition EmptyPodName : string := "EMPTY_POD_NAME".
Definition endpointLen : nat := 4.

Definition parseEndpoint (endpoint : string) : option (string * string * string * string) :=
  match Split ":" endpoint with
  | [node; pod; ip; port] => Some (node, pod, ip, port)
  | _ => None
  end.

Definition isValidEndpoint (host : string) (port : Z) : bool :=
  negb (String.eqb host "") && (0 <? port).

Definition endpoint_string (addr : EndpointAddress) (port : EndpointPort) : string :=
  default EmptyNodeName (NodeName addr) +:+ ":" +:+
  default EmptyPodName (TargetRef addr) +:+ ":" +:+
  JoinHostPort (IP addr) (Itoa (ep_port_Port port)).

(** [m[k] = append(m[k], v)] *)
Definition map_append (m : gmap string (list string)) (k v : string) : gmap string (list string) :=
  <[k := default [] (m !! k) ++ [v]]> m.

Definition build_address (port : EndpointPort) (m : gmap string (list string)) (addr : EndpointAddress)
  : gmap string (list string) :=
  if isValidEndpoint (IP addr) (ep_port_Port port)
  then map_append m (ep_port_Name port) (endpoint_string addr port)
  else m.

Definition build_port (ss : EndpointSubset) (m : gmap string (list string)) (port : EndpointPort)
  : gmap string (list string) :=
  fold_left (build_address port) (Addresses ss) m.

Definition build_subset (m : gmap string (list string)) (ss : EndpointSubset)
  : gmap string (list string) :=
  fold_left (build_port ss) (Ports ss) m.

Definition buildPortsToEndpointsMap (endpoints : Endpoints) : gmap string (list string) :=
  fold_left build_subset (Subsets endpoints) ∅.

(** ** Slices of strings *)

Definition sort_Strings (l : list string) : list string := merge_sort String.le l.

(** The answer, and the two slices after the call, which sorts them in place. *)
Definition slicesEquiv (lhs rhs : list string) : bool * list string * list string :=
  if negb (length lhs =? length rhs)%nat then (false, lhs, rhs)
  else let lhs := sort_Strings lhs in
       let rhs := sort_Strings rhs in
       (bool_decide (lhs = rhs), lhs, rhs).

(** The loop over [dest]: the union set and the items found in it already. *)
Fixpoint compare_dest (mall : gset string) (dest : list string) : gset string * list string :=
  match dest with
  | [] => (mall, [])
  | v :: dest' =>
      let mall' := {[v]} ∪ mall in
      let '(m, set) := compare_dest mall' dest' in
      (m, if decide (size mall = size mall') then v :: set else set)
  end.

Section compare.
Context `{RangeOrder}.

(** The keys of a Go map used as a set, in the order [range] visits them. *)
Definition range_set (s : gset string) : list string :=
  (range (gset_to_gmap tt s)).*1.

Definition sliceCompare (src dest : list string) : list string * list string :=
  let msrc : gset string := list_to_set src in
  let '(mall, set) := compare_dest (list_to_set src) dest in
  let mall := fold_left (fun m v => m ∖ {[v]}) set mall in
  let vs := range_set mall in
  (base.filter (.∉ msrc) vs, base.filter (.∈ msrc) vs).
End compare.

(** ** Destination rules *)

Definition isNamespacedNameEqual (dr : DestinationRule) (namespacedName : NamespacedName) : bool :=
  String.eqb (dr_Namespace dr) (Namespace namespacedName) && String.eqb (dr_Name dr) (Name namespacedName).

Definition getNamespaceName (dr : DestinationRule) : string :=
  dr_Namespace dr +:+ "/" +:+ dr_Name dr.

Definition ConsistentHash : string := "CONSISTENT_HASH".

Definition getPolicyName (dr : DestinationRule) : string :=
  match TrafficPolicy dr with
  | None => ""
  | Some None => ""
  | Some (Some None) => ""
  | Some (Some (Some lbPolicy)) =>
      match lbPolicy with
      | LoadBalancerSettings_Simple simple => simple
      | LoadBalancerSettings_ConsistentHash _ => ConsistentHash
      end
  end.

(** ** Endpoint strings round trip *)

Lemma index_byte_lacks s c : index_byte s c = None <-> lacks c s = true.
Proof.
  induction s as [|d s IH]; [done|]. cbn [index_byte lacks].
  destruct (Ascii.eqb d c); simpl; [done|]. destruct (index_byte s c); simpl; [|tauto].
  split; [done|]. intros H. apply IH in H. done.
Qed.

Lemma JoinHostPort_lacks host port :
  JoinHostPort host port =
    if lacks ":" host then host +:+ ":" +:+ port else "[" +:+ host +:+ "]:" +:+ port.
Proof.
  unfold JoinHostPort. destruct (index_byte host ":") eqn:E.
  - destruct (lacks ":" host) eqn:L; [|done]. apply index_byte_lacks in L. congruence.
  - apply index_byte_lacks in E. by rewrite E.
Qed.

Lemma count_colons node pod ip port :
  count_byte ":" (node +:+ ":" +:+ pod +:+ ":" +:+ JoinHostPort ip port) =
  (3 + count_byte ":" node + count_byte ":" pod + count_byte ":" ip + count_byte ":" port)%nat.
Proof.
  rewrite JoinHostPort_lacks. destruct (lacks ":" ip); rewrite !count_byte_app; simpl; lia.
Qed.

Lemma parseEndpoint_length s : length (Split ":" s) <> endpointLen -> parseEndpoint s = None.
Proof.
  unfold parseEndpoint, endpointLen. intros H.
  destruct (Split ":" s) as [|a [|b [|c [|d [|e l]]]]]; done.
Qed.

(** What [parseEndpoint] makes of the strings [buildPortsToEndpointsMap]
    stores. *)
Lemma parseEndpoint_endpoint_string addr port :
  let node := default EmptyNodeName (NodeName addr) in
  let pod := default EmptyPodName (TargetRef addr) in
  parseEndpoint (endpoint_string addr port) =
    if lacks ":" node && lacks ":" pod && lacks ":" (IP addr)
    then Some (node, pod, IP addr, Itoa (ep_port_Port port))
    else None.
Proof.
  intros node pod. unfold endpoint_string. fold node pod.
  assert (Hp : lacks ":" (Itoa (ep_port_Port port)) = true) by (apply Itoa_lacks; vm_compute; auto).
  destruct (lacks ":" node && lacks ":" pod && lacks ":" (IP addr)) eqn:E.
  - apply andb_true_iff in E as [E Hi]. apply andb_true_iff in E as [Hn Hd].
    unfold parseEndpoint. rewrite JoinHostPort_lacks, Hi.
    by rewrite !Split_app_sep, Split_lacks by done.
  - apply parseEndpoint_length. rewrite Split_length, count_colons. unfold endpointLen.
    apply andb_false_iff in E as [E|E]; [apply andb_false_iff in E as [E|E]|];
      apply not_true_iff_false in E; rewrite lacks_count in E; lia.
Qed.

(** ** The endpoints of a port *)

(** The endpoints of port [p], in the order of the subsets, their ports and
    their addresses. *)
Definition endpoints_of (e : Endpoints) (p : string) : list string :=
  ss ← Subsets e;
  port ← base.filter (fun port => ep_port_Name port = p) (Ports ss);
  addr ← base.filter (fun addr => isValidEndpoint (IP addr) (ep_port_Port port) = true) (Addresses ss);
  [endpoint_string addr port].

(** A map that holds, for every key, the list the function gives, and no key
    with an empty list. *)
Definition denotes (m : gmap string (list string)) (f : string -> list string) : Prop :=
  forall p, m !! p = match f p with [] => None | l => Some l end.

Lemma denotes_append m f k v :
  denotes m f -> denotes (map_append m k v) (fun p => f p ++ if decide (p = k) then [v] else []).
Proof.
  intros Hm p. unfold map_append. rewrite lookup_insert.
  destruct (decide (k = p)) as [->|Hne].
  - rewrite decide_True by done. rewrite Hm. destruct (f p); done.
  - rewrite decide_False by done. rewrite app_nil_r. apply Hm.
Qed.

Lemma denotes_ext m f g : denotes m f -> (forall p, f p = g p) -> denotes m g.
Proof. intros Hm Heq p. rewrite <- Heq. apply Hm. Qed.

Lemma denotes_fold {X} (step : gmap string (list string) -> X -> gmap string (list string))
    (g : X -> string -> list string) l m f :
  (forall m f x, denotes m f -> denotes (step m x) (fun p => f p ++ g x p)) ->
  denotes m f -> denotes (fold_left step l m) (fun p => f p ++ (l ≫= fun x => g x p)).
Proof.
  intros Hstep. revert m f. induction l as [|x l IH]; intros m f Hm; simpl.
  - eapply denotes_ext; [exact Hm|]. intros p. by rewrite app_nil_r.
  - eapply denotes_ext; [apply IH, Hstep, Hm|]. intros p. simpl. by rewrite (assoc_L (++)).
Qed.

Lemma list_bind_filter {A B} (P : A -> Prop) `{!forall x, Decision (P x)} (f : A -> list B) l :
  base.filter P l ≫= f = l ≫= fun x => if decide (P x) then f x else [].
Proof.
  induction l as [|x l IH]; [done|]. rewrite filter_cons. cbn [mbind list_bind].
  case_decide; simpl; by rewrite <- IH.
Qed.

(** What one port of a subset contributes. *)
Definition port_eps (ss : EndpointSubset) (port : EndpointPort) (p : string) : list string :=
  if decide (ep_port_Name port = p)
  then base.filter (fun addr => isValidEndpoint (IP addr) (ep_port_Port port) = true) (Addresses ss) ≫=
       fun addr => [endpoint_string addr port]
  else [].

Lemma build_address_denotes port m f addr :
  denotes m f ->
  denotes (build_address port m addr) (fun p => f p ++
    if decide (isValidEndpoint (IP addr) (ep_port_Port port) = true)
    then if decide (p = ep_port_Name port) then [endpoint_string addr port] else [] else []).
Proof.
  intros Hm. unfold build_address. destruct (isValidEndpoint _ _) eqn:E.
  - by apply denotes_append.
  - eapply denotes_ext; [exact Hm|]. intros p. by rewrite decide_False, app_nil_r.
Qed.

Lemma build_port_denotes ss m f port :
  denotes m f -> denotes (build_port ss m port) (fun p => f p ++ port_eps ss port p).
Proof.
  intros Hm. eapply denotes_ext.
  - unfold build_port. eapply denotes_fold; [intros; by apply build_address_denotes|exact Hm].
  - intros p. simpl. f_equal. unfold port_eps. destruct (decide (ep_port_Name port = p)) as [<-|Hne].
    + rewrite list_bind_filter. induction (Addresses ss) as [|a l IH]; [done|].
      cbn [mbind list_bind]. rewrite IH. by repeat case_decide.
    + induction (Addresses ss) as [|a l IH]; [done|].
      cbn [mbind list_bind]. rewrite IH. by repeat case_decide.
Qed.

(** The three nested loops compute the list comprehension. *)
Lemma buildPortsToEndpointsMap_denotes e : denotes (buildPortsToEndpointsMap e) (endpoints_of e).
Proof.
  eapply denotes_ext.
  - unfold buildPortsToEndpointsMap. apply (denotes_fold build_subset
      (fun ss p => Ports ss ≫= fun port => port_eps ss port p) (Subsets e) ∅ (fun _ => [])); [|done].
    intros m f ss Hm. unfold build_subset.
    apply (denotes_fold (build_port ss) (port_eps ss)); [intros; by apply build_port_denotes|exact Hm].
  - intros p. simpl. unfold endpoints_of. induction (Subsets e) as [|ss l IH]; [done|].
    cbn [mbind list_bind]. rewrite IH. f_equal. rewrite list_bind_filter. done.
Qed.

(** [buildPortsToEndpointsMap] holds, for every port name, the endpoint
    strings of the valid addresses of all subsets that have this port, in the
    order of the subsets, their ports and their addresses; a port without any
    valid endpoint has no entry. *)
Theorem buildPortsToEndpointsMap_spec e p :
  buildPortsToEndpointsMap e !! p = match endpoints_of e p with [] => None | l => Some l end.
Proof. apply buildPortsToEndpointsMap_denotes. Qed.

Lemma elem_of_endpoints_of e p s :
  s ∈ endpoints_of e p <->
  exists ss port addr, ss ∈ Subsets e /\ port ∈ Ports ss /\ addr ∈ Addresses ss /\
    ep_port_Name port = p /\ isValidEndpoint (IP addr) (ep_port_Port port) = true /\
    s = endpoint_string addr port.
Proof.
  unfold endpoints_of. rewrite list_elem_of_bind. split.
  - intros (ss & Hs & Hss). apply list_elem_of_bind in Hs as (port & Hs & Hport).
    apply list_elem_of_filter in Hport as [Hn Hport].
    apply list_elem_of_bind in Hs as (addr & Hs & Haddr).
    apply list_elem_of_filter in Haddr as [Hv Haddr]. apply list_elem_of_singleton in Hs.
    by exists ss, port, addr.
  - intros (ss & port & addr & Hss & Hport & Haddr & Hn & Hv & ->). exists ss. split; [|done].
    apply list_elem_of_bind. exists port. split; [|by apply list_elem_of_filter].
    apply list_elem_of_bind. exists addr. split; [by apply list_elem_of_singleton|].
    by apply list_elem_of_filter.
Qed.

(** A stored endpoint string comes from a valid address of the endpoints
    object, and parsing it gives back the node, the pod, the address and the
    port it was made from, exactly when none of the first three contains a
    colon; for every other one, IPv6 addresses included, parsing fails. *)
Theorem stored_endpoints_parse e p eps s :
  buildPortsToEndpointsMap e !! p = Some eps -> s ∈ eps ->
  exists ss port addr, ss ∈ Subsets e /\ port ∈ Ports ss /\ addr ∈ Addresses ss /\
    ep_port_Name port = p /\ isValidEndpoint (IP addr) (ep_port_Port port) = true /\
    let node := default EmptyNodeName (NodeName addr) in
    let pod := default EmptyPodName (TargetRef addr) in
    parseEndpoint s =
      if lacks ":" node && lacks ":" pod && lacks ":" (IP addr)
      then Some (node, pod, IP addr, Itoa (ep_port_Port port)) else None.
Proof.
  intros Hm Hs. rewrite buildPortsToEndpointsMap_denotes in Hm.
  assert (Hin : s ∈ endpoints_of e p) by (by destruct (endpoints_of e p); simplify_eq).
  apply elem_of_endpoints_of in Hin as (ss & port & addr & ? & ? & ? & ? & ? & ->).
  exists ss, port, addr. repeat (split; [done|]). apply parseEndpoint_endpoint_string.
Qed.

(** Two subsets of a dual-stack service. *)
Definition demo_endpoints : Endpoints :=
  mkEndpoints "default" "web"
    [mkSubset [mkAddress "10.0.0.1" (Some "edge-1") (Some "web-a"); mkAddress "10.0.0.2" None None;
               mkAddress "" None None] [mkEndpointPort "http" 80];
     mkSubset [mkAddress "fd00::1" (Some "edge-2") (Some "web-b")] [mkEndpointPort "http" 80]].

Lemma stored_endpoints_parse_witness :
  parseEndpoint "edge-1:web-a:10.0.0.1:80" = Some ("edge-1", "web-a", "10.0.0.1", "80") /\
  parseEndpoint "edge-2:web-b:[fd00::1]:80" = None /\
  exists ss port addr, ss ∈ Subsets demo_endpoints /\ port ∈ Ports ss /\ addr ∈ Addresses ss /\
    ep_port_Name port = "http" /\ isValidEndpoint (IP addr) (ep_port_Port port) = true /\
    let node := default EmptyNodeName (NodeName addr) in
    let pod := default EmptyPodName (TargetRef addr) in
    parseEndpoint "edge-2:web-b:[fd00::1]:80" =
      if lacks ":" node && lacks ":" pod && lacks ":" (IP addr)
      then Some (node, pod, IP addr, Itoa (ep_port_Port port)) else None.
Proof.
  split; [vm_compute; reflexivity|]. split; [vm_compute; reflexivity|].
  apply (stored_endpoints_parse demo_endpoints "http"
    ["edge-1:web-a:10.0.0.1:80"; "EMPTY_NODE_NAME:EMPTY_POD_NAME:10.0.0.2:80"; "edge-2:web-b:[fd00::1]:80"]).
  - vm_compute. reflexivity.
  - by do 2 apply list_elem_of_further; apply list_elem_of_here.
Defined.

(** ** Comparing slices *)

Definition occurs (x : string) (l : list string) : nat := length (base.filter (x =.) l).

Lemma occurs_cons x y l : occurs x (y :: l) = ((if decide (x = y) then 1 else 0) + occurs x l)%nat.
Proof. unfold occurs. rewrite filter_cons. by case_decide. Qed.

Lemma occurs_elem x l : x ∈ l <-> (occurs x l <> 0)%nat.
Proof.
  induction l as [|y l IH].
  - split; [by intros ?%not_elem_of_nil|done].
  - rewrite occurs_cons, elem_of_cons, IH. case_decide; [|naive_solver].
    split; [lia|]. intros _. by left.
Qed.

Lemma size_insert (v : string) (X : gset string) : size X = size ({[v]} ∪ X) <-> v ∈ X.
Proof.
  split.
  - intros Hs. destruct (decide (v ∈ X)) as [|Hn]; [done|]. exfalso.
    rewrite size_union, size_singleton in Hs by set_solver. lia.
  - intros Hv. f_equal. set_solver.
Qed.

Lemma compare_dest_spec mall dest m set :
  compare_dest mall dest = (m, set) ->
  m = mall ∪ list_to_set dest /\
  forall x, x ∈ set <-> x ∈ dest /\ (x ∈ mall \/ (1 < occurs x dest)%nat).
Proof.
  revert mall m set. induction dest as [|v dest IH]; intros mall m set Hc; cbn [compare_dest] in Hc.
  - simplify_eq. split; [set_solver|]. intros x. split; [by intros ?%not_elem_of_nil|].
    by intros [?%not_elem_of_nil _].
  - destruct (compare_dest ({[v]} ∪ mall) dest) as [m' set'] eqn:E. destruct (IH _ _ _ E) as [-> Hs].
    injection Hc as <- <-. split; [set_solver|]. intros x. rewrite elem_of_cons, occurs_cons.
    assert (Hset : x ∈ (if decide (size mall = size ({[v]} ∪ mall)) then v :: set' else set') <->
                   (x = v /\ v ∈ mall) \/ x ∈ set').
    { case_decide as Hd; rewrite size_insert in Hd; [rewrite elem_of_cons|]; naive_solver. }
    rewrite Hset, Hs, elem_of_union, elem_of_singleton. pose proof (occurs_elem x dest) as Ho.
    destruct (decide (x = v)) as [->|Hne]; [|naive_solver].
    destruct (decide (v ∈ dest)) as [Hv|Hv]; [|naive_solver lia].
    apply Ho in Hv as Hv'. split; [intros _; split; [by left|right; lia]|].
    intros _. right. split; [done|]. by left; left.
Qed.

Lemma fold_difference (l : list string) (m : gset string) :
  fold_left (fun m v => m ∖ {[v]}) l m = m ∖ list_to_set l.
Proof.
  revert m. induction l as [|v l IH]; intros m; simpl; [set_solver|]. rewrite IH. set_solver.
Qed.

Section compare_facts.
Context `{RangeOrder}.

Lemma elem_of_range_set s x : x ∈ range_set s <-> x ∈ s.
Proof.
  unfold range_set. rewrite elem_of_range_keys, lookup_gset_to_gmap.
  split; [by intros [? [Hx _]%bind_Some]|].
  intros Hx. exists tt. by rewrite option_guard_True.
Qed.

Lemma NoDup_range_set s : NoDup (range_set s).
Proof. apply NoDup_range_keys. Qed.

Lemma sliceCompare_spec src dest added deleted :
  sliceCompare src dest = (added, deleted) ->
  NoDup added /\ NoDup deleted /\
  (forall x, x ∈ added <-> (x ∉ src) /\ occurs x dest = 1%nat) /\
  (forall x, x ∈ deleted <-> x ∈ src /\ x ∉ dest).
Proof.
  unfold sliceCompare. destruct (compare_dest (list_to_set src) dest) as [mall set] eqn:E.
  destruct (compare_dest_spec _ _ _ _ E) as [-> Hset]. rewrite fold_difference.
  intros Heq. injection Heq as <- <-.
  split; [apply list.NoDup_filter, NoDup_range_set|]. split; [apply list.NoDup_filter, NoDup_range_set|].
  assert (Hmem : forall x, x ∈ (list_to_set src ∪ list_to_set dest) ∖ list_to_set (C := gset string) set <->
    (x ∈ src \/ x ∈ dest) /\ ~ (x ∈ dest /\ (x ∈ src \/ (1 < occurs x dest)%nat))).
  { intros x. rewrite elem_of_difference, elem_of_union, !elem_of_list_to_set, Hset.
    by rewrite elem_of_list_to_set. }
  split; intros x; rewrite list_elem_of_filter, elem_of_list_to_set, elem_of_range_set, Hmem;
    pose proof (occurs_elem x dest).
  - split; [|intros [Hs Ho]; split; [done|]; split; [right; apply H0; lia|intros [_ [?|?]]; [done|lia]]].
    intros [Hs [[?|Hd] Hn]]; [done|]. split; [done|]. apply H0 in Hd as Hd'.
    destruct (decide (1 < occurs x dest)%nat); [|lia]. exfalso. auto.
  - split; [|intros [Hs Hd]; naive_solver]. intros [Hs [_ Hn]]. split; [done|]. intros Hd. auto.
Qed.
End compare_facts.
