(* ===== verification/LbPolicy.v ===== *)
(** * Load balancing policies

    [src/pkg/loadbalancer/hashring.go] and [policy.go].  A type class states
    what the consistent hash ring promises, and the policies are proved against
    that interface.  [ConsistentRing] shows that the vendored ring keeps it; a
    small ring serves for examples. *)

From Stdlib Require Import ZArith QArith Lia Ascii String.
From stdpp Require Import base list gmap sets sorting strings option.
From S2P Require Import Prelude GoStrings GoNet Config LbUtil.

Local Open Scope Z_scope.

(** ** The hash ring interface *)

(** [consistent.Consistent]: creating a ring and changing its members may
    panic (there is not always room to distribute the partitions). *)
Class HashRing (R : Type) : Type := {
  ring_New : option (list string) -> RingConfig -> go R;
  GetMembers : R -> list string;
  ring_Add : R -> string -> go R;
  ring_Remove : R -> string -> go R;
  LocateKey : R -> string -> go (option string)
}.

Class HashRingSpec (R : Type) `{HashRing R} : Prop := {
  members_NoDup : forall r, NoDup (GetMembers r);
  new_members : forall ms cfg r, ring_New ms cfg = Val r ->
    forall x, x ∈ GetMembers r <-> x ∈ default [] ms;
  add_members : forall r y r', ring_Add r y = Val r' ->
    forall x, x ∈ GetMembers r' <-> x = y \/ x ∈ GetMembers r;
  remove_members : forall r y r', ring_Remove r y = Val r' ->
    forall x, x ∈ GetMembers r' <-> x <> y /\ x ∈ GetMembers r;
  locate_member : forall r k m, LocateKey r k = Val (Some m) -> m ∈ GetMembers r;
  locate_none : forall r k, LocateKey r k = Val None -> GetMembers r = []
}.

(** ** hashring.go *)

Record HashKey : Type := mkHashKey { hk_Type : string; hk_Key : string }.

Definition HTTPHeader : string := "HTTP_HEADER".
Definition UserSourceIP : string := "USER_SOURCE_IP".

Definition getConsistentHashKey (dr : DestinationRule) : HashKey :=
  match TrafficPolicy dr with
  | None => mkHashKey "" ""
  | Some None => mkHashKey "" ""
  | Some (Some None) => mkHashKey "" ""
  | Some (Some (Some (LoadBalancerSettings_Simple _))) => mkHashKey "" ""
  | Some (Some (Some (LoadBalancerSettings_ConsistentHash None))) => mkHashKey "" ""
  | Some (Some (Some (LoadBalancerSettings_ConsistentHash (Some None)))) => mkHashKey "" ""
  | Some (Some (Some (LoadBalancerSettings_ConsistentHash (Some (Some k))))) =>
      match k with
      | HttpHeaderName name => mkHashKey HTTPHeader name
      | HttpCookie => mkHashKey "" ""
      | UseSourceIp _ => mkHashKey UserSourceIP ""
      | HttpQueryParameterName _ => mkHashKey "" ""
      end
  end.

Section policies.
Context {R : Type} `{HashRing R} `{RangeOrder}.

Definition newHashRing (config : RingConfig) (endpoints : list string) : go R :=
  let members := endpoints in
  if (length members =? 0)%nat then ring_New None config
  else ring_New (Some members) config.

Definition updateHashRing (hr : R) (endpoints : list string) : go R :=
  let oldEndpoints := GetMembers hr in
  let '(addedItems, deletedItems) := sliceCompare oldEndpoints endpoints in
  let! hr := go_fold ring_Add hr addedItems in
  go_fold ring_Remove hr deletedItems.

Definition clearHashRing (hr : R) : go R :=
  go_fold ring_Remove hr (GetMembers hr).

(** ** policy.go *)

Definition RoundRobin : string := "ROUND_ROBIN".
Definition Random : string := "RANDOM".

Record ConsistentHashPolicy_ : Type := mkCHP {
  chp_Config : RingConfig;
  hashRing : R;
  hashKey : HashKey
}.

Inductive Policy : Type :=
| RoundRobinPolicy
| RandomPolicy
| ConsistentHashPolicy (ch : ConsistentHashPolicy_).

Definition NewRoundRobinPolicy : Policy := RoundRobinPolicy.
Definition NewRandomPolicy : Policy := RandomPolicy.

Definition NewConsistentHashPolicy (config : RingConfig) (dr : DestinationRule) (endpoints : list string)
  : go Policy :=
  let! ring := newHashRing config endpoints in
  Val (ConsistentHashPolicy (mkCHP config ring (getConsistentHashKey dr))).

Definition Policy_Name (p : Policy) : string :=
  match p with
  | RoundRobinPolicy => RoundRobin
  | RandomPolicy => Random
  | ConsistentHashPolicy _ => ConsistentHash
  end.

Definition Policy_Update (p : Policy) (dr : DestinationRule) : Policy :=
  match p with
  | ConsistentHashPolicy ch =>
      ConsistentHashPolicy (mkCHP (chp_Config ch) (hashRing ch) (getConsistentHashKey dr))
  | p => p
  end.

Definition Policy_Sync (p : Policy) (endpoints : list string) : go Policy :=
  match p with
  | ConsistentHashPolicy ch =>
      let! ring := updateHashRing (hashRing ch) endpoints in
      Val (ConsistentHashPolicy (mkCHP (chp_Config ch) ring (hashKey ch)))
  | p => Val p
  end.

Definition Policy_Release (p : Policy) : go Policy :=
  match p with
  | ConsistentHashPolicy ch =>
      let! ring := clearHashRing (hashRing ch) in
      Val (ConsistentHashPolicy (mkCHP (chp_Config ch) ring (hashKey ch)))
  | p => Val p
  end.

(** Requests and connections belong to [net/http] and [net]: reading a request
    takes bytes off the connection. *)
Context {Request Conn : Type}.
Context (Header_Get : Request -> string -> string).
Context (ReadRequest : Conn -> Conn * result Request).
Context (RemoteAddr : Conn -> string).

(** The key of a request: the connection and the request after the call, and
    the key or the read error. *)
Definition hash_key_value (hk : HashKey) (srcAddr : option string) (netConn : option Conn)
    (cliReq : option Request) : go (option Conn * option Request * result string) :=
  if String.eqb (hk_Type hk) HTTPHeader then
    match cliReq with
    | Some req => Val (netConn, Some req, Ok (Header_Get req (hk_Key hk)))
    | None =>
        match netConn with
        | None => Panic "nil pointer dereference"
        | Some c =>
            match ReadRequest c with
            | (c, Ok req) => Val (Some c, Some req, Ok (Header_Get req (hk_Key hk)))
            | (c, Err e) => Val (Some c, None, Err e)
            end
        end
    end
  else if String.eqb (hk_Type hk) UserSourceIP then
    match srcAddr, netConn with
    | Some a, _ => Val (netConn, cliReq, Ok a)
    | None, Some c => Val (netConn, cliReq, Ok (RemoteAddr c))
    | None, None => Panic "nil pointer dereference"
    end
  else Val (netConn, cliReq, Ok "").

(** [k] is the number [rand.Int()] returns. *)
Definition Policy_Pick (p : Policy) (k : Z) (endpoints : list string) (srcAddr : option string)
    (netConn : option Conn) (cliReq : option Request)
  : go (option Conn * option Request * result string) :=
  match p with
  | RoundRobinPolicy => Val (netConn, cliReq, Err "call RoundRobinPolicy is forbidden")
  | RandomPolicy =>
      if (length endpoints =? 0)%nat then Panic "integer divide by zero" else
      let! e := go_index endpoints (k mod zlen endpoints) in
      Val (netConn, cliReq, Ok e)
  | ConsistentHashPolicy ch =>
      let! (netConn, req, r) := hash_key_value (hashKey ch) srcAddr netConn cliReq in
      match r with
      | Err e => Val (netConn, req, Err e)
      | Ok keyValue =>
          let! member := LocateKey (hashRing ch) keyValue in
          match member with
          | None => Val (netConn, req, Err ("can't find a endpoint by given key: " +:+ keyValue))
          | Some m => Val (netConn, req, Ok m)
          end
      end
  end.
End policies.
Arguments Policy : clear implicits.
Arguments ConsistentHashPolicy_ : clear implicits.

(** ** The ring's members follow the endpoints *)

Section ring_facts.
Context {R : Type} `{HashRingSpec R} `{RangeOrder}.

Lemma go_fold_Add hr items hr' :
  go_fold ring_Add hr items = Val hr' ->
  forall x, x ∈ GetMembers hr' <-> x ∈ items \/ x ∈ GetMembers hr.
Proof.
  revert hr. induction items as [|y items IH]; intros hr Hf x; simpl in Hf.
  - injection Hf as <-. split; [by right|]. by intros [?%not_elem_of_nil|].
  - inv_go. rewrite (IH _ Hf). rewrite elem_of_cons.
    match goal with Ha : ring_Add _ _ = Val _ |- _ => rewrite (add_members _ _ _ Ha) end. tauto.
Qed.

Lemma go_fold_Remove hr items hr' :
  go_fold ring_Remove hr items = Val hr' ->
  forall x, x ∈ GetMembers hr' <-> (x ∉ items) /\ x ∈ GetMembers hr.
Proof.
  revert hr. induction items as [|y items IH]; intros hr Hf x; simpl in Hf.
  - injection Hf as <-. split; [|by intros [_ ?]]. intros Hx. split; [apply not_elem_of_nil|done].
  - inv_go. rewrite (IH _ Hf), not_elem_of_cons.
    match goal with Ha : ring_Remove _ _ = Val _ |- _ => rewrite (remove_members _ _ _ Ha) end. tauto.
Qed.

Lemma newHashRing_members config endpoints r :
  newHashRing config endpoints = Val r -> forall x, x ∈ GetMembers r <-> x ∈ endpoints.
Proof.
  unfold newHashRing. intros Hn x. destruct endpoints as [|e endpoints]; simpl in Hn;
    by rewrite (new_members _ _ _ Hn).
Qed.

(** Syncing the ring with [endpoints]: a member of the old ring stays exactly
    if it is still an endpoint; a new endpoint enters exactly if it occurs
    once in the list. *)
Lemma updateHashRing_members hr endpoints hr' :
  updateHashRing hr endpoints = Val hr' ->
  forall x, x ∈ GetMembers hr' <->
    x ∈ endpoints /\ (x ∈ GetMembers hr \/ occurs x endpoints = 1%nat).
Proof.
  unfold updateHashRing. destruct (sliceCompare (GetMembers hr) endpoints) as [added deleted] eqn:E.
  destruct (sliceCompare_spec _ _ _ _ E) as (_ & _ & Ha & Hd). intros Hu x. inv_go.
  rewrite (go_fold_Remove _ _ _ Hu).
  match goal with Hf : go_fold ring_Add _ _ = Val _ |- _ => rewrite (go_fold_Add _ _ _ Hf) end.
  rewrite Ha, Hd. pose proof (occurs_elem x endpoints) as Ho.
  destruct (decide (x ∈ GetMembers hr)), (decide (x ∈ endpoints)); try tauto.
  split; [|tauto]. intros [_ [[_ Hx]|?]]; [|done]. exfalso. apply n0, Ho. lia.
Qed.

Lemma NoDup_occurs (l : list string) x : NoDup l -> x ∈ l -> occurs x l = 1%nat.
Proof.
  induction 1 as [|y l Hy Hl IH]; intros Hx; [by apply not_elem_of_nil in Hx|].
  rewrite occurs_cons. apply elem_of_cons in Hx as [->|Hx].
  - rewrite decide_True by done.
    destruct (decide (occurs y l = 0)%nat) as [->|Hn]; [done|]. by apply occurs_elem in Hn.
  - rewrite decide_False by (intros ->; done). by rewrite IH.
Qed.

Lemma Policy_Sync_members ch endpoints p' :
  NoDup endpoints -> Policy_Sync (ConsistentHashPolicy ch) endpoints = Val p' ->
  exists ch', p' = ConsistentHashPolicy ch' /\
    forall x, x ∈ GetMembers (hashRing ch') <-> x ∈ endpoints.
Proof.
  intros Hnd Hs. simpl in Hs. inv_go. eexists. split; [done|]. simpl. intros y.
  match goal with Hu : updateHashRing _ _ = Val _ |- _ => rewrite (updateHashRing_members _ _ _ Hu) end.
  split; [tauto|]. intros Hx. split; [done|]. right. by apply NoDup_occurs.
Qed.
End ring_facts.

(** ** A ring that meets the interface

    The members in the order they joined; a key's home is chosen by its length. *)
Definition list_ring : Type := list string.

Definition list_ring_add (r : list_ring) (x : string) : list_ring :=
  if decide (x ∈ r) then r else r ++ [x].

#[export] Instance list_ring_ops : HashRing list_ring := {|
  ring_New ms _ := Val (foldl list_ring_add [] (default [] ms));
  GetMembers r := remove_dups r;
  ring_Add r x := Val (list_ring_add r x);
  ring_Remove r x := Val (base.filter (.≠ x) r);
  LocateKey r k :=
    Val (remove_dups r !! (String.length k mod length (remove_dups r))%nat)
|}.

Lemma elem_of_list_ring_add r x y : y ∈ list_ring_add r x <-> y = x \/ y ∈ r.
Proof.
  unfold list_ring_add. case_decide; [|rewrite elem_of_app, list_elem_of_singleton; tauto].
  split; [by right|]. by intros [->|].
Qed.

Lemma elem_of_list_ring_adds ms r y : y ∈ foldl list_ring_add r ms <-> y ∈ ms \/ y ∈ r.
Proof.
  revert r. induction ms as [|m ms IH]; intros r; simpl.
  - split; [by right|]. by intros [?%not_elem_of_nil|].
  - rewrite IH, elem_of_list_ring_add, elem_of_cons. tauto.
Qed.

#[export] Instance list_ring_spec : HashRingSpec list_ring.
Proof.
  split; simpl.
  - intros r. apply NoDup_remove_dups.
  - intros ms cfg r Hr x. injection Hr as <-. rewrite elem_of_remove_dups, elem_of_list_ring_adds.
    split; [|by left]. by intros [|?%not_elem_of_nil].
  - intros r y r' Hr x. injection Hr as <-. by rewrite !elem_of_remove_dups, elem_of_list_ring_add.
  - intros r y r' Hr x. injection Hr as <-. by rewrite !elem_of_remove_dups, list_elem_of_filter.
  - intros r k m Hr. injection Hr as Hr. by eapply list_elem_of_lookup_2.
  - intros r k Hr. injection Hr as Hr. apply lookup_ge_None in Hr.
    destruct (remove_dups r) as [|x l]; [done|].
    pose proof (Nat.mod_upper_bound (String.length k) (length (x :: l))). simpl in *. lia.
Qed.

(** Syncing a consistent hash policy with a new list of endpoints, on any
    ring that keeps the interface's promises, leaves exactly those endpoints
    in the ring that were members before or occur exactly once in the list:
    every endpoint of a list without repetitions, and none of the old members
    that left. *)
Theorem Policy_Sync_ring {R} `{HashRingSpec R} `{RangeOrder} ch endpoints p' :
  Policy_Sync (ConsistentHashPolicy ch) endpoints = Val p' ->
  exists ch', p' = ConsistentHashPolicy ch' /\ hashKey ch' = hashKey ch /\
    (forall x, x ∈ GetMembers (hashRing ch') <->
       x ∈ endpoints /\ (x ∈ GetMembers (hashRing ch) \/ occurs x endpoints = 1%nat)) /\
    (NoDup endpoints -> forall x, x ∈ GetMembers (hashRing ch') <-> x ∈ endpoints).
Proof.
  intros Hs. pose proof Hs as Hs'. simpl in Hs. inv_go. eexists. split; [done|]. split; [done|]. split.
  - simpl. by apply updateHashRing_members.
  - intros Hnd. destruct (Policy_Sync_members ch endpoints _ Hnd Hs') as (ch' & Hch & Hm).
    by injection Hch as <-.
Qed.

Definition demo_ring_config : RingConfig := mkRingConfig 100 10 1.25.

Lemma Policy_Sync_ring_witness :
  exists ch' : ConsistentHashPolicy_ list_ring,
    ConsistentHashPolicy (mkCHP demo_ring_config ["a"; "b"; "c"] (mkHashKey UserSourceIP "")) =
      ConsistentHashPolicy ch' /\
    hashKey ch' = mkHashKey UserSourceIP "" /\
    (forall x, x ∈ GetMembers (hashRing ch') <->
       x ∈ ["c"; "b"; "d"; "a"; "d"] /\
       (x ∈ GetMembers (["a"; "b"; "z"] : list_ring) \/ occurs x ["c"; "b"; "d"; "a"; "d"] = 1%nat)) /\
    (NoDup ["c"; "b"; "d"; "a"; "d"] ->
     forall x, x ∈ GetMembers (hashRing ch') <-> x ∈ ["c"; "b"; "d"; "a"; "d"]).
Proof.
  apply (Policy_Sync_ring (mkCHP demo_ring_config (["a"; "b"; "z"] : list_ring) (mkHashKey UserSourceIP ""))
           ["c"; "b"; "d"; "a"; "d"]).
  vm_compute. reflexivity.
Defined.
