(* ===== verification/ConsistentRing.v ===== *)
(** * The consistent hash ring

    [src/vendor/github.com/buraksezer/consistent/consistent.go], the ring that
    the consistent hash policy keeps its endpoints in, with the hash of
    [defaultHasher] ([src/pkg/loadbalancer/hashring.go]).  The ring is shown to
    keep the promises of [HashRing] that the load balancer is proved against,
    and when it can be made is settled. *)

From Stdlib Require Import ZArith QArith Qround Lia Ascii String.
From stdpp Require Import base list gmap sets sorting strings option numbers.
From S2P Require Import Prelude GoStrings GoNet Digests Config LbUtil LbPolicy.

Local Open Scope Z_scope.

(** ** The data *)

(** A member is its name.  [loads] counts partitions; the ring maps the hashes
    of the replicas to members, and [sortedSet] holds those hashes. *)
Record Consistent : Type := mkConsistent {
  config : RingConfig;
  sortedSet : list Z;
  loads : gmap string Z;
  members : gmap string unit;
  partitions : gmap Z string;
  ring : gmap Z string
}.

(** [uint64] of the configured number. *)
Definition partitionCount (c : Consistent) : Z := PartitionCount (config c) mod 2 ^ 64.

Section ring.
Context (Sum64 : list Z -> Z).

Definition set_distribution (c : Consistent) (ps : gmap Z string) (ls : gmap string Z) : Consistent :=
  mkConsistent (config c) (sortedSet c) ls (members c) ps (ring c).

(** [math.Ceil(float64(partitionCount / len(members)) * Load)] *)
Definition AverageLoad (c : Consistent) : go Z :=
  let n := Z.of_nat (size (members c)) in
  if n =? 0 then Panic "integer divide by zero"
  else Val (Qceiling (inject_Z (partitionCount c / n) * Load (config c))).

(** The loop of [distributeWithLoad]; [tries] positions are left to look at. *)
Fixpoint distributeWithLoad (c : Consistent) (avgLoad : Z) (ls : gmap string Z) (tries : nat) (idx : nat) : go string :=
  match tries with
  | O => Panic "not enough room to distribute partitions"
  | S tries' =>
      match sortedSet c !! idx with
      | None => Panic "index out of range"
      | Some i =>
          match ring c !! i with
          | None => Panic "nil pointer dereference"
          | Some member =>
              let load := default 0 (ls !! member) in
              if load + 1 <=? avgLoad then Val member
              else distributeWithLoad c avgLoad ls tries' (if Nat.leb (length (sortedSet c)) (S idx) then O else S idx)
          end
      end
  end.

(** [sort.Search]: the first hash that is not less, or the first of all. *)
Definition search (hashes : list Z) (key : Z) : nat :=
  match list_find (fun h => key <= h) hashes with Some (i, _) => i | None => O end.

(** One partition. *)
Definition distribute (c : Consistent) (acc : gmap Z string * gmap string Z) (partID : Z) : go (gmap Z string * gmap string Z) :=
  let '(ps, ls) := acc in
  let key := Sum64 (le_bytes 8 partID) in
  let idx := search (sortedSet c) key in
  let! avgLoad := AverageLoad c in
  let! member := distributeWithLoad c avgLoad ls (pred (length (sortedSet c))) idx in
  Val (<[partID := member]> ps, <[member := default 0 (ls !! member) + 1]> ls).

Definition distributePartitions (c : Consistent) : go Consistent :=
  let! (ps, ls) := go_fold (distribute c) (∅, ∅) (seqZ 0 (partitionCount c)) in
  Val (set_distribution c ps ls).

(** The hashes of a member's replicas. *)
Definition replicas (cfg : RingConfig) (member : string) : list Z :=
  map (fun i => Sum64 (bytes_of_string (member +:+ Itoa i))) (seqZ 0 (ReplicationFactor cfg)).

Definition add (c : Consistent) (member : string) : Consistent :=
  let hs := replicas (config c) member in
  mkConsistent (config c) (merge_sort Z.le (sortedSet c ++ hs)) (loads c) (<[member := tt]> (members c)) (partitions c)
    (fold_left (fun r h => <[h := member]> r) hs (ring c)).

Definition empty_ring (cfg : RingConfig) : Consistent := mkConsistent cfg [] ∅ ∅ ∅ ∅.

Definition New (ms : option (list string)) (cfg : RingConfig) : go Consistent :=
  let c := fold_left add (default [] ms) (empty_ring cfg) in
  match ms with
  | None => Val c
  | Some _ => distributePartitions c
  end.

Definition Add (c : Consistent) (member : string) : go Consistent :=
  match members c !! member with
  | Some _ => Val c
  | None => distributePartitions (add c member)
  end.

(** [delSlice]: the first occurrence. *)
Fixpoint delSlice (l : list Z) (val : Z) : list Z :=
  match l with
  | [] => []
  | x :: l' => if x =? val then l' else x :: delSlice l' val
  end.

Definition Remove (c : Consistent) (name : string) : go Consistent :=
  match members c !! name with
  | None => Val c
  | Some _ =>
      let hs := replicas (config c) name in
      let c := mkConsistent (config c) (fold_left delSlice hs (sortedSet c)) (loads c) (delete name (members c)) (partitions c)
                 (fold_left (fun r h => delete h r) hs (ring c)) in
      if (size (members c) =? 0)%nat
      then Val (mkConsistent (config c) (sortedSet c) (loads c) (members c) ∅ (ring c))
      else distributePartitions c
  end.

Definition FindPartitionID (c : Consistent) (key : string) : go Z :=
  if partitionCount c =? 0 then Panic "integer divide by zero"
  else Val (Sum64 (bytes_of_string key) mod partitionCount c).

Definition GetPartitionOwner (c : Consistent) (partID : Z) : option string := partitions c !! partID.

Definition Consistent_LocateKey (c : Consistent) (key : string) : go (option string) :=
  let! partID := FindPartitionID c key in
  Val (GetPartitionOwner c partID).
End ring.

(** ** The invariant of a ring *)

(** How many partitions a member has. *)
Definition owns (m : string) (ps : gmap Z string) : Z := Z.of_nat (size (filter (fun kv => kv.2 = m) ps)).

Lemma owns_insert m i m' ps : ps !! i = None -> owns m (<[i := m']> ps) = owns m ps + (if decide (m' = m) then 1 else 0).
Proof.
  intros Hi. unfold owns. case_decide as Hm.
  - rewrite map_filter_insert_True by done. rewrite map_size_insert_None; [lia|]. apply map_lookup_filter_None. auto.
  - rewrite map_filter_insert_not' ; [lia|done|]. intros y Hy. congruence.
Qed.

Section facts.
Context (Sum64 : list Z -> Z).

Record ring_ok (c : Consistent) : Prop := mkRingOk {
  rok_ring : forall h m, ring c !! h = Some m -> is_Some (members c !! m) /\ h ∈ replicas Sum64 (config c) m;
  rok_owner : forall i m, partitions c !! i = Some m -> is_Some (members c !! m);
  rok_total : members c <> ∅ -> forall i, 0 <= i < partitionCount c -> is_Some (partitions c !! i);
  rok_load : forall avg, AverageLoad c = Val avg -> forall m, owns m (partitions c) <= Z.max 0 avg
}.

Lemma distributeWithLoad_member c avg ls tries idx m :
  distributeWithLoad c avg ls tries idx = Val m -> (exists h, ring c !! h = Some m) /\ default 0 (ls !! m) + 1 <= avg.
Proof.
  revert idx. induction tries as [|tries IH]; intros idx Hd; [done|]. cbn [distributeWithLoad] in Hd.
  destruct (sortedSet c !! idx) as [h|]; [|done]. destruct (ring c !! h) as [m'|] eqn:Er; [|done].
  destruct (Z.leb_spec (default 0 (ls !! m') + 1) avg); [|by eapply IH]. injection Hd as <-. eauto.
Qed.

(** What holds of the partitions that were given out. *)
Definition given (c : Consistent) (avg : Z) (ids : list Z) (acc : gmap Z string * gmap string Z) : Prop :=
  (forall i, is_Some (acc.1 !! i) <-> i ∈ ids) /\
  (forall i m, acc.1 !! i = Some m -> exists h, ring c !! h = Some m) /\
  (forall m, owns m acc.1 = default 0 (acc.2 !! m) /\ owns m acc.1 <= Z.max 0 avg).

Lemma distribute_given c avg ids acc i acc' :
  AverageLoad c = Val avg -> given c avg ids acc -> i ∉ ids -> distribute Sum64 c acc i = Val acc' ->
  given c avg (i :: ids) acc'.
Proof.
  intros Ha (Hd & Hr & Hl) Hi Hs. destruct acc as [ps ls]. unfold distribute in Hs. rewrite Ha in Hs.
  cbn [mbind go_bind] in Hs. apply go_bind_Val_inv in Hs as (m & Hm & [= <-]).
  apply distributeWithLoad_member in Hm as [Hh Hle]. cbn [fst snd] in *.
  assert (Hnone : ps !! i = None). { destruct (ps !! i) eqn:E; [|done]. destruct Hi. apply Hd. by rewrite E. }
  split; [|split]; cbn [fst snd].
  - intros j. rewrite lookup_insert, elem_of_cons, <- Hd. case_decide; naive_solver.
  - intros j m'. rewrite lookup_insert. case_decide; [intros [= <-]; done|apply Hr].
  - intros m'. rewrite owns_insert, lookup_insert by done. destruct (Hl m') as [He Hb].
    destruct (decide (m = m')) as [-> |Hmm]; cbn; lia.
Qed.

Lemma distribute_all_given c avg ids done acc acc' :
  AverageLoad c = Val avg -> given c avg done acc -> NoDup (ids ++ done) ->
  go_fold (distribute Sum64 c) acc ids = Val acc' -> given c avg (reverse ids ++ done) acc'.
Proof.
  intros Ha. revert acc done. induction ids as [|i ids IH]; intros acc done Hg Hnd Hf; [by injection Hf as <-|].
  cbn [go_fold] in Hf. apply go_bind_Val_inv in Hf as (acc1 & H1 & Hf). cbn [app] in Hnd. inversion Hnd as [|? ? Hi Hnd']; subst.
  rewrite reverse_cons, <- (assoc_L (++)). cbn [app]. apply (IH acc1); [|by rewrite <-Permutation_middle|done].
  eapply distribute_given; [done|done|set_solver|done].
Qed.

Lemma given_nil c avg : given c avg [] (∅, ∅).
Proof.
  split; [|split]; cbn [fst snd].
  - intros i. rewrite lookup_empty, elem_of_nil, is_Some_alt. done.
  - intros i m. by rewrite lookup_empty.
  - intros m. unfold owns. rewrite map_filter_empty, map_size_empty, lookup_empty. cbn. lia.
Qed.

(** Distributing makes the invariant, whatever the partitions were. *)
Lemma distributePartitions_ok c c' :
  (forall h m, ring c !! h = Some m -> is_Some (members c !! m) /\ h ∈ replicas Sum64 (config c) m) ->
  distributePartitions Sum64 c = Val c' ->
  ring_ok c' /\ config c' = config c /\ members c' = members c /\ ring c' = ring c /\ sortedSet c' = sortedSet c.
Proof.
  intros Hring Hd. unfold distributePartitions in Hd. apply go_bind_Val_inv in Hd as ([ps ls] & Hf & [= <-]).
  split; [|done].
  assert (Hcase : partitionCount c = 0 /\ ps = ∅ \/ exists avg, AverageLoad c = Val avg /\ given c avg (reverse (seqZ 0 (partitionCount c)) ++ []) (ps, ls)).
  { destruct (AverageLoad c) as [avg|] eqn:Ea.
    - right. exists avg. split; [done|]. apply (distribute_all_given c avg _ [] (∅, ∅)); [done|apply given_nil| |done].
      rewrite app_nil_r. apply NoDup_seqZ.
    - left. destruct (Z.eq_dec (partitionCount c) 0) as [Hz|Hz]; [rewrite Hz in Hf; by injection Hf as <- <-|].
      assert (0 < partitionCount c) by (unfold partitionCount in *; pose proof (Z.mod_pos_bound (PartitionCount (config c)) (2 ^ 64)); lia).
      rewrite seqZ_cons in Hf by lia. cbn [go_fold] in Hf.
      apply go_bind_Val_inv in Hf as (? & Hx & _). unfold distribute in Hx. by rewrite Ea in Hx. }
  constructor; cbn.
  - exact Hring.
  - intros i m Hi. destruct Hcase as [[_ ->]|(avg & _ & _ & Hg & _)]; [by rewrite lookup_empty in Hi|].
    destruct (Hg i m Hi) as [h Hh]. by apply Hring in Hh as [? _].
  - intros _ i Hi. destruct Hcase as [[Hz _]|(avg & _ & Hg & _)]; [unfold partitionCount in *; cbn in Hi; lia|].
    apply Hg. rewrite app_nil_r, elem_of_reverse. apply elem_of_seqZ. unfold partitionCount in *. cbn in Hi. lia.
  - intros avg Ha m. change (AverageLoad (set_distribution c ps ls)) with (AverageLoad c) in Ha.
    destruct Hcase as [[_ ->]|(avg' & Ha' & _ & _ & Hg)]; [unfold owns; rewrite map_filter_empty, map_size_empty; lia|].
    rewrite Ha in Ha'. injection Ha' as <-. apply (Hg m).
Qed.

(** *** Members and their replicas *)

Lemma ring_insert_lookup (hs : list Z) (m : string) r h :
  fold_left (fun r h => <[h := m]> r) hs r !! h = if decide (h ∈ hs) then Some m else (r : gmap Z string) !! h.
Proof.
  revert r. induction hs as [|x hs IH]; intros r; [done|]. cbn [fold_left]. rewrite IH, lookup_insert.
  repeat case_decide; try done; exfalso; set_solver.
Qed.

Lemma ring_delete_lookup (hs : list Z) r h :
  fold_left (fun r h => delete h r) hs r !! h = if decide (h ∈ hs) then None else (r : gmap Z string) !! h.
Proof.
  revert r. induction hs as [|x hs IH]; intros r; [done|]. cbn [fold_left]. rewrite IH, lookup_delete.
  repeat case_decide; try done; exfalso; set_solver.
Qed.

(** Hashes of the ring belong to replicas of members. *)
Definition hashes_ok (c : Consistent) : Prop :=
  forall h m, ring c !! h = Some m -> is_Some (members c !! m) /\ h ∈ replicas Sum64 (config c) m.

Lemma add_hashes_ok c m : hashes_ok c -> hashes_ok (add Sum64 c m).
Proof.
  intros Hc h m'. cbn [add ring members config]. rewrite ring_insert_lookup, lookup_insert. case_decide as Hh.
  - intros [= <-]. by rewrite decide_True.
  - intros Hr. destruct (Hc h m' Hr). by case_decide.
Qed.

Lemma adds_spec ms c :
  hashes_ok c -> let c' := fold_left (add Sum64) ms c in
  hashes_ok c' /\ config c' = config c /\ forall m, is_Some (members c' !! m) <-> m ∈ ms \/ is_Some (members c !! m).
Proof.
  revert c. induction ms as [|x ms IH]; intros c Hc; [split; [done|split; [done|]]; intros m; rewrite elem_of_nil; tauto|].
  cbn [fold_left]. destruct (IH (add Sum64 c x)) as (H1 & H2 & H3); [by apply add_hashes_ok|].
  split; [done|]. split; [done|]. intros m. rewrite H3. cbn [add members].
  rewrite lookup_insert_is_Some', elem_of_cons. naive_solver.
Qed.

Lemma New_ok ms cfg c :
  New Sum64 ms cfg = Val c -> ring_ok c /\ forall m, is_Some (members c !! m) <-> m ∈ default [] ms.
Proof.
  unfold New. assert (He : hashes_ok (empty_ring cfg)) by (intros h m; cbn; by rewrite lookup_empty).
  destruct (adds_spec (default [] ms) (empty_ring cfg) He) as (Hh & Hcfg & Hm). cbv zeta in *.
  assert (Hm' : forall m, is_Some (members (fold_left (add Sum64) (default [] ms) (empty_ring cfg)) !! m) <-> m ∈ default [] ms).
  { intros m. rewrite Hm. cbn. rewrite lookup_empty, is_Some_alt. naive_solver. }
  destruct ms as [ms|].
  - intros Hd. apply distributePartitions_ok in Hd as (Hok & _ & -> & _); done.
  - intros [= <-]. split; [|done]. by constructor.
Qed.

Lemma Add_ok c m c' :
  ring_ok c -> Add Sum64 c m = Val c' ->
  ring_ok c' /\ forall x, is_Some (members c' !! x) <-> x = m \/ is_Some (members c !! x).
Proof.
  intros Hc. unfold Add. destruct (members c !! m) eqn:Em.
  - intros [= <-]. split; [done|]. intros x. split; [by right|]. by intros [-> |?].
  - intros Hd. apply distributePartitions_ok in Hd as (Hok & _ & -> & _).
    + split; [done|]. intros x. cbn [add members]. rewrite lookup_insert_is_Some'. naive_solver.
    + apply add_hashes_ok. exact (rok_ring _ Hc).
Qed.

Lemma Remove_ok c m c' :
  ring_ok c -> Remove Sum64 c m = Val c' ->
  ring_ok c' /\ forall x, is_Some (members c' !! x) <-> x <> m /\ is_Some (members c !! x).
Proof.
  intros Hc. unfold Remove. destruct (members c !! m) eqn:Em.
  2: { intros [= <-]. split; [done|]. intros x. split; [|by intros [_ ?]]. intros Hx. split; [|done]. intros ->. rewrite Em in Hx. by destruct Hx. }
  assert (Hring : forall h m', fold_left (fun r h => delete h r) (replicas Sum64 (config c) m) (ring c) !! h = Some m' ->
    is_Some (delete m (members c) !! m') /\ h ∈ replicas Sum64 (config c) m').
  { intros h m'. rewrite ring_delete_lookup. case_decide as Hh; [done|]. intros Hr.
    destruct (rok_ring _ Hc h m' Hr) as [Hm Hin]. split; [|done]. rewrite lookup_delete_ne; [done|]. by intros ->. }
  cbv zeta. cbn [members]. destruct (Nat.eqb_spec (size (delete m (members c))) 0) as [Hz|_].
  - intros [= <-]. apply map_size_empty_inv in Hz. split; [constructor; cbn; [exact Hring|done|by rewrite Hz|]|].
    + intros avg _ x. unfold owns. rewrite map_filter_empty, map_size_empty. lia.
    + intros x. cbn. rewrite lookup_delete_is_Some. naive_solver.
  - intros Hd. apply distributePartitions_ok in Hd as (Hok & _ & -> & _); [|exact Hring].
    split; [done|]. intros x. cbn. rewrite lookup_delete_is_Some. naive_solver.
Qed.
End facts.

(** ** The ring keeps the promises *)

Definition Ring (Sum64 : list Z -> Z) : Type := { c : Consistent | ring_ok Sum64 c }.

(** A result that is a ring, as such. *)
Definition with_ok {Sum64} (r : go Consistent) : (forall c, r = Val c -> ring_ok Sum64 c) -> go (Ring Sum64) :=
  match r with
  | Val c => fun H => Val (exist _ c (H c eq_refl))
  | Panic e => fun _ => Panic e
  end.

Lemma with_ok_Val {Sum64} r H (x : Ring Sum64) : with_ok r H = Val x -> r = Val (`x).
Proof. destruct r; [|done]. by intros [= <-]. Qed.

Lemma with_ok_panic {Sum64} r (H : forall c, r = Val c -> ring_ok Sum64 c) : is_panic (with_ok r H) = is_panic r.
Proof. by destruct r. Qed.

Section instance.
Context (Sum64 : list Z -> Z) `{RangeOrder}.

#[export] Instance consistent_ring : HashRing (Ring Sum64) := {|
  ring_New ms cfg := with_ok (New Sum64 ms cfg) (fun c Hc => proj1 (New_ok Sum64 ms cfg c Hc));
  GetMembers r := (range (members (`r))).*1;
  ring_Add r m := with_ok (Add Sum64 (`r) m) (fun c Hc => proj1 (Add_ok Sum64 _ m c (proj2_sig r) Hc));
  ring_Remove r m := with_ok (Remove Sum64 (`r) m) (fun c Hc => proj1 (Remove_ok Sum64 _ m c (proj2_sig r) Hc));
  LocateKey r key := Consistent_LocateKey Sum64 (`r) key
|}.

(** A key is located at a member, if there are any. *)
Lemma LocateKey_ok (c : Consistent) key o :
  ring_ok Sum64 c -> Consistent_LocateKey Sum64 c key = Val o ->
  match o with Some m => is_Some (members c !! m) | None => members c = ∅ end.
Proof.
  intros Hc. unfold Consistent_LocateKey, FindPartitionID, GetPartitionOwner.
  destruct (Z.eqb_spec (partitionCount c) 0) as [|Hz]; [done|]. cbn [mbind go_bind]. intros [= <-].
  assert (Hp : 0 < partitionCount c)
    by (unfold partitionCount in *; pose proof (Z.mod_pos_bound (PartitionCount (config c)) (2 ^ 64)); lia).
  destruct (partitions c !! _) as [m|] eqn:Ep; [by eapply rok_owner|].
  destruct (decide (members c = ∅)) as [|Hne]; [done|].
  destruct (rok_total _ _ Hc Hne (Sum64 (bytes_of_string key) mod partitionCount c)) as [m Hm]; [apply Z.mod_pos_bound; lia|congruence].
Qed.

#[export] Instance consistent_ring_spec : HashRingSpec (Ring Sum64).
Proof.
  split; cbn [GetMembers ring_New ring_Add ring_Remove LocateKey consistent_ring].
  - intros r. apply NoDup_range_keys.
  - intros ms cfg r Hr%with_ok_Val x. rewrite elem_of_range_keys. by apply (New_ok Sum64 ms cfg).
  - intros r y r' Hr%with_ok_Val x. rewrite !elem_of_range_keys. apply (Add_ok Sum64 (`r) y (`r')); [apply proj2_sig|done].
  - intros r y r' Hr%with_ok_Val x. rewrite !elem_of_range_keys. apply (Remove_ok Sum64 (`r) y (`r')); [apply proj2_sig|done].
  - intros r k m Hl. apply elem_of_range_keys. exact (LocateKey_ok _ _ _ (proj2_sig r) Hl).
  - intros r k Hl. pose proof (LocateKey_ok _ _ _ (proj2_sig r) Hl) as Hm. cbn in Hm. rewrite Hm.
    apply Permutation_nil_r. by rewrite range_perm, map_to_list_empty.
Qed.
End instance.

(** ** When a ring can be made *)

Section capacity.
Context (Sum64 : list Z -> Z).

(** *** Too many members *)

Lemma AverageLoad_full c :
  (0 < size (members c))%nat -> partitionCount c < Z.of_nat (size (members c)) -> AverageLoad c = Val 0.
Proof.
  intros Hs Hp. unfold AverageLoad. destruct (Z.eqb_spec (Z.of_nat (size (members c))) 0); [lia|].
  rewrite Z.div_small by (unfold partitionCount in *; pose proof (Z.mod_pos_bound (PartitionCount (config c)) (2 ^ 64)); lia).
  reflexivity.
Qed.

Lemma distributeWithLoad_full c tries idx : is_panic (distributeWithLoad c 0 ∅ tries idx) = true.
Proof.
  revert idx. induction tries as [|tries IH]; intros idx; [done|]. cbn [distributeWithLoad].
  destruct (sortedSet c !! idx); [|done]. destruct (ring c !! _); [|done]. rewrite lookup_empty. cbn. apply IH.
Qed.

Lemma distributePartitions_full c :
  0 < partitionCount c < Z.of_nat (size (members c)) -> is_panic (distributePartitions Sum64 c) = true.
Proof.
  intros Hp. unfold distributePartitions. rewrite go_bind_is_panic. rewrite seqZ_cons by lia. cbn [go_fold].
  assert (Hd : is_panic (distribute Sum64 c (∅, ∅) 0) = true).
  { unfold distribute. rewrite AverageLoad_full by lia. cbn [mbind go_bind].
    pose proof (distributeWithLoad_full c (pred (length (sortedSet c))) (search (sortedSet c) (Sum64 (le_bytes 8 0)))) as Hx.
    by destruct (distributeWithLoad _ _ _ _ _). }
  by destruct (distribute Sum64 c (∅, ∅) 0).
Qed.

(** *** Enough room *)

(** The positions that were looked at in vain. *)
Lemma distributeWithLoad_none c avg ls tries idx :
  (forall h, h ∈ sortedSet c -> is_Some (ring c !! h)) -> (idx < length (sortedSet c))%nat ->
  is_panic (distributeWithLoad c avg ls tries idx) = true ->
  forall k h m, (k < tries)%nat -> sortedSet c !! ((idx + k) mod length (sortedSet c))%nat = Some h -> ring c !! h = Some m ->
    avg <= default 0 (ls !! m).
Proof.
  intros Hr. revert idx. set (L := length (sortedSet c)).
  induction tries as [|tries IH]; intros idx Hidx Hp k h m Hk Hh Hm; [lia|]. cbn [distributeWithLoad] in Hp. fold L in Hp.
  destruct (lookup_lt_is_Some_2 (sortedSet c) idx Hidx) as [h0 Hh0]. rewrite Hh0 in Hp.
  destruct (Hr h0) as [m0 Hm0]; [by eapply list_elem_of_lookup_2|]. rewrite Hm0 in Hp.
  destruct (Z.leb_spec (default 0 (ls !! m0) + 1) avg); [done|]. destruct k as [|k].
  - rewrite Nat.add_0_r, Nat.mod_small in Hh by done. simplify_eq. lia.
  - assert (Hnext : (if Nat.leb L (S idx) then O else S idx) = (S idx mod L)%nat).
    { destruct (Nat.leb_spec L (S idx)); [|by rewrite Nat.mod_small]. assert (S idx = L) as -> by lia. by rewrite Nat.Div0.mod_same. }
    rewrite Hnext in Hp. apply (IH (S idx mod L)%nat ltac:(apply Nat.mod_upper_bound; lia) Hp k h m); [lia| |done].
    rewrite Nat.Div0.add_mod_idemp_l. by replace (S idx + k)%nat with (idx + S k)%nat by lia.
Qed.

(** Two positions of a ring: one of them is looked at. *)
Lemma looked_at (L idx p q : nat) :
  (idx < L)%nat -> (p < L)%nat -> (q < L)%nat -> p <> q ->
  exists k, (k < pred L)%nat /\ ((idx + k) mod L = p \/ (idx + k) mod L = q)%nat.
Proof.
  intros Hi Hp Hq Hne.
  assert (Hk : forall x, (x < L)%nat -> exists k, (k < L)%nat /\ ((idx + k) mod L = x)%nat).
  { intros x Hx. destruct (Nat.le_gt_cases idx x).
    - exists (x - idx)%nat. split; [lia|]. replace (idx + (x - idx))%nat with x by lia. by apply Nat.mod_small.
    - exists (L + x - idx)%nat. split; [lia|]. replace (idx + (L + x - idx))%nat with (x + 1 * L)%nat by lia.
      rewrite Nat.Div0.mod_add. by apply Nat.mod_small. }
  destruct (Hk p Hp) as (k1 & Hk1 & H1), (Hk q Hq) as (k2 & Hk2 & H2).
  destruct (Nat.lt_ge_cases k1 (pred L)); [by exists k1; auto|].
  destruct (Nat.lt_ge_cases k2 (pred L)); [by exists k2; auto|]. assert (k1 = k2) by lia. congruence.
Qed.

(** Sums over members. *)
Definition Zsum (f : string -> Z) (ms : list string) : Z := foldr (fun m acc => f m + acc) 0 ms.

Lemma Zsum_cons f m ms : Zsum f (m :: ms) = f m + Zsum f ms.
Proof. done. Qed.

Lemma Zsum_ge f ms k : (forall m, m ∈ ms -> k <= f m) -> k * zlen ms <= Zsum f ms.
Proof.
  unfold zlen. induction ms as [|m ms IH]; intros Hf; [cbn; lia|]. rewrite Zsum_cons. cbn [length].
  pose proof (Hf m (list_elem_of_here _ _)). specialize (IH (fun x Hx => Hf x (list_elem_of_further _ _ _ Hx))). lia.
Qed.

Definition point (m x : string) : Z := if decide (m = x) then 1 else 0.

Lemma Zsum_point m ms : NoDup ms -> Zsum (point m) ms <= 1.
Proof.
  intros Hnd. assert (Hno : forall l, m ∉ l -> Zsum (point m) l = 0).
  { induction l as [|x l IH]; intros Hm; [done|]. rewrite Zsum_cons, IH by set_solver. unfold point. by rewrite decide_False by set_solver. }
  induction Hnd as [|x l Hx _ IH]; [done|]. rewrite Zsum_cons. unfold point at 1. case_decide as Heq; [subst; rewrite Hno by done; lia|]. lia.
Qed.

Lemma Zsum_add f g ms : Zsum (fun m => f m + g m) ms = Zsum f ms + Zsum g ms.
Proof. induction ms as [|m ms IH]; [done|]. rewrite !Zsum_cons, IH. lia. Qed.

Lemma Zsum_zero ms : Zsum (fun _ => 0) ms = 0.
Proof. induction ms as [|m ms IH]; [done|]. by rewrite Zsum_cons, IH. Qed.

Lemma Zsum_ext f g ms : (forall m, f m = g m) -> Zsum f ms = Zsum g ms.
Proof. intros Hf. induction ms as [|m ms IH]; [done|]. by rewrite !Zsum_cons, Hf, IH. Qed.

(** Each partition has one owner. *)
Lemma owns_sum ms (ps : gmap Z string) : NoDup ms -> Zsum (fun m => owns m ps) ms <= Z.of_nat (size ps).
Proof.
  intros Hnd. induction ps as [|i m ps Hi IH] using map_ind.
  - rewrite map_size_empty. rewrite (Zsum_ext _ (fun _ => 0)); [|intros m; unfold owns; by rewrite map_filter_empty, map_size_empty].
    by rewrite Zsum_zero.
  - rewrite map_size_insert_None by done. rewrite (Zsum_ext _ (fun x => owns x ps + point m x)).
    + rewrite Zsum_add. pose proof (Zsum_point m ms Hnd). lia.
    + intros x. by apply owns_insert.
Qed.

Section room.
Context (c : Consistent) (ms : list string) (avg : Z).
Context (Hnd : NoDup ms) (Havg : AverageLoad c = Val avg) (Hroom : partitionCount c <= avg * zlen ms).
Context (Hlook : forall h, h ∈ sortedSet c -> is_Some (ring c !! h)).
(** Every member has two hashes that are its own. *)
Context (Htwo : forall m, m ∈ ms -> exists h1 h2, h1 <> h2 /\ h1 ∈ sortedSet c /\ h2 ∈ sortedSet c /\
  ring c !! h1 = Some m /\ ring c !! h2 = Some m).

Lemma search_lt key : sortedSet c <> [] -> (search (sortedSet c) key < length (sortedSet c))%nat.
Proof.
  intros Hne. unfold search. destruct (list_find _ _) as [[i h]|] eqn:E.
  - apply list_find_Some in E as [E _]. by apply lookup_lt_Some in E.
  - destruct (sortedSet c); [done|]. cbn. lia.
Qed.

Lemma distribute_room done acc i :
  given c avg done acc -> NoDup done -> i ∉ done -> zlen done < partitionCount c -> exists acc', distribute Sum64 c acc i = Val acc'.
Proof.
  intros (Hd & _ & Hl) Hdone Hi Hlt. destruct acc as [ps ls]. cbn [fst snd] in *. unfold distribute. rewrite Havg. cbn [mbind go_bind].
  destruct (distributeWithLoad c avg ls _ _) as [m|e] eqn:Ed; [by eexists|]. exfalso.
  assert (Hsize : Z.of_nat (size ps) <= zlen done).
  { unfold zlen. apply inj_le. rewrite <- length_map_to_list, <- (length_fmap fst).
    apply submseteq_length, NoDup_submseteq; [apply NoDup_fst_map_to_list|]. intros j Hj. apply Hd.
    apply list_elem_of_fmap in Hj as ([j' m] & -> & Hj). apply elem_of_map_to_list in Hj. by eexists. }
  assert (Hfull : forall m, m ∈ ms -> avg <= owns m ps).
  { intros m Hm. destruct (Hl m) as [-> _]. destruct (Htwo m Hm) as (h1 & h2 & Hne & H1 & H2 & Hr1 & Hr2).
    apply list_elem_of_lookup in H1 as [p Hp], H2 as [q Hq].
    assert (Hidx : (search (sortedSet c) (Sum64 (le_bytes 8 i)) < length (sortedSet c))%nat)
      by (apply search_lt; intros He; by rewrite He in Hp).
    destruct (looked_at (length (sortedSet c)) (search (sortedSet c) (Sum64 (le_bytes 8 i))) p q) as (k & Hk & Hpos).
    { done. } { by apply lookup_lt_Some in Hp. } { by apply lookup_lt_Some in Hq. } { intros ->. congruence. }
    assert (Hpanic : is_panic (distributeWithLoad c avg ls (pred (length (sortedSet c))) (search (sortedSet c) (Sum64 (le_bytes 8 i)))) = true)
      by (by rewrite Ed).
    destruct Hpos as [Hpos|Hpos].
    - apply (distributeWithLoad_none c avg ls _ _ Hlook Hidx Hpanic k h1 m Hk); [by rewrite Hpos|done].
    - apply (distributeWithLoad_none c avg ls _ _ Hlook Hidx Hpanic k h2 m Hk); [by rewrite Hpos|done]. }
  pose proof (Zsum_ge (fun m => owns m ps) ms avg Hfull). pose proof (owns_sum ms ps Hnd). lia.
Qed.

Lemma distribute_all_room ids done acc :
  given c avg done acc -> NoDup (ids ++ done) -> zlen (ids ++ done) <= partitionCount c ->
  exists acc', go_fold (distribute Sum64 c) acc ids = Val acc'.
Proof.
  revert done acc. induction ids as [|i ids IH]; intros done acc Hg Hn Hlen; [by eexists|]. cbn [app] in *.
  inversion Hn as [|? ? Hi Hn']; subst. unfold zlen in *. cbn [length] in Hlen. rewrite length_app in Hlen.
  destruct (distribute_room done acc i) as [acc1 H1]; [done|by apply list.NoDup_app in Hn' as (_ & _ & ?)|set_solver|unfold zlen; lia|].
  cbn [go_fold]. rewrite H1. cbn [mbind go_bind]. apply (IH (i :: done)).
  - eapply distribute_given; [done|done|set_solver|done].
  - by rewrite <- Permutation_middle.
  - rewrite length_app. cbn [length]. lia.
Qed.

Lemma distributePartitions_room : exists c', distributePartitions Sum64 c = Val c'.
Proof.
  unfold distributePartitions. destruct (distribute_all_room (seqZ 0 (partitionCount c)) [] (∅, ∅)) as [[ps ls] Hf].
  - apply given_nil.
  - rewrite app_nil_r. apply NoDup_seqZ.
  - rewrite app_nil_r. unfold zlen. rewrite length_seqZ. unfold partitionCount. pose proof (Z.mod_pos_bound (PartitionCount (config c)) (2 ^ 64)). lia.
  - rewrite Hf. by eexists.
Qed.
End room.

(** *** The ring of a list of members *)

Definition hashes (cfg : RingConfig) (ms : list string) : list Z := concat (map (replicas Sum64 cfg) ms).

Abbreviation adds := (fold_left (add Sum64)).

Lemma adds_config ms c : config (adds ms c) = config c.
Proof. revert c. induction ms as [|m ms IH]; intros c; [done|]. cbn [fold_left]. by rewrite IH. Qed.

Lemma adds_sortedSet ms c : sortedSet (adds ms c) ≡ₚ sortedSet c ++ hashes (config c) ms.
Proof.
  revert c. induction ms as [|m ms IH]; intros c; [by rewrite app_nil_r|]. cbn [fold_left hashes map concat]. rewrite IH.
  cbn [add sortedSet config]. rewrite merge_sort_Permutation. unfold hashes. by rewrite (assoc_L (++)).
Qed.

Lemma adds_ring_other ms c h : h ∉ hashes (config c) ms -> ring (adds ms c) !! h = ring c !! h.
Proof.
  revert c. induction ms as [|m ms IH]; intros c Hh; [done|]. unfold hashes in Hh. cbn [map concat] in Hh.
  cbn [fold_left]. rewrite IH by (cbn [add config]; unfold hashes; set_solver). cbn [add ring].
  rewrite ring_insert_lookup, decide_False by set_solver. done.
Qed.

Lemma adds_ring ms c m h :
  NoDup (hashes (config c) ms) -> m ∈ ms -> h ∈ replicas Sum64 (config c) m -> ring (adds ms c) !! h = Some m.
Proof.
  revert c. induction ms as [|x ms IH]; intros c Hnd Hm Hh; [by apply not_elem_of_nil in Hm|].
  unfold hashes in Hnd. cbn [map concat] in Hnd. apply list.NoDup_app in Hnd as (_ & Hdis & Hnd). cbn [fold_left].
  destruct (decide (m ∈ ms)) as [Hin|Hout]; [by apply (IH (add Sum64 c x))|].
  apply elem_of_cons in Hm as [-> |?]; [|done]. rewrite adds_ring_other.
  - cbn [add ring]. by rewrite ring_insert_lookup, decide_True.
  - apply Hdis. done.
Qed.

Lemma adds_size ms c : NoDup ms -> (forall m, m ∈ ms -> members c !! m = None) ->
  size (members (adds ms c)) = (size (members c) + length ms)%nat.
Proof.
  intros Hnd. revert c. induction Hnd as [|m ms Hm _ IH]; intros c Hc; [cbn; lia|]. cbn [fold_left]. rewrite IH.
  - cbn [add members length]. rewrite map_size_insert_None; [lia|]. apply Hc, list_elem_of_here.
  - intros x Hx. cbn [add members]. rewrite lookup_insert_ne; [|by intros ->]. by apply Hc, list_elem_of_further.
Qed.

(** The average load of [n] members. *)
Definition average (cfg : RingConfig) (n : Z) : Z := Qceiling (inject_Z (PartitionCount cfg mod 2 ^ 64 / n) * Load cfg).

Section members.
Context (cfg : RingConfig) (ms : list string).
Context (Hnd : NoDup ms) (Hne : ms <> []).

Lemma ring_size : size (members (adds ms (empty_ring cfg))) = length ms.
Proof. rewrite adds_size; [done|done|]. intros m _. apply lookup_empty. Qed.

Lemma ring_average : AverageLoad (adds ms (empty_ring cfg)) = Val (average cfg (zlen ms)).
Proof.
  unfold AverageLoad, average, partitionCount, zlen. rewrite ring_size, adds_config. cbn [config empty_ring].
  destruct (Z.eqb_spec (Z.of_nat (length ms)) 0) as [Hz|]; [|done]. destruct ms; [done|]. cbn in Hz. lia.
Qed.

Lemma New_panics : 0 < PartitionCount cfg mod 2 ^ 64 < zlen ms -> is_panic (New Sum64 (Some ms) cfg) = true.
Proof.
  intros Hp. change (is_panic (distributePartitions Sum64 (adds ms (empty_ring cfg))) = true).
  apply distributePartitions_full. unfold partitionCount. rewrite adds_config, ring_size. exact Hp.
Qed.

Lemma New_returns :
  NoDup (hashes cfg ms) -> 2 <= ReplicationFactor cfg -> PartitionCount cfg mod 2 ^ 64 <= average cfg (zlen ms) * zlen ms ->
  exists c, New Sum64 (Some ms) cfg = Val c.
Proof.
  intros Hh Hrf Hroom. change (exists c, distributePartitions Sum64 (adds ms (empty_ring cfg)) = Val c).
  pose proof (adds_sortedSet ms (empty_ring cfg)) as Hs. cbn [sortedSet empty_ring config app] in Hs.
  assert (Hring : forall m h, m ∈ ms -> h ∈ replicas Sum64 cfg m -> ring (adds ms (empty_ring cfg)) !! h = Some m)
    by (intros m h; by apply (adds_ring ms (empty_ring cfg))).
  assert (Hin : forall m h, m ∈ ms -> h ∈ replicas Sum64 cfg m -> h ∈ sortedSet (adds ms (empty_ring cfg))).
  { intros m h Hm Hr. rewrite Hs. unfold hashes. apply list_elem_of_In, in_concat. exists (replicas Sum64 cfg m).
    split; [|by apply list_elem_of_In]. apply in_map. by apply list_elem_of_In. }
  apply (distributePartitions_room _ ms (average cfg (zlen ms))); [done|apply ring_average| | |].
  - unfold partitionCount. by rewrite adds_config.
  - intros h. rewrite Hs. unfold hashes. rewrite list_elem_of_In, in_concat. intros (l & Hl & Hhl).
    apply in_map_iff in Hl as (m & <- & Hm). exists m. apply Hring; by apply list_elem_of_In.
  - intros m Hm.
    assert (Hrep : replicas Sum64 cfg m = Sum64 (bytes_of_string (m +:+ Itoa 0)) :: Sum64 (bytes_of_string (m +:+ Itoa 1)) ::
      map (fun i => Sum64 (bytes_of_string (m +:+ Itoa i))) (seqZ 2 (ReplicationFactor cfg - 2))).
    { unfold replicas. rewrite seqZ_cons, seqZ_cons by lia. cbn [map]. do 3 f_equal. f_equal; lia. }
    assert (Hdist : NoDup (replicas Sum64 cfg m)).
    { clear -Hh Hm. induction ms as [|x l IH]; [by apply not_elem_of_nil in Hm|]. unfold hashes in Hh. cbn [map concat] in Hh.
      apply list.NoDup_app in Hh as (Hx & _ & Hh). apply elem_of_cons in Hm as [-> |Hm]; [done|by apply IH]. }
    rewrite Hrep in Hdist. inversion Hdist as [|? ? Hne1 _]; subst.
    exists (Sum64 (bytes_of_string (m +:+ Itoa 0))), (Sum64 (bytes_of_string (m +:+ Itoa 1))).
    assert (Sum64 (bytes_of_string (m +:+ Itoa 0)) ∈ replicas Sum64 cfg m) by (rewrite Hrep; apply list_elem_of_here).
    assert (Sum64 (bytes_of_string (m +:+ Itoa 1)) ∈ replicas Sum64 cfg m) by (rewrite Hrep; apply list_elem_of_further, list_elem_of_here).
    repeat split; eauto. intros Heq. apply Hne1. rewrite Heq. apply list_elem_of_here.
Qed.
End members.
End capacity.

(** ** Rings of the load balancer *)

(** [ConsistentHash] of the default configuration. *)
Definition default_ring : RingConfig := lb_ConsistentHash (defaultLoadBalancerConfig init_globals).

Lemma default_room n : 1 <= n <= 100 -> PartitionCount default_ring mod 2 ^ 64 <= average default_ring n * n.
Proof.
  intros Hn.
  assert (Hall : forallb (fun n => PartitionCount default_ring mod 2 ^ 64 <=? average default_ring n * n) (seqZ 1 100) = true)
    by (vm_compute; reflexivity).
  rewrite forallb_forall in Hall. apply Z.leb_le, Hall, list_elem_of_In, elem_of_seqZ. lia.
Qed.

Section updates.
Context (Sum64 : list Z -> Z) `{RangeOrder}.
Implicit Types r : Ring Sum64.

Definition ring_size_of r : Z := zlen (GetMembers r).

Lemma ring_size_members r : ring_size_of r = Z.of_nat (size (members (`r))).
Proof.
  unfold ring_size_of, zlen. cbn. rewrite length_fmap, range_perm. by rewrite length_map_to_list.
Qed.

(** Adding a member to a ring that has as many as partitions. *)
Lemma ring_Add_full r x :
  x ∉ GetMembers r -> 0 < partitionCount (`r) -> partitionCount (`r) <= ring_size_of r -> is_panic (ring_Add r x) = true.
Proof.
  intros Hx Hp Hs. cbn. rewrite with_ok_panic. unfold Add. rewrite ring_size_members in Hs.
  assert (Hnone : members (`r) !! x = None).
  { destruct (members (`r) !! x) eqn:E; [|done]. destruct Hx. cbn. apply elem_of_range_keys. by rewrite E. }
  rewrite Hnone. apply distributePartitions_full. unfold partitionCount in *. cbn [add config members].
  rewrite map_size_insert_None by done. lia.
Qed.

Lemma ring_Add_size r x r' :
  ring_Add r x = Val r' -> x ∉ GetMembers r ->
  config (`r') = config (`r) /\ ring_size_of r' = ring_size_of r + 1 /\ forall y, y ∈ GetMembers r' <-> y = x \/ y ∈ GetMembers r.
Proof.
  intros Hr Hx. pose proof (add_members r x r' Hr) as Hm. rewrite !ring_size_members. cbn in Hr. apply with_ok_Val in Hr.
  assert (Hnone : members (`r) !! x = None).
  { destruct (members (`r) !! x) eqn:E; [|done]. destruct Hx. cbn. apply elem_of_range_keys. by rewrite E. }
  unfold Add in Hr. rewrite Hnone in Hr.
  apply distributePartitions_ok in Hr as (_ & Hc & Hme & _); [|apply add_hashes_ok; exact (rok_ring _ _ (proj2_sig r))].
  split; [done|]. split; [|done]. rewrite Hme. cbn [add members]. rewrite map_size_insert_None by done. lia.
Qed.

Lemma ring_Adds_full xs r :
  NoDup xs -> (forall x, x ∈ xs -> x ∉ GetMembers r) -> 0 < partitionCount (`r) -> partitionCount (`r) < ring_size_of r + zlen xs ->
  ring_size_of r <= partitionCount (`r) -> is_panic (go_fold ring_Add r xs) = true.
Proof.
  intros Hnd. revert r. induction Hnd as [|x xs Hx _ IH]; intros r Hout Hp Hlt Hle; [unfold zlen in Hlt; cbn in Hlt; lia|].
  cbn [go_fold]. rewrite go_bind_is_panic. destruct (ring_Add r x) as [r'|] eqn:Er; [|done].
  destruct (ring_Add_size r x r' Er) as (Hc & Hs & Hm); [apply Hout, list_elem_of_here|].
  assert (Hpc : partitionCount (`r') = partitionCount (`r)) by (unfold partitionCount; by rewrite Hc).
  destruct (Z.eq_dec (ring_size_of r) (partitionCount (`r))) as [Heq|Hneq].
  { pose proof (ring_Add_full r x) as Hf. rewrite Er in Hf. discriminate Hf; [apply Hout, list_elem_of_here|done|lia]. }
  apply IH; [|lia| |lia].
  - intros y Hy. rewrite Hm. intros [-> |Hin]; [done|]. by apply (Hout y); [apply list_elem_of_further|].
  - unfold zlen in *. cbn [length] in Hlt. lia.
Qed.

(** An update adds the new endpoints before it removes the old ones. *)
Lemma update_overflows r endpoints :
  NoDup endpoints -> (forall x, x ∈ endpoints -> x ∉ GetMembers r) -> 0 < partitionCount (`r) ->
  ring_size_of r <= partitionCount (`r) < ring_size_of r + zlen endpoints -> is_panic (updateHashRing r endpoints) = true.
Proof.
  intros Hnd Hout Hp [Hle Hlt]. unfold updateHashRing. destruct (sliceCompare (GetMembers r) endpoints) as [added deleted] eqn:E.
  destruct (sliceCompare_spec _ _ _ _ E) as (Hna & _ & Ha & _).
  assert (Hlen : zlen added = zlen endpoints).
  { unfold zlen. f_equal. apply Permutation_length, NoDup_Permutation; [done|done|]. intros x. rewrite Ha.
    split; [intros [_ Ho]; apply occurs_elem; lia|]. intros Hx. split; [by apply Hout|]. by apply NoDup_occurs. }
  rewrite go_bind_is_panic.
  assert (Hf : is_panic (go_fold ring_Add r added) = true).
  { apply ring_Adds_full; [done| |done|lia|done]. intros x Hx. by apply Ha in Hx as [? _]. }
  by destruct (go_fold ring_Add r added).
Qed.
End updates.

Section properties.
Context (Sum64 : list Z -> Z) `{RangeOrder}.

Lemma LocateKey_total (r : Ring Sum64) key :
  0 < partitionCount (`r) -> members (`r) <> ∅ -> exists m, LocateKey r key = Val (Some m) /\ m ∈ GetMembers r.
Proof.
  intros Hp Hne. cbn. unfold Consistent_LocateKey, FindPartitionID, GetPartitionOwner.
  destruct (Z.eqb_spec (partitionCount (`r)) 0); [lia|]. cbn [mbind go_bind].
  destruct (rok_total _ _ (proj2_sig r) Hne (Sum64 (bytes_of_string key) mod partitionCount (`r))) as [m Hm]; [apply Z.mod_pos_bound; lia|].
  exists m. rewrite Hm. split; [done|]. apply elem_of_range_keys. by eapply rok_owner, Hm; apply proj2_sig.
Qed.

(** C14. How many endpoints a ring holds.  With the default configuration (100
    partitions, 10 replicas, a load of 1.25) the ring of up to 100 endpoints
    whose replicas have different hashes can be made: every key is located at
    one of the endpoints, and no endpoint has more than its share of the
    partitions, rounded up by the load.  More endpoints than partitions make
    the process panic; and so does an update that replaces the endpoints by
    others, if old and new ones together are more than the partitions, even if
    neither are, because the new ones are added first. *)
Theorem ring_capacity (endpoints : list string) :
  NoDup endpoints -> endpoints <> [] -> NoDup (hashes Sum64 default_ring endpoints) ->
  (if decide (zlen endpoints <= 100) then
     exists r : Ring Sum64, newHashRing default_ring endpoints = Val r /\
       (forall key, exists m, LocateKey r key = Val (Some m) /\ m ∈ endpoints) /\
       forall m, owns m (partitions (`r)) <= Z.max 0 (average default_ring (zlen endpoints))
   else is_panic (newHashRing default_ring endpoints : go (Ring Sum64)) = true) /\
  forall r : Ring Sum64, config (`r) = default_ring -> (forall x, x ∈ endpoints -> x ∉ GetMembers r) ->
    ring_size_of Sum64 r <= 100 < ring_size_of Sum64 r + zlen endpoints -> is_panic (updateHashRing r endpoints) = true.
Proof.
  intros Hnd Hne Hh. assert (Hlen : 1 <= zlen endpoints) by (destruct endpoints; [done|]; unfold zlen; cbn [length]; lia).
  unfold newHashRing. assert ((length endpoints =? 0)%nat = false) as -> by (by destruct endpoints). split.
  - case_decide as Hle.
    + destruct (New_returns Sum64 default_ring endpoints Hnd Hne Hh) as [c Hc]; [done|apply default_room; lia|].
      destruct (with_ok (New Sum64 (Some endpoints) default_ring) (fun c Hc => proj1 (New_ok Sum64 (Some endpoints) default_ring c Hc)))
        as [r|e] eqn:Er; [|by apply (f_equal is_panic) in Er; rewrite with_ok_panic, Hc in Er].
      pose proof (with_ok_Val _ _ _ Er) as Hr. exists r. split; [exact Er|].
      destruct (New_ok Sum64 _ _ _ Hr) as [Hok Hm]. cbn [default] in Hm.
      assert (Hd : config (`r) = default_ring /\ members (`r) = members (fold_left (add Sum64) endpoints (empty_ring default_ring))).
      { change (distributePartitions Sum64 (fold_left (add Sum64) endpoints (empty_ring default_ring)) = Val (`r)) in Hr.
        apply distributePartitions_ok in Hr as (_ & -> & -> & _); [by rewrite adds_config|].
        apply adds_spec. intros h m. cbn. by rewrite lookup_empty. }
      destruct Hd as [Hcfg Hmem]. split.
      * intros key. destruct (LocateKey_total r key) as (m & Hl & Hin).
        { unfold partitionCount. by rewrite Hcfg. }
        { intros He. destruct endpoints as [|x l]; [done|]. destruct (proj2 (Hm x) (list_elem_of_here _ _)) as [? Hx]. by rewrite He, lookup_empty in Hx. }
        exists m. split; [done|]. cbn in Hin. by apply Hm, elem_of_range_keys.
      * intros m. apply (rok_load _ _ Hok). unfold AverageLoad, partitionCount. rewrite Hcfg, Hmem, ring_size by done.
        fold (zlen endpoints). destruct (Z.eqb_spec (zlen endpoints) 0); [lia|done].
    + cbn. rewrite with_ok_panic. apply New_panics; [done|]. change (0 < 100 < zlen endpoints). lia.
  - intros r Hcfg Hout Hs. assert (Hpc : partitionCount (`r) = 100) by (unfold partitionCount; by rewrite Hcfg).
    apply update_overflows; [done|done|lia|lia].
Qed.

(** C12. The ring that the load balancer uses keeps the promises the policies
    rely on: after an update its members are the endpoints (of a list without
    repetitions), a key is located at one of them if there are any, always at
    the same one, and no endpoint has more partitions than the average load
    allows. *)
Theorem ring_follows_endpoints (r r' : Ring Sum64) endpoints :
  NoDup endpoints -> updateHashRing r endpoints = Val r' ->
  (forall x, x ∈ GetMembers r' <-> x ∈ endpoints) /\
  (forall key o, LocateKey r' key = Val o -> match o with Some m => m ∈ endpoints | None => endpoints = [] end) /\
  forall avg, AverageLoad (`r') = Val avg -> forall m, owns m (partitions (`r')) <= Z.max 0 avg.
Proof.
  intros Hnd Hu. assert (Hm : forall x, x ∈ GetMembers r' <-> x ∈ endpoints).
  { intros x. rewrite (updateHashRing_members r endpoints r' Hu). split; [tauto|]. intros Hx. split; [done|].
    right. by apply NoDup_occurs. }
  split; [done|]. split.
  - intros key [m|] Hl; [apply Hm; by eapply locate_member|]. apply locate_none in Hl.
    destruct endpoints as [|x l]; [done|]. pose proof (proj2 (Hm x) (list_elem_of_here _ _)) as Hx. rewrite Hl in Hx. by apply not_elem_of_nil in Hx.
  - apply rok_load with (Sum64 := Sum64). apply proj2_sig.
Qed.
End properties.

(** ** Witnesses: with xxHash, as [defaultHasher] *)

Definition defaultHasher : list Z -> Z := Sum64.

Definition demo_endpoints : list string :=
  ["edge-1:web-a:10.0.0.1:80"; "edge-2:web-b:10.0.0.2:80"; "edge-3:web-c:10.0.0.3:80"].

Definition demo_ring : go (Ring defaultHasher) := newHashRing default_ring demo_endpoints.

Lemma ring_capacity_witness :
  exists r : Ring defaultHasher, newHashRing default_ring demo_endpoints = Val r /\
    (forall key, exists m, LocateKey r key = Val (Some m) /\ m ∈ demo_endpoints) /\
    forall m, owns m (partitions (`r)) <= Z.max 0 (average default_ring 3).
Proof.
  refine (proj1 (ring_capacity defaultHasher demo_endpoints _ _ _)).
  - apply (bool_decide_unpack _). vm_compute. exact I.
  - discriminate.
  - apply (bool_decide_unpack _). vm_compute. exact I.
Defined.

Example demo_located :
  match demo_ring with
  | Val r => (fun k => LocateKey r k) <$> ["10.1.1.1"; "10.1.1.2"; "10.1.1.3"]
  | Panic _ => []
  end = [Val (Some "edge-1:web-a:10.0.0.1:80"); Val (Some "edge-2:web-b:10.0.0.2:80"); Val (Some "edge-2:web-b:10.0.0.2:80")].
Proof. vm_compute. reflexivity. Qed.

(** The first endpoint leaves. *)
Lemma demo_update : is_panic (let! r := demo_ring in updateHashRing r (drop 1 demo_endpoints)) = false.
Proof. vm_compute. reflexivity. Qed.

Lemma ring_follows_endpoints_witness :
  exists r r' : Ring defaultHasher, demo_ring = Val r /\ updateHashRing r (drop 1 demo_endpoints) = Val r' /\
    forall x, x ∈ GetMembers r' <-> x ∈ drop 1 demo_endpoints.
Proof.
  pose proof demo_update as Hd. destruct demo_ring as [r|]; [|discriminate Hd]. cbn [mbind go_bind] in Hd.
  destruct (updateHashRing r (drop 1 demo_endpoints)) as [r'|] eqn:Eu; [|discriminate Hd].
  exists r, r'. split; [reflexivity|]. split; [exact Eu|].
  apply (ring_follows_endpoints defaultHasher r r' (drop 1 demo_endpoints)); [|exact Eu].
  apply (bool_decide_unpack _). vm_compute. exact I.
Defined.
