(* ===== verification/LoadBalancer.v ===== *)
(** * The load balancer

    [src/pkg/loadbalancer/loadbalancer.go]: the state of the load balancer and
    every operation on it.  The informers, the clock, the random numbers, the
    order of [range] over a map, [net.Dial] and the tunnel are outside; they
    are parameters or arguments of the operations.  A critical section of a
    mutex is a function from states to states.  [syncServices] has two of them,
    [take_changes] and [process_changes], and connecting to an endpoint has one
    for each attempt; what other goroutines do in between is a step of their own
    in [LbSync] and [SyncRunner], and the argument [at_others] of an attempt
    here.  The two start-up flags, which are not protected by a mutex, are
    treated as atomic steps. *)

From Stdlib Require Import ZArith Lia Ascii String.
From stdpp Require Import base list gmap sets sorting strings option.
From S2P Require Import Prelude GoStrings GoNet Config NetUtil LbUtil LbPolicy.

Local Open Scope Z_scope.

(** ** Data *)

Record ServicePort : Type := mkServicePort {
  sp_Name : string;
  sp_Protocol : string;
  sp_Port : Z;
  sp_NodePort : Z
}.

(** [SessionAffinityConfig] holds the pointers [ClientIP] and
    [TimeoutSeconds]; [svc_other] stands for the fields no code here reads. *)
Record Service : Type := mkService {
  svc_Namespace : string;
  svc_Name : string;
  ClusterIP : string;
  svc_Type : string;
  svc_Ports : list ServicePort;
  ExternalIPs : list string;
  SessionAffinity : string;
  SessionAffinityConfig : option (option (option Z));
  LoadBalancerStatus : list (string * string);
  svc_other : list (string * string)
}.

#[export] Instance ServicePort_eq_dec : EqDecision ServicePort.
Proof. solve_decision. Defined.
#[export] Instance Service_eq_dec : EqDecision Service.
Proof. solve_decision. Defined.

Definition ServiceAffinityNone : string := "None".
Definition ServiceAffinityClientIP : string := "ClientIP".
Definition ProtocolUDP : string := "UDP".
Definition DefaultClientIPServiceAffinitySeconds : Z := 10800.

Record portal : Type := mkPortal { portal_ip : list Z; portal_port : Z; isExternal : bool }.

Record ServiceInfo : Type := mkServiceInfo {
  isAliveAtomic : Z;
  si_portal : portal;
  protocol : string;
  proxyPort : Z;
  nodePort : Z;
  loadBalancerStatus : list (string * string);
  sessionAffinityType : string;
  stickyMaxAgeSeconds : Z;
  externalIPs : list string;
  isStartedAtomic : Z;
  isFinishedAtomic : Z
}.

Definition setStarted (i : ServiceInfo) : ServiceInfo :=
  mkServiceInfo (isAliveAtomic i) (si_portal i) (protocol i) (proxyPort i) (nodePort i)
    (loadBalancerStatus i) (sessionAffinityType i) (stickyMaxAgeSeconds i) (externalIPs i)
    1 (isFinishedAtomic i).

Definition IsStarted (i : ServiceInfo) : bool := negb (isStartedAtomic i =? 0).

Definition setFinished (i : ServiceInfo) : ServiceInfo :=
  mkServiceInfo (isAliveAtomic i) (si_portal i) (protocol i) (proxyPort i) (nodePort i)
    (loadBalancerStatus i) (sessionAffinityType i) (stickyMaxAgeSeconds i) (externalIPs i)
    (isStartedAtomic i) 1.

Definition IsFinished (i : ServiceInfo) : bool := negb (isFinishedAtomic i =? 0).

Definition setAlive (i : ServiceInfo) (b : bool) : ServiceInfo :=
  mkServiceInfo (if b then 1 else 0) (si_portal i) (protocol i) (proxyPort i) (nodePort i)
    (loadBalancerStatus i) (sessionAffinityType i) (stickyMaxAgeSeconds i) (externalIPs i)
    (isStartedAtomic i) (isFinishedAtomic i).

Definition IsAlive (i : ServiceInfo) : bool := negb (isAliveAtomic i =? 0).

(** Times are nanoseconds. *)
Record affinityState : Type := mkAffinityState { clientIP : string; endpoint : string; lastUsed : Z }.

Record affinityPolicy : Type := mkAffinityPolicy {
  affinityType : string;
  affinityMap : gmap string affinityState;
  ttlSeconds : Z
}.

Definition newAffinityPolicy (affinityType : string) (ttlSeconds : Z) : affinityPolicy :=
  mkAffinityPolicy affinityType ∅ ttlSeconds.

Record balancerState : Type := mkBalancerState {
  endpoints : list string;
  index : Z;
  affinity : affinityPolicy
}.

Definition set_affinityMap (s : balancerState) (m : gmap string affinityState) : balancerState :=
  mkBalancerState (endpoints s) (index s)
    (mkAffinityPolicy (affinityType (affinity s)) m (ttlSeconds (affinity s))).

Definition set_affinityType (s : balancerState) (t : string) : balancerState :=
  mkBalancerState (endpoints s) (index s)
    (mkAffinityPolicy t (affinityMap (affinity s)) (ttlSeconds (affinity s))).

Definition set_endpoints (s : balancerState) (eps : list string) (i : Z) : balancerState :=
  mkBalancerState eps i (affinity s).

Definition set_index (s : balancerState) (i : Z) : balancerState :=
  mkBalancerState (endpoints s) i (affinity s).

Record serviceChange_ : Type := mkServiceChange {
  current : option Service;
  previous : option Service
}.

Record LoadBalancer {R : Type} : Type := mkLB {
  Config : LbConfig;
  serviceMap : gmap ServicePortName ServiceInfo;
  services : gmap ServicePortName balancerState;
  policyMap : gmap ServicePortName (Policy R);
  endpointsSynced : bool;
  servicesSynced : bool;
  initialized : bool;
  serviceChanges : gmap NamespacedName serviceChange_;
  syncRequests : nat  (** calls of [syncRunner.Run] *)
}.
Arguments LoadBalancer : clear implicits.

Section fields.
Context {R : Type}.
Implicit Types lb : LoadBalancer R.

Definition set_serviceMap lb m : LoadBalancer R :=
  mkLB R (Config lb) m (services lb) (policyMap lb) (endpointsSynced lb) (servicesSynced lb)
    (initialized lb) (serviceChanges lb) (syncRequests lb).

Definition set_services lb m : LoadBalancer R :=
  mkLB R (Config lb) (serviceMap lb) m (policyMap lb) (endpointsSynced lb) (servicesSynced lb)
    (initialized lb) (serviceChanges lb) (syncRequests lb).

Definition set_policyMap lb m : LoadBalancer R :=
  mkLB R (Config lb) (serviceMap lb) (services lb) m (endpointsSynced lb) (servicesSynced lb)
    (initialized lb) (serviceChanges lb) (syncRequests lb).

Definition set_synced lb (e s i : bool) : LoadBalancer R :=
  mkLB R (Config lb) (serviceMap lb) (services lb) (policyMap lb) e s i
    (serviceChanges lb) (syncRequests lb).

Definition set_changes lb m (n : nat) : LoadBalancer R :=
  mkLB R (Config lb) (serviceMap lb) (services lb) (policyMap lb) (endpointsSynced lb)
    (servicesSynced lb) (initialized lb) m n.

Definition New (config : LbConfig) : LoadBalancer R :=
  mkLB R config ∅ ∅ ∅ false false false ∅ 0.

Definition isInitialized lb : bool := initialized lb.
End fields.

(** ** Session affinity *)

Definition isSessionAffinity (affinity : affinityPolicy) : bool :=
  if String.eqb (affinityType affinity) "" || String.eqb (affinityType affinity) ServiceAffinityNone
  then false else true.

(** [int(time.Since(t).Seconds())]; the rounding of the intermediate
    floating-point number is not modelled. *)
Definition seconds_since (now t : Z) : Z := Z.quot (now - t) 1000000000.

Section affinity_ops.
Context `{RangeOrder}.

(** [range] over a map does not visit an entry removed before it is reached. *)
Definition removeSessionAffinityByEndpoint (m : gmap string affinityState) (ep : string)
  : gmap string affinityState :=
  fold_left (fun m '(k, a) =>
      match m !! k with
      | Some _ => if String.eqb (endpoint a) ep then delete (clientIP a) m else m
      | None => m
      end) (range m) m.

Definition cleanup_state (now : Z) (state : balancerState) : balancerState :=
  set_affinityMap state
    (fold_left (fun m '(ip, a) =>
        if ttlSeconds (affinity state) <=? seconds_since now (lastUsed a) then delete ip m else m)
      (range (affinityMap (affinity state))) (affinityMap (affinity state))).

(** The affinity entries of the endpoints that are not in [newEndpoints]. *)
Definition stale_affinity (state : balancerState) (newEndpoints : list string) : balancerState :=
  let newEndpointsSet : gset string := list_to_set newEndpoints in
  set_affinityMap state
    (fold_left (fun m existingEndpoint =>
        if bool_decide (existingEndpoint ∉ newEndpointsSet)
        then removeSessionAffinityByEndpoint m existingEndpoint else m)
      (endpoints state) (affinityMap (affinity state))).
End affinity_ops.

Fixpoint ipsEqual_from (lhs rhs : list string) : bool :=
  match lhs, rhs with
  | x :: lhs', y :: rhs' => String.eqb x y && ipsEqual_from lhs' rhs'
  | _, _ => true
  end.

Definition ipsEqual (lhs rhs : list string) : bool :=
  if negb (length lhs =? length rhs)%nat then false else ipsEqual_from lhs rhs.

(** ** Services *)

Section services_ops.
Context {R : Type} `{HashRing R} `{RangeOrder}.
Implicit Types lb : LoadBalancer R.

(** Kubernetes helpers. *)
Context (ShouldSkipService : Service -> bool).
Context (ParseIPSloppy : string -> list Z).
Context (LoadBalancerStatusEqual : list (string * string) -> list (string * string) -> bool).

Definition newServiceInternal lb (svcPort : ServicePortName) (affinityType : string) (ttlSeconds : Z)
  : LoadBalancer R * balancerState :=
  let ttlSeconds := if ttlSeconds =? 0 then DefaultClientIPServiceAffinitySeconds else ttlSeconds in
  match services lb !! svcPort with
  | None =>
      let state := mkBalancerState [] 0 (newAffinityPolicy affinityType ttlSeconds) in
      (set_services lb (<[svcPort := state]> (services lb)), state)
  | Some state =>
      let state := if String.eqb affinityType "" then state else set_affinityType state affinityType in
      (set_services lb (<[svcPort := state]> (services lb)), state)
  end.

Definition NewService lb (svcPort : ServicePortName) (affinityType : string) (ttlSeconds : Z)
  : LoadBalancer R :=
  (newServiceInternal lb svcPort affinityType ttlSeconds).1.

Definition DeleteService lb (svcPort : ServicePortName) : LoadBalancer R :=
  set_services lb (delete svcPort (services lb)).

Definition CleanupStaleStickySessions (now : Z) lb (svcPort : ServicePortName) : LoadBalancer R :=
  match services lb !! svcPort with
  | None => lb
  | Some state => set_services lb (<[svcPort := cleanup_state now state]> (services lb))
  end.

Definition cleanupStaleStickySessions (now : Z) lb : LoadBalancer R :=
  fold_left (CleanupStaleStickySessions now) ((range (serviceMap lb)).*1) lb.

Definition sameConfig (info : ServiceInfo) (service : Service) (port : ServicePort) : bool :=
  if negb (String.eqb (protocol info) (sp_Protocol port)) ||
     negb (portal_port (si_portal info) =? sp_Port port) ||
     negb (nodePort info =? sp_NodePort port) then false
  else if negb (IP_Equal (portal_ip (si_portal info)) (ParseIPSloppy (ClusterIP service))) then false
  else if negb (ipsEqual (externalIPs info) (ExternalIPs service)) then false
  else if negb (LoadBalancerStatusEqual (loadBalancerStatus info) (LoadBalancerStatus service)) then false
  else if negb (String.eqb (sessionAffinityType info) (SessionAffinity service)) then false
  else true.

Definition svcName_of (service : Service) : NamespacedName :=
  mkNN (svc_Namespace service) (svc_Name service).

(** [int( *service.Spec.SessionAffinityConfig.ClientIP.TimeoutSeconds)] *)
Definition sticky_seconds (service : Service) : go Z :=
  match SessionAffinityConfig service with
  | Some (Some (Some t)) => Val t
  | _ => Panic "nil pointer dereference"
  end.

Definition merge_port (service : Service) (acc : LoadBalancer R * gset string) (servicePort : ServicePort)
  : go (LoadBalancer R * gset string) :=
  let '(lb, existingPorts) := acc in
  let serviceName := svc_port (svcName_of service) (sp_Name servicePort) in
  let existingPorts := {[sp_Name servicePort]} ∪ existingPorts in
  let same :=
    match serviceMap lb !! serviceName with
    | Some info => sameConfig info service servicePort
    | None => false
    end in
  if same then Val (lb, existingPorts) else
  let lb := set_serviceMap lb (delete serviceName (serviceMap lb)) in
  let serviceIP := ParseIPSloppy (ClusterIP service) in
  let! sticky :=
    if String.eqb (SessionAffinity service) ServiceAffinityClientIP
    then sticky_seconds service else Val 0 in
  let info :=
    mkServiceInfo 1 (mkPortal serviceIP (sp_Port servicePort) false) (sp_Protocol servicePort) 0
      (sp_NodePort servicePort) (LoadBalancerStatus service) (SessionAffinity service) sticky
      (ExternalIPs service) 0 0 in
  let lb := NewService lb serviceName (sessionAffinityType info) (stickyMaxAgeSeconds info) in
  let info := setStarted info in
  Val (set_serviceMap lb (<[serviceName := info]> (serviceMap lb)), existingPorts).

(** [None] is the nil set. *)
Definition mergeService lb (service : option Service) : go (LoadBalancer R * option (gset string)) :=
  match service with
  | None => Val (lb, None)
  | Some service =>
      if ShouldSkipService service then Val (lb, None) else
      let! (lb, existingPorts) := go_fold (merge_port service) (lb, ∅) (svc_Ports service) in
      Val (lb, Some existingPorts)
  end.

Definition unmerge_port (service : Service) (existingPorts : gset string) lb (servicePort : ServicePort)
  : LoadBalancer R :=
  if bool_decide (sp_Name servicePort ∈ existingPorts) then lb else
  let serviceName := svc_port (svcName_of service) (sp_Name servicePort) in
  match serviceMap lb !! serviceName with
  | None => lb
  | Some _ =>
      let lb := set_serviceMap lb (delete serviceName (serviceMap lb)) in
      DeleteService lb serviceName
  end.

Definition unmergeService lb (service : option Service) (existingPorts : option (gset string))
  : LoadBalancer R :=
  match service with
  | None => lb
  | Some service =>
      if ShouldSkipService service then lb else
      fold_left (unmerge_port service (default ∅ existingPorts)) (svc_Ports service) lb
  end.

Definition apply_change lb (change : serviceChange_) : go (LoadBalancer R) :=
  let! (lb, existingPorts) := mergeService lb (current change) in
  Val (unmergeService lb (previous change) existingPorts).

(** The critical section of [serviceChangesLock] in [syncServices]. *)
Definition take_changes lb : LoadBalancer R * gmap NamespacedName serviceChange_ :=
  (set_changes lb ∅ (syncRequests lb), serviceChanges lb).

(** The critical section of [mu] in [syncServices]. *)
Definition process_changes (now : Z) lb (changes : gmap NamespacedName serviceChange_) : go (LoadBalancer R) :=
  let! lb := go_fold apply_change lb ((range changes).*2) in
  Val (cleanupStaleStickySessions now lb).

(** [syncServices] when nothing comes between its two critical sections. *)
Definition syncServices (now : Z) lb : go (LoadBalancer R) :=
  if negb (isInitialized lb) then Val lb else
  let '(lb, changes) := take_changes lb in
  process_changes now lb changes.

(** [reflect.DeepEqual] compares what the two pointers point to. *)
Definition serviceChange lb (previous_ current_ : option Service) : go (LoadBalancer R) :=
  let! svcName :=
    match current_, previous_ with
    | Some c, _ => Val (svcName_of c)
    | None, Some p => Val (svcName_of p)
    | None, None => Panic "nil pointer dereference"
    end in
  let change :=
    match serviceChanges lb !! svcName with
    | Some c => mkServiceChange current_ (previous c)
    | None => mkServiceChange current_ previous_
    end in
  if decide (previous change = current change)
  then Val (set_changes lb (delete svcName (serviceChanges lb)) (syncRequests lb))
  else Val (set_changes lb (<[svcName := change]> (serviceChanges lb))
              (if isInitialized lb then S (syncRequests lb) else syncRequests lb)).

Definition OnServiceAdd lb (service : Service) : go (LoadBalancer R) :=
  serviceChange lb None (Some service).

Definition OnServiceUpdate lb (oldService service : Service) : go (LoadBalancer R) :=
  serviceChange lb (Some oldService) (Some service).

Definition OnServiceDelete lb (service : Service) : go (LoadBalancer R) :=
  serviceChange lb (Some service) None.

(** The flags; the [syncServices] that follows runs in a goroutine of its own. *)
Definition OnServiceSynced lb : LoadBalancer R :=
  set_synced lb (endpointsSynced lb) true (if endpointsSynced lb then true else initialized lb).

Definition OnEndpointsSynced lb : LoadBalancer R :=
  set_synced lb true (servicesSynced lb) (if servicesSynced lb then true else initialized lb).

Definition GetServicePortName lb (namespacedName : NamespacedName) (port : Z) : option ServicePortName :=
  match List.find (fun '(svcPort, info) =>
      bool_decide (spn_name svcPort = namespacedName) && (portal_port (si_portal info) =? port))
    (range (serviceMap lb)) with
  | Some (svcPort, _) => Some svcPort
  | None => None
  end.

Definition ServiceHasEndpoints lb (svcPort : ServicePortName) : bool :=
  match services lb !! svcPort with
  | Some state => negb (length (endpoints state) =? 0)%nat
  | None => false
  end.

(** ** Endpoints *)

(** [utilproxy.ShuffleStrings]: some permutation, chosen anew at every call. *)
Context (ShuffleStrings : ServicePortName -> list string -> list string).

(** [if policy, exists := lb.policyMap[svcPort]; exists { policy.Sync(eps) }] *)
Definition sync_policy lb (svcPort : ServicePortName) (eps : list string) : go (LoadBalancer R) :=
  match policyMap lb !! svcPort with
  | Some policy =>
      let! policy := Policy_Sync policy eps in
      Val (set_policyMap lb (<[svcPort := policy]> (policyMap lb)))
  | None => Val lb
  end.

(** Setting the endpoints of a service port and starting over with the first. *)
Definition install_endpoints lb (svcPort : ServicePortName) (newEndpoints : list string)
  : go (LoadBalancer R) :=
  let '(lb, state) := newServiceInternal lb svcPort "" 0 in
  let state := set_endpoints state (ShuffleStrings svcPort newEndpoints) 0 in
  let lb := set_services lb (<[svcPort := state]> (services lb)) in
  sync_policy lb svcPort newEndpoints.

Definition add_port (svcName : NamespacedName) lb (e : string * list string) : go (LoadBalancer R) :=
  let '(portname, newEndpoints) := e in
  let svcPort := svc_port svcName portname in
  match services lb !! svcPort with
  | Some _ =>
      if (0 <? zlen newEndpoints) then install_endpoints lb svcPort newEndpoints else Val lb
  | None => install_endpoints lb svcPort newEndpoints
  end.

Definition OnEndpointsAdd lb (eps : Endpoints) : go (LoadBalancer R) :=
  let portsToEndpoints := buildPortsToEndpointsMap eps in
  go_fold (add_port (mkNN (ep_Namespace eps) (ep_Name eps))) lb (range portsToEndpoints).

Definition removeStaleAffinity lb (svcPort : ServicePortName) (newEndpoints : list string)
  : LoadBalancer R :=
  match services lb !! svcPort with
  | None => lb
  | Some state => set_services lb (<[svcPort := stale_affinity state newEndpoints]> (services lb))
  end.

Definition update_port (svcName : NamespacedName) lb (e : string * list string) : go (LoadBalancer R) :=
  let '(portname, newEndpoints) := e in
  let svcPort := svc_port svcName portname in
  match services lb !! svcPort with
  | None => install_endpoints (removeStaleAffinity lb svcPort newEndpoints) svcPort newEndpoints
  | Some state =>
      let curEndpoints := endpoints state in
      if negb (length curEndpoints =? length newEndpoints)%nat
      then install_endpoints (removeStaleAffinity lb svcPort newEndpoints) svcPort newEndpoints
      else
        let '(equiv, _, newEndpoints) := slicesEquiv curEndpoints newEndpoints in
        if equiv then Val lb
        else install_endpoints (removeStaleAffinity lb svcPort newEndpoints) svcPort newEndpoints
  end.

Definition resetService lb (svcPort : ServicePortName) : LoadBalancer R :=
  match services lb !! svcPort with
  | Some state => set_services lb (<[svcPort := set_affinityMap (set_endpoints state [] 0) ∅]> (services lb))
  | None => lb
  end.

(** [lb.resetService(svcPort)] and the sync of the policy with no endpoints. *)
Definition drop_port lb (svcPort : ServicePortName) : go (LoadBalancer R) :=
  sync_policy (resetService lb svcPort) svcPort [].

Definition OnEndpointsUpdate lb (oldEndpoints eps : Endpoints) : go (LoadBalancer R) :=
  let portsToEndpoints := buildPortsToEndpointsMap eps in
  let oldPortsToEndpoints := buildPortsToEndpointsMap oldEndpoints in
  let svcName := mkNN (ep_Namespace eps) (ep_Name eps) in
  let! lb := go_fold (update_port svcName) lb (range portsToEndpoints) in
  go_fold (fun lb portname =>
      match portsToEndpoints !! portname with
      | Some _ => Val lb
      | None => drop_port lb (svc_port svcName portname)
      end) lb ((range oldPortsToEndpoints).*1).

Definition OnEndpointsDelete lb (eps : Endpoints) : go (LoadBalancer R) :=
  let portsToEndpoints := buildPortsToEndpointsMap eps in
  go_fold (fun lb portname =>
      drop_port lb (svc_port (mkNN (ep_Namespace eps) (ep_Name eps)) portname))
    lb ((range portsToEndpoints).*1).

(** ** Destination rules *)

Definition setLoadBalancerPolicy lb (dr : DestinationRule) (policyName : string)
    (svcPort : ServicePortName) (eps : list string) : go (LoadBalancer R) :=
  if String.eqb policyName RoundRobin
  then Val (set_policyMap lb (<[svcPort := NewRoundRobinPolicy]> (policyMap lb)))
  else if String.eqb policyName Random
  then Val (set_policyMap lb (<[svcPort := NewRandomPolicy]> (policyMap lb)))
  else if String.eqb policyName ConsistentHash
  then let! p := NewConsistentHashPolicy (lb_ConsistentHash (Config lb)) dr eps in
       Val (set_policyMap lb (<[svcPort := p]> (policyMap lb)))
  else Val lb.

Definition OnDestinationRuleAdd lb (dr : DestinationRule) : go (LoadBalancer R) :=
  let policyName := getPolicyName dr in
  go_fold (fun lb '(svcPort, state) =>
      if negb (isNamespacedNameEqual dr (spn_name svcPort)) then Val lb
      else setLoadBalancerPolicy lb dr policyName svcPort (endpoints state))
    lb (range (services lb)).

Definition update_rule_port (dr : DestinationRule) lb (e : ServicePortName * balancerState)
  : go (LoadBalancer R) :=
  let '(svcPort, state) := e in
  let policyName := getPolicyName dr in
  if negb (isNamespacedNameEqual dr (spn_name svcPort)) then Val lb else
  let! lb :=
    match policyMap lb !! svcPort with
    | Some policy =>
        if negb (String.eqb (Policy_Name policy) policyName)
        then let! _ := Policy_Release policy in
             Val (set_policyMap lb (delete svcPort (policyMap lb)))
        else Val lb
    | None => Val lb
    end in
  let! lb := setLoadBalancerPolicy lb dr policyName svcPort (endpoints state) in
  match policyMap lb !! svcPort with
  | Some policy => Val (set_policyMap lb (<[svcPort := Policy_Update policy dr]> (policyMap lb)))
  | None => Panic "nil pointer dereference"
  end.

Definition OnDestinationRuleUpdate lb (oldDr dr : DestinationRule) : go (LoadBalancer R) :=
  go_fold (update_rule_port dr) lb (range (services lb)).

Definition delete_rule_port (dr : DestinationRule) lb (svcPort : ServicePortName) : go (LoadBalancer R) :=
  if negb (isNamespacedNameEqual dr (spn_name svcPort)) then Val lb else
  match policyMap lb !! svcPort with
  | Some policy =>
      let! _ := Policy_Release policy in
      Val (set_policyMap lb (delete svcPort (policyMap lb)))
  | None => Panic "nil pointer dereference"
  end.

Definition OnDestinationRuleDelete lb (dr : DestinationRule) : go (LoadBalancer R) :=
  go_fold (delete_rule_port dr) lb ((range (services lb)).*1).

Definition OnDestinationRuleSynced lb : LoadBalancer R := lb.
End services_ops.

(** ** Connections *)

Record ProxyOptions : Type := mkProxyOptions {
  po_Protocol : string;
  po_NodeName : string;
  po_IP : string;
  po_Port : Z
}.

Definition ErrMissingServiceEntry : string := "missing service entry".
Definition ErrMissingEndpoints : string := "missing endpoints".

Definition quote (s : string) : string := String "034" s +:+ String "034" "".

Section connections.
Context {R : Type} `{HashRing R} `{RangeOrder}.
Implicit Types lb : LoadBalancer R.

Context {Request Conn OutConn : Type}.
Context (Header_Get : Request -> string -> string).
Context (ReadRequest : Conn -> Conn * result Request).
Context (RemoteAddr : Conn -> string).
Context (Request_Write : Request -> result (list Z)).
Context (OutConn_Write : OutConn -> list Z -> result OutConn).

(** The outcome of picking: the client connection and the request afterwards,
    and the endpoint if one was picked. *)
Definition tryPickEndpoint lb (k : Z) (svcPort : ServicePortName) (sessionAffinityEnabled : bool)
    (eps : list string) (srcAddr : option string) (netConn : option Conn) (cliReq : option Request)
  : go (option Conn * option Request * option string) :=
  match policyMap lb !! svcPort with
  | None => Val (netConn, cliReq, None)
  | Some policy =>
      if sessionAffinityEnabled then Val (netConn, cliReq, None) else
      let! (netConn, req, r) :=
        Policy_Pick Header_Get ReadRequest RemoteAddr policy k eps srcAddr netConn cliReq in
      match r with
      | Err _ => Val (netConn, req, None)
      | Ok e => Val (netConn, req, Some e)
      end
  end.

(** Take the next endpoint and, for a sticky client, remember it. *)
Definition take_next (now : Z) (state : balancerState) (client : option string)
  : go (balancerState * string) :=
  let! ep := go_index (endpoints state) (index state) in
  let state := set_index state ((index state + 1) mod zlen (endpoints state)) in
  match client with
  | None => Val (state, ep)
  | Some ipaddr =>
      let a := mkAffinityState ipaddr ep now in
      Val (set_affinityMap state (<[ipaddr := a]> (affinityMap (affinity state))), ep)
  end.

(** The entry of a sticky client that still counts. *)
Definition live_affinity (now : Z) (state : balancerState) (ipaddr : string) : option affinityState :=
  match affinityMap (affinity state) !! ipaddr with
  | Some a => if seconds_since now (lastUsed a) <? ttlSeconds (affinity state) then Some a else None
  | None => None
  end.

Definition nextEndpointWithConn (now k : Z) lb (svcPort : ServicePortName) (srcAddr : option string)
    (sessionAffinityReset : bool) (netConn : option Conn) (cliReq : option Request)
  : go (LoadBalancer R * option Conn * option Request * result string) :=
  match services lb !! svcPort with
  | None => Val (lb, netConn, cliReq, Err ErrMissingServiceEntry)
  | Some state =>
      if (length (endpoints state) =? 0)%nat
      then Val (lb, netConn, cliReq, Err ErrMissingEndpoints) else
      let sessionAffinityEnabled := isSessionAffinity (affinity state) in
      let! (netConn, req, picked) :=
        tryPickEndpoint lb k svcPort sessionAffinityEnabled (endpoints state) srcAddr netConn cliReq in
      match picked with
      | Some ep => Val (lb, netConn, req, Ok ep)
      | None =>
          if sessionAffinityEnabled then
            match srcAddr with
            | None => Panic "nil pointer dereference"
            | Some addr =>
                match SplitHostPort addr with
                | Err e => Val (lb, netConn, req,
                             Err ("malformed source address " +:+ quote addr +:+ ": " +:+ e))
                | Ok (ipaddr, _) =>
                    match (if sessionAffinityReset then None else live_affinity now state ipaddr) with
                    | Some a =>
                        let a := mkAffinityState (clientIP a) (endpoint a) now in
                        let state := set_affinityMap state (<[ipaddr := a]> (affinityMap (affinity state))) in
                        Val (set_services lb (<[svcPort := state]> (services lb)), netConn, req,
                             Ok (endpoint a))
                    | None =>
                        let! (state, ep) := take_next now state (Some ipaddr) in
                        Val (set_services lb (<[svcPort := state]> (services lb)), netConn, req, Ok ep)
                    end
                end
            end
          else
            let! (state, ep) := take_next now state None in
            Val (set_services lb (<[svcPort := state]> (services lb)), netConn, req, Ok ep)
      end
  end.

(** One attempt: what the other goroutines have done to the load balancer since
    the last one, the time, a random number, and what the network answers. *)
Record attempt : Type := mkAttempt {
  at_others : LoadBalancer R -> LoadBalancer R;
  at_now : Z;
  at_rand : Z;
  at_Dial : string -> string -> result OutConn;
  at_GetProxyStream : ProxyOptions -> result OutConn
}.

(** An endpoint that was chosen, or why there was none, and the state it was
    chosen in. *)
Record choice : Type := mkChoice { ch_state : LoadBalancer R; ch_endpoint : result string }.

Definition dialEndpoint lb (a : attempt) (protocol endpoint : string) : result OutConn :=
  match parseEndpoint endpoint with
  | None => Err ("invalid endpoint " +:+ endpoint)
  | Some (targetNode, targetPod, targetIP, targetPort) =>
      if String.eqb targetNode EmptyNodeName || String.eqb targetNode (lb_NodeName (Config lb))
      then at_Dial a protocol (JoinHostPort targetIP targetPort)
      else
        match ParseInt targetPort 32 with
        | None => Err ("invalid endpoint " +:+ endpoint)
        | Some port =>
            match at_GetProxyStream a (mkProxyOptions protocol targetNode targetIP port) with
            | Err e => Err ("get proxy stream from " +:+ targetNode +:+ " error: " +:+ e)
            | Ok c => Ok c
            end
        end
  end.

(** Send the request that was read from the client on to the endpoint. *)
Definition forward_request (out : OutConn) (req : option Request) : result OutConn :=
  match req with
  | None => Ok out
  | Some r =>
      match Request_Write r with
      | Err _ => Ok out
      | Ok reqBytes => OutConn_Write out reqBytes
      end
  end.

(** The loop over the dial timeouts, one attempt each; besides the outcome it
    returns the choices made.  The mutex is held while an endpoint is chosen,
    not while it is dialled nor in [time.Sleep]. *)
Fixpoint try_connect (attempts : list attempt) lb (service : ServicePortName) (srcAddr : option string)
    (protocol : string) (netConn : option Conn) (cliReq : option Request) (sessionAffinityReset : bool)
  : go (LoadBalancer R * option Conn * list choice * result OutConn) :=
  match attempts with
  | [] => Val (lb, netConn, [], Err "failed to connect to an endpoint")
  | a :: attempts' =>
      let found := at_others a lb in
      let! (lb, netConn, req, r) :=
        nextEndpointWithConn (at_now a) (at_rand a) found service srcAddr sessionAffinityReset netConn cliReq in
      match r with
      | Err e => Val (lb, netConn, [mkChoice found r], Err e)
      | Ok endpoint =>
          match dialEndpoint lb a protocol endpoint with
          | Err e =>
              if IsTooManyFDsError e then Panic ("Dial failed: " +:+ e) else
              let! (lb, netConn, choices, r') :=
                try_connect attempts' lb service srcAddr protocol netConn cliReq true in
              Val (lb, netConn, mkChoice found r :: choices, r')
          | Ok outConn => Val (lb, netConn, [mkChoice found r], forward_request outConn req)
          end
      end
  end.

Definition TryConnectEndpoints (attempts : list attempt) lb (service : ServicePortName)
    (srcAddr : option string) (protocol : string) (netConn : option Conn) (cliReq : option Request)
  : go (LoadBalancer R * option Conn * list choice * result OutConn) :=
  try_connect attempts lb service srcAddr protocol netConn cliReq false.

Definition NextEndpoint (svcPort : ServicePortName) (srcAddr : option string) (sessionAffinityReset : bool)
  : result string := Ok "".
End connections.
