(* ===== verification/LbInvariant.v ===== *)
(** * The load balancer's invariant

    What holds in every state the load balancer can get into: the round-robin
    index is in range, every remembered client is bound to a current endpoint,
    and the members of a consistent hash ring are the current endpoints.  The
    states are those reachable by the step relation [lb_step], whose steps are
    the operations of [LoadBalancer]. *)

From Stdlib Require Import ZArith Lia Ascii String.
From stdpp Require Import base list gmap sets sorting strings option relations.
From S2P Require Import Prelude GoStrings GoNet Config LbUtil LbPolicy LoadBalancer.

Local Open Scope Z_scope.

(** ** Deleting from a map in a loop *)

(** Deleting the entries of a map that satisfy a test, one by one. *)
Lemma fold_delete_lookup {V} (p : V -> bool) (l : list (string * V)) (m : gmap string V) j :
  fold_left (fun m '(k, a) => if p a then delete k m else m) l m !! j =
  if existsb (fun '(k, a) => String.eqb k j && p a) l then None else m !! j.
Proof.
  revert m. induction l as [|[k a] l IH]; intros m; simpl; [done|]. rewrite IH.
  destruct (existsb _ l); [by rewrite orb_true_r|]. rewrite orb_false_r.
  destruct (p a); [|by rewrite andb_false_r]. rewrite andb_true_r.
  destruct (String.eqb_spec k j) as [->|Hne]; [by rewrite lookup_delete_eq|by rewrite lookup_delete_ne].
Qed.

Section affinity_facts.
Context `{RangeOrder}.

Lemma range_existsb {V} (p : V -> bool) (m : gmap string V) j :
  existsb (fun '(k, a) => String.eqb k j && p a) (range m) =
  match m !! j with Some a => p a | None => false end.
Proof.
  apply eq_true_iff_eq. rewrite existsb_exists. split.
  - intros ([k a] & Hin & Hp). apply andb_true_iff in Hp as [Hk Hp]. apply String.eqb_eq in Hk as ->.
    apply list_elem_of_In, elem_of_range in Hin. by rewrite Hin.
  - destruct (m !! j) as [a|] eqn:E; [|done]. intros Hp. exists (j, a). split.
    + by apply list_elem_of_In, elem_of_range.
    + by rewrite String.eqb_refl.
Qed.

Lemma fold_delete_range {V} (p : V -> bool) (m : gmap string V) j :
  fold_left (fun m '(k, a) => if p a then delete k m else m) (range m) m !! j =
  match m !! j with Some a => if p a then None else Some a | None => None end.
Proof. rewrite fold_delete_lookup, range_existsb. by destruct (m !! j) as [a|]; [destruct (p a)|]. Qed.

(** Every entry is filed under the address of its client. *)
Definition keys_ok (m : gmap string affinityState) : Prop := forall k a, m !! k = Some a -> clientIP a = k.

Lemma removeSessionAffinityByEndpoint_lookup m ep j :
  keys_ok m ->
  removeSessionAffinityByEndpoint m ep !! j =
  match m !! j with Some a => if String.eqb (endpoint a) ep then None else Some a | None => None end.
Proof.
  intros Hk. unfold removeSessionAffinityByEndpoint.
  rewrite <- (fold_delete_range (fun a => String.eqb (endpoint a) ep) m j).
  assert (Hl : forall k a, (k, a) ∈ range m -> clientIP a = k)
    by (intros k a Hin; apply elem_of_range in Hin; by apply Hk).
  generalize m at 2 4. revert Hl. generalize (range m). intros l. induction l as [|[k a] l IH]; intros Hl m'; [done|].
  simpl. assert (clientIP a = k) as -> by (apply Hl, list_elem_of_here).
  assert (Hl' : forall k a, (k, a) ∈ l -> clientIP a = k)
    by (intros k' a' Hin; by apply Hl, list_elem_of_further).
  destruct (m' !! k) eqn:E; [by apply IH|]. rewrite IH by done.
  destruct (String.eqb (endpoint a) ep); [|done]. by rewrite delete_id.
Qed.

Lemma stale_affinity_lookup state newEndpoints j :
  keys_ok (affinityMap (affinity state)) ->
  affinityMap (affinity (stale_affinity state newEndpoints)) !! j =
  match affinityMap (affinity state) !! j with
  | Some a => if decide (endpoint a ∈ newEndpoints \/ endpoint a ∉ endpoints state) then Some a else None
  | None => None
  end.
Proof.
  unfold stale_affinity. simpl. generalize (affinityMap (affinity state)). generalize (endpoints state).
  intros eps. induction eps as [|e eps IH]; intros m Hk; simpl.
  - destruct (m !! j) as [a|]; [|done]. rewrite decide_True; [done|]. right. apply not_elem_of_nil.
  - case_bool_decide as He; rewrite elem_of_list_to_set in He.
    + assert (Hk' : keys_ok (removeSessionAffinityByEndpoint m e)).
      { intros k a. rewrite removeSessionAffinityByEndpoint_lookup by done.
        destruct (m !! k) as [b|] eqn:E; [|done]. destruct (String.eqb _ _); [done|].
        intros Hab. injection Hab as <-. by apply Hk. }
      rewrite IH, removeSessionAffinityByEndpoint_lookup by done.
      destruct (m !! j) as [a|]; [|done]. destruct (String.eqb_spec (endpoint a) e) as [->|Hne].
      * rewrite decide_False; [done|]. rewrite elem_of_cons. tauto.
      * apply decide_ext. rewrite elem_of_cons. tauto.
    + rewrite IH by done. destruct (m !! j) as [a|]; [|done]. apply decide_ext. rewrite elem_of_cons.
      destruct (decide (endpoint a = e)) as [->|]; tauto.
Qed.

Lemma cleanup_state_lookup now state j :
  affinityMap (affinity (cleanup_state now state)) !! j =
  match affinityMap (affinity state) !! j with
  | Some a => if ttlSeconds (affinity state) <=? seconds_since now (lastUsed a) then None else Some a
  | None => None
  end.
Proof.
  apply (fold_delete_range (fun a => ttlSeconds (affinity state) <=? seconds_since now (lastUsed a))).
Qed.
End affinity_facts.

(** ** The invariant *)

Section invariant.
Context {R : Type} `{HashRingSpec R} `{RangeOrder}.
Implicit Types lb : LoadBalancer R.

Record state_ok (s : balancerState) : Prop := {
  index_ok : 0 <= index s /\ (index s < zlen (endpoints s) \/ endpoints s = [] /\ index s = 0);
  affinity_keys : keys_ok (affinityMap (affinity s));
  affinity_current : forall k a, affinityMap (affinity s) !! k = Some a -> endpoint a ∈ endpoints s
}.

(** The ring of a consistent hash policy holds the endpoints. *)
Definition policy_ok (eps : list string) (p : option (Policy R)) : Prop :=
  match p with
  | Some (ConsistentHashPolicy ch) => forall x, x ∈ GetMembers (hashRing ch) <-> x ∈ eps
  | _ => True
  end.

Definition port_ok (s : option balancerState) (p : option (Policy R)) : Prop :=
  match s with
  | None => True
  | Some s => state_ok s /\ (endpoints s <> [] -> policy_ok (endpoints s) p)
  end.

Definition lb_ok lb : Prop := forall sp, port_ok (services lb !! sp) (policyMap lb !! sp).

Lemma lb_ok_same lb lb' :
  services lb' = services lb -> policyMap lb' = policyMap lb -> lb_ok lb -> lb_ok lb'.
Proof. intros Hs Hp Hok sp. rewrite Hs, Hp. apply Hok. Qed.

Lemma lb_ok_state lb sp s :
  lb_ok lb -> port_ok (Some s) (policyMap lb !! sp) -> lb_ok (set_services lb (<[sp := s]> (services lb))).
Proof.
  intros Hok Hs sp'. simpl. rewrite lookup_insert. case_decide as Hd; [by subst|apply Hok].
Qed.

Lemma lb_ok_policy lb sp p :
  lb_ok lb -> (forall s, services lb !! sp = Some s -> endpoints s <> [] -> policy_ok (endpoints s) (Some p)) ->
  lb_ok (set_policyMap lb (<[sp := p]> (policyMap lb))).
Proof.
  intros Hok Hp sp'. simpl. rewrite lookup_insert. case_decide as Hd; [subst sp'|apply Hok].
  specialize (Hok sp). destruct (services lb !! sp) as [s|] eqn:E; [|done].
  destruct Hok as [Hs _]. split; [done|]. by apply Hp.
Qed.

Lemma lb_ok_drop_policy lb sp : lb_ok lb -> lb_ok (set_policyMap lb (delete sp (policyMap lb))).
Proof.
  intros Hok sp'. simpl. rewrite lookup_delete. case_decide as Hd; [|apply Hok].
  specialize (Hok sp'). destruct (services lb !! sp'); [|done]. destruct Hok. done.
Qed.

Lemma lb_ok_New config : lb_ok (New config).
Proof. intros sp. simpl. by rewrite lookup_empty. Qed.

Lemma fresh_state_ok t ttl : state_ok (mkBalancerState [] 0 (newAffinityPolicy t ttl)).
Proof. split; simpl; [split; [lia|by right]|intros k a Ha|intros k a Ha]; by rewrite lookup_empty in Ha. Qed.

Lemma newServiceInternal_ok lb sp t ttl lb' s :
  newServiceInternal lb sp t ttl = (lb', s) -> lb_ok lb ->
  lb_ok lb' /\ services lb' = <[sp := s]> (services lb) /\ policyMap lb' = policyMap lb /\
  match services lb !! sp with
  | Some s0 => endpoints s = endpoints s0 /\ index s = index s0 /\
               affinityMap (affinity s) = affinityMap (affinity s0)
  | None => endpoints s = [] /\ affinityMap (affinity s) = ∅
  end.
Proof.
  unfold newServiceInternal. intros Hn Hok. pose proof (Hok sp) as Hsp.
  destruct (services lb !! sp) as [s0|]; injection Hn as <- <-.
  - destruct (String.eqb t ""); (split; [|done]); apply lb_ok_state; try done.
    destruct Hsp as [Hs Hp]. split; [|done]. by destruct Hs.
  - split; [|done]. apply lb_ok_state; [done|]. split; [apply fresh_state_ok|done].
Qed.

Lemma CleanupStaleStickySessions_ok now lb sp : lb_ok lb -> lb_ok (CleanupStaleStickySessions now lb sp).
Proof.
  intros Hok. unfold CleanupStaleStickySessions. pose proof (Hok sp) as Hsp.
  destruct (services lb !! sp) as [s|]; [|done]. apply lb_ok_state; [done|].
  destruct Hsp as [[Hi Hk Ha] Hp]. split; [|done].
  split; [done| |]; intros k a; rewrite cleanup_state_lookup;
    destruct (affinityMap (affinity s) !! k) as [b|] eqn:E; try done;
    destruct (_ <=? _); try done; intros Hb; injection Hb as <-; [by apply Hk|by eapply Ha].
Qed.

(** *** Services *)

Context (ShouldSkipService : Service -> bool).
Context (ParseIPSloppy : string -> list Z).
Context (LoadBalancerStatusEqual : list (string * string) -> list (string * string) -> bool).

Lemma NewService_ok lb sp t ttl : lb_ok lb -> lb_ok (NewService lb sp t ttl).
Proof.
  intros Hok. unfold NewService. destruct (newServiceInternal lb sp t ttl) as [lb' s] eqn:E.
  by apply newServiceInternal_ok in E as [? _].
Qed.

Lemma DeleteService_ok lb sp : lb_ok lb -> lb_ok (DeleteService lb sp).
Proof.
  intros Hok sp'. simpl. rewrite lookup_delete. case_decide; [done|apply Hok].
Qed.

Lemma merge_port_ok service acc servicePort acc' :
  merge_port ParseIPSloppy LoadBalancerStatusEqual service acc servicePort = Val acc' ->
  lb_ok acc.1 -> lb_ok acc'.1.
Proof.
  destruct acc as [lb ports]. unfold merge_port.
  destruct (match serviceMap lb !! _ with Some _ => _ | None => _ end).
  { intros Hm Hok. by injection Hm as <-. }
  intros Hm Hok. apply go_bind_Val_inv in Hm as (sticky & _ & Hm). injection Hm as <-. simpl.
  eapply lb_ok_same; [done|done|]. by apply NewService_ok, (lb_ok_same lb).
Qed.

Lemma mergeService_ok lb service lb' ports :
  mergeService ShouldSkipService ParseIPSloppy LoadBalancerStatusEqual lb service = Val (lb', ports) ->
  lb_ok lb -> lb_ok lb'.
Proof.
  unfold mergeService. intros Hm Hok. destruct service as [service|]; [|by injection Hm as <- _].
  destruct (ShouldSkipService service); [by injection Hm as <- _|].
  apply go_bind_Val_inv in Hm as ([lb1 ports1] & Hf & Hm). injection Hm as <- _.
  refine (go_fold_inv (fun acc => lb_ok acc.1) _ _ (lb, ∅) (lb1, ports1) _ Hok Hf).
  intros acc sp acc' _ Hacc Hstep. by eapply merge_port_ok.
Qed.

Lemma unmergeService_ok lb service ports :
  lb_ok lb -> lb_ok (unmergeService ShouldSkipService lb service ports).
Proof.
  intros Hok. unfold unmergeService. destruct service as [service|]; [|done].
  destruct (ShouldSkipService service); [done|]. apply fold_left_inv; [|done].
  intros lb1 sp _ Hok1. unfold unmerge_port. case_bool_decide; [done|].
  destruct (serviceMap lb1 !! _); [|done]. by apply DeleteService_ok, (lb_ok_same lb1).
Qed.

Lemma process_changes_ok now lb changes lb' :
  process_changes ShouldSkipService ParseIPSloppy LoadBalancerStatusEqual now lb changes = Val lb' ->
  lb_ok lb -> lb_ok lb'.
Proof.
  unfold process_changes. intros Hs Hok. apply go_bind_Val_inv in Hs as (lb1 & Hf & [= <-]).
  assert (Hok1 : lb_ok lb1).
  { refine (go_fold_inv lb_ok _ _ lb _ _ _ Hf); [|done].
    intros lb2 c lb3 _ Hok2 Hc. unfold apply_change in Hc.
    apply go_bind_Val_inv in Hc as ([lb4 ports] & Hm & Hc). injection Hc as <-.
    apply unmergeService_ok. by eapply mergeService_ok. }
  unfold cleanupStaleStickySessions. apply fold_left_inv; [|done]. intros lb2 sp _. apply CleanupStaleStickySessions_ok.
Qed.

Lemma serviceChange_ok lb p c lb' : serviceChange lb p c = Val lb' -> lb_ok lb -> lb_ok lb'.
Proof.
  unfold serviceChange. intros Hs Hok. apply go_bind_Val_inv in Hs as (n & _ & Hs).
  destruct (decide _); injection Hs as <-; by apply (lb_ok_same lb).
Qed.

(** *** Endpoints *)

Context (ShuffleStrings : ServicePortName -> list string -> list string).
Hypothesis shuffle_perm : forall sp l, ShuffleStrings sp l ≡ₚ l.

Lemma Policy_Sync_policy_ok p eps p' :
  NoDup eps -> Policy_Sync p eps = Val p' -> policy_ok eps (Some p').
Proof.
  intros Hnd Hs. destruct p as [| |ch]; [by injection Hs as <-|by injection Hs as <-|].
  destruct (Policy_Sync_members ch eps p' Hnd Hs) as (ch' & -> & Hm). exact Hm.
Qed.

(** A port whose policy is synced with the endpoints just set. *)
Lemma sync_policy_ok lb sp s eps lb' :
  sync_policy (set_services lb (<[sp := s]> (services lb))) sp eps = Val lb' ->
  (forall sp', sp' <> sp -> port_ok (services lb !! sp') (policyMap lb !! sp')) ->
  state_ok s -> NoDup eps -> (endpoints s <> [] -> endpoints s ≡ₚ eps) ->
  lb_ok lb' /\ services lb' = <[sp := s]> (services lb).
Proof.
  unfold sync_policy. simpl. intros Hs Hoth Hst Hnd Hperm.
  destruct (policyMap lb !! sp) as [p|] eqn:E.
  - apply go_bind_Val_inv in Hs as (p' & Hp & Hs). injection Hs as <-. split; [|done].
    intros sp'. simpl. rewrite !lookup_insert. case_decide as Hd; [|by apply Hoth].
    split; [done|]. intros Hne. specialize (Hperm Hne).
    pose proof (Policy_Sync_policy_ok p eps p' Hnd Hp) as Hpo.
    destruct p' as [| |ch]; [done|done|]. intros x. rewrite (Hpo x). by rewrite Hperm.
  - injection Hs as <-. split; [|done]. intros sp'. simpl. rewrite lookup_insert.
    case_decide as Hd; [|by apply Hoth]. split; [done|]. subst sp'. by rewrite E.
Qed.

(** Every remembered client of the port is bound to one of [eps]. *)
Definition affinity_within lb sp (eps : list string) : Prop :=
  forall s, services lb !! sp = Some s ->
  forall k a, affinityMap (affinity s) !! k = Some a -> endpoint a ∈ eps.

Lemma install_endpoints_ok lb sp eps lb' :
  install_endpoints ShuffleStrings lb sp eps = Val lb' ->
  lb_ok lb -> NoDup eps -> affinity_within lb sp eps ->
  lb_ok lb' /\ forall sp', sp' <> sp -> services lb' !! sp' = services lb !! sp'.
Proof.
  unfold install_endpoints. intros Hi Hok Hnd Haff.
  destruct (newServiceInternal lb sp "" 0) as [lb1 s] eqn:E.
  apply newServiceInternal_ok in E as (Hok1 & Hserv & Hpol & Hs); [|done].
  assert (Hks : state_ok s).
  { pose proof (Hok1 sp) as Hk. rewrite Hserv, lookup_insert_eq in Hk. apply Hk. }
  assert (Hst : state_ok (set_endpoints s (ShuffleStrings sp eps) 0)).
  { split; simpl; [|apply Hks|].
    - split; [lia|]. destruct (ShuffleStrings sp eps) as [|x l]; [by right|]. left. rewrite zlen_cons.
      pose proof (zlen_nonneg l). lia.
    - intros k a Ha. rewrite shuffle_perm.
      destruct (services lb !! sp) as [s0|] eqn:E0.
      + destruct Hs as (_ & _ & Hm). rewrite Hm in Ha. by eapply Haff.
      + destruct Hs as [_ Hm]. rewrite Hm, lookup_empty in Ha. done. }
  destruct (sync_policy_ok _ _ _ _ _ Hi) as [Hok' Hserv'].
  - intros sp' _. apply Hok1.
  - done.
  - done.
  - intros _. simpl. apply shuffle_perm.
  - split; [done|]. intros sp' Hne. by rewrite Hserv', Hserv, !lookup_insert_ne by done.
Qed.

(** No address is listed twice for a port. *)
Definition distinct_endpoints (e : Endpoints) : Prop := forall p, NoDup (endpoints_of e p).

Lemma range_build_NoDup e p eps :
  distinct_endpoints e -> (p, eps) ∈ range (buildPortsToEndpointsMap e) -> NoDup eps.
Proof.
  intros Hd Hin. apply elem_of_range in Hin. rewrite buildPortsToEndpointsMap_denotes in Hin.
  specialize (Hd p). destruct (endpoints_of e p); by simplify_eq.
Qed.

Lemma svc_port_inj n p q : svc_port n p = svc_port n q -> p = q.
Proof. by intros [=]. Qed.

Lemma add_port_ok n lb p eps lb' :
  add_port ShuffleStrings n lb (p, eps) = Val lb' ->
  lb_ok lb -> NoDup eps -> affinity_within lb (svc_port n p) eps ->
  lb_ok lb' /\ forall sp', sp' <> svc_port n p -> services lb' !! sp' = services lb !! sp'.
Proof.
  unfold add_port. intros Ha Hok Hnd Haff. destruct (services lb !! svc_port n p).
  - destruct (0 <? zlen eps); [by eapply install_endpoints_ok|by injection Ha as <-].
  - by eapply install_endpoints_ok.
Qed.

Lemma add_ports_ok n l lb lb' :
  go_fold (add_port ShuffleStrings n) lb l = Val lb' ->
  lb_ok lb -> NoDup l.*1 -> Forall (fun e => NoDup e.2 /\ affinity_within lb (svc_port n e.1) e.2) l ->
  lb_ok lb'.
Proof.
  revert lb. induction l as [|[p eps] l IH]; intros lb Hf Hok Hnd Hall; simpl in Hf.
  - by injection Hf as <-.
  - apply go_bind_Val_inv in Hf as (lb1 & Ha & Hf). inversion_clear Hall as [|? ? [Hne Haff] Hall'].
    simpl in Hnd. apply NoDup_cons in Hnd as [Hp Hnd].
    destruct (add_port_ok _ _ _ _ _ Ha Hok Hne Haff) as [Hok1 Hframe].
    apply (IH lb1 Hf Hok1 Hnd). rewrite Forall_forall in Hall'. apply Forall_forall.
    intros [q eps'] Hin. destruct (Hall' _ Hin) as [Hnd' Haff']. split; [done|]. simpl in *.
    unfold affinity_within in *. rewrite Hframe; [done|]. intros Heq. apply svc_port_inj in Heq as ->.
    apply Hp. rewrite list_elem_of_fmap. exists (p, eps'). split; [done|]. done.
Qed.

(** [OnEndpointsAdd] for an object none of whose ports has endpoints yet, as
    the informer announces it. *)
Definition no_endpoints_yet lb (e : Endpoints) : Prop :=
  forall p s, services lb !! svc_port (mkNN (ep_Namespace e) (ep_Name e)) p = Some s -> endpoints s = [].

Lemma OnEndpointsAdd_ok lb e lb' :
  OnEndpointsAdd ShuffleStrings lb e = Val lb' ->
  lb_ok lb -> distinct_endpoints e -> no_endpoints_yet lb e -> lb_ok lb'.
Proof.
  unfold OnEndpointsAdd. intros Ha Hok Hd Hno. eapply add_ports_ok; [exact Ha|done|apply NoDup_range_keys|].
  apply Forall_forall. intros [p eps] Hin. split; [by eapply range_build_NoDup|].
  intros s Hs k a Haf. simpl in Hs. specialize (Hno _ _ Hs).
  specialize (Hok (svc_port (mkNN (ep_Namespace e) (ep_Name e)) p)). rewrite Hs in Hok.
  destruct Hok as [[_ _ Hcur] _]. apply Hcur in Haf. rewrite Hno in Haf. by apply not_elem_of_nil in Haf.
Qed.

Lemma removeStaleAffinity_ok lb sp eps :
  lb_ok lb -> lb_ok (removeStaleAffinity lb sp eps) /\ affinity_within (removeStaleAffinity lb sp eps) sp eps.
Proof.
  intros Hok. unfold removeStaleAffinity, affinity_within. pose proof (Hok sp) as Hsp.
  destruct (services lb !! sp) as [s|] eqn:E.
  - destruct Hsp as [[Hi Hk Ha] Hp]. split.
    + apply lb_ok_state; [done|]. split; [|done]. split; [done| |]; intros k a;
        rewrite stale_affinity_lookup by done; destruct (affinityMap (affinity s) !! k) eqn:Ek; try done;
        case_decide; try done; intros Heq; injection Heq as <-; [by apply Hk|by eapply Ha].
    + simpl. intros s' Hs' k a Hka. rewrite lookup_insert_eq in Hs'. injection Hs' as <-.
      rewrite stale_affinity_lookup in Hka by done.
      destruct (affinityMap (affinity s) !! k) as [b|] eqn:Ek; [|done].
      case_decide as Hd; [|done]. injection Hka as <-. destruct Hd as [|Hn]; [done|]. by apply Ha in Ek.
  - split; [done|]. intros s' Hs'. congruence.
Qed.

Lemma update_port_ok n lb e lb' :
  update_port ShuffleStrings n lb e = Val lb' -> lb_ok lb -> NoDup e.2 -> lb_ok lb'.
Proof.
  destruct e as [p eps]. simpl. intros Hu Hok Hnd.
  assert (Hinst : forall eps' lb', NoDup eps' ->
    install_endpoints ShuffleStrings (removeStaleAffinity lb (svc_port n p) eps') (svc_port n p) eps' = Val lb' ->
    lb_ok lb').
  { intros eps' lb1 Hnd' Hi. destruct (removeStaleAffinity_ok lb (svc_port n p) eps' Hok).
    by destruct (install_endpoints_ok _ _ _ _ Hi). }
  destruct (services lb !! svc_port n p) as [s|]; [|by apply (Hinst eps)].
  destruct (negb _); [by apply (Hinst eps)|].
  unfold slicesEquiv in Hu. destruct (negb _); [by apply (Hinst eps)|].
  case_bool_decide; [by injection Hu as <-|]. apply (Hinst (sort_Strings eps)); [|done].
  unfold sort_Strings. by rewrite merge_sort_Permutation.
Qed.

Lemma drop_port_ok lb sp lb' : drop_port lb sp = Val lb' -> lb_ok lb -> lb_ok lb'.
Proof.
  unfold drop_port, resetService. intros Hd Hok. destruct (services lb !! sp) as [s|] eqn:E.
  - refine (proj1 (sync_policy_ok lb sp _ [] lb' Hd (fun sp' _ => Hok sp') _ _ _)).
    + split; simpl; [split; [lia|by right]|intros k a Ha|intros k a Ha]; by rewrite lookup_empty in Ha.
    + by apply NoDup_nil.
    + done.
  - unfold sync_policy in Hd. destruct (policyMap lb !! sp) as [pol|]; [|by injection Hd as <-].
    apply go_bind_Val_inv in Hd as (p' & _ & Hd). injection Hd as <-. apply lb_ok_policy; [done|]. congruence.
Qed.

Lemma OnEndpointsUpdate_ok lb o e lb' :
  OnEndpointsUpdate ShuffleStrings lb o e = Val lb' -> lb_ok lb -> distinct_endpoints e -> lb_ok lb'.
Proof.
  unfold OnEndpointsUpdate. intros Hu Hok Hd. apply go_bind_Val_inv in Hu as (lb1 & Hf & Hu).
  refine (go_fold_inv lb_ok _ _ lb1 lb' _ _ Hu).
  - intros lb2 p lb3 _ Hok2 Hp. destruct (_ !! p); [by injection Hp as <-|by eapply drop_port_ok].
  - refine (go_fold_inv lb_ok _ _ lb lb1 _ Hok Hf).
    intros lb2 [p eps] lb3 Hin Hok2 Hp. eapply update_port_ok; [exact Hp|done|by eapply range_build_NoDup].
Qed.

Lemma OnEndpointsDelete_ok lb e lb' : OnEndpointsDelete lb e = Val lb' -> lb_ok lb -> lb_ok lb'.
Proof.
  unfold OnEndpointsDelete. intros Hf Hok. refine (go_fold_inv lb_ok _ _ lb lb' _ Hok Hf).
  intros lb2 p lb3 _ Hok2 Hp. by eapply drop_port_ok.
Qed.

(** *** Destination rules *)

Lemma setLoadBalancerPolicy_ok lb dr name sp s lb' :
  setLoadBalancerPolicy lb dr name sp (endpoints s) = Val lb' ->
  lb_ok lb -> services lb !! sp = Some s -> lb_ok lb' /\ services lb' = services lb.
Proof.
  unfold setLoadBalancerPolicy. intros Hs Hok Hsp.
  destruct (String.eqb name RoundRobin); [injection Hs as <-; split; [by apply lb_ok_policy|done]|].
  destruct (String.eqb name Random); [injection Hs as <-; split; [by apply lb_ok_policy|done]|].
  destruct (String.eqb name ConsistentHash); [|by injection Hs as <-].
  apply go_bind_Val_inv in Hs as (p & Hp & Hs). injection Hs as <-. split; [|done].
  apply lb_ok_policy; [done|]. intros s' Hs' _. rewrite Hsp in Hs'. injection Hs' as <-.
  unfold NewConsistentHashPolicy in Hp. apply go_bind_Val_inv in Hp as (ring & Hr & Hp). injection Hp as <-.
  intros x. by apply newHashRing_members with (config := lb_ConsistentHash (Config lb)).
Qed.

(** A loop over the services that changes policies only. *)
Lemma policy_loop_ok {X} (step : LoadBalancer R -> X -> go (LoadBalancer R)) xs lb lb' :
  go_fold step lb xs = Val lb' -> lb_ok lb ->
  (forall lb1 x lb2, x ∈ xs -> lb_ok lb1 -> services lb1 = services lb -> step lb1 x = Val lb2 ->
     lb_ok lb2 /\ services lb2 = services lb) ->
  lb_ok lb'.
Proof.
  intros Hf Hok Hstep.
  refine (proj1 (go_fold_inv (fun lb1 => lb_ok lb1 /\ services lb1 = services lb) _ _ lb lb' _ _ Hf)); [|done].
  intros lb1 x lb2 Hx [Hok1 Hs1] Hst. by eapply Hstep.
Qed.

Lemma OnDestinationRuleAdd_ok lb dr lb' : OnDestinationRuleAdd lb dr = Val lb' -> lb_ok lb -> lb_ok lb'.
Proof.
  unfold OnDestinationRuleAdd. intros Hf Hok. refine (policy_loop_ok _ _ _ _ Hf Hok _).
  intros lb1 [sp s] lb2 Hin Hok1 Hs1 Hst. apply elem_of_range in Hin.
  destruct (negb _); [by injection Hst as <-|]. rewrite <- Hs1 in Hin |- *.
  by eapply setLoadBalancerPolicy_ok.
Qed.

Lemma update_rule_port_ok dr lb sp s lb' :
  update_rule_port dr lb (sp, s) = Val lb' -> lb_ok lb -> services lb !! sp = Some s ->
  lb_ok lb' /\ services lb' = services lb.
Proof.
  unfold update_rule_port. intros Hst Hok Hin. destruct (negb _); [by injection Hst as <-|].
  apply go_bind_Val_inv in Hst as (lb3 & H3 & Hst). apply go_bind_Val_inv in Hst as (lb4 & H4 & Hst).
  assert (Hok3 : lb_ok lb3 /\ services lb3 = services lb).
  { destruct (policyMap lb !! sp); [|by injection H3 as <-].
    destruct (negb _); [|by injection H3 as <-].
    apply go_bind_Val_inv in H3 as (? & _ & H3). injection H3 as <-. split; [by apply lb_ok_drop_policy|done]. }
  destruct Hok3 as [Hok3 Hs3].
  destruct (setLoadBalancerPolicy_ok _ _ _ _ _ _ H4 Hok3) as [Hok4 Hs4]; [by rewrite Hs3|].
  destruct (policyMap lb4 !! sp) as [p|] eqn:Ep; [|done]. injection Hst as <-. simpl.
  split; [|congruence]. apply lb_ok_policy; [done|]. intros s' Hs' Hne.
  pose proof (Hok4 sp) as Hpo. rewrite Hs', Ep in Hpo. destruct Hpo as [_ Hpo]. specialize (Hpo Hne).
  by destruct p.
Qed.

Lemma OnDestinationRuleUpdate_ok lb o dr lb' : OnDestinationRuleUpdate lb o dr = Val lb' -> lb_ok lb -> lb_ok lb'.
Proof.
  unfold OnDestinationRuleUpdate. intros Hf Hok. refine (policy_loop_ok _ _ _ _ Hf Hok _).
  intros lb1 [sp s] lb2 Hin Hok1 Hs1 Hst. apply elem_of_range in Hin. rewrite <- Hs1 in Hin |- *.
  by eapply update_rule_port_ok.
Qed.

Lemma OnDestinationRuleDelete_ok lb dr lb' : OnDestinationRuleDelete lb dr = Val lb' -> lb_ok lb -> lb_ok lb'.
Proof.
  unfold OnDestinationRuleDelete. intros Hf Hok. refine (policy_loop_ok _ _ _ _ Hf Hok _).
  intros lb1 sp lb2 _ Hok1 Hs1 Hst. unfold delete_rule_port in Hst.
  destruct (negb _); [by injection Hst as <-|]. destruct (policyMap lb1 !! sp); [|done].
  apply go_bind_Val_inv in Hst as (? & _ & Hst). injection Hst as <-. split; [by apply lb_ok_drop_policy|done].
Qed.

(** *** Connections *)

Context {Request Conn : Type}.
Context (Header_Get : Request -> string -> string).
Context (ReadRequest : Conn -> Conn * result Request).
Context (RemoteAddr : Conn -> string).

Lemma Policy_Pick_member p k eps src conn req conn' req' e :
  Policy_Pick Header_Get ReadRequest RemoteAddr p k eps src conn req = Val (conn', req', Ok e) ->
  policy_ok eps (Some p) -> e ∈ eps.
Proof.
  destruct p as [| |ch]; simpl; [done| |].
  - destruct (length eps =? 0)%nat; [done|]. intros Hp _.
    apply go_bind_Val_inv in Hp as (x & Hx & Hp). injection Hp as _ _ ->.
    unfold go_index in Hx. destruct (0 <=? _); [|done].
    destruct (eps !! _) eqn:E; [|done]. injection Hx as ->. by eapply list_elem_of_lookup_2.
  - intros Hp Hm. apply go_bind_Val_inv in Hp as ([[c r] kv] & _ & Hp). destruct kv as [kv|]; [|done].
    apply go_bind_Val_inv in Hp as (m & Hl & Hp). destruct m as [m|]; [|done]. injection Hp as _ _ <-.
    apply Hm. by eapply locate_member.
Qed.

Lemma take_next_ok now s client s' ep :
  take_next now s client = Val (s', ep) -> state_ok s ->
  state_ok s' /\ endpoints s' = endpoints s /\ ep ∈ endpoints s.
Proof.
  unfold take_next. intros Ht [[Hi0 Hi] Hk Ha]. apply go_bind_Val_inv in Ht as (e & He & Ht).
  destruct Hi as [Hi|[Hnil _]]; [|rewrite Hnil, go_index_ge in He by (change (zlen []) with 0; lia); done].
  destruct (go_index_lt (endpoints s) (index s)) as (x & Hx & Hlk); [lia|].
  rewrite Hx in He. injection He as ->.
  assert (Hin : e ∈ endpoints s) by (by eapply list_elem_of_lookup_2).
  pose proof (Z.mod_pos_bound (index s + 1) (zlen (endpoints s))).
  destruct client as [ip|]; injection Ht as <- <-; (split; [|done]); (split; simpl; [split; [lia|left; lia]| |]).
  - intros k a. rewrite lookup_insert. case_decide as Hd; [|apply Hk]. intros Heq. by injection Heq as <-.
  - intros k a. rewrite lookup_insert. case_decide as Hd; [|apply Ha]. intros Heq. by injection Heq as <-.
  - apply Hk.
  - apply Ha.
Qed.

Lemma touch_affinity_ok now s ip a :
  state_ok s -> affinityMap (affinity s) !! ip = Some a ->
  state_ok (set_affinityMap s
    (<[ip := mkAffinityState (clientIP a) (endpoint a) now]> (affinityMap (affinity s)))).
Proof.
  intros [Hi Hk Ha] Hip. split; simpl; [done| |]; intros j x; rewrite lookup_insert; case_decide as Hd.
  - intros Heq. injection Heq as <-. subst j. exact (Hk _ _ Hip).
  - apply Hk.
  - intros Heq. injection Heq as <-. exact (Ha _ _ Hip).
  - apply Ha.
Qed.

Lemma nextEndpointWithConn_ok now k lb sp src reset conn req lb' conn' req' r :
  nextEndpointWithConn Header_Get ReadRequest RemoteAddr now k lb sp src reset conn req =
    Val (lb', conn', req', r) ->
  lb_ok lb ->
  lb_ok lb' /\ (forall ep, r = Ok ep -> exists s, services lb !! sp = Some s /\ ep ∈ endpoints s).
Proof.
  unfold nextEndpointWithConn. intros Hn Hok. pose proof (Hok sp) as Hsp.
  destruct (services lb !! sp) as [s|] eqn:Es; [|by injection Hn as <- _ _ <-].
  destruct Hsp as [Hst Hpol].
  destruct (length (endpoints s) =? 0)%nat eqn:El; [by injection Hn as <- _ _ <-|].
  assert (Hne : endpoints s <> []) by (by destruct (endpoints s)). specialize (Hpol Hne).
  apply go_bind_Val_inv in Hn as ([[c q] picked] & Hpick & Hn).
  assert (Hset : forall s', state_ok s' -> endpoints s' = endpoints s ->
    lb_ok (set_services lb (<[sp := s']> (services lb)))).
  { intros s' Hs' He. apply lb_ok_state; [done|]. split; [done|]. by rewrite He. }
  destruct picked as [ep|].
  - injection Hn as <- _ _ <-. split; [done|]. intros ep' Heq. injection Heq as <-. exists s. split; [done|].
    unfold tryPickEndpoint in Hpick. destruct (policyMap lb !! sp) as [p|]; [|done].
    destruct (isSessionAffinity _); [done|].
    apply go_bind_Val_inv in Hpick as ([[c1 q1] r1] & Hp & Hpick). destruct r1 as [e1|]; [|done].
    injection Hpick as _ _ <-. by eapply Policy_Pick_member.
  - destruct (isSessionAffinity (affinity s)).
    + destruct src as [addr|]; [|done]. destruct (SplitHostPort addr) as [[ip port]|]; [|by injection Hn as <- _ _ <-].
      destruct (if reset then None else live_affinity now s ip) as [a|] eqn:Ea.
      * injection Hn as <- _ _ <-. destruct reset; [done|]. unfold live_affinity in Ea.
        destruct (affinityMap (affinity s) !! ip) as [b|] eqn:Eb; [|done].
        destruct (_ <? _); [|done]. injection Ea as ->. split; [by apply Hset; [apply touch_affinity_ok|]|].
        intros ep Heq. injection Heq as <-. exists s. split; [done|]. by eapply (affinity_current s Hst).
      * apply go_bind_Val_inv in Hn as ([s' ep] & Ht & Hn). injection Hn as <- _ _ <-.
        destruct (take_next_ok _ _ _ _ _ Ht Hst) as (Hs' & He & Hin). split; [by apply Hset|].
        intros ep' Heq. injection Heq as <-. by exists s.
    + apply go_bind_Val_inv in Hn as ([s' ep] & Ht & Hn). injection Hn as <- _ _ <-.
      destruct (take_next_ok _ _ _ _ _ Ht Hst) as (Hs' & He & Hin). split; [by apply Hset|].
      intros ep' Heq. injection Heq as <-. by exists s.
Qed.
End invariant.

(** ** Reachable states *)

Section reachable.
Context {R : Type} `{HashRingSpec R}.
Context (ShouldSkipService : Service -> bool).
Context (ParseIPSloppy : string -> list Z).
Context (LoadBalancerStatusEqual : list (string * string) -> list (string * string) -> bool).
Context {Request Conn : Type}.
Context (Header_Get : Request -> string -> string).
Context (ReadRequest : Conn -> Conn * result Request).
Context (RemoteAddr : Conn -> string).

(** One operation of the load balancer.  The iteration order of maps, the
    shuffling of endpoints, the clock and the random numbers are chosen anew at
    every step; the changes that a sync took may be processed at any time, so
    those of [step_process] are any; an object of the endpoints informer lists no address twice for
    a port, and it is added before its ports have endpoints. *)
Inductive lb_step (lb : LoadBalancer R) : LoadBalancer R -> Prop :=
| step_service_change p c lb' :
    serviceChange lb p c = Val lb' -> lb_step lb lb'
| step_service_synced : lb_step lb (OnServiceSynced lb)
| step_endpoints_synced : lb_step lb (OnEndpointsSynced lb)
| step_take : initialized lb = true -> lb_step lb (take_changes lb).1
| step_process (ro : RangeOrder) now changes lb' :
    process_changes ShouldSkipService ParseIPSloppy LoadBalancerStatusEqual now lb changes = Val lb' ->
    lb_step lb lb'
| step_new_service sp t ttl : lb_step lb (NewService lb sp t ttl)
| step_delete_service sp : lb_step lb (DeleteService lb sp)
| step_endpoints_add (ro : RangeOrder) shuffle e lb' :
    (forall sp l, shuffle sp l ≡ₚ l) -> distinct_endpoints e -> no_endpoints_yet lb e ->
    OnEndpointsAdd shuffle lb e = Val lb' -> lb_step lb lb'
| step_endpoints_update (ro : RangeOrder) shuffle o e lb' :
    (forall sp l, shuffle sp l ≡ₚ l) -> distinct_endpoints e ->
    OnEndpointsUpdate shuffle lb o e = Val lb' -> lb_step lb lb'
| step_endpoints_delete (ro : RangeOrder) e lb' :
    OnEndpointsDelete lb e = Val lb' -> lb_step lb lb'
| step_rule_add (ro : RangeOrder) dr lb' :
    OnDestinationRuleAdd lb dr = Val lb' -> lb_step lb lb'
| step_rule_update (ro : RangeOrder) o dr lb' :
    OnDestinationRuleUpdate lb o dr = Val lb' -> lb_step lb lb'
| step_rule_delete (ro : RangeOrder) dr lb' :
    OnDestinationRuleDelete lb dr = Val lb' -> lb_step lb lb'
| step_next now k sp src reset conn req lb' conn' req' r :
    nextEndpointWithConn Header_Get ReadRequest RemoteAddr now k lb sp src reset conn req =
      Val (lb', conn', req', r) -> lb_step lb lb'.

Lemma lb_step_ok lb lb' : lb_step lb lb' -> lb_ok lb -> lb_ok lb'.
Proof.
  destruct 1; intros Hok.
  - by eapply serviceChange_ok.
  - by apply (lb_ok_same lb).
  - by apply (lb_ok_same lb).
  - by apply (lb_ok_same lb).
  - by eapply process_changes_ok.
  - by apply NewService_ok.
  - by apply DeleteService_ok.
  - by eapply OnEndpointsAdd_ok.
  - by eapply OnEndpointsUpdate_ok.
  - by eapply OnEndpointsDelete_ok.
  - by eapply OnDestinationRuleAdd_ok.
  - by eapply OnDestinationRuleUpdate_ok.
  - by eapply OnDestinationRuleDelete_ok.
  - by eapply nextEndpointWithConn_ok.
Qed.

Definition reachable (config : LbConfig) (lb : LoadBalancer R) : Prop := rtc lb_step (New config) lb.

Lemma reachable_ok config lb : reachable config lb -> lb_ok lb.
Proof.
  intros Hr. unfold reachable in Hr. assert (Hok : lb_ok (New config)) by apply lb_ok_New.
  revert Hr Hok. generalize (New (R := R) config) as lb0. intros lb0 Hr.
  induction Hr as [lb1|lb1 lb2 lb3 Hs Hr IH]; intros Hok; [done|]. apply IH. by eapply lb_step_ok.
Qed.

(** C9. In every state reached by any sequence of service, endpoints and
    destination rule events, syncs and connections: the round-robin index of
    every service port is in range (below the number of its endpoints if it has
    any), every remembered client is filed under its own address and bound to a
    current endpoint, and for a service port that has endpoints the members of
    its consistent hash ring are exactly the current endpoints.  Nothing is said
    of the ring of a service port without endpoints: see [ring_outlives_port]. *)
Theorem reachable_invariant config lb sp s :
  reachable config lb -> services lb !! sp = Some s ->
  (0 <= index s /\ (endpoints s <> [] -> index s < zlen (endpoints s))) /\
  (forall client a, affinityMap (affinity s) !! client = Some a ->
     clientIP a = client /\ endpoint a ∈ endpoints s) /\
  (forall ch, endpoints s <> [] -> policyMap lb !! sp = Some (ConsistentHashPolicy ch) ->
     forall x, x ∈ GetMembers (hashRing ch) <-> x ∈ endpoints s).
Proof.
  intros Hr Hs. pose proof (reachable_ok _ _ Hr sp) as Hok. rewrite Hs in Hok.
  destruct Hok as [[[Hi0 Hi] Hk Ha] Hp]. split; [split; [done|]|split].
  - intros Hne. by destruct Hi as [|[? _]].
  - intros client a Hc. split; [by apply Hk|by eapply Ha].
  - intros ch Hne Hch. specialize (Hp Hne). by rewrite Hch in Hp.
Qed.

(** C1. In every reachable state the endpoint a connection is given is one
    of the current endpoints of its service port, whether a policy, session
    affinity or the round robin chose it. *)
Theorem next_endpoint_current config lb now k sp src reset conn req lb' conn' req' ep :
  reachable config lb ->
  nextEndpointWithConn Header_Get ReadRequest RemoteAddr now k lb sp src reset conn req =
    Val (lb', conn', req', Ok ep) ->
  exists s, services lb !! sp = Some s /\ ep ∈ endpoints s.
Proof.
  intros Hr Hn. destruct (nextEndpointWithConn_ok _ _ _ _ _ _ _ _ _ _ _ _ _ _ _ Hn) as [_ Hep];
    [by eapply reachable_ok|]. by apply Hep.
Qed.
End reachable.

(** *** A concrete run *)

Lemma distinct_endpoints_dec e :
  bool_decide (map_Forall (fun _ l => NoDup l) (buildPortsToEndpointsMap e)) = true ->
  distinct_endpoints e.
Proof.
  intros Hd p. apply bool_decide_eq_true in Hd. specialize (Hd p).
  pose proof (buildPortsToEndpointsMap_denotes e p) as Hp.
  destruct (endpoints_of e p) as [|x l]; [by apply NoDup_nil|]. by apply Hd.
Qed.

Definition get {A} (d : A) (m : go A) : A := match m with Val a => a | Panic _ => d end.

Definition demo_config : LbConfig := mkLbConfig "ProxyCaller" "edge-1" demo_ring_config.

Definition demo_port : ServicePortName := svc_port (mkNN "default" "web") "http".

Definition demo_rule : DestinationRule :=
  mkDR "default" "web" (Some (Some (Some (LoadBalancerSettings_ConsistentHash (Some (Some (UseSourceIp true))))))).

(** No shuffling, the canonical iteration order, no HTTP. *)
Definition demo_lb1 : LoadBalancer list_ring :=
  get (New demo_config) (OnEndpointsAdd (fun _ l => l) (New demo_config) demo_endpoints).
Definition demo_lb2 : LoadBalancer list_ring := get demo_lb1 (OnDestinationRuleAdd demo_lb1 demo_rule).

Definition demo_next lb now src reset :=
  nextEndpointWithConn (R := list_ring) (Request := unit) (Conn := unit)
    (fun _ _ => "") (fun c => (c, Err "EOF")) (fun _ => "") now 0 lb demo_port (Some src) reset None None.

Definition demo_reachable : LbConfig -> LoadBalancer list_ring -> Prop :=
  reachable (fun _ => false) (fun _ => []) (fun _ _ => true)
    (fun (_ : unit) _ => "") (fun (c : unit) => (c, Err "EOF")) (fun _ => "").

Lemma demo_lb2_reachable : demo_reachable demo_config demo_lb2.
Proof.
  apply rtc_l with demo_lb1; [|apply rtc_once].
  - apply (step_endpoints_add _ _ _ _ _ _ _ canonical_range (fun _ l => l) demo_endpoints).
    + done.
    + apply distinct_endpoints_dec. vm_compute. reflexivity.
    + intros p s Hs. simpl in Hs. by rewrite lookup_empty in Hs.
    + vm_compute. reflexivity.
  - apply (step_rule_add _ _ _ _ _ _ _ canonical_range demo_rule). vm_compute. reflexivity.
Qed.

Definition demo_state : balancerState :=
  mkBalancerState
    ["edge-1:web-a:10.0.0.1:80"; "EMPTY_NODE_NAME:EMPTY_POD_NAME:10.0.0.2:80"; "edge-2:web-b:[fd00::1]:80"] 0
    (newAffinityPolicy "" 10800).

Lemma reachable_invariant_witness :
  (0 <= index demo_state /\ (endpoints demo_state <> [] -> index demo_state < zlen (endpoints demo_state))) /\
  (forall client a, affinityMap (affinity demo_state) !! client = Some a ->
     clientIP a = client /\ endpoint a ∈ endpoints demo_state) /\
  (forall ch, endpoints demo_state <> [] -> policyMap demo_lb2 !! demo_port = Some (ConsistentHashPolicy ch) ->
     forall x, x ∈ GetMembers (hashRing ch) <-> x ∈ endpoints demo_state).
Proof.
  apply (reachable_invariant (fun _ => false) (fun _ => []) (fun _ _ => true)
    (fun (_ : unit) _ => "") (fun (c : unit) => (c, Err "EOF")) (fun _ => "") demo_config demo_lb2 demo_port).
  - exact demo_lb2_reachable.
  - vm_compute. reflexivity.
Defined.

(** A ring keeps its members when its service port is deleted and made again:
    until endpoints come, the port has none and its ring still has the old. *)
Definition demo_lb_remade : LoadBalancer list_ring := NewService (DeleteService demo_lb2 demo_port) demo_port "None" 0.

Lemma ring_outlives_port :
  demo_reachable demo_config demo_lb_remade /\
  (endpoints <$> services demo_lb_remade !! demo_port) = Some [] /\
  match policyMap demo_lb_remade !! demo_port with
  | Some (ConsistentHashPolicy ch) => GetMembers (hashRing ch) <> []
  | _ => False
  end.
Proof.
  split; [|split; [vm_compute; reflexivity|vm_compute; discriminate]].
  unfold demo_reachable, reachable. etrans; [exact demo_lb2_reachable|].
  apply rtc_l with (DeleteService demo_lb2 demo_port); [apply step_delete_service|].
  apply rtc_once, step_new_service.
Qed.

Lemma next_endpoint_current_witness :
  exists s, services demo_lb2 !! demo_port = Some s /\
    "EMPTY_NODE_NAME:EMPTY_POD_NAME:10.0.0.2:80" ∈ endpoints s.
Proof.
  eapply (next_endpoint_current (fun _ => false) (fun _ => []) (fun _ _ => true)
    (fun (_ : unit) _ => "") (fun (c : unit) => (c, Err "EOF")) (fun _ => "")
    demo_config demo_lb2 5 0 demo_port (Some "10.1.1.1:4711") false None None).
  - exact demo_lb2_reachable.
  - vm_compute. reflexivity.
Defined.
