(* ===== verification/LbConnect.v ===== *)
(** * Choosing and dialling endpoints

    The behaviour of [nextEndpointWithConn], [tryPickEndpoint], [dialEndpoint]
    and [TryConnectEndpoints] of [src/pkg/loadbalancer/loadbalancer.go] over
    sequences of connections: fairness of the round robin, session affinity,
    and what a failed dial does. *)

From Stdlib Require Import ZArith Lia Ascii String.
From stdpp Require Import base list gmap sets sorting strings option relations.
From S2P Require Import Prelude GoStrings GoNet Config NetUtil LbUtil LbPolicy LoadBalancer LbInvariant.

Local Open Scope Z_scope.

Section connections.
Context {R : Type} `{HashRing R}.
Implicit Types lb : LoadBalancer R.
Context {Request Conn OutConn : Type}.
Context (Header_Get : Request -> string -> string).
Context (ReadRequest : Conn -> Conn * result Request).
Context (RemoteAddr : Conn -> string).
Context (Request_Write : Request -> result (list Z)).
Context (OutConn_Write : OutConn -> list Z -> result OutConn).

(** One call of [nextEndpointWithConn]. *)
Record call : Type := mkCall {
  c_now : Z;
  c_rand : Z;
  c_src : option string;
  c_reset : bool;
  c_conn : option Conn;
  c_req : option Request
}.

(** Successive calls for one service port, and what they return. *)
Fixpoint next_many lb (sp : ServicePortName) (calls : list call) : go (LoadBalancer R * list (result string)) :=
  match calls with
  | [] => Val (lb, [])
  | c :: calls' =>
      let! (lb, _, _, r) :=
        nextEndpointWithConn Header_Get ReadRequest RemoteAddr (c_now c) (c_rand c) lb sp (c_src c)
          (c_reset c) (c_conn c) (c_req c) in
      let! (lb, rs) := next_many lb sp calls' in
      Val (lb, r :: rs)
  end.

(** ** Round robin *)

(** No policy picks endpoints for the port. *)
Definition round_robin_policy lb sp : Prop :=
  policyMap lb !! sp = None \/ policyMap lb !! sp = Some RoundRobinPolicy.

Lemma tryPick_round_robin lb k sp b eps src conn req :
  round_robin_policy lb sp ->
  tryPickEndpoint Header_Get ReadRequest RemoteAddr lb k sp b eps src conn req = Val (conn, req, None).
Proof. unfold tryPickEndpoint. intros [-> | ->]; [done|]. by destruct b. Qed.

Lemma tryPick_affinity lb k sp eps src conn req :
  tryPickEndpoint Header_Get ReadRequest RemoteAddr lb k sp true eps src conn req = Val (conn, req, None).
Proof. unfold tryPickEndpoint. by destruct (policyMap lb !! sp). Qed.

Lemma next_round_robin lb sp s c :
  services lb !! sp = Some s -> isSessionAffinity (affinity s) = false -> round_robin_policy lb sp ->
  0 <= index s < zlen (endpoints s) ->
  exists ep, endpoints s !! Z.to_nat (index s) = Some ep /\
    nextEndpointWithConn Header_Get ReadRequest RemoteAddr (c_now c) (c_rand c) lb sp (c_src c)
      (c_reset c) (c_conn c) (c_req c) =
    Val (set_services lb (<[sp := set_index s ((index s + 1) mod zlen (endpoints s))]> (services lb)),
         c_conn c, c_req c, Ok ep).
Proof.
  intros Hs Ha Hp Hi. destruct (go_index_lt (endpoints s) (index s) Hi) as (ep & Hgo & Hlk).
  exists ep. split; [done|]. unfold nextEndpointWithConn. rewrite Hs, Ha.
  assert ((length (endpoints s) =? 0)%nat = false) as ->.
  { apply Nat.eqb_neq. unfold zlen in Hi. lia. }
  rewrite tryPick_round_robin by done. cbn [mbind go_bind]. unfold take_next. by rewrite Hgo.
Qed.

Lemma next_many_round_robin lb sp s calls :
  services lb !! sp = Some s -> isSessionAffinity (affinity s) = false -> round_robin_policy lb sp ->
  0 <= index s < zlen (endpoints s) ->
  exists lb' outs, next_many lb sp calls = Val (lb', map Ok outs) /\ length outs = length calls /\
    services lb' = <[sp := set_index s ((index s + zlen calls) mod zlen (endpoints s))]> (services lb) /\
    policyMap lb' = policyMap lb /\
    forall j, (j < length calls)%nat ->
      outs !! j = endpoints s !! Z.to_nat ((index s + Z.of_nat j) mod zlen (endpoints s)).
Proof.
  revert lb s. induction calls as [|c calls IH]; intros lb s Hs Ha Hp Hi.
  - exists lb, []. simpl. split; [done|]. split; [done|]. split; [|split; [done|lia]].
    change (zlen []) with 0. rewrite Z.add_0_r, Z.mod_small by lia.
    destruct s. symmetry. by apply insert_id.
  - cbn [next_many]. destruct (next_round_robin lb sp s c Hs Ha Hp Hi) as (ep & Hep & ->).
    cbn [mbind go_bind]. set (s1 := set_index s ((index s + 1) mod zlen (endpoints s))).
    pose proof (Z.mod_pos_bound (index s + 1) (zlen (endpoints s))) as Hm.
    destruct (IH (set_services lb (<[sp := s1]> (services lb))) s1) as (lb' & outs & -> & Hl & Hsv & Hpl & Hj).
    + simpl. by rewrite lookup_insert_eq.
    + done.
    + done.
    + simpl. lia.
    + exists lb', (ep :: outs). split; [done|]. split; [simpl; lia|].
      assert (Hadd : forall z, ((index s + 1) mod zlen (endpoints s) + z) mod zlen (endpoints s) =
                               (index s + (1 + z)) mod zlen (endpoints s)).
      { intros z. rewrite Z.add_mod_idemp_l by lia. f_equal. lia. }
      split; [|split; [by rewrite Hpl|]].
      * rewrite Hsv. simpl. rewrite insert_insert_eq, Hadd, zlen_cons. done.
      * intros [|j] Hlt; simpl.
        -- rewrite Z.add_0_r, Z.mod_small by lia. done.
        -- rewrite Hj by (simpl in Hlt; lia). simpl. rewrite Hadd. do 3 f_equal. lia.
Qed.

Lemma rotate_Permutation {A} n (l : list A) : rotate n l ≡ₚ l.
Proof. unfold rotate. rewrite Permutation_app_comm. by rewrite take_drop. Qed.

(** C26. Round robin is fair: as many connections as the service port has
    endpoints, from any clients and at any times, are given the endpoints in
    their order, starting with the one at the index, so each endpoint exactly
    once; afterwards the services are as before. *)
Theorem round_robin_fair lb sp s calls :
  services lb !! sp = Some s -> isSessionAffinity (affinity s) = false -> round_robin_policy lb sp ->
  0 <= index s < zlen (endpoints s) -> length calls = length (endpoints s) ->
  exists lb' outs, next_many lb sp calls = Val (lb', map Ok outs) /\
    outs = rotate (Z.to_nat (index s)) (endpoints s) /\ outs ≡ₚ endpoints s /\ services lb' = services lb.
Proof.
  intros Hs Ha Hp Hi Hlen.
  destruct (next_many_round_robin lb sp s calls Hs Ha Hp Hi) as (lb' & outs & Hn & Hl & Hsv & _ & Hj).
  assert (Hrot : outs = rotate (Z.to_nat (index s)) (endpoints s)).
  { apply list_eq_same_length with (length (endpoints s)); [by rewrite length_rotate|congruence|].
    intros j x y Hlt Hx Hy. rewrite Hj in Hx by lia. rewrite lookup_rotate_r in Hy by done.
    unfold rotate_nat_add in Hy. unfold zlen in *. rewrite Z2Nat.id in Hy by lia. congruence. }
  exists lb', outs. split; [done|]. split; [done|]. split; [rewrite Hrot; apply rotate_Permutation|].
  rewrite Hsv. unfold zlen. rewrite Hlen. fold (zlen (endpoints s)).
  replace ((index s + zlen (endpoints s)) mod zlen (endpoints s)) with (index s).
  - apply insert_id. rewrite Hs. by destruct s.
  - rewrite <- (Z.mul_1_l (zlen (endpoints s))) at 1. rewrite Z.mod_add by lia. by rewrite Z.mod_small.
Qed.

(** ** Session affinity *)

(** The address under which a client is remembered. *)
Definition client_of (c : call) : option string :=
  match c_src c with
  | Some addr => match SplitHostPort addr with Ok (ip, _) => Some ip | Err _ => None end
  | None => None
  end.

(** Every call of client [ip] comes less than [ttl] seconds after the previous
    one (the first one after [last]), and none asks for a reset. *)
Fixpoint within_ttl (ip : string) (ttl last : Z) (calls : list call) : Prop :=
  match calls with
  | [] => True
  | c :: calls' =>
      if decide (client_of c = Some ip)
      then c_reset c = false /\ seconds_since (c_now c) last < ttl /\ within_ttl ip ttl (c_now c) calls'
      else within_ttl ip ttl last calls'
  end.

(** The state of a port in which client [ip] is bound to [ep] since [last]. *)
Definition bound_to (s : balancerState) (ip ep : string) (last : Z) : Prop :=
  exists a, affinityMap (affinity s) !! ip = Some a /\ endpoint a = ep /\ lastUsed a = last.

Definition next_call lb sp (c : call) :=
  nextEndpointWithConn Header_Get ReadRequest RemoteAddr (c_now c) (c_rand c) lb sp (c_src c)
    (c_reset c) (c_conn c) (c_req c).

(** What a call does for a port with session affinity. *)
Lemma next_call_affinity lb sp s c lb' conn' req' r :
  next_call lb sp c = Val (lb', conn', req', r) ->
  services lb !! sp = Some s -> isSessionAffinity (affinity s) = true -> endpoints s <> [] ->
  match client_of c with
  | None => lb' = lb
  | Some ip =>
      match (if c_reset c then None else live_affinity (c_now c) s ip) with
      | Some a => r = Ok (endpoint a) /\
          services lb' = <[sp := set_affinityMap s (<[ip := mkAffinityState (clientIP a) (endpoint a) (c_now c)]>
                                                     (affinityMap (affinity s)))]> (services lb)
      | None => exists ep, r = Ok ep /\ endpoints s !! Z.to_nat (index s) = Some ep /\
          services lb' = <[sp := set_affinityMap (set_index s ((index s + 1) mod zlen (endpoints s)))
                                  (<[ip := mkAffinityState ip ep (c_now c)]> (affinityMap (affinity s)))]>
                           (services lb)
      end
  end.
Proof.
  unfold next_call, nextEndpointWithConn, client_of. intros Hn Hs Ha Hne. rewrite Hs, Ha in Hn.
  assert ((length (endpoints s) =? 0)%nat = false) as Hl by (by destruct (endpoints s)). rewrite Hl in Hn.
  rewrite tryPick_affinity in Hn. cbn [mbind go_bind] in Hn.
  destruct (c_src c) as [addr|]; [|done].
  destruct (SplitHostPort addr) as [[ip port]|]; [|by injection Hn as <- _ _ _].
  destruct (if c_reset c then None else live_affinity (c_now c) s ip) as [a|].
  - injection Hn as <- _ _ <-. done.
  - apply go_bind_Val_inv in Hn as ([s1 ep] & Ht & Hn). injection Hn as <- _ _ <-.
    unfold take_next in Ht. apply go_bind_Val_inv in Ht as (ep' & Hgo & Ht). injection Ht as <- ->.
    exists ep. split; [done|]. split; [|done]. unfold go_index in Hgo.
    destruct (0 <=? index s); [|done]. destruct (endpoints s !! _); [|done]. by injection Hgo as ->.
Qed.

Lemma next_call_sticky lb sp s c ip ep last lb' conn' req' r :
  next_call lb sp c = Val (lb', conn', req', r) ->
  services lb !! sp = Some s -> isSessionAffinity (affinity s) = true -> endpoints s <> [] ->
  bound_to s ip ep last ->
  (client_of c = Some ip -> c_reset c = false /\ seconds_since (c_now c) last < ttlSeconds (affinity s)) ->
  exists s', services lb' !! sp = Some s' /\ isSessionAffinity (affinity s') = true /\
    endpoints s' <> [] /\ ttlSeconds (affinity s') = ttlSeconds (affinity s) /\
    if decide (client_of c = Some ip)
    then r = Ok ep /\ bound_to s' ip ep (c_now c) else bound_to s' ip ep last.
Proof.
  intros Hn Hs Ha Hne Hb Hc. pose proof (next_call_affinity _ _ _ _ _ _ _ _ Hn Hs Ha Hne) as Hcase.
  case_decide as Hd.
  - destruct (Hc Hd) as [Hr Ht]. rewrite Hd, Hr in Hcase. destruct Hb as (a & Hlk & <- & <-).
    unfold live_affinity in Hcase. rewrite Hlk, (proj2 (Z.ltb_lt _ _) Ht) in Hcase.
    destruct Hcase as [-> ->]. rewrite lookup_insert_eq. eexists. split; [done|].
    split; [done|]. split; [done|]. split; [done|]. split; [done|].
    eexists. simpl. by rewrite lookup_insert_eq.
  - destruct (client_of c) as [ip'|]; [|subst lb'; by exists s].
    assert (ip' <> ip) by congruence. destruct Hb as (a & Hlk & Hep & Hlast).
    destruct (if c_reset c then None else live_affinity (c_now c) s ip') as [b|].
    + destruct Hcase as [_ ->]. rewrite lookup_insert_eq. eexists. split; [done|].
      split; [done|]. split; [done|]. split; [done|]. exists a. simpl. by rewrite lookup_insert_ne.
    + destruct Hcase as (ep' & _ & _ & ->). rewrite lookup_insert_eq. eexists. split; [done|].
      split; [done|]. split; [done|]. split; [done|]. exists a. simpl. by rewrite lookup_insert_ne.
Qed.

(** C28. A client stays with its endpoint: while it keeps coming back within
    the time to live of its entry, every call returns the endpoint it is bound
    to, whatever other clients do in between. *)
Theorem session_affinity_sticky lb sp s ip ep last calls lb' outs :
  services lb !! sp = Some s -> isSessionAffinity (affinity s) = true -> endpoints s <> [] ->
  bound_to s ip ep last -> within_ttl ip (ttlSeconds (affinity s)) last calls ->
  next_many lb sp calls = Val (lb', outs) ->
  Forall2 (fun c r => client_of c = Some ip -> r = Ok ep) calls outs.
Proof.
  revert lb s last lb' outs. induction calls as [|c calls IH]; intros lb s last lb' outs Hs Ha Hne Hb Hw Hn.
  - simpl in Hn. by injection Hn as _ <-.
  - cbn [next_many] in Hn. apply go_bind_Val_inv in Hn as ([[[lb1 conn1] req1] r] & H1 & Hn).
    apply go_bind_Val_inv in Hn as ([lb2 rs] & H2 & Hn). injection Hn as _ <-. cbn [within_ttl] in Hw.
    destruct (next_call_sticky lb sp s c ip ep last _ _ _ _ H1 Hs Ha Hne Hb)
      as (s1 & Hs1 & Ha1 & Hne1 & Ht1 & Hd).
    { intros Hc. rewrite decide_True in Hw by done. tauto. }
    destruct (decide (client_of c = Some ip)) as [Hc|Hc].
    + destruct Hw as (_ & _ & Hw), Hd as [-> Hb1]. constructor; [done|].
      eapply (IH lb1 s1); [done|done|done|exact Hb1|by rewrite Ht1|exact H2].
    + constructor; [done|]. eapply (IH lb1 s1); [done|done|done|exact Hd|by rewrite Ht1|exact H2].
Qed.

(** ** Dialling *)

Lemma next_call_config lb sp c lb' conn' req' r :
  next_call lb sp c = Val (lb', conn', req', r) -> Config lb' = Config lb.
Proof.
  unfold next_call, nextEndpointWithConn. destruct (services lb !! sp) as [s|]; [|by intros [= <- _ _ _]].
  destruct (length (endpoints s) =? 0)%nat; [by intros [= <- _ _ _]|]. intros Hn.
  apply go_bind_Val_inv in Hn as ([[c1 q1] picked] & _ & Hn).
  destruct picked as [ep|]; [by injection Hn as <- _ _ _|].
  destruct (isSessionAffinity (affinity s)).
  - destruct (c_src c) as [addr|]; [|done].
    destruct (SplitHostPort addr) as [[ip port]|]; [|by injection Hn as <- _ _ _].
    destruct (if c_reset c then None else live_affinity (c_now c) s ip) as [a|].
    + by injection Hn as <- _ _ _.
    + apply go_bind_Val_inv in Hn as ([s1 ep] & _ & Hn). by injection Hn as <- _ _ _.
  - apply go_bind_Val_inv in Hn as ([s1 ep] & _ & Hn). by injection Hn as <- _ _ _.
Qed.

Lemma dialEndpoint_config lb lb' a proto ep :
  Config lb' = Config lb -> dialEndpoint (OutConn := OutConn) lb' a proto ep = dialEndpoint lb a proto ep.
Proof. intros Hc. unfold dialEndpoint. by rewrite Hc. Qed.

(** A request that is given is the one that is sent on. *)
Lemma next_call_request lb sp c q lb' conn' req' r :
  next_call lb sp c = Val (lb', conn', req', r) -> c_req c = Some q -> req' = Some q.
Proof.
  unfold next_call, nextEndpointWithConn, tryPickEndpoint, Policy_Pick, hash_key_value. intros Hn Hq. rewrite Hq in Hn.
  repeat (case_match || (progress simplify_eq) || (apply go_bind_Val_inv in Hn as (? & ? & Hn)) ||
          match goal with E : mbind _ _ = Val _ |- _ => apply go_bind_Val_inv in E as (? & ? & E) end); done.
Qed.

(** What the loop of [TryConnectEndpoints] does, as a relation: no timeout is
    left, no endpoint is found, an endpoint answers, or a dial fails and the
    loop goes on, asking for a reset of the session. *)
Section runs.
Context (sp : ServicePortName) (src : option string) (proto : string) (req : option Request).
Abbreviation attempt := (LoadBalancer.attempt (R:=R) (OutConn:=OutConn)).
Abbreviation choice := (LoadBalancer.choice (R:=R)).

Definition attempt_call (a : attempt) (reset : bool) (conn : option Conn) : call :=
  mkCall (at_now a) (at_rand a) src reset conn req.

Inductive connect_run : bool -> list attempt -> LoadBalancer R -> option Conn ->
    LoadBalancer R -> option Conn -> list choice -> result OutConn -> Prop :=
| run_exhausted reset lb conn :
    connect_run reset [] lb conn lb conn [] (Err "failed to connect to an endpoint")
| run_missing reset a attempts lb conn lb' conn' req' e :
    next_call (at_others a lb) sp (attempt_call a reset conn) = Val (lb', conn', req', Err e) ->
    connect_run reset (a :: attempts) lb conn lb' conn' [mkChoice (at_others a lb) (Err e)] (Err e)
| run_dialled reset a attempts lb conn lb' conn' req' ep out :
    next_call (at_others a lb) sp (attempt_call a reset conn) = Val (lb', conn', req', Ok ep) ->
    dialEndpoint (at_others a lb) a proto ep = Ok out ->
    connect_run reset (a :: attempts) lb conn lb' conn' [mkChoice (at_others a lb) (Ok ep)]
      (forward_request Request_Write OutConn_Write out req')
| run_retry reset a attempts lb conn lb1 conn1 req1 ep e lb' conn' choices r :
    next_call (at_others a lb) sp (attempt_call a reset conn) = Val (lb1, conn1, req1, Ok ep) ->
    dialEndpoint (at_others a lb) a proto ep = Err e -> IsTooManyFDsError e = false ->
    connect_run true attempts lb1 conn1 lb' conn' choices r ->
    connect_run reset (a :: attempts) lb conn lb' conn' (mkChoice (at_others a lb) (Ok ep) :: choices) r.

Lemma try_connect_run attempts lb conn reset lb' conn' choices r :
  try_connect Header_Get ReadRequest RemoteAddr Request_Write OutConn_Write attempts lb sp src proto
    conn req reset = Val (lb', conn', choices, r) ->
  connect_run reset attempts lb conn lb' conn' choices r.
Proof.
  revert lb conn reset lb' conn' choices r.
  induction attempts as [|a attempts IH]; intros lb conn reset lb' conn' choices r Ht; cbn [try_connect] in Ht.
  - injection Ht as <- <- <- <-. constructor.
  - apply go_bind_Val_inv in Ht as ([[[lb1 conn1] req1] r1] & H1 & Ht).
    change (next_call (at_others a lb) sp (attempt_call a reset conn) = Val (lb1, conn1, req1, r1)) in H1.
    destruct r1 as [ep|e]; [|injection Ht as <- <- <- <-; by eapply run_missing].
    rewrite (dialEndpoint_config (at_others a lb) lb1) in Ht by (by eapply next_call_config).
    destruct (dialEndpoint _ a proto ep) as [out|e] eqn:Ed.
    + injection Ht as <- <- <- <-. by eapply run_dialled.
    + destruct (IsTooManyFDsError e) eqn:Efd; [done|].
      apply go_bind_Val_inv in Ht as ([[[lb2 conn2] choices2] r2] & H2 & [= <- <- <- <-]).
      eapply run_retry; eauto.
Qed.

(** A choice whose dial failed in a way that is tried again. *)
Definition failed_dial (a : attempt) (ch : choice) : Prop :=
  exists ep e, ch_endpoint ch = Ok ep /\ dialEndpoint (ch_state ch) a proto ep = Err e /\ IsTooManyFDsError e = false.

Lemma connect_run_dialled reset attempts lb conn lb' conn' choices out :
  connect_run reset attempts lb conn lb' conn' choices (Ok out) ->
  exists failed ch a ep out0 req', choices = failed ++ [ch] /\
    Forall2 failed_dial (take (length failed) attempts) failed /\
    attempts !! length failed = Some a /\ ch_endpoint ch = Ok ep /\
    dialEndpoint (ch_state ch) a proto ep = Ok out0 /\
    forward_request Request_Write OutConn_Write out0 req' = Ok out /\ (forall q, req = Some q -> req' = Some q).
Proof.
  remember (Ok out) as r eqn:Er. intros Hr. revert out Er.
  induction Hr as [| |reset a attempts lb conn lb' conn' req' ep out0 Hn Hd|
                   reset a attempts lb conn lb1 conn1 req1 ep e lb' conn' choices r Hn Hd He _ IH]; intros out Er; try done.
  - exists [], (mkChoice (at_others a lb) (Ok ep)), a, ep, out0, req'. split_and!; try done.
    intros q ->. by eapply next_call_request.
  - destruct (IH out Er) as (failed & ch & a' & ep' & out0 & req' & -> & Hf & Hrest).
    exists (mkChoice (at_others a lb) (Ok ep) :: failed), ch, a', ep', out0, req'. split; [done|]. split; [|done].
    cbn. constructor; [by exists ep, e|done].
Qed.

(** What is chosen for a client of a port with session affinity: the endpoint
    it is bound to, if its session counts and may be used, else the next of the
    round robin. *)
Definition sticky_choice (a : attempt) (reset : bool) (ip : string) (ch : choice) : Prop :=
  forall s, services (ch_state ch) !! sp = Some s -> isSessionAffinity (affinity s) = true -> endpoints s <> [] ->
  exists ep, ch_endpoint ch = Ok ep /\
    match (if reset then None else live_affinity (at_now a) s ip) with
    | Some b => ep = endpoint b
    | None => endpoints s !! Z.to_nat (index s) = Some ep
    end.

(** After the choice the client is bound to the endpoint chosen. *)
Definition binds (a : attempt) (ip : string) (ch : choice) lb' : Prop :=
  forall s, services (ch_state ch) !! sp = Some s -> isSessionAffinity (affinity s) = true -> endpoints s <> [] ->
  exists ep s', ch_endpoint ch = Ok ep /\ services lb' !! sp = Some s' /\ bound_to s' ip ep (at_now a).

Lemma next_call_choice lb a reset conn ip lb' conn' req' r :
  next_call lb sp (attempt_call a reset conn) = Val (lb', conn', req', r) ->
  client_of (attempt_call a reset conn) = Some ip ->
  sticky_choice a reset ip (mkChoice lb r) /\ binds a ip (mkChoice lb r) lb'.
Proof.
  intros Hn Hc. unfold sticky_choice, binds. cbn [ch_state ch_endpoint].
  split; intros s Hs Ha Hne; pose proof (next_call_affinity _ _ _ _ _ _ _ _ Hn Hs Ha Hne) as Hcase;
    rewrite Hc in Hcase; cbn [attempt_call c_reset c_now] in Hcase; destruct (if reset then None else _) as [b|].
  - destruct Hcase as [-> _]. by eexists.
  - destruct Hcase as (ep & -> & Hlk & _). by eexists.
  - destruct Hcase as [-> ->]. rewrite lookup_insert_eq. do 2 eexists. split; [done|]. split; [done|].
    eexists. cbn. by rewrite lookup_insert_eq.
  - destruct Hcase as (ep & -> & _ & ->). rewrite lookup_insert_eq. do 2 eexists. split; [done|]. split; [done|].
    eexists. cbn. by rewrite lookup_insert_eq.
Qed.

(** The choices of a run: the first may use the session unless a reset is asked
    for, a retry never does; and the last one binds the client. *)
Lemma connect_run_choices reset attempts lb conn lb' conn' choices r ip :
  connect_run reset attempts lb conn lb' conn' choices r ->
  client_of (mkCall 0 0 src false None None) = Some ip ->
  forall i ch, choices !! i = Some ch -> exists a, attempts !! i = Some a /\
    sticky_choice a (match i with O => reset | S _ => true end) ip ch /\
    (S i = length choices -> binds a ip ch lb').
Proof.
  intros Hr Hip. induction Hr as [|reset a attempts lb conn lb' conn' req' e Hn|
      reset a attempts lb conn lb' conn' req' ep out Hn _|
      reset a attempts lb conn lb1 conn1 req1 ep e lb' conn' choices r Hn _ _ Hrest IH]; intros i ch Hi; [done|..].
  1-2: destruct i as [|i]; [|done]; injection Hi as <-; exists a; split; [done|];
    destruct (next_call_choice _ _ _ _ _ _ _ _ _ Hn Hip); done.
  destruct i as [|i].
  - injection Hi as <-. exists a. split; [done|]. destruct (next_call_choice _ _ _ _ _ _ _ _ _ Hn Hip) as [Hch Hb].
    split; [done|]. cbn. intros Hl. assert (choices = []) as -> by (by destruct choices).
    inversion Hrest; subst. exact Hb.
  - destruct (IH i ch Hi) as (a' & Ha' & Hch & Hb). exists a'. split; [done|]. split; [|cbn; intros Hl; apply Hb; lia].
    by destruct i.
Qed.
End runs.

(** C29. Connecting to a service, while other goroutines change the load
    balancer between the attempts.  Endpoints are chosen and dialled one after
    another, as long as the dials fail (with an error other than exhausted
    descriptors) and timeouts are left; the connection returned is the one that
    the last endpoint chosen answered with, after the client's request, if
    there is one, was written to it.  If the service port has session affinity
    and endpoints when an endpoint is chosen for a client with a proper address,
    then the first choice is the endpoint the client is bound to, as long as
    its session counts, every choice after a failed dial is the next endpoint of
    the round robin instead, and the client is afterwards bound to the endpoint
    it was connected to. *)
Theorem TryConnectEndpoints_outcome attempts lb sp src proto conn req lb' conn' choices out :
  TryConnectEndpoints Header_Get ReadRequest RemoteAddr Request_Write OutConn_Write attempts lb sp src proto
    conn req = Val (lb', conn', choices, Ok out) ->
  (exists failed ch a ep out0 req', choices = failed ++ [ch] /\
     Forall2 (failed_dial proto) (take (length failed) attempts) failed /\
     attempts !! length failed = Some a /\ ch_endpoint ch = Ok ep /\
     dialEndpoint (ch_state ch) a proto ep = Ok out0 /\
     forward_request Request_Write OutConn_Write out0 req' = Ok out /\ (forall q, req = Some q -> req' = Some q)) /\
  forall ip, client_of (mkCall 0 0 src false None None) = Some ip ->
    forall i ch, choices !! i = Some ch -> exists a, attempts !! i = Some a /\
      sticky_choice sp a (negb (i =? 0)%nat) ip ch /\ (S i = length choices -> binds sp a ip ch lb').
Proof.
  intros Ht. apply try_connect_run in Ht. split; [by eapply connect_run_dialled|].
  intros ip Hip i ch Hi. destruct (connect_run_choices _ _ _ _ _ _ _ _ _ _ _ _ ip Ht Hip i ch Hi) as (a & Ha & Hch).
  exists a. split; [done|]. by destruct i.
Qed.
End connections.

(** ** Concrete runs *)

Definition no_header (_ : unit) (_ : string) : string := "".
Definition no_request (c : unit) : unit * result unit := (c, Err "EOF").
Definition no_addr (_ : unit) : string := "".

(** A call from [src] at second [t]. *)
Definition call_at (t : Z) (src : string) : call (Request := unit) (Conn := unit) :=
  mkCall (t * 1000000000) 0 (Some src) false None None.

Lemma round_robin_fair_witness :
  exists lb' outs,
    next_many no_header no_request no_addr demo_lb1 demo_port
      [call_at 0 "10.1.1.1:1000"; call_at 0 "10.1.1.2:1000"; call_at 7 "10.1.1.1:1001"] =
      Val (lb', map Ok outs) /\
    outs = rotate (Z.to_nat (index demo_state)) (endpoints demo_state) /\ outs ≡ₚ endpoints demo_state /\
    services lb' = services demo_lb1.
Proof.
  apply (round_robin_fair no_header no_request no_addr demo_lb1 demo_port demo_state).
  - vm_compute. reflexivity.
  - vm_compute. reflexivity.
  - left. vm_compute. reflexivity.
  - vm_compute. split; [discriminate|reflexivity].
  - reflexivity.
Defined.

(** The port with session affinity, after a first call of 10.1.1.1. *)
Definition demo_lb3 : LoadBalancer list_ring := NewService demo_lb1 demo_port "ClientIP" 60.
Definition demo_lb4 : LoadBalancer list_ring :=
  (get (demo_lb3, []) (next_many no_header no_request no_addr demo_lb3 demo_port [call_at 0 "10.1.1.1:1000"])).1.

Definition demo_sticky_state : balancerState :=
  mkBalancerState (endpoints demo_state) 1
    (mkAffinityPolicy "ClientIP" {["10.1.1.1" := mkAffinityState "10.1.1.1" "edge-1:web-a:10.0.0.1:80" 0]} 10800).

Lemma session_affinity_sticky_witness :
  Forall2 (fun c r => client_of c = Some "10.1.1.1" -> r = Ok "edge-1:web-a:10.0.0.1:80")
    [call_at 10799 "10.1.1.1:1001"; call_at 10800 "10.1.1.2:7"; call_at 21000 "10.1.1.1:1002"]
    [Ok "edge-1:web-a:10.0.0.1:80"; Ok "EMPTY_NODE_NAME:EMPTY_POD_NAME:10.0.0.2:80"; Ok "edge-1:web-a:10.0.0.1:80"].
Proof.
  eapply (session_affinity_sticky no_header no_request no_addr demo_lb4 demo_port demo_sticky_state
            "10.1.1.1" "edge-1:web-a:10.0.0.1:80" 0).
  - vm_compute. reflexivity.
  - vm_compute. reflexivity.
  - discriminate.
  - eexists. split; [vm_compute; reflexivity|]. split; reflexivity.
  - vm_compute. split; [reflexivity|]. split; [reflexivity|]. split; [reflexivity|]. split; reflexivity.
  - vm_compute. reflexivity.
Defined.

(** A network in which only 10.0.0.2 answers. *)
Definition demo_attempt (others : LoadBalancer list_ring -> LoadBalancer list_ring) (t : Z)
  : attempt (R := list_ring) (OutConn := list Z) :=
  mkAttempt others (t * 1000000000) 0
    (fun _ addr => if String.eqb addr "10.0.0.2:80" then Ok [] else Err "connection refused")
    (fun _ => Err "no route").

(** Another client takes an endpoint while the first dial fails. *)
Definition demo_other_client (lb : LoadBalancer list_ring) : LoadBalancer list_ring :=
  (get (lb, []) (next_many no_header no_request no_addr lb demo_port
                   [call_at 1 "10.1.1.9:1"; call_at 1 "10.1.1.8:1"; call_at 1 "10.1.1.7:1"])).1.

(** The client is bound to the endpoint that does not answer any more. *)
Definition demo_attempts : list (attempt (R := list_ring) (OutConn := list Z)) :=
  [demo_attempt id 1; demo_attempt demo_other_client 2; demo_attempt id 3; demo_attempt id 4].

Local Abbreviation demo_connect :=
  (TryConnectEndpoints no_header no_request no_addr (fun _ => Err "") (fun c b => Ok (c ++ b))
     demo_attempts demo_lb4 demo_port (Some "10.1.1.1:1000") "tcp" None None).

Definition demo_lb5 : LoadBalancer list_ring :=
  match demo_connect with Val (lb, _, _, _) => lb | Panic _ => demo_lb4 end.
Definition demo_choices : list (choice (R := list_ring)) :=
  match demo_connect with Val (_, _, chs, _) => chs | Panic _ => [] end.

Lemma TryConnectEndpoints_outcome_witness :
  map ch_endpoint demo_choices = [Ok "edge-1:web-a:10.0.0.1:80"; Ok "EMPTY_NODE_NAME:EMPTY_POD_NAME:10.0.0.2:80"] /\
  forall ch, demo_choices !! 1%nat = Some ch ->
    sticky_choice demo_port (demo_attempt demo_other_client 2) true "10.1.1.1" ch /\
    binds demo_port (demo_attempt demo_other_client 2) "10.1.1.1" ch demo_lb5.
Proof.
  split; [vm_compute; reflexivity|]. intros ch Hch.
  destruct (TryConnectEndpoints_outcome no_header no_request no_addr (fun _ => Err "") (fun c b => Ok (c ++ b))
    demo_attempts demo_lb4 demo_port (Some "10.1.1.1:1000") "tcp" None None demo_lb5 None demo_choices []) as [_ Hs].
  - vm_compute. reflexivity.
  - destruct (Hs "10.1.1.1" eq_refl 1%nat ch Hch) as (a & [= <-] & Hc & Hb). split; [exact Hc|].
    apply Hb. vm_compute. reflexivity.
Defined.

(** ** A retry forgets the request

    Requests are their headers, a connection is the list of requests the client
    has sent and not yet been read from it, an outgoing connection the bytes
    written to it. *)

Definition header_rule : DestinationRule :=
  mkDR "default" "web"
    (Some (Some (Some (LoadBalancerSettings_ConsistentHash (Some (Some (HttpHeaderName "user"))))))).

Definition header_lb : LoadBalancer list_ring := get demo_lb1 (OnDestinationRuleAdd demo_lb1 header_rule).

Definition read_request (c : list string) : list string * result string :=
  match c with [] => ([], Err "EOF") | r :: c' => (c', Ok r) end.

Definition request_bytes (r : string) : result (list Z) := Ok (map (fun c => Z.of_N (N_of_ascii c)) (list_ascii_of_string r)).

(** The first dial fails, every later one succeeds. *)
Definition flaky (t : Z) : attempt (R := list_ring) (OutConn := list Z) :=
  mkAttempt id (t * 1000000000) 0 (fun _ _ => if t =? 0 then Err "connection refused" else Ok [])
    (fun _ => Err "no route").

(** With a consistent hash policy on an HTTP header the request is read
    from the client's connection anew at every attempt: when the first dial
    fails, the request read for it is not sent to the endpoint that answers;
    the client's only request is lost and the endpoint is sent nothing. *)
Theorem retry_loses_request :
  match TryConnectEndpoints (fun r _ => r) read_request (fun _ => "10.1.1.1:1000") request_bytes
          (fun c b => Ok (c ++ b)) [flaky 0; flaky 1; flaky 2; flaky 4]
          header_lb demo_port (Some "10.1.1.1:1000") "tcp" (Some ["ada"]) None with
  | Val (_, Some conn, _, Ok out) => conn = [] /\ out = []
  | _ => False
  end.
Proof. vm_compute. split; reflexivity. Qed.
