(* ===== verification/LbSync.v ===== *)
(** * Service synchronisation

    How the load balancer of [src/pkg/loadbalancer/loadbalancer.go] follows
    the services of the cluster: the coalescing of service changes, the merge
    and unmerge of services in [syncServices], the start-up flags, and the
    cleanup of stale sessions.  [syncServices] takes the changes under one mutex
    and processes them under another, and more than one goroutine runs it: the
    two parts are steps of their own. *)

From Stdlib Require Import ZArith Lia Ascii String.
From stdpp Require Import base list gmap sets sorting strings option relations.
From S2P Require Import Prelude GoStrings GoNet Config LbUtil LbPolicy LoadBalancer LbInvariant.

Local Open Scope Z_scope.

Section sync.
Context {R : Type} `{HashRing R} `{RangeOrder}.
Implicit Types lb : LoadBalancer R.
Context (ShouldSkipService : Service -> bool).
Context (ParseIPSloppy : string -> list Z).
Context (LoadBalancerStatusEqual : list (string * string) -> list (string * string) -> bool).
Hypothesis status_refl : forall l, LoadBalancerStatusEqual l l = true.

(** ** The cluster's services *)

(** What the informer's store holds. *)
Abbreviation store := (gmap NamespacedName Service).

(** Every service is filed under its own name. *)
Definition store_ok (st : store) : Prop := forall n s, st !! n = Some s -> svcName_of s = n.

(** [p] is a port of a service of the store that is not skipped, and [sp] its
    service port name. *)
Definition port_of (st : store) (sp : ServicePortName) (s : Service) (p : ServicePort) : Prop :=
  st !! spn_name sp = Some s /\ ShouldSkipService s = false /\ p ∈ svc_Ports s /\
  sp = svc_port (spn_name sp) (sp_Name p).

(** What the service map knows of a port is what its service says: protocol,
    numbers, cluster address, external addresses, the state of its load balancer
    and the kind of session affinity.  How long a session lasts is not part of
    it: see [sticky_timeout_stays]. *)
Record has_config (info : ServiceInfo) (s : Service) (p : ServicePort) : Prop := mkHasConfig {
  cfg_protocol : protocol info = sp_Protocol p;
  cfg_port : portal_port (si_portal info) = sp_Port p;
  cfg_nodePort : nodePort info = sp_NodePort p;
  cfg_clusterIP : IP_Equal (portal_ip (si_portal info)) (ParseIPSloppy (ClusterIP s)) = true;
  cfg_externalIPs : externalIPs info = ExternalIPs s;
  cfg_status : LoadBalancerStatusEqual (loadBalancerStatus info) (LoadBalancerStatus s) = true;
  cfg_affinity : sessionAffinityType info = SessionAffinity s
}.

Definition info_of (st : store) (sp : ServicePortName) (info : ServiceInfo) : Prop :=
  exists s p, port_of st sp s p /\ has_config info s p.

(** The service map holds the ports of the store's services, and nothing else. *)
Definition serves lb (st : store) : Prop :=
  forall sp, match serviceMap lb !! sp with
  | Some info => info_of st sp info
  | None => forall s p, ~ port_of st sp s p
  end.

(** ** Merging *)

Lemma IP_Equal_refl ip : IP_Equal ip ip = true.
Proof. unfold IP_Equal. rewrite decide_True by done. by apply bool_decide_eq_true. Qed.

Lemma ipsEqual_refl l : ipsEqual l l = true.
Proof.
  unfold ipsEqual. rewrite Nat.eqb_refl. simpl. induction l as [|x l IH]; [done|].
  simpl. by rewrite String.eqb_refl.
Qed.

Lemma ipsEqual_from_eq l l' : length l = length l' -> ipsEqual_from l l' = true -> l = l'.
Proof.
  revert l'. induction l as [|x l IH]; intros [|y l']; try done. simpl. intros [= Hl] [Hx Hr]%andb_true_iff.
  apply String.eqb_eq in Hx as ->. f_equal. by apply IH.
Qed.

Lemma ipsEqual_eq l l' : ipsEqual l l' = true -> l = l'.
Proof.
  unfold ipsEqual. destruct (length l =? length l')%nat eqn:E; [|done]. apply Nat.eqb_eq in E. by apply ipsEqual_from_eq.
Qed.

(** [sameConfig] compares exactly these. *)
Lemma sameConfig_has_config info s p :
  sameConfig ParseIPSloppy LoadBalancerStatusEqual info s p = true <-> has_config info s p.
Proof.
  unfold sameConfig. split.
  - intros Hs. repeat (case_match; [done|]). repeat match goal with
    | E : negb _ = false |- _ => apply negb_false_iff in E
    | E : orb _ _ = false |- _ => apply orb_false_iff in E as [? ?]
    | E : String.eqb _ _ = true |- _ => apply String.eqb_eq in E
    | E : (_ =? _) = true |- _ => apply Z.eqb_eq in E
    end.
    constructor; try done. by apply ipsEqual_eq.
  - intros [-> -> -> -> -> -> ->]. by rewrite !String.eqb_refl, !Z.eqb_refl, ipsEqual_refl.
Qed.

Lemma serviceMap_NewService lb sp t ttl : serviceMap (NewService lb sp t ttl) = serviceMap lb.
Proof. unfold NewService, newServiceInternal. by destruct (services lb !! sp). Qed.

Lemma changes_NewService lb sp t ttl :
  serviceChanges (NewService lb sp t ttl) = serviceChanges lb /\
  initialized (NewService lb sp t ttl) = initialized lb.
Proof. unfold NewService, newServiceInternal. by destruct (services lb !! sp). Qed.

Lemma merge_port_effect s lb ports p lb' ports' :
  merge_port ParseIPSloppy LoadBalancerStatusEqual s (lb, ports) p = Val (lb', ports') ->
  ports' = {[sp_Name p]} ∪ ports /\
  (exists info, serviceMap lb' !! svc_port (svcName_of s) (sp_Name p) = Some info /\
     has_config info s p) /\
  (forall sp, sp <> svc_port (svcName_of s) (sp_Name p) -> serviceMap lb' !! sp = serviceMap lb !! sp) /\
  serviceChanges lb' = serviceChanges lb /\ initialized lb' = initialized lb.
Proof.
  unfold merge_port. set (sn := svc_port (svcName_of s) (sp_Name p)).
  destruct (match serviceMap lb !! sn with Some _ => _ | None => _ end) eqn:E.
  - intros Heq. injection Heq as <- <-. destruct (serviceMap lb !! sn) as [info|] eqn:Ei; [|done].
    split; [done|]. split; [exists info; by rewrite <- sameConfig_has_config|]. done.
  - intros Hm. apply go_bind_Val_inv in Hm as (t & _ & Hm). injection Hm as <- <-. split; [done|].
    cbn [set_serviceMap serviceMap serviceChanges initialized].
    rewrite !serviceMap_NewService. cbn [set_serviceMap serviceMap].
    rewrite (proj1 (changes_NewService _ _ _ _)), (proj2 (changes_NewService _ _ _ _)).
    split; [|split; [|done]].
    + rewrite lookup_insert_eq. eexists. split; [done|].
      by constructor; simpl; rewrite ?IP_Equal_refl, ?status_refl.
    + intros sp Hne. by rewrite lookup_insert_ne, lookup_delete_ne.
Qed.

(** The ports named in a list of service ports. *)
Definition names (ps : list ServicePort) : gset string := list_to_set (map sp_Name ps).

Definition named sp s (ps : list ServicePort) : Prop :=
  exists p, p ∈ ps /\ sp = svc_port (svcName_of s) (sp_Name p).

Lemma merge_ports_effect s ps lb ports lb' ports' :
  go_fold (merge_port ParseIPSloppy LoadBalancerStatusEqual s) (lb, ports) ps = Val (lb', ports') ->
  ports' = names ps ∪ ports /\
  (forall sp, named sp s ps -> exists info p, serviceMap lb' !! sp = Some info /\ p ∈ ps /\
     sp = svc_port (svcName_of s) (sp_Name p) /\
     has_config info s p) /\
  (forall sp, ~ named sp s ps -> serviceMap lb' !! sp = serviceMap lb !! sp) /\
  serviceChanges lb' = serviceChanges lb /\ initialized lb' = initialized lb.
Proof.
  revert lb ports. induction ps as [|p ps IH]; intros lb ports Hf; cbn [go_fold] in Hf.
  - injection Hf as <- <-. split; [unfold names; set_solver|]. split; [|done].
    intros sp (p & Hp & _). by apply not_elem_of_nil in Hp.
  - apply go_bind_Val_inv in Hf as ([lb1 ports1] & H1 & Hf).
    destruct (merge_port_effect _ _ _ _ _ _ H1) as (-> & (info & Hinfo & Hsame) & Hoth & Hch & Hin).
    destruct (IH _ _ Hf) as (-> & Hset & Hkeep & Hch' & Hin').
    split; [unfold names; set_solver|]. split; [|split; [|split; congruence]].
    + intros sp Hn. destruct (decide (Exists (fun q => sp = svc_port (svcName_of s) (sp_Name q)) ps)) as [Hd|Hd].
      * apply list.Exists_exists in Hd as (q & Hq & Heq).
        destruct (Hset sp) as (info' & p' & ? & ? & ? & ?); [by exists q|].
        exists info', p'. split; [done|]. split; [by apply list_elem_of_further|done].
      * assert (Hno : ~ named sp s ps).
        { intros (q & Hq & Heq). apply Hd, list.Exists_exists. by exists q. }
        destruct Hn as (q & Hq & Heq). apply elem_of_cons in Hq as [->|Hq]; [|by destruct Hno; exists q].
        subst sp. exists info, p. rewrite Hkeep by done. split; [done|]. split; [apply list_elem_of_here|done].
    + intros sp Hno. rewrite Hkeep, Hoth; [done| |].
      * intros ->. apply Hno. exists p. split; [apply list_elem_of_here|done].
      * intros (q & Hq & Heq). apply Hno. exists q. split; [by apply list_elem_of_further|done].
Qed.

(** ** Unmerging *)

Lemma unmerge_port_effect s ex lb p sp :
  serviceMap (unmerge_port s ex lb p) !! sp =
    (if decide (sp = svc_port (svcName_of s) (sp_Name p) /\ sp_Name p ∉ ex) then None
     else serviceMap lb !! sp) /\
  serviceChanges (unmerge_port s ex lb p) = serviceChanges lb /\
  initialized (unmerge_port s ex lb p) = initialized lb.
Proof.
  unfold unmerge_port. case_bool_decide as Hex; [by rewrite decide_False by tauto|].
  destruct (serviceMap lb !! svc_port (svcName_of s) (sp_Name p)) eqn:E.
  - simpl. split; [|done]. rewrite lookup_delete. repeat case_decide; try done; exfalso; naive_solver.
  - split; [|done]. case_decide as Hd; [|done]. by destruct Hd as [-> _].
Qed.

Lemma unmerge_ports_effect s ex ps lb :
  let lb' := fold_left (unmerge_port s ex) ps lb in
  (forall sp, (exists p, p ∈ ps /\ sp = svc_port (svcName_of s) (sp_Name p) /\ sp_Name p ∉ ex) ->
     serviceMap lb' !! sp = None) /\
  (forall sp, ~ (exists p, p ∈ ps /\ sp = svc_port (svcName_of s) (sp_Name p) /\ sp_Name p ∉ ex) ->
     serviceMap lb' !! sp = serviceMap lb !! sp) /\
  serviceChanges lb' = serviceChanges lb /\ initialized lb' = initialized lb.
Proof.
  revert lb. induction ps as [|p ps IH]; intros lb; cbn [fold_left].
  - split; [intros sp (p & Hp & _); by apply not_elem_of_nil in Hp|done].
  - destruct (IH (unmerge_port s ex lb p)) as (Hdel & Hkeep & Hch & Hin). clear IH.
    pose proof (unmerge_port_effect s ex lb p) as Hp. cbv zeta in *.
    split; [|split; [|destruct (Hp (svc_port (mkNN "" "") "")) as (_ & ? & ?); split; congruence]].
    + intros sp (q & Hq & Heq & Hex). destruct (Hp sp) as [Hps _].
      destruct (decide (Exists (fun q => sp = svc_port (svcName_of s) (sp_Name q) /\ sp_Name q ∉ ex) ps)) as [Hd|Hd].
      * apply Hdel. apply list.Exists_exists in Hd as (q' & ? & ? & ?). by exists q'.
      * rewrite Hkeep; [|intros (q' & ? & ?); apply Hd, list.Exists_exists; by exists q'].
        rewrite Hps. apply elem_of_cons in Hq as [->|Hq]; [by rewrite decide_True|].
        destruct Hd. apply list.Exists_exists. by exists q.
    + intros sp Hno. destruct (Hp sp) as [Hps _]. rewrite Hkeep, Hps, decide_False; [done| |].
      * intros [Heq Hex]. apply Hno. exists p. split; [apply list_elem_of_here|done].
      * intros (q & Hq & ?). apply Hno. exists q. split; [by apply list_elem_of_further|done].
Qed.

(** ** One change *)

(** The service is served: it exists and is not skipped. *)
Definition active (os : option Service) : option Service :=
  match os with
  | Some s => if ShouldSkipService s then None else Some s
  | None => None
  end.

(** The ports a merge of [os] leaves in the service map. *)
Definition active_ports (os : option Service) : list ServicePort :=
  match active os with Some s => svc_Ports s | None => [] end.

Lemma mergeService_effect n lb os lb' ex :
  mergeService ShouldSkipService ParseIPSloppy LoadBalancerStatusEqual lb os = Val (lb', ex) ->
  (forall s, os = Some s -> svcName_of s = n) ->
  default ∅ ex = names (active_ports os) /\
  (forall sp p, p ∈ active_ports os -> sp = svc_port n (sp_Name p) ->
     exists s info p', active os = Some s /\ serviceMap lb' !! sp = Some info /\ p' ∈ svc_Ports s /\
       sp = svc_port n (sp_Name p') /\ has_config info s p') /\
  (forall sp, (forall p, p ∈ active_ports os -> sp <> svc_port n (sp_Name p)) ->
     serviceMap lb' !! sp = serviceMap lb !! sp) /\
  serviceChanges lb' = serviceChanges lb /\ initialized lb' = initialized lb.
Proof.
  unfold mergeService, active_ports, active. intros Hm Hn.
  destruct os as [s|]; [destruct (ShouldSkipService s)|].
  1, 3: injection Hm as <- <-; split; [done|]; split; [|done];
    intros sp p Hp; by apply not_elem_of_nil in Hp.
  apply go_bind_Val_inv in Hm as ([lb1 ports1] & Hf & Hm). injection Hm as <- <-.
  destruct (merge_ports_effect _ _ _ _ _ _ Hf) as (-> & Hset & Hkeep & Hch & Hin).
  specialize (Hn s eq_refl). unfold named in Hset, Hkeep. rewrite Hn in Hset, Hkeep.
  split; [simpl; set_solver|]. split; [|split; [|done]].
  - intros sp p Hp Heq. destruct (Hset sp) as (info & p' & ? & ? & ? & ?); [by exists p|].
    by exists s, info, p'.
  - intros sp Hno. apply Hkeep. intros (p & Hp & Heq). by apply (Hno p).
Qed.

Lemma unmergeService_effect n lb os ex :
  (forall s, os = Some s -> svcName_of s = n) ->
  let lb' := unmergeService ShouldSkipService lb os ex in
  (forall sp p, p ∈ active_ports os -> sp = svc_port n (sp_Name p) -> sp_Name p ∉ default ∅ ex ->
     serviceMap lb' !! sp = None) /\
  (forall sp, (forall p, p ∈ active_ports os -> sp = svc_port n (sp_Name p) -> sp_Name p ∈ default ∅ ex) ->
     serviceMap lb' !! sp = serviceMap lb !! sp) /\
  serviceChanges lb' = serviceChanges lb /\ initialized lb' = initialized lb.
Proof.
  intros Hn. unfold unmergeService, active_ports, active.
  destruct os as [s|]; [destruct (ShouldSkipService s)|].
  1, 3: split; [|done]; intros sp p Hp; by apply not_elem_of_nil in Hp.
  destruct (unmerge_ports_effect s (default ∅ ex) (svc_Ports s) lb) as (Hdel & Hkeep & Hch & Hin).
  specialize (Hn s eq_refl). rewrite Hn in Hdel, Hkeep. split; [|split; [|done]].
  - intros sp p Hp Heq Hex. apply Hdel. by exists p.
  - intros sp Hall. apply Hkeep. intros (p & Hp & Heq & Hex). by apply Hex, (Hall p).
Qed.

Lemma port_of_active st sp s p :
  port_of st sp s p <-> active (st !! spn_name sp) = Some s /\ p ∈ svc_Ports s /\
                        sp = svc_port (spn_name sp) (sp_Name p).
Proof.
  unfold port_of, active. destruct (st !! spn_name sp) as [s'|]; [|split; intros [? _]; done].
  destruct (ShouldSkipService s') eqn:E; split.
  - intros ([= ->] & Hs & _). congruence.
  - by intros [? _].
  - by intros ([= ->] & _ & ? & ?).
  - by intros ([= ->] & ? & ?).
Qed.

Lemma apply_change_serves n lb st change lb' :
  apply_change ShouldSkipService ParseIPSloppy LoadBalancerStatusEqual lb change = Val lb' ->
  serves lb st -> store_ok st -> previous change = st !! n ->
  (forall s, current change = Some s -> svcName_of s = n) ->
  serves lb' (partial_alter (fun _ => current change) n st) /\
  serviceChanges lb' = serviceChanges lb /\ initialized lb' = initialized lb.
Proof.
  unfold apply_change. intros Ha Hsv Hst Hprev Hcur.
  apply go_bind_Val_inv in Ha as ([lb1 ex] & Hm & Ha). injection Ha as <-.
  destruct (mergeService_effect n _ _ _ _ Hm Hcur) as (Hex & Hset & Hkeep & Hch & Hin).
  destruct (unmergeService_effect n lb1 (previous change) ex) as (Hdel & Hkeep' & Hch' & Hin').
  { intros s Hs. rewrite Hprev in Hs. by apply Hst. }
  split; [|split; congruence]. intros sp.
  destruct (decide (spn_name sp = n)) as [Hn|Hn].
  - destruct (decide (Exists (fun p => sp = svc_port n (sp_Name p)) (active_ports (current change)))) as [Hd|Hd].
    + apply list.Exists_exists in Hd as (p & Hp & Heq).
      destruct (Hset sp p Hp Heq) as (s & info & p' & Hact & Hlk & Hp' & Heq' & Hsame).
      rewrite Hkeep', Hlk.
      * exists s, p'. split; [|done]. apply port_of_active.
        rewrite Hn, lookup_partial_alter_eq. done.
      * intros q _ Hq. rewrite Hex. unfold names. apply elem_of_list_to_set, list_elem_of_fmap.
        exists p. split; [|done]. rewrite Hq in Heq. by apply svc_port_inj in Heq.
    + assert (Hno : forall p, p ∈ active_ports (current change) -> sp <> svc_port n (sp_Name p)).
      { intros p Hp Heq. apply Hd, list.Exists_exists. by exists p. }
      assert (Hnone : serviceMap (unmergeService ShouldSkipService lb1 (previous change) ex) !! sp = None).
      { specialize (Hsv sp). rewrite <- (Hkeep sp Hno) in Hsv.
        destruct (serviceMap lb1 !! sp) as [info|] eqn:E.
        - destruct Hsv as (s & p & Hp & _). apply port_of_active in Hp as (Hact & Hp & Heq).
          rewrite Hn in Hact, Heq. rewrite <- Hprev in Hact.
          apply (Hdel sp p); [unfold active_ports; by rewrite Hact|done|]. rewrite Hex. unfold names.
          rewrite elem_of_list_to_set, list_elem_of_fmap. intros (q & Hq & Hin_q).
          apply (Hno q Hin_q). by rewrite <- Hq.
        - destruct (decide (Exists (fun p => sp = svc_port n (sp_Name p) /\ sp_Name p ∉ default ∅ ex)
                             (active_ports (previous change)))) as [Hx|Hx].
          + apply list.Exists_exists in Hx as (p & ? & ? & ?). by apply (Hdel sp p).
          + rewrite Hkeep'; [done|]. intros p Hp Heq. destruct (decide (sp_Name p ∈ default ∅ ex)); [done|].
            destruct Hx. apply list.Exists_exists. by exists p. }
      rewrite Hnone. intros s p Hp. apply port_of_active in Hp as (Hact & Hp & Heq).
      rewrite Hn, lookup_partial_alter_eq in Hact. apply (Hno p); [|by rewrite Heq, Hn].
      unfold active_ports. by rewrite Hact.
  - assert (Hoff : forall p, sp <> svc_port n (sp_Name p)) by (intros p ->; by apply Hn).
    rewrite Hkeep', Hkeep; [|intros p _; apply Hoff|intros p _ Heq; by destruct (Hoff p)].
    specialize (Hsv sp). unfold info_of, port_of in *. rewrite lookup_partial_alter_ne by done. done.
Qed.

(** ** A batch of changes *)

(** The changes a sync has taken, or those that wait to be taken. *)
Abbreviation batch := (gmap NamespacedName serviceChange_).

Lemma apply_changes_serves (l : list (NamespacedName * serviceChange_)) lb synced lb' :
  go_fold (apply_change ShouldSkipService ParseIPSloppy LoadBalancerStatusEqual) lb l.*2 = Val lb' ->
  serves lb synced -> store_ok synced -> NoDup l.*1 ->
  (forall n c, (n, c) ∈ l -> previous c = synced !! n /\ forall s, current c = Some s -> svcName_of s = n) ->
  exists synced', serves lb' synced' /\ store_ok synced' /\ serviceChanges lb' = serviceChanges lb /\
    initialized lb' = initialized lb /\ (forall n c, (n, c) ∈ l -> synced' !! n = current c) /\
    forall n, n ∉ l.*1 -> synced' !! n = synced !! n.
Proof.
  revert lb synced. induction l as [|[n c] l IH]; intros lb synced Hf Hsv Hok Hnd Hl; simpl in Hf.
  - injection Hf as <-. exists synced. split_and!; try done. by intros n c ?%not_elem_of_nil.
  - apply go_bind_Val_inv in Hf as (lb1 & H1 & Hf). simpl in Hnd. apply NoDup_cons in Hnd as [Hn Hnd].
    destruct (Hl n c) as [Hprev Hcur]; [apply list_elem_of_here|].
    destruct (apply_change_serves n _ _ _ _ H1 Hsv Hok Hprev Hcur) as (Hsv1 & Hch1 & Hin1).
    set (synced1 := partial_alter (fun _ => current c) n synced) in *.
    assert (Hnot : forall m c', (m, c') ∈ l -> m <> n).
    { intros m c' Hin ->. apply Hn, list_elem_of_fmap. by exists (n, c'). }
    destruct (IH lb1 synced1 Hf Hsv1) as (synced' & Hsv' & Hok' & Hch' & Hin' & Hset & Hkeep); [|done| |].
    + intros n' s. unfold synced1. rewrite lookup_partial_alter. case_decide as Hd; [subst n'; apply Hcur|apply Hok].
    + intros m c' Hin. destruct (Hl m c') as [Hp' Hc']; [by apply list_elem_of_further|]. split; [|done].
      unfold synced1. rewrite lookup_partial_alter_ne; [done|]. intros ->. by eapply Hnot.
    + exists synced'. split_and!; try done; [congruence|congruence| |].
      * intros m c' [[= -> ->]|Hin]%elem_of_cons; [|by apply Hset]. rewrite Hkeep by done.
        unfold synced1. by rewrite lookup_partial_alter_eq.
      * intros m [Hne Hm]%not_elem_of_cons. rewrite Hkeep by done. unfold synced1. by rewrite lookup_partial_alter_ne.
Qed.

Lemma serviceMap_Cleanup now lb sp :
  serviceMap (CleanupStaleStickySessions now lb sp) = serviceMap lb /\
  serviceChanges (CleanupStaleStickySessions now lb sp) = serviceChanges lb /\
  initialized (CleanupStaleStickySessions now lb sp) = initialized lb.
Proof. unfold CleanupStaleStickySessions. by destruct (services lb !! sp). Qed.

Lemma serviceMap_cleanup now lb :
  serviceMap (cleanupStaleStickySessions now lb) = serviceMap lb /\
  serviceChanges (cleanupStaleStickySessions now lb) = serviceChanges lb /\
  initialized (cleanupStaleStickySessions now lb) = initialized lb.
Proof.
  unfold cleanupStaleStickySessions.
  apply (fold_left_inv (fun lb1 => serviceMap lb1 = serviceMap lb /\ serviceChanges lb1 = serviceChanges lb /\
           initialized lb1 = initialized lb)); [|done].
  intros lb1 sp _ (H1 & H2 & H3). destruct (serviceMap_Cleanup now lb1 sp) as (-> & -> & ->). done.
Qed.

(** The service after a batch. *)
Definition after (b : batch) (n : NamespacedName) (o : option Service) : option Service :=
  match b !! n with Some c => current c | None => o end.

Lemma process_changes_serves now lb (b : batch) synced lb' :
  process_changes ShouldSkipService ParseIPSloppy LoadBalancerStatusEqual now lb b = Val lb' ->
  serves lb synced -> store_ok synced ->
  (forall n c, b !! n = Some c -> previous c = synced !! n /\ forall s, current c = Some s -> svcName_of s = n) ->
  exists synced', serves lb' synced' /\ store_ok synced' /\ (forall n, synced' !! n = after b n (synced !! n)) /\
    serviceChanges lb' = serviceChanges lb /\ initialized lb' = initialized lb.
Proof.
  unfold process_changes. intros Hs Hsv Hok Hb. apply go_bind_Val_inv in Hs as (lb1 & Hf & [= <-]).
  destruct (apply_changes_serves _ _ synced _ Hf) as (synced' & Hsv' & Hok' & Hch & Hin & Hset & Hkeep);
    [done|done|apply NoDup_range_keys|intros n c Hc; by apply Hb, elem_of_range|].
  destruct (serviceMap_cleanup now lb1) as (Hm & Hc & Hi').
  exists synced'. split; [intros sp; rewrite Hm; apply Hsv'|]. split; [done|]. split; [|split; congruence].
  intros n. unfold after. destruct (b !! n) as [c|] eqn:E; [by apply Hset, elem_of_range|].
  apply Hkeep. rewrite elem_of_range_keys, E. by intros [].
Qed.

(** *** Batches in a row *)

(** The batches lead, each from where the last one ended, from [o] to [fin] for
    the service [n]. *)
Fixpoint chain (n : NamespacedName) (bs : list batch) (o fin : option Service) : Prop :=
  match bs with
  | [] => o = fin
  | b :: bs =>
      match b !! n with
      | Some c => previous c = o /\ (forall s, current c = Some s -> svcName_of s = n) /\ chain n bs (current c) fin
      | None => chain n bs o fin
      end
  end.

Lemma chain_app n bs bs' o fin : chain n (bs ++ bs') o fin <-> exists mid, chain n bs o mid /\ chain n bs' mid fin.
Proof.
  revert o. induction bs as [|b bs IH]; intros o; cbn [chain app].
  - split; [by exists o|]. by intros (mid & -> & ?).
  - destruct (b !! n) as [c|]; [|apply IH]. rewrite IH. naive_solver.
Qed.

Lemma list_delete_app_l {A} (l l' : list A) i : (i < length l)%nat -> delete i (l ++ l') = delete i l ++ l'.
Proof.
  revert i. induction l as [|x l IH]; intros i Hi; cbn in Hi; [lia|]. destruct i as [|i]; [done|].
  cbn. f_equal. apply IH. lia.
Qed.

(** A batch shares no service with those before it. *)
Definition may_go_first (bs : list batch) (i : nat) (b : batch) : Prop :=
  forall j b', (j < i)%nat -> bs !! j = Some b' -> b' ##ₘ b.

(** A batch that shares no service with those before it can be taken out. *)
Lemma chain_remove n bs i b o fin :
  chain n bs o fin -> bs !! i = Some b -> may_go_first bs i b ->
  (forall c, b !! n = Some c -> previous c = o /\ forall s, current c = Some s -> svcName_of s = n) /\
  chain n (delete i bs) (after b n o) fin.
Proof.
  revert i o. induction bs as [|b0 bs IH]; intros i o Hc Hi Hf; [done|]. unfold after.
  destruct i as [|i]; cbn [chain] in Hc.
  - injection Hi as ->. change (delete 0%nat (b :: bs)) with bs.
    destruct (b !! n) as [c|]; [|done]. destruct Hc as (Hp & Hn & Hc). split; [|done]. by intros ? [= <-].
  - change (delete (S i) (b0 :: bs)) with (b0 :: delete i bs). cbn [chain].
    assert (Hdisj : b0 ##ₘ b) by (apply (Hf 0%nat); [lia|done]).
    assert (Hf' : may_go_first bs i b) by (intros j b' Hj Hb'; apply (Hf (S j)); [lia|done]).
    destruct (b0 !! n) as [c0|] eqn:E0.
    + destruct Hc as (Hp & Hn & Hc). assert (Eb : b !! n = None) by (by eapply map_disjoint_Some_l).
      destruct (IH i _ Hc Hi Hf') as [_ Hrest]. unfold after in Hrest. rewrite Eb in Hrest. rewrite Eb. done.
    + by destruct (IH i _ Hc Hi Hf').
Qed.

(** ** Recording changes *)

(** The changes that wait for [n] lead from [mid] to [fin]. *)
Lemma chain_one n b mid fin :
  chain n [b] mid fin <-> match b !! n with
    | Some c => previous c = mid /\ (forall s, current c = Some s -> svcName_of s = n) /\ current c = fin
    | None => mid = fin end.
Proof. done. Qed.

Lemma serviceChange_chain lb o os lb' n mid :
  serviceChange lb o os = Val lb' -> chain n [serviceChanges lb] mid o ->
  (forall s, o = Some s -> svcName_of s = n) -> (forall s, os = Some s -> svcName_of s = n) ->
  chain n [serviceChanges lb'] mid os /\
  (forall m, m <> n -> serviceChanges lb' !! m = serviceChanges lb !! m) /\
  serviceMap lb' = serviceMap lb /\ initialized lb' = initialized lb.
Proof.
  unfold serviceChange. intros Hs Hc Ho Hos. apply go_bind_Val_inv in Hs as (n' & Hn' & Hs).
  assert (n' = n) as ->.
  { destruct os as [s|]; [injection Hn' as <-; by apply Hos|]. destruct o; [|done]. injection Hn' as <-. by apply Ho. }
  assert (Hch : match serviceChanges lb !! n with
    | Some c => mkServiceChange os (previous c) | None => mkServiceChange os o end = mkServiceChange os mid).
  { rewrite chain_one in Hc. destruct (serviceChanges lb !! n); [by destruct Hc as [-> _]|by subst]. }
  rewrite Hch in Hs. cbn [previous current] in Hs. rewrite chain_one.
  destruct (decide (mid = os)) as [Heq|Hne]; injection Hs as <-; cbn.
  - split; [by rewrite lookup_delete_eq|]. split; [|done]. intros m Hm. by rewrite lookup_delete_ne.
  - split; [by rewrite lookup_insert_eq|]. split; [|done]. intros m Hm. by rewrite lookup_insert_ne.
Qed.

(** ** The load balancer beside the cluster *)

(** The store of the service informer, the load balancer, and the batches that
    calls of [syncServices] have taken and not processed yet, in the order in
    which they were taken.  [overtaken] says whether a batch was ever processed
    before an older one with a change of the same service. *)
Record sys : Type := mkSys {
  sys_store : store;
  sys_lb : LoadBalancer R;
  in_flight : list batch;
  overtaken : bool
}.

Definition overtakes (bs : list batch) (i : nat) (b : batch) : bool :=
  negb (bool_decide (Forall (fun b' => b' ##ₘ b) (take i bs))).

(** The informer changes its store and calls the handler; several goroutines
    may be in [syncServices], whose two critical sections are steps of their
    own; every other operation leaves the service map and the recorded changes
    alone. *)
Inductive sys_step : sys -> sys -> Prop :=
| sys_add st lb bs ov s lb' :
    st !! svcName_of s = None -> OnServiceAdd lb s = Val lb' ->
    sys_step (mkSys st lb bs ov) (mkSys (<[svcName_of s := s]> st) lb' bs ov)
| sys_update st lb bs ov o s lb' :
    svcName_of o = svcName_of s -> st !! svcName_of s = Some o -> OnServiceUpdate lb o s = Val lb' ->
    sys_step (mkSys st lb bs ov) (mkSys (<[svcName_of s := s]> st) lb' bs ov)
| sys_delete st lb bs ov s lb' :
    st !! svcName_of s = Some s -> OnServiceDelete lb s = Val lb' ->
    sys_step (mkSys st lb bs ov) (mkSys (delete (svcName_of s) st) lb' bs ov)
| sys_take st lb bs ov :
    initialized lb = true ->
    sys_step (mkSys st lb bs ov) (mkSys st (take_changes lb).1 (bs ++ [(take_changes lb).2]) ov)
| sys_process st lb bs ov now i b lb' :
    bs !! i = Some b ->
    process_changes ShouldSkipService ParseIPSloppy LoadBalancerStatusEqual now lb b = Val lb' ->
    sys_step (mkSys st lb bs ov) (mkSys st lb' (delete i bs) (ov || overtakes bs i b))
| sys_services_synced st lb bs ov : sys_step (mkSys st lb bs ov) (mkSys st (OnServiceSynced lb) bs ov)
| sys_endpoints_synced st lb bs ov : sys_step (mkSys st lb bs ov) (mkSys st (OnEndpointsSynced lb) bs ov)
| sys_other st lb bs ov lb' :
    serviceMap lb' = serviceMap lb -> serviceChanges lb' = serviceChanges lb ->
    initialized lb' = initialized lb -> sys_step (mkSys st lb bs ov) (mkSys st lb' bs ov).

(** As long as nothing was overtaken, the batches in flight and the changes
    that wait lead from what is served to the store. *)
Definition sys_ok (x : sys) : Prop :=
  store_ok (sys_store x) /\
  (overtaken x = false -> exists synced, store_ok synced /\ serves (sys_lb x) synced /\
     forall n, chain n (in_flight x ++ [serviceChanges (sys_lb x)]) (synced !! n) (sys_store x !! n)).

Lemma store_ok_insert st s : store_ok st -> store_ok (<[svcName_of s := s]> st).
Proof. intros Hst n s'. rewrite lookup_insert. case_decide as Hd; [intros [= <-]; done|apply Hst]. Qed.

Lemma store_ok_delete st n : store_ok st -> store_ok (delete n st).
Proof. intros Hst n' s'. rewrite lookup_delete. case_decide; [done|apply Hst]. Qed.

Lemma sys_ok_change st lb bs ov lb' n os :
  sys_ok (mkSys st lb bs ov) -> serviceChange lb (st !! n) os = Val lb' -> (forall s, os = Some s -> svcName_of s = n) ->
  store_ok (partial_alter (fun _ => os) n st) -> sys_ok (mkSys (partial_alter (fun _ => os) n st) lb' bs ov).
Proof.
  intros [Hst Hex] Hc Hos Hst'. split; [done|]. cbn in *. intros Hov.
  destruct (Hex Hov) as (synced & Hok & Hsv & Hp). exists synced. split; [done|].
  assert (Hn : forall mid, chain n [serviceChanges lb] mid (st !! n) -> chain n [serviceChanges lb'] mid os /\
     (forall m, m <> n -> serviceChanges lb' !! m = serviceChanges lb !! m) /\ serviceMap lb' = serviceMap lb).
  { intros mid Hm. destruct (serviceChange_chain _ _ _ _ n mid Hc Hm) as (? & ? & ? & _); [by apply Hst|done|done]. }
  pose proof (Hp n) as Hpn. apply chain_app in Hpn as (mid & Hbs & Hw). destruct (Hn mid Hw) as (Hw' & Hoth & Hm).
  split; [intros sp; rewrite Hm; apply Hsv|]. intros m. destruct (decide (m = n)) as [->|Hne].
  - rewrite lookup_partial_alter_eq. apply chain_app. by exists mid.
  - rewrite lookup_partial_alter_ne by done. specialize (Hp m). apply chain_app in Hp as (mid' & Hbs' & Hw'').
    apply chain_app. exists mid'. split; [done|]. rewrite chain_one, Hoth by done. exact Hw''.
Qed.

Lemma overtakes_false bs i b : overtakes bs i b = false -> may_go_first bs i b.
Proof.
  unfold overtakes. intros Hb%negb_false_iff%bool_decide_eq_true. rewrite list.Forall_forall in Hb.
  intros j b' Hj Hlk. apply Hb, list_elem_of_lookup. exists j. by rewrite lookup_take_lt.
Qed.

Lemma sys_process_ok st lb bs ov now i b lb' :
  sys_ok (mkSys st lb bs ov) -> bs !! i = Some b ->
  process_changes ShouldSkipService ParseIPSloppy LoadBalancerStatusEqual now lb b = Val lb' ->
  sys_ok (mkSys st lb' (delete i bs) (ov || overtakes bs i b)).
Proof.
  intros [Hst Hex] Hi Hp. split; [done|]. cbn in *. intros [Hov Hno%overtakes_false]%orb_false_iff.
  destruct (Hex Hov) as (synced & Hok & Hsv & Hc).
  assert (Hlt : (i < length bs)%nat) by (by eapply lookup_lt_Some).
  assert (Hi' : (bs ++ [serviceChanges lb]) !! i = Some b) by (by rewrite lookup_app_l).
  assert (Hno' : may_go_first (bs ++ [serviceChanges lb]) i b).
  { intros j b' Hj Hlk. rewrite lookup_app_l in Hlk by lia. by apply (Hno j). }
  destruct (process_changes_serves _ _ _ _ _ Hp Hsv Hok) as (synced' & Hsv' & Hok' & Hs' & Hch & _).
  { intros n. exact (proj1 (chain_remove _ _ _ _ _ _ (Hc n) Hi' Hno')). }
  exists synced'. split; [done|]. split; [done|]. intros n. rewrite Hs', Hch.
  pose proof (proj2 (chain_remove _ _ _ _ _ _ (Hc n) Hi' Hno')) as Hrest. by rewrite list_delete_app_l in Hrest.
Qed.

Lemma sys_step_ok x y : sys_step x y -> sys_ok x -> sys_ok y.
Proof.
  destruct 1 as [st lb bs ov s lb' Hno Ha|st lb bs ov o s lb' Hn Ho Hu|st lb bs ov s lb' Hs Hd|st lb bs ov Hi|
                 st lb bs ov now i b lb' Hi Hp|st lb bs ov|st lb bs ov|st lb bs ov lb' Hm Hc Hi];
    intros Hok; pose proof Hok as [Hst Hex].
  - apply (sys_ok_change st lb bs ov lb' (svcName_of s) (Some s)); [done|by rewrite Hno|by intros ? [= <-]|].
    by apply store_ok_insert.
  - apply (sys_ok_change st lb bs ov lb' (svcName_of s) (Some s)); [done|by rewrite Ho|by intros ? [= <-]|].
    by apply store_ok_insert.
  - apply (sys_ok_change st lb bs ov lb' (svcName_of s) None); [done|by rewrite Hs|done|].
    by apply store_ok_delete.
  - split; [done|]. intros Hov. destruct (Hex Hov) as (synced & Hok' & Hsv & Hp). exists synced.
    split; [done|]. split; [done|]. intros n. cbn in *. rewrite chain_app. exists (st !! n). split; [apply Hp|done].
  - by eapply sys_process_ok.
  - done.
  - done.
  - split; [done|]. intros Hov. destruct (Hex Hov) as (synced & Hok' & Hsv & Hp). exists synced. cbn in *.
    unfold serves. rewrite Hm, Hc. done.
Qed.

(** The load balancer is made, and nothing has happened yet. *)
Definition sys_start (config : LbConfig) : sys := mkSys ∅ (New config) [] false.

Lemma sys_start_ok config : sys_ok (sys_start config).
Proof.
  split; [by intros n s|]. intros _. exists ∅. split; [by intros n s|]. split.
  - intros sp. cbn. rewrite lookup_empty. intros s p [Hs _]. by rewrite lookup_empty in Hs.
  - intros n. cbn. by rewrite !lookup_empty.
Qed.

Lemma sys_reachable_ok config x : rtc sys_step (sys_start config) x -> sys_ok x.
Proof.
  intros Hr. pose proof (sys_start_ok config) as Hok. revert Hr Hok. generalize (sys_start config). intros x0 Hr.
  induction Hr as [x0|x0 x1 x2 Hs _ IH]; [done|]. intros Hok. apply IH. by eapply sys_step_ok.
Qed.

(** Nothing is in flight and nothing waits: the store is served. *)
Lemma settled_serves x :
  sys_ok x -> overtaken x = false -> in_flight x = [] -> serviceChanges (sys_lb x) = ∅ ->
  serves (sys_lb x) (sys_store x).
Proof.
  intros [_ Hex] Hov Hf Hc. destruct (Hex Hov) as (synced & _ & Hsv & Hp). rewrite Hf, Hc in Hp.
  assert (synced = sys_store x) as <-; [|done]. apply map_eq. intros n. specialize (Hp n). cbn in Hp.
  by rewrite lookup_empty in Hp.
Qed.

(** A sync without interruption is two steps. *)
Lemma syncServices_steps now st lb ov lb' :
  initialized lb = true ->
  syncServices ShouldSkipService ParseIPSloppy LoadBalancerStatusEqual now lb = Val lb' ->
  rtc sys_step (mkSys st lb [] ov) (mkSys st lb' [] ov).
Proof.
  unfold syncServices, isInitialized. intros Hi Hs. rewrite Hi in Hs. cbn [negb] in Hs.
  eapply rtc_l; [by apply sys_take|]. apply rtc_once.
  pose proof (sys_process st (take_changes lb).1 [(take_changes lb).2] ov now 0%nat _ lb' eq_refl Hs) as Hstep.
  cbn in Hstep. by rewrite orb_false_r in Hstep.
Qed.

Lemma process_changes_changes now lb b lb' :
  process_changes ShouldSkipService ParseIPSloppy LoadBalancerStatusEqual now lb b = Val lb' ->
  serviceChanges lb' = serviceChanges lb /\ initialized lb' = initialized lb.
Proof.
  unfold process_changes. intros Hs. apply go_bind_Val_inv in Hs as (lb1 & Hf & [= <-]).
  destruct (serviceMap_cleanup now lb1) as (_ & -> & ->).
  refine (go_fold_inv (fun l => serviceChanges l = serviceChanges lb /\ initialized l = initialized lb) _ _ lb _ _ _ Hf); [|done].
  intros lb2 c lb3 _ [<- <-] Hc. unfold apply_change in Hc.
  apply go_bind_Val_inv in Hc as ([lb4 ex] & Hm & [= <-]). unfold mergeService in Hm.
  assert (Hu : forall (l : LoadBalancer R) os e, serviceChanges (unmergeService ShouldSkipService l os e) = serviceChanges l /\
                           initialized (unmergeService ShouldSkipService l os e) = initialized l).
  { intros l [s|] e; [|done]. unfold unmergeService. destruct (ShouldSkipService s); [done|].
    by destruct (unmerge_ports_effect s (default ∅ e) (svc_Ports s) l) as (_ & _ & -> & ->). }
  destruct (Hu lb4 (previous c) ex) as [-> ->].
  destruct (current c) as [s|]; [|by injection Hm as <- <-]. destruct (ShouldSkipService s); [by injection Hm as <- <-|].
  apply go_bind_Val_inv in Hm as ([lb5 ports] & Hg & [= <- <-]).
  by destruct (merge_ports_effect _ _ _ _ _ _ Hg) as (_ & _ & _ & -> & ->).
Qed.

(** A sync without interruption, when no other one is under way. *)
Lemma syncServices_serves config x now lb' :
  rtc sys_step (sys_start config) x -> overtaken x = false -> in_flight x = [] -> initialized (sys_lb x) = true ->
  syncServices ShouldSkipService ParseIPSloppy LoadBalancerStatusEqual now (sys_lb x) = Val lb' ->
  serviceChanges lb' = ∅ /\ serves lb' (sys_store x).
Proof.
  intros Hr Hov Hf Hi Hs. destruct x as [st lb bs ov]. cbn in *. subst bs ov.
  assert (Hc : serviceChanges lb' = ∅).
  { unfold syncServices, isInitialized in Hs. rewrite Hi in Hs. cbn [negb] in Hs.
    by destruct (process_changes_changes _ _ _ _ Hs) as [-> _]. }
  split; [done|]. apply (settled_serves (mkSys st lb' [] false)); [|done..].
  apply (sys_reachable_ok config). etrans; [exact Hr|]. by eapply syncServices_steps.
Qed.

(** C2. The load balancer follows the cluster.  Let service events arrive in any
    order, coalesced or not, while several goroutines are in [syncServices], and
    suppose that no goroutine processed the changes it took before older changes
    of the same service that another one had taken.  Then whenever no changes are
    in flight and none wait, the service map has exactly the ports of the
    services the cluster has now (and that are not to be skipped), each with the
    protocol, numbers, addresses, load balancer state and kind of session
    affinity of its service; and a sync of the initialised load balancer that
    runs alone leaves it so, and no change over.  Without the condition it is
    false: see [overtaken_change_stays]; and the length of a session is not
    followed: see [sticky_timeout_stays]. *)
Theorem sync_follows_cluster config x :
  rtc sys_step (sys_start config) x -> overtaken x = false -> in_flight x = [] ->
  let follows lb := forall sp, match serviceMap lb !! sp with
    | Some info => exists s p, port_of (sys_store x) sp s p /\ has_config info s p
    | None => forall s p, ~ port_of (sys_store x) sp s p
    end in
  (serviceChanges (sys_lb x) = ∅ -> follows (sys_lb x)) /\
  forall now lb', initialized (sys_lb x) = true ->
    syncServices ShouldSkipService ParseIPSloppy LoadBalancerStatusEqual now (sys_lb x) = Val lb' ->
    serviceChanges lb' = ∅ /\ follows lb'.
Proof.
  intros Hr Hov Hf follows. split.
  - intros Hc. exact (settled_serves _ (sys_reachable_ok _ _ Hr) Hov Hf Hc).
  - intros now lb' Hi Hs. exact (syncServices_serves _ _ _ _ Hr Hov Hf Hi Hs).
Qed.

(** Successive changes of one service, the first one from [o]. *)
Fixpoint service_changes lb (o : option Service) (os : list (option Service)) : go (LoadBalancer R) :=
  match os with
  | [] => Val lb
  | x :: os' => let! lb := serviceChange lb o x in service_changes lb x os'
  end.

(** What is recorded for a service that was [o] and is [x] now. *)
Definition net_change (o x : option Service) : option serviceChange_ :=
  if decide (o = x) then None else Some (mkServiceChange x o).

Definition all_named n (os : list (option Service)) : Prop :=
  Forall (fun x => forall s, x = Some s -> svcName_of s = n) os.

Lemma serviceChange_record n lb o cur x lb' :
  serviceChange lb cur x = Val lb' -> all_named n [cur; x] -> serviceChanges lb !! n = net_change o cur ->
  serviceChanges lb' !! n = net_change o x /\
  forall m, m <> n -> serviceChanges lb' !! m = serviceChanges lb !! m.
Proof.
  unfold serviceChange. intros Hs Hn Hrec. inversion_clear Hn as [|? ? Hcur Hn']. inversion_clear Hn' as [|? ? Hx _].
  apply go_bind_Val_inv in Hs as (n' & Hn' & Hs).
  assert (n' = n) as -> by (destruct x, cur; simplify_eq; auto).
  assert (Hc : match serviceChanges lb !! n with
    | Some c => mkServiceChange x (previous c) | None => mkServiceChange x cur end = mkServiceChange x o).
  { rewrite Hrec. unfold net_change. by destruct (decide (o = cur)) as [->|]. }
  rewrite Hc in Hs. simpl in Hs. unfold net_change.
  destruct (decide (o = x)); injection Hs as <-; simpl.
  - split; [by rewrite lookup_delete_eq|]. intros m Hm. by rewrite lookup_delete_ne.
  - split; [by rewrite lookup_insert_eq|]. intros m Hm. by rewrite lookup_insert_ne.
Qed.

Lemma service_changes_record n lb o cur os lb' :
  service_changes lb cur os = Val lb' -> all_named n (cur :: os) -> serviceChanges lb !! n = net_change o cur ->
  serviceChanges lb' !! n = net_change o (default cur (last os)) /\
  forall m, m <> n -> serviceChanges lb' !! m = serviceChanges lb !! m.
Proof.
  revert lb cur. induction os as [|x os IH]; intros lb cur Hs Hn Hrec; cbn [service_changes] in Hs.
  - by injection Hs as <-.
  - apply go_bind_Val_inv in Hs as (lb1 & H1 & Hs).
    inversion_clear Hn as [|? ? Hcur Hn']. inversion Hn' as [|? ? Hx Hos]; subst.
    destruct (serviceChange_record n _ o _ _ _ H1) as [Hr1 Ho1]; [|done|].
    { constructor; [done|]. constructor; [done|constructor]. }
    destruct (IH lb1 x Hs Hn' Hr1) as [Hr Ho]. split.
    + rewrite Hr. destruct os as [|y os]; [done|]. f_equal.
      change (last (x :: y :: os)) with (last (y :: os)).
      destruct (last (y :: os)) as [z|] eqn:E; [done|]. by apply last_None in E.
    + intros m Hm. by rewrite Ho, Ho1.
Qed.

(** Service changes are coalesced: after a sequence of changes of one
    service, each starting from where the last one ended, exactly the change
    from the first to the last state is recorded, and none if the two are
    equal; the records of other services are untouched. *)
Theorem changes_coalesce n lb o os lb' :
  serviceChanges lb !! n = None -> all_named n (o :: os) -> service_changes lb o os = Val lb' ->
  serviceChanges lb' !! n = net_change o (default o (last os)) /\
  forall m, m <> n -> serviceChanges lb' !! m = serviceChanges lb !! m.
Proof.
  intros Hno Hn Hs. apply (service_changes_record n lb o o os lb' Hs Hn).
  rewrite Hno. unfold net_change. by rewrite decide_True.
Qed.

(** ** Stale sessions *)

Lemma services_Cleanup now lb sp sp' :
  services (CleanupStaleStickySessions now lb sp) !! sp' =
    if decide (sp = sp') then cleanup_state now <$> services lb !! sp' else services lb !! sp'.
Proof.
  unfold CleanupStaleStickySessions. destruct (services lb !! sp) as [s|] eqn:E; simpl.
  - rewrite lookup_insert. case_decide as Hd; [|done]. subst sp'. by rewrite E.
  - case_decide as Hd; [|done]. subst sp'. by rewrite E.
Qed.

Definition fresh_sessions (now : Z) (s : balancerState) : Prop :=
  forall k a, affinityMap (affinity s) !! k = Some a ->
    seconds_since now (lastUsed a) < ttlSeconds (affinity s).

Lemma cleanup_state_fresh now s : fresh_sessions now (cleanup_state now s).
Proof.
  intros k a. rewrite cleanup_state_lookup. destruct (affinityMap (affinity s) !! k) as [b|]; [|done].
  destruct (_ <=? _) eqn:E; [done|]. intros [= <-]. zbool. done.
Qed.

Lemma cleanup_all_fresh now names_ lb sp s :
  services (fold_left (CleanupStaleStickySessions now) names_ lb) !! sp = Some s -> sp ∈ names_ ->
  fresh_sessions now s.
Proof.
  revert lb. induction names_ as [|x l IH]; intros lb Hs Hin; [by apply not_elem_of_nil in Hin|].
  simpl in Hs. destruct (decide (sp ∈ l)) as [Hl|Hl]; [by eapply IH|].
  assert (sp = x) as -> by (apply elem_of_cons in Hin as [|]; done).
  assert (Hkeep : forall l lb, x ∉ l ->
    services (fold_left (CleanupStaleStickySessions now) l lb) !! x = services lb !! x).
  { clear. intros l. induction l as [|y l IH]; intros lb Hx; [done|]. simpl.
    apply not_elem_of_cons in Hx as [Hne Hx]. rewrite IH, services_Cleanup by done. by rewrite decide_False. }
  rewrite Hkeep, services_Cleanup, decide_True in Hs by done.
  destruct (services lb !! x) as [s0|]; [|done]. injection Hs as <-. apply cleanup_state_fresh.
Qed.

(** A sync of the initialised load balancer forgets every client whose
    entry has outlived its time to live: for each port of the service map, the
    sessions left have been used less than that many seconds ago. *)
Theorem sync_drops_stale_sessions now lb lb' sp s :
  initialized lb = true ->
  syncServices ShouldSkipService ParseIPSloppy LoadBalancerStatusEqual now lb = Val lb' ->
  is_Some (serviceMap lb' !! sp) -> services lb' !! sp = Some s ->
  forall client a, affinityMap (affinity s) !! client = Some a ->
    seconds_since now (lastUsed a) < ttlSeconds (affinity s).
Proof.
  unfold syncServices, isInitialized. intros Hi Hs Hm Hsv. rewrite Hi in Hs. cbn [negb take_changes] in Hs.
  unfold process_changes in Hs. apply go_bind_Val_inv in Hs as (lb1 & _ & Hs). injection Hs as <-.
  destruct (serviceMap_cleanup now lb1) as (Hm' & _). rewrite Hm' in Hm.
  apply (cleanup_all_fresh now ((range (serviceMap lb1)).*1) lb1 sp s Hsv). by apply elem_of_range_keys.
Qed.

(** ** Looking a port up *)

Lemma NoDup_map_inj {A B} (l : list A) (f : A -> B) x y :
  NoDup (map f l) -> x ∈ l -> y ∈ l -> f x = f y -> x = y.
Proof.
  intros Hnd Hx Hy Heq. apply list_elem_of_lookup in Hx as [i Hi], Hy as [j Hj].
  assert (Hfi : map f l !! i = Some (f x)) by (by rewrite list_lookup_fmap, Hi).
  assert (Hfj : map f l !! j = Some (f x)) by (by rewrite list_lookup_fmap, Hj, Heq).
  assert (i = j) as -> by (by eapply NoDup_lookup). congruence.
Qed.

(** After a sync that runs alone, [GetServicePortName] finds a port of a service by its
    number exactly when the service has, among the ports the cluster lists, a
    port with this number, and it returns the name of such a port. *)
Theorem GetServicePortName_cluster config x now lb' n port :
  rtc sys_step (sys_start config) x -> overtaken x = false -> in_flight x = [] -> initialized (sys_lb x) = true ->
  syncServices ShouldSkipService ParseIPSloppy LoadBalancerStatusEqual now (sys_lb x) = Val lb' ->
  let st := sys_store x in
  (forall s, st !! n = Some s -> NoDup (map sp_Name (svc_Ports s))) ->
  match GetServicePortName lb' n port with
  | Some sp => spn_name sp = n /\ exists s p, port_of st sp s p /\ sp_Port p = port
  | None => forall sp s p, spn_name sp = n -> port_of st sp s p -> sp_Port p <> port
  end.
Proof.
  intros Hr Hov Hf Hi Hs st Huniq. destruct (syncServices_serves _ _ _ _ Hr Hov Hf Hi Hs) as [_ Hsv'].
  unfold GetServicePortName. destruct (List.find _ _) as [[sp info]|] eqn:Ef.
  - apply find_some in Ef as [Hin Hb]. apply list_elem_of_In, elem_of_range in Hin.
    apply andb_true_iff in Hb as [Hn Hport]. apply bool_decide_eq_true in Hn. zbool. split; [done|].
    specialize (Hsv' sp). rewrite Hin in Hsv'. destruct Hsv' as (s & p & Hpo & Hsame).
    exists s, p. split; [done|]. apply cfg_port in Hsame. congruence.
  - intros sp s p Hn Hpo Hport. pose proof (Hsv' sp) as Hsp.
    destruct (serviceMap lb' !! sp) as [info|] eqn:E; [|by apply (Hsp s p)].
    destruct Hsp as (s' & p' & Hpo' & Hsame). apply cfg_port in Hsame.
    destruct Hpo as (Hs1 & _ & Hp1 & Hn1), Hpo' as (Hs2 & _ & Hp2 & Hn2).
    unfold st in Hs1. assert (s' = s) as -> by congruence. rewrite Hn in Hs1.
    assert (p' = p) as ->.
    { apply (NoDup_map_inj (svc_Ports s) sp_Name); [by apply Huniq|done|done|].
      rewrite Hn1 in Hn2. by apply svc_port_inj in Hn2. }
    apply find_none with (x := (sp, info)) in Ef; [|by apply list_elem_of_In, elem_of_range].
    apply andb_false_iff in Ef as [Hq|Hq]; [by apply bool_decide_eq_false in Hq|]. zbool. lia.
Qed.
End sync.

(** ** A concrete run *)

Definition demo_service : Service :=
  mkService "default" "web" "10.96.0.10" "ClusterIP" [mkServicePort "http" "TCP" 80 0] [] "ClientIP"
    (Some (Some (Some 60))) [] [("resourceVersion", "7")].

Definition never_skip (_ : Service) : bool := false.
Definition parse_ip (s : string) : list Z := default [] (ParseIP s).
Definition status_equal (x y : list (string * string)) : bool := bool_decide (x = y).

Lemma status_equal_refl l : status_equal l l = true.
Proof. by apply bool_decide_eq_true. Qed.

(** Both controllers have synced and the service has been added. *)
Definition demo_added : LoadBalancer list_ring :=
  get (New demo_config) (OnServiceAdd (OnEndpointsSynced (OnServiceSynced (New demo_config))) demo_service).
Definition demo_synced : LoadBalancer list_ring :=
  get demo_added (syncServices never_skip parse_ip status_equal 0 demo_added).
Definition demo_store : gmap NamespacedName Service := {[mkNN "default" "web" := demo_service]}.

Definition demo_sys : sys := mkSys demo_store demo_added [] false.

Lemma demo_added_reachable :
  rtc (sys_step never_skip parse_ip status_equal) (sys_start demo_config) demo_sys.
Proof.
  eapply rtc_l; [apply sys_services_synced|]. eapply rtc_l; [apply sys_endpoints_synced|].
  apply rtc_once.
  refine (sys_add _ _ _ ∅ (OnEndpointsSynced (OnServiceSynced (New demo_config))) [] false demo_service demo_added _ _).
  - reflexivity.
  - vm_compute. reflexivity.
Qed.

Lemma sync_follows_cluster_witness :
  serviceChanges demo_synced = ∅ /\
  forall sp, match serviceMap demo_synced !! sp with
  | Some info => exists s p, port_of never_skip demo_store sp s p /\ has_config parse_ip status_equal info s p
  | None => forall s p, ~ port_of never_skip demo_store sp s p
  end.
Proof.
  refine (proj2 (sync_follows_cluster never_skip parse_ip status_equal status_equal_refl demo_config demo_sys
            demo_added_reachable eq_refl eq_refl) 0 demo_synced _ _).
  - reflexivity.
  - vm_compute. reflexivity.
Defined.

(** ** A change that is overtaken

    Two goroutines are in [syncServices].  The first takes the addition of a
    service, the second the update of its port, and the second is the first to
    get [mu].  When both are done nothing waits, and the service map has the port
    that the service had at first. *)
Definition demo_web (port : Z) (sticky : Z) : Service :=
  mkService "default" "web" "10.96.0.10" "ClusterIP" [mkServicePort "http" "TCP" port 0] [] "ClientIP"
    (Some (Some (Some sticky))) [] [].

Definition race_ready : LoadBalancer list_ring := OnEndpointsSynced (OnServiceSynced (New demo_config)).
Definition race_added : LoadBalancer list_ring := get race_ready (OnServiceAdd race_ready (demo_web 80 60)).
Definition race_updated : LoadBalancer list_ring :=
  get race_ready (OnServiceUpdate (take_changes race_added).1 (demo_web 80 60) (demo_web 8080 60)).
Definition race_second : LoadBalancer list_ring :=
  get race_ready (process_changes never_skip parse_ip status_equal 0 (take_changes race_updated).1 (take_changes race_updated).2).
Definition race_first : LoadBalancer list_ring :=
  get race_ready (process_changes never_skip parse_ip status_equal 0 race_second (take_changes race_added).2).

Definition race_store : gmap NamespacedName Service := {[mkNN "default" "web" := demo_web 8080 60]}.

Lemma overtaken_change_stays :
  rtc (sys_step never_skip parse_ip status_equal) (sys_start demo_config) (mkSys race_store race_first [] true) /\
  serviceChanges race_first = ∅ /\
  match serviceMap race_first !! demo_port with Some info => portal_port (si_portal info) = 80 | None => False end.
Proof.
  split; [|vm_compute; done].
  eapply rtc_l; [apply sys_services_synced|]. eapply rtc_l; [apply sys_endpoints_synced|]. fold race_ready.
  eapply rtc_l; [apply (sys_add _ _ _ ∅ race_ready [] false (demo_web 80 60) race_added); [reflexivity|vm_compute; reflexivity]|].
  eapply rtc_l; [apply sys_take; vm_compute; reflexivity|].
  eapply rtc_l; [eapply (sys_update _ _ _ _ _ _ _ (demo_web 80 60) (demo_web 8080 60) race_updated); vm_compute; reflexivity|].
  eapply rtc_l; [apply sys_take; vm_compute; reflexivity|].
  eapply rtc_l; [apply (sys_process _ _ _ _ _ _ _ 0 1%nat (take_changes race_updated).2 race_second); [reflexivity|vm_compute; reflexivity]|].
  cbn [delete list_delete].
  eapply rtc_l; [apply (sys_process _ _ _ _ _ _ _ 0 0%nat (take_changes race_added).2 race_first); [reflexivity|vm_compute; reflexivity]|].
  match goal with |- rtc _ ?x ?y => assert (x = y) as -> end; [|apply rtc_refl].
  f_equal; vm_compute; reflexivity.
Qed.

(** An update that changes only how long a session lasts has no effect: the
    sync keeps the old time. *)
Definition sticky_before : LoadBalancer list_ring :=
  get race_ready (syncServices never_skip parse_ip status_equal 0 race_added).
Definition sticky_after : LoadBalancer list_ring :=
  get race_ready
    (let! lb := OnServiceUpdate sticky_before (demo_web 80 60) (demo_web 80 600) in
     syncServices never_skip parse_ip status_equal 0 lb).

Lemma sticky_timeout_stays :
  (stickyMaxAgeSeconds <$> serviceMap sticky_after !! demo_port) = Some 60 /\
  ((fun s => ttlSeconds (affinity s)) <$> services sticky_after !! demo_port) = Some 60.
Proof. vm_compute. done. Qed.

(** The service is added, updated and deleted again before any sync. *)
Definition demo_service2 : Service :=
  mkService "default" "web" "10.96.0.10" "ClusterIP" [mkServicePort "http" "TCP" 8080 0] [] "None" None [] [].

Lemma changes_coalesce_witness :
  let os := [Some demo_service; Some demo_service2; None] in
  let lb' := get (New demo_config) (service_changes (New demo_config : LoadBalancer list_ring) None os) in
  serviceChanges lb' !! mkNN "default" "web" = net_change None None /\
  forall m, m <> mkNN "default" "web" ->
    serviceChanges lb' !! m = serviceChanges (New demo_config : LoadBalancer list_ring) !! m.
Proof.
  intros os lb'. apply (changes_coalesce (mkNN "default" "web") (New demo_config) None os lb').
  - reflexivity.
  - constructor; [discriminate|]. constructor; [intros s [= <-]; reflexivity|].
    constructor; [intros s [= <-]; reflexivity|]. constructor; [discriminate|constructor].
  - vm_compute. reflexivity.
Defined.

(** A client that came at second 0 and a sync two hours and three hours later. *)
Definition demo_session_lb : LoadBalancer list_ring :=
  let s := mkBalancerState ["edge-1:web-a:10.0.0.1:80"] 0
             (mkAffinityPolicy "ClientIP"
               (<["10.1.1.1" := mkAffinityState "10.1.1.1" "edge-1:web-a:10.0.0.1:80" 0]>
                {["10.1.1.2" := mkAffinityState "10.1.1.2" "edge-1:web-a:10.0.0.1:80" 3600000000000]}) 10800) in
  set_services demo_synced {[demo_port := s]}.

Definition demo_session_lb' : LoadBalancer list_ring :=
  get demo_session_lb (syncServices never_skip parse_ip status_equal 10800000000000 demo_session_lb).

Definition demo_fresh_state : balancerState :=
  mkBalancerState ["edge-1:web-a:10.0.0.1:80"] 0
    (mkAffinityPolicy "ClientIP"
       {["10.1.1.2" := mkAffinityState "10.1.1.2" "edge-1:web-a:10.0.0.1:80" 3600000000000]} 10800).

Lemma sync_drops_stale_sessions_witness :
  services demo_session_lb' !! demo_port = Some demo_fresh_state /\
  forall client a, affinityMap (affinity demo_fresh_state) !! client = Some a ->
    seconds_since 10800000000000 (lastUsed a) < ttlSeconds (affinity demo_fresh_state).
Proof.
  assert (Hs : services demo_session_lb' !! demo_port = Some demo_fresh_state) by (vm_compute; reflexivity).
  split; [exact Hs|].
  refine (sync_drops_stale_sessions never_skip parse_ip status_equal 10800000000000
    demo_session_lb demo_session_lb' demo_port demo_fresh_state eq_refl _ _ Hs).
  - vm_compute. reflexivity.
  - vm_compute. eexists. reflexivity.
Defined.

Lemma GetServicePortName_cluster_witness :
  GetServicePortName demo_synced (mkNN "default" "web") 80 = Some demo_port /\
  (spn_name demo_port = mkNN "default" "web" /\
   exists s p, port_of never_skip demo_store demo_port s p /\ sp_Port p = 80).
Proof.
  split; [vm_compute; reflexivity|].
  refine (GetServicePortName_cluster never_skip parse_ip status_equal status_equal_refl demo_config demo_sys
    0 demo_synced (mkNN "default" "web") 80 demo_added_reachable eq_refl eq_refl eq_refl _ _).
  - vm_compute. reflexivity.
  - intros s Hs. cbn in Hs. unfold demo_store in Hs. apply lookup_singleton_Some in Hs as [_ <-]. apply NoDup_singleton.
Defined.
