(* ===== verification/LbHandlers.v ===== *)
(** * Event handlers and destination rules

    The informer callbacks of [src/pkg/loadbalancer/loadbalancer.go], the
    destination rule handlers, and the start-up flags that the service and the
    endpoints controller set concurrently. *)

From Stdlib Require Import ZArith Lia Ascii String.
From stdpp Require Import base list gmap sets sorting strings option relations.
From S2P Require Import Prelude GoStrings GoNet Config LbUtil LbPolicy LoadBalancer LbInvariant.

Local Open Scope Z_scope.

(** ** Informer callbacks

    A callback is given an [interface{}]; after a missed deletion the informer
    passes the last known object in a tombstone. *)
Inductive object : Type :=
| ObjService (s : Service)
| ObjEndpoints (e : Endpoints)
| ObjDestinationRule (dr : DestinationRule)
| DeletedFinalStateUnknown (obj : object)
| ObjOther.

Section handlers.
Context {R : Type} `{HashRing R} `{RangeOrder}.
Implicit Types lb : LoadBalancer R.
Context (ShuffleStrings : ServicePortName -> list string -> list string).

Definition handleAddService lb (obj : object) : go (LoadBalancer R) :=
  match obj with ObjService s => OnServiceAdd lb s | _ => Val lb end.

Definition handleUpdateService lb (oldObj newObj : object) : go (LoadBalancer R) :=
  match oldObj with
  | ObjService o => match newObj with ObjService s => OnServiceUpdate lb o s | _ => Val lb end
  | _ => Val lb
  end.

Definition handleDeleteService lb (obj : object) : go (LoadBalancer R) :=
  match obj with
  | ObjService s => OnServiceDelete lb s
  | DeletedFinalStateUnknown (ObjService s) => OnServiceDelete lb s
  | _ => Val lb
  end.

Definition handleAddEndpoints lb (obj : object) : go (LoadBalancer R) :=
  match obj with ObjEndpoints e => OnEndpointsAdd ShuffleStrings lb e | _ => Val lb end.

Definition handleUpdateEndpoints lb (oldObj newObj : object) : go (LoadBalancer R) :=
  match oldObj with
  | ObjEndpoints o => match newObj with ObjEndpoints e => OnEndpointsUpdate ShuffleStrings lb o e | _ => Val lb end
  | _ => Val lb
  end.

Definition handleDeleteEndpoints lb (obj : object) : go (LoadBalancer R) :=
  match obj with
  | ObjEndpoints e => OnEndpointsDelete lb e
  | DeletedFinalStateUnknown (ObjEndpoints e) => OnEndpointsDelete lb e
  | _ => Val lb
  end.

Definition handleAddDestinationRule lb (obj : object) : go (LoadBalancer R) :=
  match obj with ObjDestinationRule dr => OnDestinationRuleAdd lb dr | _ => Val lb end.

Definition handleUpdateDestinationRule lb (oldObj newObj : object) : go (LoadBalancer R) :=
  match oldObj with
  | ObjDestinationRule o =>
      match newObj with ObjDestinationRule dr => OnDestinationRuleUpdate lb o dr | _ => Val lb end
  | _ => Val lb
  end.

Definition handleDeleteDestinationRule lb (obj : object) : go (LoadBalancer R) :=
  match obj with
  | ObjDestinationRule dr => OnDestinationRuleDelete lb dr
  | DeletedFinalStateUnknown (ObjDestinationRule dr) => OnDestinationRuleDelete lb dr
  | _ => Val lb
  end.

(** The controllers: once the cache of the informer has synced, unless the load
    balancer is stopped before; [WaitForNamedCacheSync] tells which. *)
Definition runService lb (WaitForNamedCacheSync : bool) : LoadBalancer R :=
  if negb WaitForNamedCacheSync then lb else OnServiceSynced lb.

Definition runEndpoints lb (WaitForNamedCacheSync : bool) : LoadBalancer R :=
  if negb WaitForNamedCacheSync then lb else OnEndpointsSynced lb.

Definition runDestinationRule lb (WaitForNamedCacheSync : bool) : LoadBalancer R :=
  if negb WaitForNamedCacheSync then lb else OnDestinationRuleSynced lb.

(** The informers [Run] starts: the services and endpoints are watched for the
    gateway only, whose load balancer is not fed by the proxy. *)
Inductive informer : Type := ServiceInformer | EndpointsInformer | DestinationRuleInformer.

Definition Run lb : list informer :=
  (if String.eqb (Caller (Config lb)) "GatewayCaller" then [ServiceInformer; EndpointsInformer] else []) ++
  [DestinationRuleInformer].
End handlers.

(** ** The start-up flags

    [OnServiceSynced] and [OnEndpointsSynced] run in different goroutines and
    use atomic operations only: each stores its own flag, loads the other one
    and, if that was set, stores [initialized]. *)

Inductive stage : Type := Start | Stored | Loaded (other : bool) | Finished.

Record flags : Type := mkFlags {
  f_services : bool;
  f_endpoints : bool;
  f_initialized : bool;
  pc_services : stage;
  pc_endpoints : stage
}.

(** The next atomic operation of [OnServiceSynced]. *)
Definition service_op (f : flags) : flags :=
  match pc_services f with
  | Start => mkFlags true (f_endpoints f) (f_initialized f) Stored (pc_endpoints f)
  | Stored => mkFlags (f_services f) (f_endpoints f) (f_initialized f) (Loaded (f_endpoints f)) (pc_endpoints f)
  | Loaded b => mkFlags (f_services f) (f_endpoints f) (if b then true else f_initialized f) Finished (pc_endpoints f)
  | Finished => f
  end.

(** The next atomic operation of [OnEndpointsSynced]. *)
Definition endpoints_op (f : flags) : flags :=
  match pc_endpoints f with
  | Start => mkFlags (f_services f) true (f_initialized f) (pc_services f) Stored
  | Stored => mkFlags (f_services f) (f_endpoints f) (f_initialized f) (pc_services f) (Loaded (f_services f))
  | Loaded b => mkFlags (f_services f) (f_endpoints f) (if b then true else f_initialized f) (pc_services f) Finished
  | Finished => f
  end.

Inductive flags_step (f : flags) : flags -> Prop :=
| step_service_op : flags_step f (service_op f)
| step_endpoints_op : flags_step f (endpoints_op f).

Definition flags_start : flags := mkFlags false false false Start Start.

Definition started (p : stage) : bool := match p with Start => false | _ => true end.

(** The handler has passed its test without setting [initialized]. *)
Definition missed (p : stage) (init : bool) : bool :=
  match p with Loaded b => negb b && negb init | Finished => negb init | _ => false end.

(** The handler will still set [initialized], or has not looked yet. *)
Definition will_see (p : stage) : bool :=
  match p with Start => true | Stored => true | Loaded b => b | Finished => false end.

Definition flags_ok (f : flags) : bool :=
  Bool.eqb (f_services f) (started (pc_services f)) &&
  Bool.eqb (f_endpoints f) (started (pc_endpoints f)) &&
  implb (missed (pc_services f) (f_initialized f)) (will_see (pc_endpoints f)) &&
  implb (missed (pc_endpoints f) (f_initialized f)) (will_see (pc_services f)).

Lemma flags_step_ok f f' : flags_step f f' -> flags_ok f = true -> flags_ok f' = true.
Proof.
  destruct f as [[] [] [] [| |[]|] [| |[]|]]; intros Hs Hok; try discriminate Hok; destruct Hs; reflexivity.
Qed.

(** However the atomic operations of the two handlers interleave, once
    both have run to their end the load balancer is initialised. *)
Theorem both_synced_initializes f :
  rtc flags_step flags_start f -> pc_services f = Finished -> pc_endpoints f = Finished ->
  f_initialized f = true.
Proof.
  intros Hr Hs He. assert (Hok : flags_ok f = true).
  { assert (H0 : flags_ok flags_start = true) by done. revert H0. induction Hr as [|x y z Hxy Hr IH]; [done|].
    intros Hx. apply IH; [done|done|]. by eapply flags_step_ok. }
  destruct f as [? ? init ps pe]. simpl in *. subst. destruct init; [done|].
  unfold flags_ok in Hok. simpl in Hok. by rewrite andb_false_r in Hok.
Qed.

(** Both store before either loads. *)
Lemma both_synced_initializes_witness :
  f_initialized (mkFlags true true true Finished Finished) = true.
Proof.
  apply both_synced_initializes; [|reflexivity|reflexivity].
  apply rtc_l with (service_op flags_start); [constructor|].
  apply rtc_l with (endpoints_op (service_op flags_start)); [constructor|].
  apply rtc_l with (endpoints_op (endpoints_op (service_op flags_start))); [constructor|].
  apply rtc_l with (service_op (endpoints_op (endpoints_op (service_op flags_start)))); [constructor|].
  apply rtc_l with (service_op (service_op (endpoints_op (endpoints_op (service_op flags_start))))); [constructor|].
  apply rtc_once. exact (step_endpoints_op (service_op (service_op (endpoints_op (endpoints_op (service_op flags_start)))))).
Defined.

(** ** Destination rules that panic *)

Lemma go_fold_panic {S X} (step : S -> X -> go S) (I : S -> Prop) xs s x :
  I s -> x ∈ xs -> (forall s y s', y ∈ xs -> y <> x -> I s -> step s y = Val s' -> I s') ->
  (forall s, I s -> is_panic (step s x) = true) -> is_panic (go_fold step s xs) = true.
Proof.
  intros HI Hx Hstep Hpanic. revert s HI Hx Hstep. induction xs as [|y xs IH]; intros s HI Hx Hstep.
  - by apply not_elem_of_nil in Hx.
  - simpl. rewrite go_bind_is_panic. destruct (step s y) as [s'|] eqn:E; [|done].
    apply elem_of_cons in Hx as [<-|Hx].
    { specialize (Hpanic s HI). by rewrite E in Hpanic. }
    destruct (decide (is_panic (step s x) = true)) as [Hp|Hp]; [|by specialize (Hpanic s HI)].
    apply IH; [|done|].
    + apply (Hstep s y s'); [apply list_elem_of_here| |done|done]. intros ->. by rewrite E in Hp.
    + intros s1 z s2 Hz. apply Hstep. by apply list_elem_of_further.
Qed.

Section rules.
Context {R : Type} `{HashRing R} `{RangeOrder}.
Implicit Types lb : LoadBalancer R.

Definition rule_matches (dr : DestinationRule) (sp : ServicePortName) : Prop :=
  isNamespacedNameEqual dr (spn_name sp) = true.

(** Deleting a destination rule panics as soon as a service port of its
    name has no policy, whatever the iteration order: a rule with an
    unsupported policy, or one that was added before its service, cannot be
    deleted. *)
Theorem rule_delete_panics lb dr sp s :
  services lb !! sp = Some s -> rule_matches dr sp -> policyMap lb !! sp = None ->
  is_panic (OnDestinationRuleDelete lb dr) = true.
Proof.
  intros Hs Hm Hp. unfold OnDestinationRuleDelete.
  apply (go_fold_panic _ (fun lb => policyMap lb !! sp = None) _ lb sp); [done| | |].
  - apply elem_of_range_keys. by exists s.
  - intros lb1 sp1 lb2 _ Hne Hp1 Hd. unfold delete_rule_port in Hd.
    destruct (negb _); [by injection Hd as <-|]. destruct (policyMap lb1 !! sp1); [|done].
    apply go_bind_Val_inv in Hd as (? & _ & Hd). injection Hd as <-. simpl. by rewrite lookup_delete_ne.
  - intros lb1 Hp1. unfold delete_rule_port. unfold rule_matches in Hm. by rewrite Hm, Hp1.
Qed.

Definition supported (name : string) : bool :=
  String.eqb name RoundRobin || String.eqb name Random || String.eqb name ConsistentHash.

Lemma Policy_Name_supported (p : Policy R) : supported (Policy_Name p) = true.
Proof. by destruct p. Qed.

(** Updating a destination rule to a policy other than round robin,
    random or consistent hash panics as soon as a service port of its name
    exists. *)
Theorem unsupported_rule_update_panics lb o dr sp s :
  services lb !! sp = Some s -> rule_matches dr sp -> supported (getPolicyName dr) = false ->
  is_panic (OnDestinationRuleUpdate lb o dr) = true.
Proof.
  intros Hs Hm Hu. unfold OnDestinationRuleUpdate.
  apply (go_fold_panic _ (fun _ => True) _ lb (sp, s)); [done|by apply elem_of_range|done|].
  intros lb1 _. unfold update_rule_port, rule_matches in *. rewrite Hm. cbn [negb].
  unfold supported in Hu. apply orb_false_iff in Hu as [Hu Hch]. apply orb_false_iff in Hu as [Hrr Hrd].
  assert (Hset : forall lb2, setLoadBalancerPolicy lb2 dr (getPolicyName dr) sp (endpoints s) = Val lb2).
  { intros lb2. unfold setLoadBalancerPolicy. by rewrite Hrr, Hrd, Hch. }
  destruct (policyMap lb1 !! sp) as [p|] eqn:Ep.
  - assert (String.eqb (Policy_Name p) (getPolicyName dr) = false) as ->.
    { apply String.eqb_neq. intros Heq. pose proof (Policy_Name_supported p) as Hsp. rewrite Heq in Hsp.
      unfold supported in Hsp. by rewrite Hrr, Hrd, Hch in Hsp. }
    cbn [negb]. destruct (Policy_Release p); [|done]. cbn [mbind go_bind]. rewrite Hset. cbn [mbind go_bind].
    simpl. by rewrite lookup_delete_eq.
  - cbn [mbind go_bind]. rewrite Hset. cbn [mbind go_bind]. by rewrite Ep.
Qed.
End rules.

Definition least_conn_rule : DestinationRule :=
  mkDR "default" "web" (Some (Some (Some (LoadBalancerSettings_Simple "LEAST_CONN")))).

Lemma rule_delete_panics_witness :
  is_panic (OnDestinationRuleDelete (get demo_lb1 (OnDestinationRuleAdd demo_lb1 least_conn_rule)) least_conn_rule) = true.
Proof.
  apply (rule_delete_panics _ least_conn_rule demo_port demo_state).
  - vm_compute. reflexivity.
  - reflexivity.
  - vm_compute. reflexivity.
Defined.

Lemma unsupported_rule_update_panics_witness :
  is_panic (OnDestinationRuleUpdate demo_lb2 demo_rule least_conn_rule) = true.
Proof.
  apply (unsupported_rule_update_panics demo_lb2 demo_rule least_conn_rule demo_port demo_state).
  - vm_compute. reflexivity.
  - reflexivity.
  - reflexivity.
Defined.
