(* ===== verification/SyncRunner.v ===== *)
(** * The runner of the load balancer

    [syncRunner] of [src/pkg/loadbalancer/loadbalancer.go] decides when
    [syncServices] runs.  It is the bounded frequency runner of Kubernetes
    ([src/vendor/k8s.io/kubernetes/pkg/util/async]) with the token bucket of
    [golang.org/x/time/rate]: both are translated here, as steps in time, and
    put together with the handlers of the load balancer. *)

From Stdlib Require Import ZArith Lia Ascii String.
From stdpp Require Import base list gmap strings option relations.
From S2P Require Import Prelude GoStrings GoNet Config LbUtil LbPolicy LoadBalancer LbInvariant LbSync LbHandlers.

Local Open Scope Z_scope.

(** ** Time: nanoseconds since 1970 *)

Definition maxDuration : Z := 9223372036854775807.
Definition minDuration : Z := -9223372036854775808.
Definition Minute : Z := 60000000000.

(** The zero [time.Time], 1 January of the year 1. *)
Definition zero_time : Z := -62135596800000000000.

(** [t.Sub(u)] saturates. *)
Definition Sub (t u : Z) : Z := Z.max minDuration (Z.min (t - u) maxDuration).

Lemma Sub_exact t u : minDuration <= t - u <= maxDuration -> Sub t u = t - u.
Proof. unfold Sub. lia. Qed.

Lemma Sub_le t u : u <= t -> 0 <= Sub t u <= t - u.
Proof. unfold Sub, minDuration, maxDuration. lia. Qed.

(** ** The token bucket ([rate.Limiter])

    Rates are exact: a limit of [rate / one] tokens for a nanosecond, and
    [tokens] counts parts of which [one] make a token. *)
Section limiter.
Context (rate one burst : Z).

Record Limiter : Type := mkLimiter { tokens : Z; last : Z }.

Definition NewLimiter : Limiter := mkLimiter 0 zero_time.

Definition advance (lim : Limiter) (now : Z) : Z * Z :=
  let last := if now <? last lim then now else last lim in
  let elapsed := Sub now last in
  let delta := elapsed * rate in
  let tokens := tokens lim + delta in
  (last, if burst * one <? tokens then burst * one else tokens).

Definition durationFromTokens (tokens : Z) : Z := tokens / rate.

(** [reserveN] of one token with no time to wait, as [AllowN] calls it. *)
Definition AllowN (lim : Limiter) (now : Z) : bool * Limiter :=
  let '(last, toks) := advance lim now in
  let toks := toks - one in
  let waitDuration := if toks <? 0 then durationFromTokens (- toks) else 0 in
  let ok := (1 <=? burst) && (waitDuration <=? 0) in
  (ok, if ok then mkLimiter toks now else mkLimiter (tokens lim) last).

Context (Hrate : 0 < rate) (Hone : 0 < one) (Hburst : 1 <= burst).

(** A bucket is short of less than what a nanosecond gives. *)
Definition limiter_ok (lim : Limiter) : Prop := - rate < tokens lim.

Lemma AllowN_true lim now lim' :
  last lim <= now -> AllowN lim now = (true, lim') ->
  limiter_ok lim' /\ last lim' = now /\ tokens lim' + one <= burst * one /\
  tokens lim' + one <= tokens lim + rate * (now - last lim).
Proof.
  intros Hl. unfold AllowN, advance. replace (now <? last lim) with false by lia.
  pose proof (Sub_le now (last lim) Hl) as Hs.
  cbv zeta. set (e := Sub now (last lim)) in *. set (toks := if burst * one <? tokens lim + e * rate then burst * one else tokens lim + e * rate).
  intros [= Hok <-]. rewrite Hok. apply andb_true_iff in Hok as [_ Hok]. apply Z.leb_le in Hok.
  assert (toks <= burst * one /\ toks <= tokens lim + e * rate) as [Hb Ht] by (subst toks; destruct (Z.ltb_spec (burst * one) (tokens lim + e * rate)); lia).
  unfold limiter_ok. cbn [tokens last]. split; [|split; [done|split; [lia|nia]]].
  destruct (Z.ltb_spec (toks - one) 0); [|lia]. unfold durationFromTokens in Hok.
  assert (- (toks - one) < rate); [|lia].
  destruct (Z.lt_ge_cases (- (toks - one)) rate) as [|Hge]; [done|]. pose proof (Z.div_le_lower_bound (- (toks - one)) rate 1). lia.
Qed.

Lemma AllowN_false lim now lim' :
  last lim <= now -> limiter_ok lim -> AllowN lim now = (false, lim') -> lim' = lim /\ rate * Sub now (last lim) < one.
Proof.
  intros Hl Hlim. unfold AllowN, advance. replace (now <? last lim) with false by lia.
  pose proof (Sub_le now (last lim) Hl) as Hs. cbv zeta. set (e := Sub now (last lim)) in *. set (toks := if burst * one <? tokens lim + e * rate then burst * one else tokens lim + e * rate).
  intros [= Hok <-]. rewrite Hok. split; [by destruct lim|]. replace (1 <=? burst) with true in Hok by lia. cbn [andb] in Hok.
  apply Z.leb_gt in Hok. destruct (Z.ltb_spec (toks - one) 0); [|lia]. unfold durationFromTokens in Hok.
  unfold limiter_ok in Hlim. assert (Hd : rate <= - (toks - one)).
  { destruct (Z.lt_ge_cases (- (toks - one)) rate) as [Hlt|]; [|lia]. rewrite Z.div_small in Hok; lia. }
  subst toks. destruct (Z.ltb_spec (burst * one) (tokens lim + e * rate)); nia.
Qed.
End limiter.

(** ** The runner *)

Definition opt_min (x y : option Z) : option Z :=
  match x, y with
  | Some a, Some b => Some (Z.min a b)
  | Some a, None => Some a
  | None, y => y
  end.

(** The runner, and the data that its function works on.  [tick] and [run] are
    the channels of the timer and of the requests, which hold one element, with
    the time since when it is there; the timer goes off at [next] if it is
    [armed].  [idle] is when the loop last came to its [select].  [asked] is
    the first request since the function last started, [runs] how often it
    did, and [running] whether it has not returned yet. *)
Record BoundedFrequencyRunner (D : Type) : Type := mkRunner {
  now : Z;
  data : D;
  lastRun : Z;
  next : Z;
  armed : bool;
  tick : option Z;
  run : option Z;
  limiter : Limiter;
  idle : Z;
  looping : bool;
  asked : option Z;
  runs : nat;
  running : bool
}.
Arguments mkRunner {D}.
Arguments now {D}.
Arguments data {D}.
Arguments lastRun {D}.
Arguments next {D}.
Arguments armed {D}.
Arguments tick {D}.
Arguments run {D}.
Arguments limiter {D}.
Arguments idle {D}.
Arguments looping {D}.
Arguments asked {D}.
Arguments runs {D}.
Arguments running {D}.

Section runner.
(** The function, up to the point where it waits for others, and from there. *)
Context {D : Type} (begin : D -> D) (finish : Z -> D -> D -> Prop).
Context (minInterval maxInterval rate one burst : Z).
(** What happens to the data apart from the function, with the requests that
    are made on the way. *)
Context (event : D -> D -> bool -> Prop).
(** How late the loop may be: the longest time between something it waits for
    and the start of its handling. *)
Context (lag : Z).

Abbreviation runner := (BoundedFrequencyRunner D).

(** [construct], and [Loop] up to its first [select]. *)
Definition NewBoundedFrequencyRunner (d : D) (t : Z) : go runner :=
  if maxInterval <? minInterval then Panic "maxInterval must be >= minInterval"
  else Val (mkRunner t d zero_time (t + maxInterval) true None None NewLimiter t true None 0 false).

(** [Run] does not wait: the request is dropped if one is there already. *)
Definition Run (s : runner) : runner :=
  mkRunner (now s) (data s) (lastRun s) (next s) (armed s) (tick s)
    (match run s with Some t => Some t | None => Some (now s) end) (limiter s) (idle s) (looping s)
    (match asked s with Some t => Some t | None => Some (now s) end) (runs s) (running s).

Definition set_data (s : runner) (d : D) (busy : bool) : runner :=
  mkRunner (now s) d (lastRun s) (next s) (armed s) (tick s) (run s) (limiter s) (idle s) (looping s) (asked s) (runs s) busy.

(** [tryRun].  The function takes no time here, so what follows its return can
    be noted when it starts; but others may come between its two parts. *)
Definition tryRun (s : runner) : runner :=
  let '(ok, limiter) := AllowN rate one burst (limiter s) (now s) in
  if ok then
    mkRunner (now s) (begin (data s)) (now s) (now s + maxInterval) true (tick s) (run s) limiter (now s) (looping s)
      None (S (runs s)) true
  else
    let elapsed := Sub (now s) (lastRun s) in
    let nextPossible := minInterval - elapsed in
    let nextScheduled := Sub (next s) (now s) in
    let nextScheduled := if nextPossible <? nextScheduled then nextPossible else nextScheduled in
    mkRunner (now s) (data s) (lastRun s) (now s + nextScheduled) true (tick s) (run s) limiter (now s) (looping s)
      (asked s) (runs s) (running s).

(** Receiving from the channels. *)
Definition take_tick (s : runner) : runner :=
  mkRunner (now s) (data s) (lastRun s) (next s) (armed s) None (run s) (limiter s) (idle s) (looping s) (asked s) (runs s) (running s).
Definition take_run (s : runner) : runner :=
  mkRunner (now s) (data s) (lastRun s) (next s) (armed s) (tick s) None (limiter s) (idle s) (looping s) (asked s) (runs s) (running s).

(** Since when the loop has something to do, or when the timer will go off. *)
Definition ready_at (s : runner) : option Z :=
  opt_min (tick s) (opt_min (run s) (if armed s then Some (next s) else None)).

Definition set_now (s : runner) (t : Z) : runner :=
  mkRunner t (data s) (lastRun s) (next s) (armed s) (tick s) (run s) (limiter s) (idle s) (looping s) (asked s) (runs s) (running s).

(** Resetting the timer does not take its tick from the channel. *)
Definition fire (s : runner) : runner :=
  mkRunner (now s) (data s) (lastRun s) (next s) false (opt_min (tick s) (Some (next s))) (run s) (limiter s) (idle s)
    (looping s) (asked s) (runs s) (running s).

Definition stop (s : runner) : runner :=
  mkRunner (now s) (data s) (lastRun s) (next s) false (tick s) (run s) (limiter s) (idle s) false (asked s) (runs s) (running s).

(** The loop and its surroundings.  Nothing of EdgeMesh calls [RetryAfter]. *)
Inductive runner_step : runner -> runner -> Prop :=
| time_passes s t : running s = false -> now s <= t ->
    (looping s = true -> forall r, ready_at s = Some r -> t <= Z.max (idle s) r + lag) -> runner_step s (set_now s t)
| timer_fires s : armed s = true -> next s <= now s -> runner_step s (fire s)
| data_changes s d : event (data s) d false -> runner_step s (set_data s d (running s))
| run_requested s d : event (data s) d true -> runner_step s (Run (set_data s d (running s)))
| loop_tick s : is_Some (tick s) -> looping s = true -> running s = false -> runner_step s (tryRun (take_tick s))
| loop_run s : is_Some (run s) -> looping s = true -> running s = false -> runner_step s (tryRun (take_run s))
| fn_returns s d : running s = true -> finish (now s) (data s) d -> runner_step s (set_data s d false)
| loop_stop s : looping s = true -> running s = false -> runner_step s (stop s).

(** *** Bounds *)

Section bounds.
(** A token takes at most [period]. *)
Context (period start : Z).
Context (Hrate : 0 < rate) (Hone : 0 < one) (Hburst : 1 <= burst).
Context (Hperiod : one <= rate * period) (Hmin : 0 <= minInterval <= period) (Hmax : minInterval <= maxInterval).
Context (Hlong : period <= maxDuration) (Hstart : 0 <= start) (Hlag : 0 <= lag).

(** There is something the loop waits for that comes by then. *)
Definition ready_by (s : runner) (t : Z) : Prop := match ready_at s with Some r => r <= t | None => False end.

(** What holds also while the loop handles something, and what holds at its
    [select]. *)
Record handling_ok (s : runner) : Prop := mkHandling {
  ok_idle : start <= idle s <= now s;
  ok_last : last (limiter s) = lastRun s;
  ok_tokens : limiter_ok rate (limiter s);
  ok_lastRun : lastRun s <= now s;
  ok_first : runs s = 0%nat \/ start <= lastRun s;
  ok_run : forall t, run s = Some t -> t <= now s;
  ok_request : forall T, asked s = Some T -> start <= T <= now s /\ lastRun s <= T;
  ok_budget : one * Z.of_nat (runs s) + tokens (limiter s) <= burst * one + rate * (Z.max start (lastRun s) - start)
}.

Record waiting_ok (s : runner) : Prop := mkWaiting {
  ok_prompt : match ready_at s with Some r => now s <= Z.max (idle s) r + lag | None => True end;
  ok_periodic : ready_by s (Z.max start (lastRun s) + maxInterval);
  ok_idle_run : idle s <= Z.max start (lastRun s + period);
  ok_asked : forall T, asked s = Some T ->
    idle s <= Z.max T (lastRun s + period) /\ ready_by s (Z.max T (lastRun s + period))
}.

Definition runner_ok (s : runner) : Prop := handling_ok s /\ (looping s = true -> waiting_ok s).

(** A timer that is armed is something to wait for. *)
Lemma ready_by_armed s t : armed s = true -> next s <= t -> ready_by s t.
Proof. intros Ha Hn. unfold ready_by, ready_at. rewrite Ha. destruct (tick s), (run s); cbn; lia. Qed.

Lemma prompt_now s : idle s = now s -> match ready_at s with Some r => now s <= Z.max (idle s) r + lag | None => True end.
Proof. intros ->. destruct (ready_at s); lia. Qed.

Lemma tryRun_ok s : handling_ok s -> runner_ok (tryRun s).
Proof.
  intros [Hi Hl Ht Hr Hf Hq Ha Hb]. unfold tryRun.
  assert (Hll : last (limiter s) <= now s) by lia.
  destruct (AllowN rate one burst (limiter s) (now s)) as [[] lim] eqn:El.
  - destruct (AllowN_true _ _ _ Hrate _ _ _ Hll El) as (Ht' & Hl' & Hc & Hg).
    split; constructor; cbn; try done; try lia.
    + rewrite Z.max_r by lia. rewrite Hl in Hg. destruct Hf as [Hf|Hf]; [rewrite Hf in *; nia|]. rewrite Z.max_r in Hb by lia. nia.
    + by apply prompt_now.
    + apply ready_by_armed; cbn; [done|lia].
  - destruct (AllowN_false _ _ _ Hrate Hone Hburst _ _ _ Hll Ht El) as [-> Hshort].
    assert (Hu : now s < lastRun s + period).
    { rewrite Hl in Hshort. unfold Sub, minDuration in Hshort. nia. }
    assert (Hs : Sub (now s) (lastRun s) = now s - lastRun s) by (apply Sub_exact; unfold minDuration; lia). rewrite Hs.
    set (d := if _ <? _ then _ else _).
    assert (Hn : now s + d <= lastRun s + minInterval) by (subst d; destruct (Z.ltb_spec (minInterval - (now s - lastRun s)) (Sub (next s) (now s))); lia).
    split; constructor; cbn; try done; try lia.
    + by apply prompt_now.
    + apply ready_by_armed; cbn; [done|lia].
    + intros T HT. split; [lia|]. apply ready_by_armed; cbn; [done|lia].
Qed.

Lemma take_ok s : handling_ok s -> handling_ok (take_tick s) /\ handling_ok (take_run s).
Proof. intros [? ? ? ? ? ? ? ?]. by split; constructor. Qed.

Lemma set_now_ok s t :
  now s <= t -> (looping s = true -> forall r, ready_at s = Some r -> t <= Z.max (idle s) r + lag) -> runner_ok s ->
  runner_ok (set_now s t).
Proof.
  intros Ht Hp [[? ? ? ? ? Hq Ha ?] Hw]. split.
  - constructor; cbn; try done; try lia; [intros t' Ht'; specialize (Hq _ Ht'); lia|]. intros T HT. destruct (Ha T HT). lia.
  - intros Hl. destruct (Hw Hl) as [? ? ? ?]. constructor; cbn; try done.
    change (ready_at (set_now s t)) with (ready_at s). destruct (ready_at s) as [r|] eqn:Er; [|done]. by apply Hp.
Qed.

(** Firing keeps what the loop waits for. *)
Lemma ready_at_fire s : armed s = true -> ready_at (fire s) = ready_at s.
Proof. unfold ready_at. cbn. intros ->. destruct (tick s), (run s); cbn; f_equal; lia. Qed.

Lemma fire_ok s : armed s = true -> runner_ok s -> runner_ok (fire s).
Proof.
  intros Har [[? ? ? ? ? ? ? ?] Hw]. split; [by constructor|]. intros Hl. destruct (Hw Hl) as [? ? ? ?].
  constructor; unfold ready_by in *; rewrite ?ready_at_fire by done; done.
Qed.

Lemma set_data_ok s d b : runner_ok s -> runner_ok (set_data s d b).
Proof. intros [[? ? ? ? ? ? ? ?] Hw]. split; [by constructor|]. intros Hl. by destruct (Hw Hl). Qed.

Lemma stop_ok s : runner_ok s -> runner_ok (stop s).
Proof. intros [[? ? ? ? ? ? ? ?] Hw]. split; [by constructor|done]. Qed.

Lemma Run_ok s : runner_ok s -> runner_ok (Run s).
Proof.
  intros [[? ? ? ? ? Hq Ha ?] Hw]. split.
  - constructor; cbn; try done.
    + intros t. destruct (run s) as [t'|]; intros [= <-]; [by apply Hq|lia].
    + intros T. destruct (asked s) as [T'|]; intros [= <-]; [by apply Ha|lia].
  - intros Hl. destruct (Hw Hl) as [Hp Hper ? Hask]. unfold ready_by, ready_at in *.
    constructor; unfold ready_by, ready_at; cbn [Run now idle lastRun tick run armed next asked].
    + destruct (tick s), (run s), (armed s); cbn in *; lia.
    + destruct (tick s), (run s), (armed s); cbn in *; lia.
    + done.
    + intros T HT. destruct (asked s) as [T'|]; injection HT as <-.
      * destruct (Hask _ eq_refl). destruct (tick s), (run s), (armed s); cbn in *; lia.
      * destruct (tick s), (run s) as [t|], (armed s); cbn in *; try specialize (Hq _ eq_refl); lia.
Qed.

Lemma runner_step_ok s s' : runner_step s s' -> runner_ok s -> runner_ok s'.
Proof.
  intros Hs Hok. destruct Hs as [s t _ Ht Hp|s Ha _|s d _|s d _|s _ _ _|s _ _ _|s d _ _|s _ _].
  - by apply set_now_ok.
  - by apply fire_ok.
  - by apply set_data_ok.
  - by apply Run_ok, set_data_ok.
  - apply tryRun_ok, take_ok, Hok.
  - apply tryRun_ok, take_ok, Hok.
  - by apply set_data_ok.
  - by apply stop_ok.
Qed.

Lemma NewBoundedFrequencyRunner_ok d : exists s, NewBoundedFrequencyRunner d start = Val s /\ runner_ok s.
Proof.
  unfold NewBoundedFrequencyRunner. replace (maxInterval <? minInterval) with false by lia.
  eexists. split; [reflexivity|]. split; constructor; cbn; unfold limiter_ok, NewLimiter, zero_time; cbn; try done; lia.
Qed.

Lemma runner_steps_ok d s0 s :
  NewBoundedFrequencyRunner d start = Val s0 -> rtc runner_step s0 s -> runner_ok s.
Proof.
  intros Hn Hs. destruct (NewBoundedFrequencyRunner_ok d) as (s1 & Hn1 & Hok). rewrite Hn in Hn1. injection Hn1 as <-. clear Hn.
  induction Hs as [|s1 s2 s3 Hstep _ IH]; [done|]. by eapply IH, runner_step_ok.
Qed.

(** What the runner promises. *)
Lemma runner_bounds s :
  runner_ok s ->
  (looping s = true -> forall T, asked s = Some T -> now s <= T + period + lag) /\
  (looping s = true -> now s <= Z.max start (lastRun s) + Z.max period maxInterval + lag) /\
  one * Z.of_nat (runs s) < burst * one + rate * (now s - start + 1).
Proof.
  intros [[Hi _ Ht Hr Hf _ Hq Hb] Hw]. split; [|split].
  - intros Hl T HT. destruct (Hw Hl) as [Hp _ _ Ha]. destruct (Ha T HT) as [Hidle Hready]. destruct (Hq T HT).
    unfold ready_by in *. destruct (ready_at s); [lia|done].
  - intros Hl. destruct (Hw Hl) as [Hp Hper Hidle _]. unfold ready_by in *. destruct (ready_at s); [lia|done].
  - unfold limiter_ok in Ht. nia.
Qed.
End bounds.
End runner.

(** ** The runner of the load balancer

    What happens around it: the informer of the services changes its store and
    calls a handler, which may ask for a sync; the two controllers have synced,
    after which a goroutine syncs once ([spawned] are those that have not
    started); and everything else that leaves services and recorded changes
    alone.  [takers] are the owners of the batches in flight: the runner
    ([true]) or one of the goroutines. *)
Definition numBurstSyncs : Z := 2.

(** [float32(time.Second) / float32(time.Minute)] tokens for a second is
    1118481 / 67108864. *)
Definition sync_rate : Z := 1118481.
Definition sync_one : Z := 67108864 * 1000000000.
(** The time a token takes, which is a little more than a minute. *)
Definition sync_interval : Z := 60000003577.

Section lb_runner.
Context {R : Type} `{HashRing R} `{RangeOrder}.
Implicit Types lb : LoadBalancer R.
Context (ShouldSkipService : Service -> bool).
Context (ParseIPSloppy : string -> list Z).
Context (LoadBalancerStatusEqual : list (string * string) -> list (string * string) -> bool).
Hypothesis status_refl : forall l, LoadBalancerStatusEqual l l = true.

Record lb_data : Type := mkData {
  system : sys (R:=R);
  spawned : nat;
  takers : list bool
}.

Abbreviation process := (process_changes ShouldSkipService ParseIPSloppy LoadBalancerStatusEqual).
Abbreviation step := (sys_step (R:=R) ShouldSkipService ParseIPSloppy LoadBalancerStatusEqual).

(** [syncServices] up to its second mutex, called by the runner or a goroutine. *)
Definition sync_begin (runner : bool) (d : lb_data) : lb_data :=
  let '(mkSys st lb bs ov) := system d in
  if isInitialized lb
  then mkData (mkSys st (take_changes lb).1 (bs ++ [(take_changes lb).2]) ov) (spawned d) (takers d ++ [runner])
  else d.

(** The rest of it; there is none if the load balancer was not initialised. *)
Inductive sync_finish (runner : bool) (now : Z) : lb_data -> lb_data -> Prop :=
| finish_process st lb bs ov n tk i b lb' :
    tk !! i = Some runner -> bs !! i = Some b -> process now lb b = Val lb' ->
    sync_finish runner now (mkData (mkSys st lb bs ov) n tk)
      (mkData (mkSys st lb' (delete i bs) (ov || overtakes bs i b)) n (delete i tk))
| finish_nothing d : runner ∉ takers d -> sync_finish runner now d d.

Definition requests lb lb' : bool := negb (syncRequests lb =? syncRequests lb')%nat.

Inductive lb_event : lb_data -> lb_data -> bool -> Prop :=
| ev_add st lb bs ov n tk s lb' :
    st !! svcName_of s = None -> handleAddService lb (ObjService s) = Val lb' ->
    lb_event (mkData (mkSys st lb bs ov) n tk) (mkData (mkSys (<[svcName_of s := s]> st) lb' bs ov) n tk) (requests lb lb')
| ev_update st lb bs ov n tk o s lb' :
    svcName_of o = svcName_of s -> st !! svcName_of s = Some o ->
    handleUpdateService lb (ObjService o) (ObjService s) = Val lb' ->
    lb_event (mkData (mkSys st lb bs ov) n tk) (mkData (mkSys (<[svcName_of s := s]> st) lb' bs ov) n tk) (requests lb lb')
| ev_delete st lb bs ov n tk s lb' :
    st !! svcName_of s = Some s -> handleDeleteService lb (ObjService s) = Val lb' ->
    lb_event (mkData (mkSys st lb bs ov) n tk) (mkData (mkSys (delete (svcName_of s) st) lb' bs ov) n tk) (requests lb lb')
| ev_services_synced st lb bs ov n tk :
    lb_event (mkData (mkSys st lb bs ov) n tk) (mkData (mkSys st (runService lb true) bs ov) (S n) tk) false
| ev_endpoints_synced st lb bs ov n tk :
    lb_event (mkData (mkSys st lb bs ov) n tk) (mkData (mkSys st (runEndpoints lb true) bs ov) (S n) tk) false
| ev_spawned_begins x n tk : lb_event (mkData x (S n) tk) (sync_begin false (mkData x n tk)) false
| ev_spawned_ends now d d' : sync_finish false now d d' -> lb_event d d' false
| ev_other st lb bs ov n tk lb' :
    serviceMap lb' = serviceMap lb -> serviceChanges lb' = serviceChanges lb -> initialized lb' = initialized lb ->
    lb_event (mkData (mkSys st lb bs ov) n tk) (mkData (mkSys st lb' bs ov) n tk) false.

(** Whatever a handler records, it asks for. *)
Lemma serviceChange_requests lb p c lb' :
  serviceChange lb p c = Val lb' -> initialized lb' = initialized lb /\
  (initialized lb = true -> serviceChanges lb' <> ∅ -> requests lb lb' = false -> serviceChanges lb <> ∅).
Proof.
  unfold serviceChange, requests, isInitialized. intros Hc. apply go_bind_Val_inv in Hc as (n & _ & Hc).
  case_decide; injection Hc as <-; cbn; (split; [done|]); intros Hi.
  - intros Hne _ He. apply Hne. by rewrite He, delete_empty.
  - intros _. rewrite Hi. by rewrite (proj2 (Nat.eqb_neq _ _)) by lia.
Qed.

Lemma sync_begin_steps runner d : rtc step (system d) (system (sync_begin runner d)).
Proof.
  destruct d as [[st lb bs ov] n tk]. unfold sync_begin, isInitialized. cbn.
  destruct (initialized lb) eqn:E; [|done]. apply rtc_once. by apply sys_take.
Qed.

Lemma sync_finish_steps runner now d d' : sync_finish runner now d d' -> rtc step (system d) (system d').
Proof. destruct 1; [|done]. apply rtc_once. cbn. by eapply sys_process. Qed.

Lemma lb_event_steps d d' b : lb_event d d' b -> rtc step (system d) (system d').
Proof.
  destruct 1; cbn [system] in *; try (apply rtc_once; by econstructor).
  - exact (sync_begin_steps false (mkData x n tk)).
  - by eapply sync_finish_steps.
Qed.

(** Changes that wait have been asked for, or a goroutine is about to sync. *)
Definition changes_asked (d : lb_data) (asked : option Z) : Prop :=
  initialized (sys_lb (system d)) = true -> serviceChanges (sys_lb (system d)) <> ∅ -> spawned d = 0%nat -> is_Some asked.

(** Whatever was recorded is taken. *)
Lemma sync_begin_asked runner d a : changes_asked (sync_begin runner d) a.
Proof.
  destruct d as [[st lb bs ov] n tk]. unfold changes_asked, sync_begin, isInitialized. cbn.
  destruct (initialized lb) eqn:E; cbn; [done|]. by rewrite E.
Qed.

Lemma sync_finish_asked runner now d d' a : sync_finish runner now d d' -> changes_asked d a -> changes_asked d' a.
Proof.
  destruct 1 as [st lb bs ov n tk i b lb' _ _ Hp|]; [|done]. unfold changes_asked. cbn.
  by destruct (process_changes_changes _ _ _ status_refl _ _ _ _ Hp) as [-> ->].
Qed.

Lemma lb_event_asked d d' a : lb_event d d' false -> changes_asked d a -> changes_asked d' a.
Proof.
  intros He Ha. remember false as b eqn:Eb.
  destruct He as [st lb bs ov n tk s lb' _ Hc|st lb bs ov n tk o s lb' _ _ Hc|st lb bs ov n tk s lb' _ Hc| | |
                  |now d d' Hf|st lb bs ov n tk lb' _ Hc Hi]; unfold changes_asked in *; cbn [system sys_lb spawned] in *; try done.
  1-3: unfold handleAddService, handleUpdateService, handleDeleteService, OnServiceAdd, OnServiceUpdate, OnServiceDelete in Hc;
    destruct (serviceChange_requests _ _ _ _ Hc) as [Hi Hq]; rewrite Hi; eauto.
  - apply sync_begin_asked.
  - by eapply sync_finish_asked.
  - by rewrite Hc, Hi.
Qed.

Context (maxInterval lag start : Z).
Context (Hmax : Minute <= maxInterval) (Hstart : 0 <= start) (Hlag : 0 <= lag).

(** [lb.syncRunner], from the start of its loop. *)
Definition new_syncRunner (config : LbConfig) : go (BoundedFrequencyRunner lb_data) :=
  NewBoundedFrequencyRunner Minute maxInterval (mkData (sys_start config) 0 []) start.

Definition lb_step : BoundedFrequencyRunner lb_data -> BoundedFrequencyRunner lb_data -> Prop :=
  runner_step (sync_begin true) (sync_finish true) Minute maxInterval sync_rate sync_one numBurstSyncs lb_event lag.

Abbreviation lb_sys_ok := (sys_ok (R:=R) ShouldSkipService ParseIPSloppy LoadBalancerStatusEqual).

Definition lb_runner_ok (s : BoundedFrequencyRunner lb_data) : Prop :=
  lb_sys_ok (system (data s)) /\ changes_asked (data s) (asked s).

Lemma sys_steps_ok x y : rtc step x y -> lb_sys_ok x -> lb_sys_ok y.
Proof. induction 1 as [|x y z Hs _ IH]; [done|]. intros Hok. by eapply IH, sys_step_ok. Qed.

Lemma tryRun_lb s :
  lb_runner_ok s -> lb_runner_ok (tryRun (sync_begin true) Minute maxInterval sync_rate sync_one numBurstSyncs s).
Proof.
  intros [Hok Ha]. unfold tryRun. destruct (AllowN _ _ _ _ _) as [[] lim]; [|done]. split; cbn.
  - eapply sys_steps_ok; [apply sync_begin_steps|done].
  - apply sync_begin_asked.
Qed.

Lemma runner_lb_step_ok s s' : lb_step s s' -> lb_runner_ok s -> lb_runner_ok s'.
Proof.
  intros Hs [Hok Ha]. destruct Hs as [s t _ _ _|s _ _|s d He|s d He|s _ _ _|s _ _ _|s d _ Hf|s _ _]; try done.
  - split; [|by eapply lb_event_asked]. by eapply sys_steps_ok; [eapply lb_event_steps|].
  - split; [by eapply sys_steps_ok; [eapply lb_event_steps|]|].
    unfold changes_asked. cbn. intros _ _ _. by destruct (asked s).
  - by apply (tryRun_lb (take_tick s)).
  - by apply (tryRun_lb (take_run s)).
  - split; [|by eapply sync_finish_asked]. by eapply sys_steps_ok; [eapply sync_finish_steps|].
Qed.

Lemma lb_runner_reachable config s0 s :
  new_syncRunner config = Val s0 -> rtc lb_step s0 s -> lb_runner_ok s.
Proof.
  intros Hn Hs. unfold new_syncRunner, NewBoundedFrequencyRunner in Hn.
  replace (maxInterval <? Minute) with false in Hn by lia. injection Hn as <-.
  revert Hs. set (s0 := mkRunner _ _ _ _ _ _ _ _ _ _ _ _ _).
  assert (Hi : lb_runner_ok s0) by (split; [apply sys_start_ok|done]).
  clearbody s0. intros Hs. induction Hs as [|s1 s2 s3 Hstep _ IH]; [done|]. by eapply IH, runner_lb_step_ok.
Qed.

(** C13. The service map is not out of date for long.  Let the loop of the runner,
    the goroutines of the start, the informer and its handlers run in any order,
    with others between the two parts of [syncServices], and suppose that no
    changes were processed before older ones of the same service.  Then as long as
    the loop runs, and once the load balancer is initialised, the goroutines of
    its start have synced and no changes are being processed, the service map has
    exactly the ports of the services the cluster has now, unless a change came
    less than a minute (and 3.6 microseconds, which the rate in [float32] adds)
    ago, besides the time by which the loop may be late; and [syncServices] does
    not run more than twice and once a minute, nor less than once in the sync
    period.  The function itself takes no time.  Without the supposition the map
    may stay out of date for good: see [overtaken_change_stays]. *)
Theorem services_synced_in_time config s0 s :
  new_syncRunner config = Val s0 -> rtc lb_step s0 s ->
  let x := system (data s) in
  (looping s = true -> initialized (sys_lb x) = true -> spawned (data s) = 0%nat ->
   in_flight x = [] -> overtaken x = false ->
   serves ShouldSkipService ParseIPSloppy LoadBalancerStatusEqual (sys_lb x) (sys_store x) \/
   exists T, asked s = Some T /\ now s <= T + sync_interval + lag) /\
  (looping s = true -> now s <= Z.max start (lastRun s) + Z.max sync_interval maxInterval + lag) /\
  sync_one * Z.of_nat (runs s) < numBurstSyncs * sync_one + sync_rate * (now s - start + 1).
Proof.
  intros Hn Hs x. destruct (lb_runner_reachable _ _ _ Hn Hs) as [Hok Ha].
  assert (Hr : runner_ok maxInterval sync_rate sync_one numBurstSyncs lag sync_interval start s).
  { eapply runner_steps_ok; try exact Hs; try exact Hn; unfold Minute, sync_interval, sync_rate, sync_one, numBurstSyncs, maxDuration in *; lia. }
  apply (runner_bounds Minute) in Hr as (Hb & Hp & Hf); [|unfold Minute, sync_interval, sync_rate, sync_one, numBurstSyncs, maxDuration in *; lia..]. split; [|split; [exact Hp|exact Hf]].
  intros Hl Hi Hsp Hfl Hov. destruct (decide (serviceChanges (sys_lb x) = ∅)) as [He|Hne].
  - left. by apply settled_serves.
  - right. destruct (Ha Hi Hne Hsp) as [T HT]. exists T. split; [done|]. by apply Hb.
Qed.
End lb_runner.

(** ** Witness: a service is added and synced *)

Definition demo_start : Z := 1700000000000000000.
Definition demo_period : Z := 15 * Minute.
Definition demo_lb0 : LoadBalancer list_ring := New demo_config.
Definition demo_lb1 : LoadBalancer list_ring := OnEndpointsSynced (OnServiceSynced demo_lb0).

Abbreviation demo_data := (lb_data (R:=list_ring)).

Definition demo_state (d : demo_data) : BoundedFrequencyRunner demo_data :=
  mkRunner demo_start d zero_time (demo_start + demo_period) true None None NewLimiter demo_start true None 0 false.

Definition demo_asked : BoundedFrequencyRunner demo_data := Run (demo_state (mkData demo_sys 0 [])).

(** The runner has taken the change and waits for the mutex. *)
Definition demo_begun : BoundedFrequencyRunner demo_data :=
  tryRun (sync_begin true) Minute demo_period sync_rate sync_one numBurstSyncs (take_run demo_asked).

Definition demo_done : BoundedFrequencyRunner demo_data :=
  set_data demo_begun (mkData (mkSys demo_store demo_synced [] false) 0 []) false.

Abbreviation demo_step := (lb_step never_skip parse_ip status_equal demo_period 1000000).

Lemma demo_changes d d' :
  lb_event never_skip parse_ip status_equal d d' false -> demo_step (demo_state d) (demo_state d').
Proof. intros He. exact (data_changes _ _ _ _ _ _ _ _ _ (demo_state d) d' He). Qed.

(** A goroutine of the start, which finds nothing to do. *)
Lemma demo_spawned n :
  rtc demo_step (demo_state (mkData (mkSys ∅ demo_lb1 [] false) (S n) []))
    (demo_state (mkData (mkSys ∅ demo_lb1 [] false) n [])).
Proof.
  eapply rtc_l; [apply demo_changes, ev_spawned_begins|].
  apply rtc_once, demo_changes. apply (ev_spawned_ends _ _ _ demo_start).
  exact (finish_process never_skip parse_ip status_equal false demo_start ∅ demo_lb1 [∅] false n [false] 0%nat ∅ demo_lb1
           eq_refl eq_refl eq_refl).
Qed.

Lemma demo_sync_run : rtc demo_step (demo_state (mkData (sys_start demo_config) 0 [])) demo_done.
Proof.
  eapply rtc_l; [apply demo_changes, ev_services_synced|].
  eapply rtc_l; [apply demo_changes, ev_endpoints_synced|].
  etrans; [apply (demo_spawned 1)|]. etrans; [apply (demo_spawned 0)|].
  apply rtc_l with demo_asked.
  - refine (run_requested _ _ _ _ _ _ _ _ _ (demo_state _) _ _).
    exact (ev_add never_skip parse_ip status_equal ∅ demo_lb1 [] false 0 [] demo_service demo_added eq_refl eq_refl).
  - apply rtc_l with demo_begun; [refine (loop_run _ _ _ _ _ _ _ _ _ demo_asked _ _ _); [by eexists|done|done]|].
    apply rtc_once. refine (fn_returns _ _ _ _ _ _ _ _ _ demo_begun _ _ _); [reflexivity|].
    refine (finish_process never_skip parse_ip status_equal true _ demo_store _ _ false 0 [true] 0%nat _ demo_synced _ _ _);
      [reflexivity|reflexivity|vm_compute; reflexivity].
Qed.

Lemma services_synced_in_time_witness :
  runs demo_done = 1%nat /\ serves never_skip parse_ip status_equal demo_synced demo_store.
Proof.
  split; [vm_compute; reflexivity|].
  destruct (services_synced_in_time never_skip parse_ip status_equal status_equal_refl demo_period 1000000 demo_start
              ltac:(unfold demo_period, Minute; lia) ltac:(unfold demo_start; lia) ltac:(lia)
              demo_config (demo_state (mkData (sys_start demo_config) 0 [])) demo_done eq_refl demo_sync_run) as [Hs _].
  destruct Hs as [Hs|(T & HT & _)]; [vm_compute; reflexivity..| |].
  - exact Hs.
  - vm_compute in HT. discriminate HT.
Defined.
