(* ===== verification/ProxySocket.v ===== *)
(** * The sockets of the service proxy

    [src/pkg/proxy/proxysocket.go]: the sockets kube-proxy's userspace proxier
    opens for a service port, and the loops that serve them.  Connections are
    made by the load balancer ([LoadBalancer.TryConnectEndpoints]).  The UDP
    loop shares the table of active clients with one [proxyClient] goroutine
    per backend connection; the table's mutex makes [getBackendConn] and the
    deletion of an entry atomic, everything else interleaves. *)

From Stdlib Require Import ZArith Lia Ascii String.
From stdpp Require Import base list gmap strings option relations.
From S2P Require Import Prelude GoStrings GoNet Config NetUtil LbUtil LbPolicy LoadBalancer LbInvariant LbConnect.

Local Open Scope Z_scope.

(** ** Opening a socket *)

Inductive proxySocket : Type :=
| tcpProxySocket (port : Z)
| udpProxySocket (port : Z).

Definition ListenPort (s : proxySocket) : Z :=
  match s with tcpProxySocket port => port | udpProxySocket port => port end.

(** [net.Listen], [net.ResolveUDPAddr] and [net.ListenUDP] of an address. *)
Definition newProxySocket (Listen ResolveUDPAddr ListenUDP : string -> result unit)
    (protocol : string) (ip : option (list Z)) (port : Z) : result proxySocket :=
  let host := match ip with Some ip => IP_String ip | None => "" end in
  let addr := JoinHostPort host (Itoa port) in
  let proto := ToUpper protocol in
  if String.eqb proto "TCP" then
    match Listen addr with Err e => Err e | Ok _ => Ok (tcpProxySocket port) end
  else if String.eqb proto "UDP" then
    match ResolveUDPAddr addr with
    | Err e => Err e
    | Ok _ => match ListenUDP addr with Err e => Err e | Ok _ => Ok (udpProxySocket port) end
    end
  else if String.eqb proto "SCTP" then Err "SCTP is not supported for user space proxy"
  else Err ("unknown protocol " +:+ quote protocol).

(** The load balancer of the process: the first one counts ([sync.Once]). *)
Definition initLoadBalancer {L} (internalLoadBalancer : option L) (lb : L) : option L :=
  match internalLoadBalancer with Some l => Some l | None => Some lb end.

Section sockets.
Context {R : Type} `{HashRing R} `{RangeOrder}.
Context {Request Conn OutConn : Type}.
Context (Header_Get : Request -> string -> string).
Context (ReadRequest : Conn -> Conn * result Request).
Context (RemoteAddr : Conn -> string).
Context (Request_Write : Request -> result (list Z)).
Context (OutConn_Write : OutConn -> list Z -> result OutConn).
Context (service : ServicePortName).
Implicit Types lb : LoadBalancer R.

Local Abbreviation connect := (TryConnectEndpoints Header_Get ReadRequest RemoteAddr Request_Write OutConn_Write).
Local Abbreviation attempt := (LoadBalancer.attempt (R:=R) (OutConn:=OutConn)).
Local Abbreviation choice := (LoadBalancer.choice (R:=R)).

(** ** TCP *)

(** One turn of the loop: whether the service port is alive, what [Accept]
    gives, whether it is alive after a failure, and what the network answers
    when connecting to an endpoint. *)
Record tcp_turn : Type := mkTurn {
  alive_before : bool;
  accepted : result Conn;
  alive_after : bool;
  attempts : list attempt
}.

(** What became of a connection: a [ProxyConn] goroutine, or closed; with the
    choices of endpoints that were made for it. *)
Inductive tcp_fate : Type :=
| Proxied (inConn : Conn) (outConn : OutConn) (choices : list choice)
| ClosedIn (inConn : Conn) (choices : list choice).

(** The loop over its turns: the load balancer, the fate of the connections
    and whether the loop has returned. *)
Fixpoint tcp_ProxyLoop (turns : list tcp_turn) lb : go (LoadBalancer R * list tcp_fate * bool) :=
  match turns with
  | [] => Val (lb, [], false)
  | t :: turns =>
      if negb (alive_before t) then Val (lb, [], true) else
      match accepted t with
      | Err e =>
          if IsTooManyFDsError e then Panic ("Accept failed: " +:+ e)
          else if IsClosedError e then Val (lb, [], true)
          else if negb (alive_after t) then Val (lb, [], true)
          else tcp_ProxyLoop turns lb
      | Ok inConn =>
          let! (lb, inConn', choices, r) := connect (attempts t) lb service (Some (RemoteAddr inConn)) "tcp" (Some inConn) None in
          let inConn := default inConn inConn' in
          let fate := match r with Err _ => ClosedIn inConn choices | Ok outConn => Proxied inConn outConn choices end in
          let! (lb, fates, returned) := tcp_ProxyLoop turns lb in
          Val (lb, fate :: fates, returned)
      end
  end.

(** ** UDP *)

(** A backend connection, by the address of its client and the point its
    [proxyClient] goroutine is at: in its loop, after the loop, after it has
    deleted the entry of the table, at its end.  A connection whose deadline
    could not be set has no goroutine. *)
Inductive conn_status : Type := Running | Ending | Deleted | Finished | Abandoned.

Record backend : Type := mkBackend {
  b_client : string;
  b_conn : OutConn;
  b_status : conn_status
}.

(** Where the loop is: before [IsAlive] and [ReadFrom]; after it read a
    datagram; before [Write] to the connection it got; before [SetDeadline]. *)
Inductive loop_pc : Type :=
| LoopRead
| LoopGot (addr : string) (data : list Z)
| LoopWrite (addr : string) (id : nat) (data : list Z)
| LoopDeadline
| LoopDone.

(** [Clients]: the table of active clients, connections by number;
    [forwarded] and [answered]: the datagrams written to a connection and to a
    client, with the client they came from and go to. *)
Record udp_loop : Type := mkUdpLoop {
  balancer : LoadBalancer R;
  Clients : gmap string nat;
  backends : gmap nat backend;
  loop : loop_pc;
  forwarded : list (string * nat * list Z);
  answered : list (nat * string * list Z)
}.

Inductive udp_event : Type :=
| NotAlive                                                (** [IsAlive] is false *)
| ReadFrom (r : neterror + string * list Z)               (** [ReadFrom] *)
| GetBackendConn (ats : list attempt) (deadline : bool)   (** [getBackendConn]; [deadline]: it could be set *)
| WriteBackend (ok : bool)                                (** [svrConn.Write] *)
| SetDeadline                                             (** [svrConn.SetDeadline], failures are logged *)
| ClientRead (id : nat) (data : list Z) (deadline written : bool)  (** a turn of [proxyClient] *)
| ClientReadFails (id : nat)                              (** its [Read] fails *)
| ClientDelete (id : nat)                                 (** [delete(activeClients.Clients, ...)] *)
| ClientClose (id : nat).                                 (** the deferred [svrConn.Close()] *)

Definition set_loop (s : udp_loop) (pc : loop_pc) : udp_loop :=
  mkUdpLoop (balancer s) (Clients s) (backends s) pc (forwarded s) (answered s).

Definition set_status (s : udp_loop) (id : nat) (b : backend) (st : conn_status) : udp_loop :=
  mkUdpLoop (balancer s) (Clients s) (<[id := mkBackend (b_client b) (b_conn b) st]> (backends s))
    (loop s) (forwarded s) (answered s).

(** A number for a new connection. *)
Definition fresh_id (s : udp_loop) : nat := max_list (S <$> (map_to_list (backends s)).*1).

(** The connection of the client, which is made if there is none. *)
Definition getBackendConn (s : udp_loop) (addr : string) (ats : list attempt) (deadline : bool)
    : go (udp_loop * result nat) :=
  match Clients s !! addr with
  | Some id => Val (s, Ok id)
  | None =>
      let! (lb, _, _, r) := connect ats (balancer s) service (Some addr) "udp" None None in
      match r with
      | Err e => Val (mkUdpLoop lb (Clients s) (backends s) (loop s) (forwarded s) (answered s), Err e)
      | Ok svrConn =>
          let id := fresh_id s in
          if deadline then
            Val (mkUdpLoop lb (<[addr := id]> (Clients s)) (<[id := mkBackend addr svrConn Running]> (backends s))
                   (loop s) (forwarded s) (answered s), Ok id)
          else
            Val (mkUdpLoop lb (Clients s) (<[id := mkBackend addr svrConn Abandoned]> (backends s))
                   (loop s) (forwarded s) (answered s), Err "SetDeadline failed")
      end
  end.

(** One event of the loop; none if it cannot happen where the loop is. *)
Definition udp_ProxyLoop (s : udp_loop) (e : udp_event) : go (option udp_loop) :=
  match loop s, e with
  | LoopRead, NotAlive => Val (Some (set_loop s LoopDone))
  | LoopRead, ReadFrom (inl err) => Val (Some (if is_temporary err then s else set_loop s LoopDone))
  | LoopRead, ReadFrom (inr (cliAddr, data)) => Val (Some (set_loop s (LoopGot cliAddr data)))
  | LoopGot addr data, GetBackendConn ats deadline =>
      let! (s, r) := getBackendConn s addr ats deadline in
      Val (Some (match r with Err _ => set_loop s LoopRead | Ok id => set_loop s (LoopWrite addr id data) end))
  | LoopWrite addr id data, WriteBackend ok =>
      if ok then
        match backends s !! id with
        | Some (mkBackend _ _ Finished) | None => Val None
        | Some _ => Val (Some (mkUdpLoop (balancer s) (Clients s) (backends s) LoopDeadline
                                 (forwarded s ++ [(addr, id, data)]) (answered s)))
        end
      else Val (Some (set_loop s LoopRead))
  | LoopDeadline, SetDeadline => Val (Some (set_loop s LoopRead))
  | _, _ => Val None
  end.

(** One event of the goroutine of connection [id]. *)
Definition proxyClient (s : udp_loop) (e : udp_event) : option udp_loop :=
  match e with
  | ClientRead id data deadline written =>
      match backends s !! id with
      | Some (mkBackend addr c Running as b) =>
          if negb deadline then Some (set_status s id b Ending)
          else if negb written then Some (set_status s id b Ending)
          else Some (mkUdpLoop (balancer s) (Clients s) (backends s) (loop s) (forwarded s)
                       (answered s ++ [(id, addr, data)]))
      | _ => None
      end
  | ClientReadFails id =>
      match backends s !! id with Some (mkBackend _ _ Running as b) => Some (set_status s id b Ending) | _ => None end
  | ClientDelete id =>
      match backends s !! id with
      | Some (mkBackend addr _ Ending as b) =>
          let s := set_status s id b Deleted in
          Some (mkUdpLoop (balancer s) (delete addr (Clients s)) (backends s) (loop s) (forwarded s) (answered s))
      | _ => None
      end
  | ClientClose id =>
      match backends s !! id with Some (mkBackend _ _ Deleted as b) => Some (set_status s id b Finished) | _ => None end
  | _ => None
  end.

Definition udp_step (s : udp_loop) (e : udp_event) : go (option udp_loop) :=
  match e with
  | ClientRead _ _ _ _ | ClientReadFails _ | ClientDelete _ | ClientClose _ => Val (proxyClient s e)
  | _ => udp_ProxyLoop s e
  end.

(** A sequence of events, each of which can happen. *)
Fixpoint udp_run (s : udp_loop) (es : list udp_event) : go (option udp_loop) :=
  match es with
  | [] => Val (Some s)
  | e :: es =>
      let! r := udp_step s e in
      match r with Some s => udp_run s es | None => Val None end
  end.

Definition udp_start lb : udp_loop := mkUdpLoop lb ∅ ∅ LoopRead [] [].

(** ** The table of active clients *)

(** The goroutine of the connection has not deleted its entry. *)
Definition live (b : backend) : bool := match b_status b with Running | Ending => true | _ => false end.

Definition owned (s : udp_loop) (id : nat) (addr : string) : Prop :=
  exists b, backends s !! id = Some b /\ b_client b = addr.

Record udp_inv (s : udp_loop) : Prop := mkUdpInv {
  inv_table : forall addr id, Clients s !! addr = Some id <->
    exists b, backends s !! id = Some b /\ b_client b = addr /\ live b = true;
  inv_loop : forall addr id data, loop s = LoopWrite addr id data -> owned s id addr;
  inv_forwarded : forall addr id data, (addr, id, data) ∈ forwarded s -> owned s id addr;
  inv_answered : forall id addr data, (id, addr, data) ∈ answered s -> owned s id addr
}.

Lemma udp_start_inv lb : udp_inv (udp_start lb).
Proof. constructor; cbn; [|by intros ??? [=]|set_solver..]. intros addr id. split; [done|]. by intros (b & Hb & _). Qed.

(** The status of a connection changes, its client does not. *)
Lemma owned_status s id b st id' addr :
  backends s !! id = Some b -> owned s id' addr <-> owned (set_status s id b st) id' addr.
Proof.
  intros Hb. unfold owned. cbn. destruct (decide (id = id')) as [->|Hne].
  - rewrite lookup_insert_eq, Hb. split; intros (b' & [= <-] & <-); eauto.
  - by rewrite lookup_insert_ne.
Qed.

Lemma set_status_inv s id b st :
  udp_inv s -> backends s !! id = Some b -> live (mkBackend (b_client b) (b_conn b) st) = live b ->
  udp_inv (set_status s id b st).
Proof.
  intros [Ht Hl Hf Ha] Hb Hlive. constructor; cbn.
  - intros addr id'. rewrite Ht. destruct (decide (id = id')) as [->|Hne].
    + rewrite lookup_insert_eq, Hb. split; intros (b' & [= <-] & <- & Hv); eexists; (split; [done|]); cbn in *; by rewrite ?Hlive in *.
    + by rewrite lookup_insert_ne.
  - intros. apply (owned_status s id b st _ _ Hb). eauto.
  - intros. apply (owned_status s id b st _ _ Hb). eauto.
  - intros. apply (owned_status s id b st _ _ Hb). eauto.
Qed.

(** Deleting the entry of a client: it is the goroutine's own. *)
Lemma delete_client_inv s id b :
  udp_inv s -> backends s !! id = Some b -> live b = true ->
  udp_inv (mkUdpLoop (balancer s) (delete (b_client b) (Clients s))
             (<[id := mkBackend (b_client b) (b_conn b) Deleted]> (backends s)) (loop s) (forwarded s) (answered s)).
Proof.
  intros [Ht Hl Hf Ha] Hb Hlive. pose proof (owned_status s id b Deleted) as Ho.
  constructor; cbn; [|intros; apply (Ho _ _ Hb); eauto..].
  assert (Hid : Clients s !! b_client b = Some id) by (apply Ht; eauto).
  intros addr id'. rewrite lookup_delete_Some, Ht. split.
  - intros (Hne & b' & Hb' & <- & Hv). exists b'. rewrite lookup_insert_ne; [done|]. intros ->. congruence.
  - intros (b' & Hb' & <- & Hv). destruct (decide (id = id')) as [->|Hne].
    { rewrite lookup_insert_eq in Hb'. by injection Hb' as <-. }
    rewrite lookup_insert_ne in Hb' by done. split; [|eauto].
    intros E. assert (Clients s !! b_client b' = Some id') by (apply Ht; eauto). congruence.
Qed.

Lemma fresh_id_new s : backends s !! fresh_id s = None.
Proof.
  destruct (backends s !! fresh_id s) as [b|] eqn:E; [|done]. exfalso.
  assert (Hin : S (fresh_id s) ∈ S <$> (map_to_list (backends s)).*1).
  { apply list_elem_of_fmap. eexists. split; [done|]. apply list_elem_of_fmap. exists (fresh_id s, b).
    split; [done|]. by apply elem_of_map_to_list. }
  apply max_list_elem_of_le in Hin. fold (fresh_id s) in Hin. lia.
Qed.

(** A connection with a number of its own. *)
Lemma add_backend_owned s b id addr :
  owned s id addr -> exists b', <[fresh_id s := b]> (backends s) !! id = Some b' /\ b_client b' = addr.
Proof.
  intros (b' & Hb' & <-). exists b'. split; [|done]. rewrite lookup_insert_ne; [done|].
  intros E. pose proof (fresh_id_new s). congruence.
Qed.

Lemma add_client_inv s lb addr c :
  udp_inv s -> Clients s !! addr = None ->
  udp_inv (mkUdpLoop lb (<[addr := fresh_id s]> (Clients s)) (<[fresh_id s := mkBackend addr c Running]> (backends s))
             (loop s) (forwarded s) (answered s)).
Proof.
  intros [Ht Hl Hf Ha] Hn. pose proof (fresh_id_new s) as Hfr.
  constructor; cbn; [|intros; eapply add_backend_owned; eauto..].
  intros a id. destruct (decide (id = fresh_id s)) as [->|Hid].
  - rewrite (lookup_insert_eq (backends s)), lookup_insert_Some. split.
    + intros [[-> _]|[Hne Hc]]; [eauto|]. apply Ht in Hc as (b & Hb & _). congruence.
    + intros (b & [= <-] & <- & _). by left.
  - rewrite (lookup_insert_ne (backends s)) by done. rewrite <- Ht. rewrite lookup_insert_Some. split.
    + intros [[-> E]|[Hne Hc]]; [by rewrite E in Hid|done].
    + intros Hc. right. split; [|done]. intros ->. congruence.
Qed.

Lemma abandon_inv s lb addr c :
  udp_inv s ->
  udp_inv (mkUdpLoop lb (Clients s) (<[fresh_id s := mkBackend addr c Abandoned]> (backends s))
             (loop s) (forwarded s) (answered s)).
Proof.
  intros [Ht Hl Hf Ha]. pose proof (fresh_id_new s) as Hfr.
  constructor; cbn; [|intros; eapply add_backend_owned; eauto..].
  intros a id. rewrite Ht. destruct (decide (id = fresh_id s)) as [->|Hid].
  - rewrite lookup_insert_eq, Hfr. split; [by intros (b & [=] & _)|]. by intros (b & [= <-] & _ & [=]).
  - by rewrite lookup_insert_ne.
Qed.

Lemma set_balancer_inv s lb :
  udp_inv s -> udp_inv (mkUdpLoop lb (Clients s) (backends s) (loop s) (forwarded s) (answered s)).
Proof. by intros [Ht Hl Hf Ha]. Qed.

Lemma getBackendConn_inv s addr ats deadline s' r :
  getBackendConn s addr ats deadline = Val (s', r) -> udp_inv s ->
  udp_inv s' /\ loop s' = loop s /\ forall id, r = Ok id -> Clients s' !! addr = Some id.
Proof.
  unfold getBackendConn. destruct (Clients s !! addr) as [id|] eqn:Ec.
  - intros [= <- <-] Hinv. split; [done|]. split; [done|]. by intros ? [= <-].
  - intros Hg Hinv. apply go_bind_Val_inv in Hg as ([[[lb c] d] [svr|e]] & _ & Hg).
    + destruct deadline; injection Hg as <- <-; cbn.
      * split; [by apply add_client_inv|]. split; [done|]. intros id [= <-]. by rewrite lookup_insert_eq.
      * split; [by apply abandon_inv|]. by split.
    + injection Hg as <- <-. split; [by apply set_balancer_inv|]. by split.
Qed.

Lemma set_loop_inv s pc :
  udp_inv s -> (forall addr id data, pc = LoopWrite addr id data -> owned s id addr) -> udp_inv (set_loop s pc).
Proof. intros [Ht Hl Hf Ha] Hpc. by constructor. Qed.

Lemma udp_ProxyLoop_inv s e s' : udp_ProxyLoop s e = Val (Some s') -> udp_inv s -> udp_inv s'.
Proof.
  intros Hs Hinv. unfold udp_ProxyLoop in Hs.
  destruct (loop s) as [|addr data|addr id data| |] eqn:El; destruct e as [|[err|[cliAddr d]]|ats dl|ok| | | | |]; try done.
  - injection Hs as <-. by apply set_loop_inv.
  - injection Hs as <-. destruct (is_temporary err); [done|by apply set_loop_inv].
  - injection Hs as <-. by apply set_loop_inv.
  - apply go_bind_Val_inv in Hs as ([s1 r] & Hg & Hs). destruct (getBackendConn_inv _ _ _ _ _ _ Hg Hinv) as (Hi & _ & Hr).
    injection Hs as <-. destruct r as [id|]; apply set_loop_inv; try done.
    intros a i d [= <- <- <-]. destruct (proj1 (inv_table s1 Hi addr id) (Hr id eq_refl)) as (b & Hb & Hc & _). by exists b.
  - destruct ok; [|injection Hs as <-; by apply set_loop_inv].
    pose proof (inv_loop s Hinv addr id data El) as Ho. destruct Hinv as [Ht Hl Hf Ha].
    destruct (backends s !! id) as [[a c st]|] eqn:Eb; [|done]. destruct st; try done; injection Hs as <-;
      (constructor; cbn; [done|by intros ??? [=]| |done]; intros a' i' d'; rewrite elem_of_app, list_elem_of_singleton;
       intros [Hin|[= -> -> ->]]; [by eapply Hf|done]).
  - injection Hs as <-. by apply set_loop_inv.
Qed.

Lemma proxyClient_inv s e s' : proxyClient s e = Some s' -> udp_inv s -> udp_inv s'.
Proof.
  intros Hs Hinv. unfold proxyClient in Hs. destruct e as [| | | | |id data deadline wr|id|id|id]; try done;
    destruct (backends s !! id) as [[addr c []]|] eqn:Eb; try done.
  - destruct deadline; cbn in Hs; [|injection Hs as <-; by apply set_status_inv].
    destruct wr; cbn in Hs; injection Hs as <-; [|by apply set_status_inv].
    destruct Hinv as [Ht Hl Hf Ha]. constructor; cbn; try done. intros i a d.
    rewrite elem_of_app, list_elem_of_singleton. intros [Hin|[= -> -> ->]]; [by eapply Ha|]. by eexists.
  - injection Hs as <-. by apply set_status_inv.
  - injection Hs as <-. by apply (delete_client_inv s id (mkBackend addr c Ending)).
  - injection Hs as <-. by apply set_status_inv.
Qed.

Lemma client_table_run_inv es s s' : udp_run s es = Val (Some s') -> udp_inv s -> udp_inv s'.
Proof.
  revert s. induction es as [|e es IH]; intros s Hr Hinv; cbn [udp_run] in Hr; [by simplify_eq|].
  apply go_bind_Val_inv in Hr as ([s1|] & He & Hr); [|done]. apply (IH s1 Hr). clear IH Hr.
  assert (Hcase : udp_ProxyLoop s e = Val (Some s1) \/ proxyClient s e = Some s1).
  { unfold udp_step in He. destruct e; first [by left | right; congruence]. }
  destruct Hcase; [by eapply udp_ProxyLoop_inv|by eapply proxyClient_inv].
Qed.

(** C16. The table of active clients, however the loop and the goroutines
    interleave: it maps a client to a connection exactly if that connection was
    made for it and its goroutine has not yet deleted the entry; so a client
    never has two such connections, and no goroutine deletes the entry of
    another. *)
Theorem udp_client_table lb es s :
  udp_run (udp_start lb) es = Val (Some s) ->
  (forall addr id, Clients s !! addr = Some id <->
     exists b, backends s !! id = Some b /\ b_client b = addr /\ live b = true) /\
  (forall id id' b b', backends s !! id = Some b -> backends s !! id' = Some b' ->
     live b = true -> live b' = true -> b_client b = b_client b' -> id = id').
Proof.
  intros Hr. destruct (client_table_run_inv es _ s Hr (udp_start_inv lb)) as [Ht _ _ _]. split; [done|].
  intros id id' b b' Hb Hb' Hv Hv' E. assert (H1 : Clients s !! b_client b = Some id) by (apply Ht; eauto).
  assert (H2 : Clients s !! b_client b = Some id') by (rewrite E; apply Ht; eauto). congruence.
Qed.

(** C31. Clients are kept apart: every datagram is written to a connection that
    was made for the client it came from, and every reply goes to the client
    its connection was made for. *)
Theorem udp_clients_isolated lb es s :
  udp_run (udp_start lb) es = Val (Some s) ->
  (forall addr id data, (addr, id, data) ∈ forwarded s ->
     exists b, backends s !! id = Some b /\ b_client b = addr) /\
  (forall id addr data, (id, addr, data) ∈ answered s ->
     exists b, backends s !! id = Some b /\ b_client b = addr).
Proof. intros Hr. destruct (client_table_run_inv es _ s Hr (udp_start_inv lb)) as [_ _ Hf Ha]. by split. Qed.

(** ** The TCP loop *)

Definition conn_of (t : tcp_turn) : option Conn := match accepted t with Ok c => Some c | Err _ => None end.

(** The turn ends the loop: the service port is gone or the listener closed. *)
Definition ends_loop (t : tcp_turn) : bool :=
  negb (alive_before t) ||
  match accepted t with Err e => IsClosedError e || negb (alive_after t) | Ok _ => false end.

(** The TCP loop serves until the service port is gone or its listener
    closed: failures to accept or to reach an endpoint do not end it, and every
    connection accepted before that is either proxied or closed, none is
    forgotten. *)
Theorem tcp_ProxyLoop_serves turns lb lb' fates returned :
  tcp_ProxyLoop turns lb = Val (lb', fates, returned) ->
  exists n, Forall (fun t => ends_loop t = false) (take n turns) /\
    length fates = length (omap conn_of (take n turns)) /\
    if returned then exists t, turns !! n = Some t /\ ends_loop t = true else n = length turns.
Proof.
  revert lb lb' fates returned. induction turns as [|t turns IH]; intros lb lb' fates returned; cbn [tcp_ProxyLoop].
  { intros [= <- <- <-]. by exists 0%nat. }
  destruct (alive_before t) eqn:Eb; cbn [negb].
  2:{ intros [= <- <- <-]. exists 0%nat. cbn. split; [done|]. split; [done|]. exists t. split; [done|]. unfold ends_loop. by rewrite Eb. }
  destruct (accepted t) as [c|e] eqn:Ea.
  - intros Hl. apply go_bind_Val_inv in Hl as ([[[lb1 c'] d] r] & _ & Hl). apply go_bind_Val_inv in Hl as ([[lb2 fs] ret] & Hrec & Hl).
    injection Hl as <- <- <-. destruct (IH _ _ _ _ Hrec) as (n & Hf & Hlen & Hret). exists (S n). cbn. unfold conn_of at 1. rewrite Ea.
    cbn. rewrite Hlen. split; [constructor; [|done]; unfold ends_loop; by rewrite Eb, Ea|]. split; [done|].
    destruct ret; [done|by rewrite Hret].
  - destruct (IsTooManyFDsError e); [done|].
    destruct (IsClosedError e || negb (alive_after t)) eqn:Es.
    + assert (Hend : ends_loop t = true) by (unfold ends_loop; by rewrite Eb, Ea).
      destruct (IsClosedError e); [|destruct (alive_after t); [done|]]; cbn; intros [= <- <- <-]; exists 0%nat; cbn; eauto.
    + apply orb_false_iff in Es as [Ec Es]. rewrite Ec, Es. intros Hrec.
      destruct (IH _ _ _ _ Hrec) as (n & Hf & Hlen & Hret). exists (S n). cbn. unfold conn_of at 1. rewrite Ea. cbn.
      split; [constructor; [|done]; unfold ends_loop; by rewrite Eb, Ea, Ec, Es|]. split; [done|].
      destruct returned; [done|by rewrite Hret].
Qed.
End sockets.

(** ** Witnesses *)

Local Abbreviation demo_run := (udp_run no_header no_request no_addr (fun _ => Err "") (fun c b => Ok (c ++ b)) demo_port).

(** Two clients send, one is answered and then goes away. *)
Definition demo_events : list (udp_event (R:=list_ring) (OutConn:=list Z)) :=
  [ReadFrom (inr ("10.1.1.1:5000", [1])); GetBackendConn [demo_attempt id 0; demo_attempt id 1] true; WriteBackend true; SetDeadline;
   ReadFrom (inr ("10.1.1.2:5000", [2])); GetBackendConn [demo_attempt id 1; demo_attempt id 2; demo_attempt id 3] true; WriteBackend true; SetDeadline;
   ClientRead 0 [3] true true; ClientReadFails 0; ClientDelete 0].

Definition demo_table : option (gmap string nat) :=
  match demo_run (udp_start demo_lb1) demo_events with Val (Some s) => Some (Clients s) | _ => None end.

Example demo_table_value : demo_table = Some {["10.1.1.2:5000" := 1%nat]}.
Proof. vm_compute. reflexivity. Qed.

Definition demo_final : udp_loop (R:=list_ring) (OutConn:=list Z) :=
  match demo_run (udp_start demo_lb1) demo_events with Val (Some s) => s | _ => udp_start demo_lb1 end.

Lemma udp_client_table_witness :
  demo_run (udp_start demo_lb1) demo_events = Val (Some demo_final) /\
  (Clients demo_final !! "10.1.1.2:5000" = Some 1%nat <->
     exists b, backends demo_final !! 1%nat = Some b /\ b_client b = "10.1.1.2:5000" /\ live b = true).
Proof.
  assert (Hr : demo_run (udp_start demo_lb1) demo_events = Val (Some demo_final)) by (vm_compute; reflexivity).
  split; [exact Hr|].
  exact (proj1 (udp_client_table no_header no_request no_addr (fun _ => Err "") (fun c b => Ok (c ++ b)) demo_port
                  demo_lb1 demo_events demo_final Hr) "10.1.1.2:5000" 1%nat).
Defined.

Lemma udp_clients_isolated_witness :
  answered demo_final = [(0%nat, "10.1.1.1:5000", [3])] /\
  exists b, backends demo_final !! 0%nat = Some b /\ b_client b = "10.1.1.1:5000".
Proof.
  assert (Ha : answered demo_final = [(0%nat, "10.1.1.1:5000", [3])]) by (vm_compute; reflexivity).
  split; [exact Ha|].
  refine (proj2 (udp_clients_isolated no_header no_request no_addr (fun _ => Err "") (fun c b => Ok (c ++ b)) demo_port
                   demo_lb1 demo_events demo_final _) 0%nat "10.1.1.1:5000" [3] _); [vm_compute; reflexivity|].
  rewrite Ha. apply list_elem_of_here.
Defined.

(** An accepted connection, a failure to accept, another connection for which
    no endpoint answers, and the end of the listener. *)
Definition demo_turns : list (tcp_turn (R:=list_ring) (Conn:=unit) (OutConn:=list Z)) :=
  [mkTurn true (Ok tt) true [demo_attempt id 0; demo_attempt id 1]; mkTurn true (Err "connection aborted") true [];
   mkTurn true (Ok tt) true [demo_attempt id 2]; mkTurn true (Err "accept: use of closed network connection") false []].

Local Abbreviation demo_loop :=
  (tcp_ProxyLoop no_header no_request no_addr (fun _ => Err "") (fun c b => Ok (c ++ b)) demo_port demo_turns demo_lb1).
Definition demo_fates : list (tcp_fate (R:=list_ring) (Conn:=unit) (OutConn:=list Z)) :=
  match demo_loop with Val (_, fates, _) => fates | Panic _ => [] end.
Definition demo_lb_after : LoadBalancer list_ring := match demo_loop with Val (lb, _, _) => lb | Panic _ => demo_lb1 end.

Lemma tcp_ProxyLoop_serves_witness :
  length demo_fates = 2%nat /\
  exists n, Forall (fun t => ends_loop t = false) (take n demo_turns) /\
    length demo_fates = length (omap conn_of (take n demo_turns)) /\
    exists t, demo_turns !! n = Some t /\ ends_loop t = true.
Proof.
  assert (Hl : demo_loop = Val (demo_lb_after, demo_fates, true)) by (vm_compute; reflexivity).
  split; [vm_compute; reflexivity|].
  exact (tcp_ProxyLoop_serves no_header no_request no_addr (fun _ => Err "") (fun c b => Ok (c ++ b)) demo_port
           demo_turns demo_lb1 demo_lb_after demo_fates true Hl).
Defined.
