(* ===== verification/GatewayIPs.v ===== *)
(** * The addresses of the gateway

    [src/pkg/gateway/util.go]: the addresses of the network cards the gateway
    listens on, filtered by the include and exclude lists.  What the host's
    network cards are is a parameter. *)

From Stdlib Require Import ZArith Lia Ascii String.
From stdpp Require Import base list strings option.
From S2P Require Import Prelude GoStrings GoNet Config.

Local Open Scope Z_scope.

Abbreviation netIP := (list Z).

Definition IPv4Mask : nat := 4.

Import EdgeGatewayConfig.

(** ** Filtering *)

Definition getIPAndSegment (IPList : list string) : list string * list string :=
  fold_left (fun '(ipList, ipSegmentList) val =>
      if Contains val "/" then (ipList, ipSegmentList ++ [val]) else (ipList ++ [val], ipSegmentList))
    IPList ([], []).

(** The inner loops: does some entry of the list match the address? *)
Definition matches_ip (ip : netIP) (l : list string) : bool :=
  existsb (fun ex => String.eqb (IP_String ip) ex) l.

Definition matches_segment (ip : netIP) (l : list string) : bool :=
  existsb (fun ex => match ParseCIDR ex with Ok (_, ipnet) => IPNet_Contains ipnet ip | Err _ => false end) l.

(** [for i := 0; i < len(l); i++], where an element that matches is cut out of
    the slice in place and the index is taken back by one.  Every turn either
    shortens the slice or advances the index. *)
Fixpoint exclude_loop (match_ : netIP -> bool) (fuel : nat) (i : nat) (l : list netIP) : list netIP :=
  match fuel with
  | O => l
  | S fuel' =>
      match l !! i with
      | None => l
      | Some ip =>
          if match_ ip then exclude_loop match_ fuel' i (take i l ++ drop (S i) l)
          else exclude_loop match_ fuel' (S i) l
      end
  end.

Definition excludeIPsFromIPs (allIPList : list netIP) (excludeIPList : list string) : list netIP :=
  exclude_loop (fun ip => matches_ip ip excludeIPList) (S (length allIPList)) 0 allIPList.

Definition excludeIPSegmentsFromIPs (allIPList : list netIP) (excludeIPSegmentList : list string) : list netIP :=
  exclude_loop (fun ip => matches_segment ip excludeIPSegmentList) (S (length allIPList)) 0 allIPList.

Definition includeIPsFromIPs (allIPList : list netIP) (includeIPList includeIPSegmentList : list string)
  : list netIP :=
  fold_left (fun res ip =>
      if matches_ip ip includeIPList then res ++ [ip]
      else if matches_segment ip includeIPSegmentList then res ++ [ip]
      else res) allIPList [].

(** ** Network cards *)

Section cards.
(** [net.Interfaces], the names; [net.InterfaceByName] and its [Addrs], the
    addresses in CIDR notation. *)
Context (Interfaces : result (list string)).
Context (InterfaceAddrs : string -> result (list string)).

Definition GetIPsByName (name : string) : result (list netIP) :=
  match InterfaceAddrs name with
  | Err e => Err e
  | Ok addresses =>
      Ok (fold_left (fun ips v =>
            match ParseCIDR v with
            | Ok (ip, ipnet) => if (length (net_Mask ipnet) =? IPv4Mask)%nat then ips ++ [ip] else ips
            | Err _ => ips
            end) addresses [])
  end.

Definition collect (names : list string) : list netIP :=
  fold_left (fun ips name =>
      match GetIPsByName name with Err _ => ips | Ok res => ips ++ res end) names [].

Definition GetAllIPs : result (list netIP) :=
  match Interfaces with
  | Err e => Err e
  | Ok interfaces => Ok (collect interfaces)
  end.

Definition GetIPsNeedListen (c : EdgeGatewayConfig.t) : result (list netIP) :=
  let netCards := NIC c in
  let step1 :=
    if String.eqb netCards "" || String.eqb netCards "*" then GetAllIPs
    else Ok (collect (Split "," netCards)) in
  match step1 with
  | Err e => Err e
  | Ok ips =>
      let includeIPs := IncludeIP c in
      let ips :=
        if String.eqb includeIPs "" || String.eqb includeIPs "*" then ips
        else let '(incIPList, incIPSegmentList) := getIPAndSegment (Split "," includeIPs) in
             includeIPsFromIPs ips incIPList incIPSegmentList in
      let excludeIPs := ExcludeIP c in
      if String.eqb excludeIPs "" then Ok ips
      else let '(ipList, ipSegmentList) := getIPAndSegment (Split "," excludeIPs) in
           let excludeIPres := excludeIPsFromIPs ips ipList in
           Ok (excludeIPSegmentsFromIPs excludeIPres ipSegmentList)
  end.

(** ** What the lists mean *)

(** An entry of a list names the address itself or a segment around it. *)
Definition entry_covers (ip : netIP) (entry : string) : bool :=
  if Contains entry "/" then
    match ParseCIDR entry with Ok (_, ipnet) => IPNet_Contains ipnet ip | Err _ => false end
  else String.eqb (IP_String ip) entry.

Definition covers (ip : netIP) (list_ : string) : bool := existsb (entry_covers ip) (Split "," list_).

Definition included (c : EdgeGatewayConfig.t) (ip : netIP) : bool :=
  String.eqb (IncludeIP c) "" || String.eqb (IncludeIP c) "*" || covers ip (IncludeIP c).

Definition excluded (c : EdgeGatewayConfig.t) (ip : netIP) : bool :=
  negb (String.eqb (ExcludeIP c) "") && covers ip (ExcludeIP c).

Lemma exclude_loop_filter match_ fuel i l :
  (length l - i < fuel)%nat -> (i <= length l)%nat ->
  exclude_loop match_ fuel i l = take i l ++ List.filter (fun ip => negb (match_ ip)) (drop i l).
Proof.
  revert i l. induction fuel as [|fuel IH]; intros i l Hf Hi; [lia|]. cbn [exclude_loop].
  destruct (l !! i) as [ip|] eqn:E.
  - assert (Hlt : (i < length l)%nat) by (by eapply lookup_lt_Some).
    rewrite (drop_S l ip i E). cbn [List.filter]. destruct (match_ ip); cbn [negb].
    + rewrite IH.
      * rewrite take_app_length', drop_app_length' by (rewrite length_take; lia). done.
      * rewrite length_app, length_take, length_drop. lia.
      * rewrite length_app, length_take, length_drop. lia.
    + rewrite IH by lia. rewrite (take_S_r l i ip E), <- app_assoc. done.
  - apply lookup_ge_None in E. rewrite take_ge, drop_ge by lia. by rewrite app_nil_r.
Qed.

Lemma excludeIPsFromIPs_filter l ex :
  excludeIPsFromIPs l ex = List.filter (fun ip => negb (matches_ip ip ex)) l.
Proof. unfold excludeIPsFromIPs. rewrite exclude_loop_filter by lia. done. Qed.

Lemma excludeIPSegmentsFromIPs_filter l ex :
  excludeIPSegmentsFromIPs l ex = List.filter (fun ip => negb (matches_segment ip ex)) l.
Proof. unfold excludeIPSegmentsFromIPs. rewrite exclude_loop_filter by lia. done. Qed.

Lemma fold_filter {A} (p : A -> bool) (l acc : list A) :
  fold_left (fun res x => if p x then res ++ [x] else res) l acc = acc ++ List.filter p l.
Proof.
  revert acc. induction l as [|x l IH]; intros acc; simpl; [by rewrite app_nil_r|].
  rewrite IH. destruct (p x); [|done]. by rewrite <- app_assoc.
Qed.

Lemma includeIPsFromIPs_filter l inc seg :
  includeIPsFromIPs l inc seg = List.filter (fun ip => matches_ip ip inc || matches_segment ip seg) l.
Proof.
  unfold includeIPsFromIPs.
  rewrite <- (app_nil_l (List.filter _ l)), <- (fold_filter (fun ip => matches_ip ip inc || matches_segment ip seg)).
  assert (H : forall acc, fold_left (fun res ip => if matches_ip ip inc then res ++ [ip]
      else if matches_segment ip seg then res ++ [ip] else res) l acc =
    fold_left (fun res ip => if matches_ip ip inc || matches_segment ip seg then res ++ [ip] else res) l acc);
    [|apply H].
  induction l as [|ip l IH]; intros acc; simpl; [done|]. rewrite IH.
  by destruct (matches_ip ip inc), (matches_segment ip seg).
Qed.

Lemma getIPAndSegment_filter l :
  getIPAndSegment l = (List.filter (fun v => negb (Contains v "/")) l, List.filter (fun v => Contains v "/") l).
Proof.
  unfold getIPAndSegment.
  assert (H : forall acc1 acc2, fold_left (fun '(ipList, ipSegmentList) val =>
      if Contains val "/" then (ipList, ipSegmentList ++ [val]) else (ipList ++ [val], ipSegmentList))
      l (acc1, acc2) =
    (acc1 ++ List.filter (fun v => negb (Contains v "/")) l, acc2 ++ List.filter (fun v => Contains v "/") l)).
  { induction l as [|v l IH]; intros acc1 acc2; cbn [fold_left List.filter]; [by rewrite !app_nil_r|].
    destruct (Contains v "/"); rewrite IH; cbn [negb]; by rewrite <- app_assoc. }
  apply H.
Qed.

Lemma matches_split ip l :
  matches_ip ip (List.filter (fun v => negb (Contains v "/")) l) ||
  matches_segment ip (List.filter (fun v => Contains v "/") l) = existsb (entry_covers ip) l.
Proof.
  induction l as [|v l IH]; [done|]. cbn [List.filter existsb]. rewrite <- IH. unfold entry_covers at 1.
  unfold matches_ip, matches_segment. destruct (Contains v "/"); cbn [negb existsb]; [|by rewrite orb_assoc].
  rewrite !orb_assoc. f_equal. apply orb_comm.
Qed.

Lemma filter_filter {A} (p q : A -> bool) l :
  List.filter p (List.filter q l) = List.filter (fun x => q x && p x) l.
Proof.
  induction l as [|x l IH]; [done|]. simpl. destruct (q x); simpl; [destruct (p x)|]; by rewrite IH.
Qed.

(** The gateway listens on exactly those IPv4 addresses of the chosen
    network cards that the include list covers (or all, if it is empty or a
    star) and the exclude list does not, in the order of the cards and their
    addresses; the loops that cut addresses out of the slice while they walk
    over it miss none. *)
Theorem GetIPsNeedListen_spec c :
  GetIPsNeedListen c =
    match (if String.eqb (NIC c) "" || String.eqb (NIC c) "*" then Interfaces else Ok (Split "," (NIC c))) with
    | Err e => Err e
    | Ok cards => Ok (List.filter (fun ip => included c ip && negb (excluded c ip)) (collect cards))
    end.
Proof.
  unfold GetIPsNeedListen, GetAllIPs.
  assert (Hcards : forall ips,
    (let ips := if String.eqb (IncludeIP c) "" || String.eqb (IncludeIP c) "*" then ips
       else let '(inc, seg) := getIPAndSegment (Split "," (IncludeIP c)) in includeIPsFromIPs ips inc seg in
     if String.eqb (ExcludeIP c) "" then Ok ips
     else let '(ipList, ipSegmentList) := getIPAndSegment (Split "," (ExcludeIP c)) in
          Ok (excludeIPSegmentsFromIPs (excludeIPsFromIPs ips ipList) ipSegmentList)) =
    Ok (List.filter (fun ip => included c ip && negb (excluded c ip)) ips)).
  { intros ips. cbv zeta. rewrite !getIPAndSegment_filter, includeIPsFromIPs_filter.
    rewrite excludeIPSegmentsFromIPs_filter, excludeIPsFromIPs_filter, filter_filter.
    unfold included, excluded, covers.
    destruct (String.eqb (IncludeIP c) "" || String.eqb (IncludeIP c) "*"), (String.eqb (ExcludeIP c) "");
      rewrite ?filter_filter; f_equal; cbn [orb negb andb]; try (apply filter_ext; intros ip).
    - by rewrite forallb_filter_id by (by apply forallb_forall).
    - by rewrite <- matches_split, negb_orb.
    - by rewrite matches_split, andb_true_r.
    - by rewrite matches_split, <- (matches_split ip (Split "," (ExcludeIP c))), negb_orb. }
  destruct (String.eqb (NIC c) "" || String.eqb (NIC c) "*"); [destruct Interfaces; [|done]|]; apply Hcards.
Qed.
End cards.
