(* ===== verification/Gateway.v ===== *)
(** * The edge gateway

    [src/pkg/gateway/{http,tcp,tls,server,gateway,module}.go] and
    [cache/cache.go]: routing of HTTP requests by virtual services, TLS
    settings, the secret and virtual service caches, the servers of a gateway
    and their sockets. *)

From Stdlib Require Import ZArith Lia Ascii String.
From stdpp Require Import base list gmap strings option relations.
From S2P Require Import Prelude GoStrings GoNet GatewayIPs.

Local Open Scope Z_scope.

(** ** API objects *)

(** A slice read from an API object: nil or a list, which [reflect.DeepEqual]
    tells apart when the list is empty. *)
Abbreviation strings_or_nil := (option (list string)).

Inductive StringMatch : Type :=
| Exact (s : string)
| Prefix (s : string)
| Regex (s : string)
| MatchUnset.

Record Destination : Type := mkDestination { Host : string; Port : option Z }.

(** [Route] holds the destinations, each a pointer. *)
Record HTTPRoute : Type := mkHTTPRoute {
  Match : list (option StringMatch);
  Route : list (option Destination)
}.

Record VirtualService : Type := mkVirtualService {
  vs_Namespace : string;
  vs_Name : string;
  Hosts : strings_or_nil;
  Gateways : list string;
  Http : list HTTPRoute;
  Tcp : list (list (option Destination))
}.

Definition GetHosts (vs : VirtualService) : list string := default [] (Hosts vs).

(** A value of the data is a slice, which may be nil. *)
Record Secret : Type := mkSecret {
  sec_Namespace : string;
  sec_Name : string;
  sec_Type : string;
  Data : option (gmap string (option (list Z)))
}.

(** ** http.go *)

(** The getters are defined on nil pointers. *)
Definition GetPrefix (sm : option StringMatch) : string :=
  match sm with Some (Prefix s) => s | _ => "" end.
Definition GetExact (sm : option StringMatch) : string :=
  match sm with Some (Exact s) => s | _ => "" end.
Definition GetRegex (sm : option StringMatch) : string :=
  match sm with Some (Regex s) => s | _ => "" end.

Section routing.
(** [regexp.Compile] followed by [Match]; [None] if it does not compile. *)
Context (regexp : string -> option (string -> bool)).

Definition uriMatch (sm : option StringMatch) (reqURI : string) : bool :=
  let isRoot := String.eqb reqURI "/" in
  let trim s := if isRoot then s else TrimLeft s "/" in
  let prefix := trim (GetPrefix sm) in
  let exact := trim (GetExact sm) in
  let regex := trim (GetRegex sm) in
  let reqURI := trim reqURI in
  if (negb (String.eqb exact "") && String.eqb exact reqURI) ||
     (negb (String.eqb prefix "") && HasPrefix reqURI prefix) then true
  else if negb (String.eqb regex "") then
    match regexp regex with
    | None => false
    | Some m => m reqURI
    end
  else false.

(** What [Process] needs to know of the destination. *)
Record service_meta : Type := mkMeta { SvcName : string; SvcNamespace : string; SvcPort : Z }.

(** [httpRoute.Route[0].Destination.Host] and [.Port.Number] *)
Definition route_target (vs : VirtualService) (r : HTTPRoute) : go service_meta :=
  let! d := go_index (Route r) 0 in
  match d with
  | Some (mkDestination host (Some port)) => Val (mkMeta host (vs_Namespace vs) port)
  | _ => Panic "nil pointer dereference"
  end.

(** The loop over the match conditions of one route. *)
Fixpoint route_matches (vs : VirtualService) (r : HTTPRoute) (ms : list (option StringMatch))
    (requestURI : string) : go (option service_meta) :=
  match ms with
  | [] => Val None
  | m :: ms' =>
      if uriMatch m requestURI && negb (length (Route r) =? 0)%nat
      then let! t := route_target vs r in Val (Some t)
      else route_matches vs r ms' requestURI
  end.

Fixpoint route_loop (vs : VirtualService) (rs : list HTTPRoute) (requestURI : string)
  : go (result service_meta) :=
  match rs with
  | [] => Val (Err ("no match svc found for uri " +:+ requestURI))
  | r :: rs' =>
      let! o := route_matches vs r (Match r) requestURI in
      match o with
      | Some t => Val (Ok t)
      | None => route_loop vs rs' requestURI
      end
  end.

Definition route (vs : option VirtualService) (requestURI : string) : go (result service_meta) :=
  match vs with
  | None => Val (Err "virtual service nil")
  | Some vs => route_loop vs (Http vs) requestURI
  end.

Definition checkHost (vs : option VirtualService) (requestHost : string) : go (result unit) :=
  match vs with
  | None => Val (Err "virtual service nil")
  | Some vs =>
      let vsHosts := GetHosts vs in
      if zlen vsHosts <? 1 then Val (Err "virtual service no hosts") else
      if existsb (fun h => String.eqb h "*") vsHosts then Val (Ok tt) else
      let hostElem := Split ":" requestHost in
      if zlen hostElem <? 1 then Val (Err ("invalid request host " +:+ requestHost)) else
      let! host := go_index hostElem 0 in
      if String.eqb host "" then Val (Err ("invalid request host " +:+ requestHost)) else
      match ParseIP host with
      | Some _ => Val (Ok tt)
      | None =>
          if existsb (fun h => String.eqb host h) vsHosts then Val (Ok tt)
          else Val (Err ("`" +:+ host +:+ "` not in domain list"))
      end
  end.

(** ** Processing a connection *)

Record request : Type := mkRequest { req_Host : string; RequestURI : string }.

(** What the connection's handler does to it; [Proxy] starts the goroutine that
    copies between the client and a connection to an endpoint of the service. *)
Inductive conn_event (SvcPort OutConn : Type) : Type :=
| CloseConn
| Proxy (svcPort : SvcPort) (req : option request) (outConn : OutConn).
#[global] Arguments CloseConn {_ _}.
#[global] Arguments Proxy {_ _} _ _ _.

(** [internalLoadBalancer] is shared with other goroutines: [LB] is what a call
    finds of it and of the network. *)
Context {LB SvcPort_ OutConn : Type}.
Context (GetServicePortName : LB -> service_meta -> option SvcPort_).
Context (TryConnectEndpoints : LB -> SvcPort_ -> option request -> go (result OutConn)).

Definition TCP_Process (lb : LB) (meta : service_meta) (upgradeReq : option request) : go (list (conn_event SvcPort_ OutConn)) :=
  match GetServicePortName lb meta with
  | None => Val []
  | Some svcPort =>
      let! outConn := TryConnectEndpoints lb svcPort upgradeReq in
      match outConn with
      | Err _ => Val [CloseConn]
      | Ok c => Val [Proxy svcPort upgradeReq c]
      end
  end.

(** The loop of [HTTP.Process] over the requests read from the connection, each
    with what the load balancer is then. *)
Fixpoint HTTP_Process (vs : option VirtualService) (meta : service_meta) (reads : list (result request * LB))
  : go (list (conn_event SvcPort_ OutConn)) :=
  match reads with
  | [] => Val []
  | (Err _, _) :: _ => Val [CloseConn]
  | (Ok req, lb) :: reads' =>
      let! routed :=
        match vs with
        | None => Val (Ok meta)
        | Some _ =>
            let! h := checkHost vs (req_Host req) in
            match h with
            | Err e => Val (Err e)
            | Ok _ => route vs (RequestURI req)
            end
        end in
      match routed with
      | Err _ => Val [CloseConn]
      | Ok meta =>
          let! evs := TCP_Process lb meta (Some req) in
          let! rest := HTTP_Process vs meta reads' in
          Val (evs ++ rest)
      end
  end.
End routing.

(** ** cache.go

    A cache is a map from keys to objects; the order of [Range] is that of
    Go's maps. *)

Definition KeyFormat (namespace name : string) : string := namespace +:+ "." +:+ name.

Section cache.
Context {A : Type}.
Implicit Types c : gmap string A.

Definition cache_Update c (key : string) (x : A) : gmap string A := <[key := x]> c.
Definition cache_Delete c (key : string) : gmap string A := delete key c.
Definition cache_Get c (key : string) : option A := c !! key.
Definition cache_Range `{RangeOrder} c : list A := (range c).*2.
End cache.

(** ** tls.go *)

Definition VersionTLS10 : Z := 0x0301.
Definition VersionTLS11 : Z := 0x0302.
Definition VersionTLS12 : Z := 0x0303.
Definition VersionTLS13 : Z := 0x0304.

Inductive TLSProtocol : Type := TLS_AUTO | TLSV1_0 | TLSV1_1 | TLSV1_2 | TLSV1_3.

Definition tlsVersionMaps (p : TLSProtocol) : option Z :=
  match p with
  | TLSV1_0 => Some VersionTLS10
  | TLSV1_1 => Some VersionTLS11
  | TLSV1_2 => Some VersionTLS12
  | TLSV1_3 => Some VersionTLS13
  | TLS_AUTO => None
  end.

Definition transformTLSVersion (istioTLSVersion : TLSProtocol) : Z :=
  match tlsVersionMaps istioTLSVersion with
  | None => VersionTLS10
  | Some v => v
  end.

Definition tlsCipherSuitesMaps : gmap string Z := list_to_map [
  ("TLS_RSA_WITH_RC4_128_SHA", 0x0005);
  ("TLS_RSA_WITH_3DES_EDE_CBC_SHA", 0x000a);
  ("TLS_RSA_WITH_AES_128_CBC_SHA", 0x002f);
  ("TLS_RSA_WITH_AES_256_CBC_SHA", 0x0035);
  ("TLS_RSA_WITH_AES_128_CBC_SHA256", 0x003c);
  ("TLS_RSA_WITH_AES_128_GCM_SHA256", 0x009c);
  ("TLS_RSA_WITH_AES_256_GCM_SHA384", 0x009d);
  ("TLS_ECDHE_ECDSA_WITH_RC4_128_SHA", 0xc007);
  ("TLS_ECDHE_ECDSA_WITH_AES_128_CBC_SHA", 0xc009);
  ("TLS_ECDHE_ECDSA_WITH_AES_256_CBC_SHA", 0xc00a);
  ("TLS_ECDHE_RSA_WITH_RC4_128_SHA", 0xc011);
  ("TLS_ECDHE_RSA_WITH_3DES_EDE_CBC_SHA", 0xc012);
  ("TLS_ECDHE_RSA_WITH_AES_128_CBC_SHA", 0xc013);
  ("TLS_ECDHE_RSA_WITH_AES_256_CBC_SHA", 0xc014);
  ("TLS_ECDHE_ECDSA_WITH_AES_128_CBC_SHA256", 0xc023);
  ("TLS_ECDHE_RSA_WITH_AES_128_CBC_SHA256", 0xc027);
  ("TLS_ECDHE_RSA_WITH_AES_128_GCM_SHA256", 0xc02f);
  ("TLS_ECDHE_ECDSA_WITH_AES_128_GCM_SHA256", 0xc02b);
  ("TLS_ECDHE_RSA_WITH_AES_256_GCM_SHA384", 0xc030);
  ("TLS_ECDHE_ECDSA_WITH_AES_256_GCM_SHA384", 0xc02c);
  ("TLS_ECDHE_RSA_WITH_CHACHA20_POLY1305_SHA256", 0xcca8);
  ("TLS_ECDHE_ECDSA_WITH_CHACHA20_POLY1305_SHA256", 0xcca9);
  ("TLS_AES_128_GCM_SHA256", 0x1301);
  ("TLS_AES_256_GCM_SHA384", 0x1302);
  ("TLS_CHACHA20_POLY1305_SHA256", 0x1303);
  ("TLS_ECDHE_RSA_WITH_CHACHA20_POLY1305", 0xcca8);
  ("TLS_ECDHE_ECDSA_WITH_CHACHA20_POLY1305", 0xcca9)].

Definition transformTLSCipherSuites (istioCipherSuites : list string) : list Z :=
  fold_left (fun cipherSuites c =>
      match tlsCipherSuitesMaps !! c with Some cs => cipherSuites ++ [cs] | None => cipherSuites end)
    istioCipherSuites [].

(** The certificate, the key and the root certificate, unless it is nil. *)
Definition getTLSCertAndKey (s : Secret) : result (list Z * list Z * option (list Z)) :=
  if negb (String.eqb (sec_Type s) "kubernetes.io/tls")
  then Err ("secret " +:+ sec_Name s +:+ " not tls secret") else
  match Data s with
  | None => Err ("secret " +:+ sec_Name s +:+ " data is empty")
  | Some data =>
      match data !! "tls.crt" with
      | None => Err ("tls cert not found in secret " +:+ sec_Name s +:+ " data")
      | Some tlsCrt =>
          match data !! "tls.key" with
          | None => Err ("tls key not found in secret " +:+ sec_Name s +:+ " data")
          | Some tlsKey => Ok (default [] tlsCrt, default [] tlsKey, mjoin (data !! "ca.crt"))
          end
      end
  end.

(** ** server.go *)

Record ServerOptions : Type := mkServerOptions {
  Exposed : bool;
  GwName : string;
  opt_Namespace : string;
  opt_Hosts : strings_or_nil;
  opt_Protocol : string;
  CredentialName : string;
  MinVersion : Z;
  MaxVersion : Z;
  CipherSuites : list Z
}.

(** A server and the address of its listener. *)
Record Server : Type := mkServer { srv_addr : netIP * Z; options : ServerOptions }.

(** The protocol handler of a connection. *)
Inductive Protocol : Type :=
| HTTP (vs : VirtualService)
| TCP (meta : service_meta).

Section servers.
Context `{RangeOrder}.

Definition bound_to_gateway (opts : ServerOptions) (vs : VirtualService) : bool :=
  match Gateways vs with
  | g :: _ => String.eqb g (GwName opts) && bool_decide (Hosts vs = opt_Hosts opts)
  | [] => false
  end.

(** The virtual services with one TCP route to one destination. *)
Fixpoint tcp_proto (opts : ServerOptions) (vss : list VirtualService) : go (result Protocol) :=
  match vss with
  | [] => Val (Err "no match virtual service")
  | vs :: vss' =>
      match Tcp vs with
      | [[d]] =>
          match d with
          | Some (mkDestination host (Some port)) => Val (Ok (TCP (mkMeta host (opt_Namespace opts) port)))
          | _ => Panic "nil pointer dereference"
          end
      | _ => tcp_proto opts vss'
      end
  end.

Definition newProto (virtualServiceCache : gmap string VirtualService) (opts : ServerOptions)
  : go (result Protocol) :=
  if Exposed opts then
    let vss := List.filter (bound_to_gateway opts) (cache_Range virtualServiceCache) in
    if String.eqb (opt_Protocol opts) "HTTP" || String.eqb (opt_Protocol opts) "HTTPS" then
      match vss with
      | vs :: _ => Val (Ok (HTTP vs))
      | [] => Val (Err "no match virtual service")
      end
    else if String.eqb (opt_Protocol opts) "TCP" then tcp_proto opts vss
    else Val (Err ("protocol " +:+ opt_Protocol opts +:+ " not supported"))
  else Val (Err "egress traffic not supported").

(** The TLS configuration of a server connection. *)
Record tls_Config : Type := mkTlsConfig {
  cfg_Certificate : list Z * list Z;
  cfg_CipherSuites : list Z;
  cfg_MinVersion : Z;
  cfg_MaxVersion : Z;
  ClientCAs : option (list Z);
  RequireAndVerifyClientCert : bool
}.

(** [tls.X509KeyPair] and [AppendCertsFromPEM] accept or reject their input. *)
Context (X509KeyPair : list Z -> list Z -> result unit).
Context (AppendCertsFromPEM : list Z -> bool).

(** What the accept loop does with a connection: close it, or process it with a
    protocol handler, possibly over TLS. *)
Inductive accepted : Type :=
| Closed
| Serve (tls : option tls_Config) (proto : Protocol).

Definition serve_tls (secretCache : gmap string Secret) (opts : ServerOptions) : result (option tls_Config) :=
  if String.eqb (CredentialName opts) "" then Ok None else
  let key := KeyFormat (opt_Namespace opts) (CredentialName opts) in
  match cache_Get secretCache key with
  | None => Err ("can't find k8s secret " +:+ key +:+ " in cache")
  | Some s =>
      match getTLSCertAndKey s with
      | Err e => Err e
      | Ok (certBytes, keyBytes, rootCA) =>
          match X509KeyPair certBytes keyBytes with
          | Err e => Err e
          | Ok _ =>
              let cfg ca require :=
                mkTlsConfig (certBytes, keyBytes) (CipherSuites opts) (MinVersion opts) (MaxVersion opts) ca require in
              match rootCA with
              | None => Ok (Some (cfg None false))
              | Some ca =>
                  if AppendCertsFromPEM ca then Ok (Some (cfg (Some ca) true)) else Err "ca cert invalid"
              end
          end
      end
  end.

Definition serve_conn (secretCache : gmap string Secret) (virtualServiceCache : gmap string VirtualService)
    (opts : ServerOptions) : go accepted :=
  match serve_tls secretCache opts with
  | Err _ => Val Closed
  | Ok tls =>
      let! proto := newProto virtualServiceCache opts in
      match proto with
      | Err _ => Val Closed
      | Ok p => Val (Serve tls p)
      end
  end.

(** The accept loop, over what [select] and [Accept] return: the closed stop
    channel, an error, or a connection together with the caches at that time.
    The list ends where the goroutine is blocked in [Accept]; the flag says
    whether the loop has returned. *)
Inductive serve_input : Type :=
| StopClosed
| AcceptErr (err : string)
| Accept (secretCache : gmap string Secret) (virtualServiceCache : gmap string VirtualService).

Fixpoint serve (opts : ServerOptions) (ins : list serve_input) : go (list accepted * bool) :=
  match ins with
  | [] => Val ([], false)
  | StopClosed :: _ => Val ([], true)
  | AcceptErr _ :: ins' => serve opts ins'
  | Accept secretCache virtualServiceCache :: ins' =>
      let! a := serve_conn secretCache virtualServiceCache opts in
      let! (rest, returned) := serve opts ins' in
      Val (a :: rest, returned)
  end.
End servers.

Definition IsClosedError (err : string) : bool := HasPrefix err "use of closed network connection".

(** ** gateway.go *)

Record TLSSettings : Type := mkTLSSettings {
  tls_CredentialName : string;
  MinProtocolVersion : TLSProtocol;
  MaxProtocolVersion : TLSProtocol;
  tls_CipherSuites : list string
}.

Record GatewayServer : Type := mkGatewayServer {
  gs_Hosts : strings_or_nil;
  gs_Port : option (Z * string);  (** number and protocol *)
  gs_Tls : option TLSSettings
}.

Record GatewayObject : Type := mkGateway {
  gw_Namespace : string;
  gw_Name : string;
  Servers : list GatewayServer
}.

(** The gateway and the listeners it has open. *)
Record EdgeGateway : Type := mkEdgeGateway {
  listenIPs : list netIP;
  serversByGateway : gmap string (list Server);
  listening : list (netIP * Z)
}.

Definition server_options (g : GatewayObject) (s : GatewayServer) : go (Z * ServerOptions) :=
  match gs_Port s with
  | None => Panic "nil pointer dereference"
  | Some (number, proto) =>
      let plain := mkServerOptions true (gw_Name g) (gw_Namespace g) (gs_Hosts s) proto "" 0 0 [] in
      match gs_Tls s with
      | Some t =>
          if String.eqb (tls_CredentialName t) "" then Val (number, plain)
          else Val (number,
                 mkServerOptions true (gw_Name g) (gw_Namespace g) (gs_Hosts s) proto (tls_CredentialName t)
                   (transformTLSVersion (MinProtocolVersion t)) (transformTLSVersion (MaxProtocolVersion t))
                   (transformTLSCipherSuites (tls_CipherSuites t)))
      | None => Val (number, plain)
      end
  end.

(** ** Informer callbacks

    A callback is given an [interface{}]; after a missed deletion the informer
    passes the last known object in a tombstone. *)
Inductive object : Type :=
| ObjSecret (s : Secret)
| ObjVirtualService (vs : VirtualService)
| ObjGateway (g : GatewayObject)
| DeletedFinalStateUnknown (obj : object)
| ObjOther.

(** The type assertions. *)
Definition as_Secret (obj : object) : option Secret :=
  match obj with ObjSecret s => Some s | _ => None end.
Definition as_VirtualService (obj : object) : option VirtualService :=
  match obj with ObjVirtualService vs => Some vs | _ => None end.
Definition as_Gateway (obj : object) : option GatewayObject :=
  match obj with ObjGateway g => Some g | _ => None end.

(** The object of a deletion, which may be in a tombstone. *)
Definition deleted_object {A} (as_ : object -> option A) (obj : object) : option A :=
  match as_ obj with
  | Some x => Some x
  | None =>
      match obj with
      | DeletedFinalStateUnknown obj' => as_ obj'
      | _ => None
      end
  end.

(** The operations of the two caches. *)
Definition UpdateSecret : gmap string Secret -> string -> Secret -> gmap string Secret := cache_Update.
Definition DeleteSecret : gmap string Secret -> string -> gmap string Secret := cache_Delete.
Definition GetSecret : gmap string Secret -> string -> option Secret := cache_Get.
Definition UpdateVirtualService : gmap string VirtualService -> string -> VirtualService -> gmap string VirtualService := cache_Update.
Definition DeleteVirtualService : gmap string VirtualService -> string -> gmap string VirtualService := cache_Delete.
Definition GetVirtualService : gmap string VirtualService -> string -> option VirtualService := cache_Get.

(** The handlers of secrets and of virtual services differ in the type and the
    cache only. *)
Section cache_handlers.
Context {A : Type} (as_ : object -> option A) (namespace name : A -> string).
Implicit Types c : gmap string A.

Definition handleAdd c (obj : object) : gmap string A :=
  match as_ obj with
  | None => c
  | Some x => cache_Update c (KeyFormat (namespace x) (name x)) x
  end.

Definition handleUpdate c (oldObj newObj : object) : gmap string A :=
  match as_ oldObj with
  | None => c
  | Some old =>
      match as_ newObj with
      | None => c
      | Some x =>
          let c := cache_Delete c (KeyFormat (namespace old) (name old)) in
          cache_Update c (KeyFormat (namespace x) (name x)) x
      end
  end.

Definition handleDelete c (obj : object) : gmap string A :=
  match deleted_object as_ obj with
  | None => c
  | Some x => cache_Delete c (KeyFormat (namespace x) (name x))
  end.
End cache_handlers.

Definition handleAddSecret := handleAdd as_Secret sec_Namespace sec_Name.
Definition handleUpdateSecret := handleUpdate as_Secret sec_Namespace sec_Name.
Definition handleDeleteSecret := handleDelete as_Secret sec_Namespace sec_Name.
Definition handleAddVirtualService := handleAdd as_VirtualService vs_Namespace vs_Name.
Definition handleUpdateVirtualService := handleUpdate as_VirtualService vs_Namespace vs_Name.
Definition handleDeleteVirtualService := handleDelete as_VirtualService vs_Namespace vs_Name.

Section gateway.
(** What the host says when an address this process does not listen on is
    opened. *)
Context (ListenTCP : netIP * Z -> result unit).

Definition addr_in_use : string := "bind: address already in use".

(** The server and the listeners afterwards. *)
Definition NewServer (open : list (netIP * Z)) (ip : netIP) (port : Z) (opts : ServerOptions)
  : result (Server * list (netIP * Z)) :=
  if bool_decide ((ip, port) ∈ open) then Err addr_in_use else
  match ListenTCP (ip, port) with
  | Err e => Err e
  | Ok _ => Ok (mkServer (ip, port) opts, (ip, port) :: open)
  end.

(** Closing a listener. *)
Definition Stop (open : list (netIP * Z)) (srv : Server) : list (netIP * Z) :=
  base.filter (.≠ srv_addr srv) open.

(** One server of the gateway on one address; [exits] tells whether a busy
    address ends the process. *)
Definition start_server (exits : bool) (g : GatewayObject) (acc : list (netIP * Z) * list Server)
    (x : netIP * GatewayServer) : go (list (netIP * Z) * list Server) :=
  let '(open, servers) := acc in
  let '(ip, s) := x in
  let! (number, opts) := server_options g s in
  match NewServer open ip number opts with
  | Err e =>
      if exits && Contains e "address already in use" then Panic "exit status 1"
      else Val (open, servers)
  | Ok (srv, open) => Val (open, servers ++ [srv])
  end.

Definition start_servers (exits : bool) (gw : EdgeGateway) (open : list (netIP * Z)) (g : GatewayObject)
  : go (list (netIP * Z) * list Server) :=
  go_fold (start_server exits g) (open, [])
    (ip ← listenIPs gw; s ← Servers g; [(ip, s)]).

Definition gateway_key (g : GatewayObject) : string := gw_Namespace g +:+ "." +:+ gw_Name g.

Definition OnGatewayAdd (gw : EdgeGateway) (g : GatewayObject) : go EdgeGateway :=
  let! (open, gatewayServers) := start_servers false gw (listening gw) g in
  Val (mkEdgeGateway (listenIPs gw) (<[gateway_key g := gatewayServers]> (serversByGateway gw)) open).

Definition OnGatewayUpdate (gw : EdgeGateway) (g : GatewayObject) : go EdgeGateway :=
  let key := gateway_key g in
  let open := fold_left Stop (default [] (serversByGateway gw !! key)) (listening gw) in
  let servers := delete key (serversByGateway gw) in
  let! (open, newGatewayServers) := start_servers true gw open g in
  Val (mkEdgeGateway (listenIPs gw) (<[key := newGatewayServers]> servers) open).

Definition OnGatewayDelete (gw : EdgeGateway) (g : GatewayObject) : EdgeGateway :=
  let key := gateway_key g in
  match serversByGateway gw !! key with
  | None => gw
  | Some gatewayServers =>
      mkEdgeGateway (listenIPs gw) (delete key (serversByGateway gw))
        (fold_left Stop gatewayServers (listening gw))
  end.

Definition handleAddGateway (gw : EdgeGateway) (obj : object) : go EdgeGateway :=
  match as_Gateway obj with None => Val gw | Some g => OnGatewayAdd gw g end.

Definition handleUpdateGateway (gw : EdgeGateway) (oldObj newObj : object) : go EdgeGateway :=
  match as_Gateway oldObj with
  | None => Val gw
  | Some _ => match as_Gateway newObj with None => Val gw | Some g => OnGatewayUpdate gw g end
  end.

Definition handleDeleteGateway (gw : EdgeGateway) (obj : object) : EdgeGateway :=
  match deleted_object as_Gateway obj with None => gw | Some g => OnGatewayDelete gw g end.
End gateway.

(** ** Routing *)

Section routing_facts.
Context (regexp : string -> option (string -> bool)).

(** The route has a destination and one of its conditions matches. *)
Definition route_hits (uri : string) (r : HTTPRoute) : bool :=
  negb (length (Route r) =? 0)%nat && existsb (fun m => uriMatch regexp m uri) (Match r).

Lemma route_matches_spec vs r ms uri :
  route_matches regexp vs r ms uri =
    if negb (length (Route r) =? 0)%nat && existsb (fun m => uriMatch regexp m uri) ms
    then (let! t := route_target vs r in Val (Some t)) else Val None.
Proof.
  induction ms as [|m ms IH]; [by rewrite andb_false_r|]. cbn [route_matches existsb]. rewrite IH.
  destruct (uriMatch regexp m uri), (negb _); done.
Qed.

Lemma route_by_find vs uri :
  route regexp (Some vs) uri =
    match List.find (route_hits uri) (Http vs) with
    | Some r => let! t := route_target vs r in Val (Ok t)
    | None => Val (Err ("no match svc found for uri " +:+ uri))
    end.
Proof.
  unfold route. induction (Http vs) as [|r rs IH]; [done|]. cbn [route_loop List.find].
  rewrite route_matches_spec. fold (route_hits uri r). destruct (route_hits uri r); [|exact IH].
  by destruct (route_target vs r).
Qed.
End routing_facts.

(** The part of a host before the first colon. *)
Definition host_part (h : string) : string :=
  match index_byte h ":" with Some i => str_take i h | None => h end.

Lemma Split_head c s : exists l, Split c s = match index_byte s c with Some i => str_take i s | None => s end :: l.
Proof.
  induction s as [|d s [l IH]]; [by exists []|]. cbn [Split index_byte].
  destruct (Ascii.eqb d c); [by eexists|]. rewrite IH. destruct (index_byte s c); by exists l.
Qed.

(** The host of a request is accepted exactly when the virtual service
    has hosts and one of them is a star, or the part of the host before its
    first colon is not empty and is an IP address or one of the hosts. *)
Theorem checkHost_spec vs h :
  checkHost (Some vs) h = Val (Ok tt) <->
  "*" ∈ GetHosts vs \/
  (GetHosts vs <> [] /\ host_part h <> "" /\ (is_Some (ParseIP (host_part h)) \/ host_part h ∈ GetHosts vs)).
Proof.
  unfold checkHost. destruct (Split_head ":" h) as [l Hl]. fold (host_part h) in Hl. rewrite Hl.
  assert (Hstar : existsb (fun x => String.eqb x "*") (GetHosts vs) = true <-> "*" ∈ GetHosts vs).
  { rewrite existsb_exists. split.
    - intros (x & Hx & Heq). apply String.eqb_eq in Heq as ->. by apply list_elem_of_In.
    - intros Hx. exists "*". split; [by apply list_elem_of_In|done]. }
  assert (Hin : existsb (fun x => String.eqb (host_part h) x) (GetHosts vs) = true <-> host_part h ∈ GetHosts vs).
  { rewrite existsb_exists. split.
    - intros (x & Hx & Heq). apply String.eqb_eq in Heq as ->. by apply list_elem_of_In.
    - intros Hx. exists (host_part h). split; [by apply list_elem_of_In|apply String.eqb_refl]. }
  destruct (GetHosts vs) as [|v vs'] eqn:Ev.
  { cbn. split; [done|]. intros [Hx|[? _]]; [by apply not_elem_of_nil in Hx|done]. }
  rewrite <- Ev in *. assert ((zlen (GetHosts vs) <? 1) = false) as ->
    by (apply Z.ltb_ge; rewrite Ev, zlen_cons; pose proof (zlen_nonneg vs'); lia).
  destruct (existsb (fun x => String.eqb x "*") (GetHosts vs)); [by rewrite <- Hstar; tauto|].
  assert ((zlen (host_part h :: l) <? 1) = false) as ->
    by (apply Z.ltb_ge; rewrite zlen_cons; pose proof (zlen_nonneg l); lia).
  change (go_index (host_part h :: l) 0) with (Val (host_part h)). cbn [mbind go_bind].
  destruct (String.eqb_spec (host_part h) "") as [He|He].
  { split; [done|]. rewrite <- Hstar. naive_solver. }
  destruct (ParseIP (host_part h)) as [ip|].
  { split; [|done]. intros _. right. split; [by rewrite Ev|]. split; [done|]. left. by eexists. }
  destruct (existsb (fun x => String.eqb (host_part h) x) (GetHosts vs)) eqn:Ex.
  - split; [|done]. intros _. right. split; [by rewrite Ev|]. split; [done|]. right. by apply Hin.
  - split; [done|]. rewrite <- Hstar, <- Hin. intros [?|(_ & _ & [[? ?]|?])]; done.
Qed.
