(* ===== verification/GatewayServers.v ===== *)
(** * Correctness of the edge gateway

    Theorems on the definitions of [Gateway]: what a served connection is
    served with, the caches as a mirror of the cluster, and the listeners of
    the gateway under every sequence of gateway events. *)

From Stdlib Require Import ZArith Lia Ascii String.
From stdpp Require Import base list gmap strings option relations.
From S2P Require Import Prelude GoStrings GoNet GatewayIPs Gateway.

Local Open Scope Z_scope.

(** ** Serving a connection *)

Section serving.
Context `{RangeOrder}.
Context (X509KeyPair : list Z -> list Z -> result unit).
Context (AppendCertsFromPEM : list Z -> bool).

Lemma getTLSCertAndKey_Ok s crt key ca :
  getTLSCertAndKey s = Ok (crt, key, ca) ->
  sec_Type s = "kubernetes.io/tls" /\
  exists data crt' key', Data s = Some data /\ data !! "tls.crt" = Some crt' /\ data !! "tls.key" = Some key' /\
    crt = default [] crt' /\ key = default [] key' /\ mjoin (data !! "ca.crt") = ca.
Proof.
  unfold getTLSCertAndKey. destruct (String.eqb_spec (sec_Type s) "kubernetes.io/tls"); [|done].
  destruct (Data s) as [data|]; [|done]. destruct (data !! "tls.crt") eqn:?; [|done].
  destruct (data !! "tls.key") eqn:?; [|done]. intros [= <- <- <-]. split; [done|].
  do 3 eexists. do 3 (split; [eassumption || done|]). done.
Qed.

Lemma transformTLSCipherSuites_omap l :
  transformTLSCipherSuites l = omap (fun c => tlsCipherSuitesMaps !! c) l.
Proof.
  unfold transformTLSCipherSuites.
  enough (Hacc : forall acc, fold_left _ l acc = acc ++ omap (fun c => tlsCipherSuitesMaps !! c) l) by apply Hacc.
  induction l as [|c l IH]; intros acc; [by rewrite app_nil_r|]. cbn [fold_left omap list_omap].
  rewrite IH. destruct (tlsCipherSuitesMaps !! c); [by rewrite <- (assoc_L (++))|done].
Qed.

(** The TLS settings of a server's options in terms of the secret. *)
Lemma serve_tls_Some secrets opts tls :
  CredentialName opts <> "" ->
  serve_tls X509KeyPair AppendCertsFromPEM secrets opts = Ok tls ->
  exists s crt key ca,
    secrets !! KeyFormat (opt_Namespace opts) (CredentialName opts) = Some s /\
    getTLSCertAndKey s = Ok (crt, key, ca) /\ X509KeyPair crt key = Ok tt /\
    tls = Some (mkTlsConfig (crt, key) (CipherSuites opts) (MinVersion opts) (MaxVersion opts) ca
                  (bool_decide (is_Some ca))).
Proof.
  intros Hne. unfold serve_tls, cache_Get.
  destruct (String.eqb_spec (CredentialName opts) "") as [|_]; [done|].
  destruct (secrets !! _) as [s|]; [|done].
  destruct (getTLSCertAndKey s) as [[[crt key] ca]|] eqn:Es; [|done].
  destruct (X509KeyPair crt key) as [[]|] eqn:Ex; [|done].
  destruct ca as [ca|]; [destruct (AppendCertsFromPEM ca); [|done]|]; intros [= <-]; eauto 10.
Qed.

Lemma server_options_tls g s t n opts :
  gs_Tls s = Some t -> tls_CredentialName t <> "" -> server_options g s = Val (n, opts) ->
  opts = mkServerOptions true (gw_Name g) (gw_Namespace g) (gs_Hosts s) (opt_Protocol opts) (tls_CredentialName t)
           (transformTLSVersion (MinProtocolVersion t)) (transformTLSVersion (MaxProtocolVersion t))
           (transformTLSCipherSuites (tls_CipherSuites t)).
Proof.
  unfold server_options. intros -> Hne. destruct (gs_Port s) as [[number proto]|]; [|done].
  destruct (String.eqb_spec (tls_CredentialName t) ""); [done|]. by intros [= <- <-].
Qed.

Lemma serve_conn_tls secrets vss opts tls p :
  serve_conn X509KeyPair AppendCertsFromPEM secrets vss opts = Val (Serve tls p) ->
  serve_tls X509KeyPair AppendCertsFromPEM secrets opts = Ok tls /\ newProto vss opts = Val (Ok p).
Proof.
  unfold serve_conn. destruct (serve_tls _ _ _ _) as [tls'|]; [|done]. intros Hb.
  apply go_bind_Val_inv in Hb as ([p'|] & Hp & Heq); [|done]. by injection Heq as <- <-.
Qed.

(** C10. A connection to a gateway server with a credential is only ever served
    over TLS: with the certificate and the key of the TLS secret of that name
    in the gateway's namespace, the configured versions and known cipher
    suites, and requiring a verified client certificate exactly when the
    secret holds a root certificate that is not nil. *)
Theorem served_over_tls g s t n opts secrets vss tls p :
  gs_Tls s = Some t -> tls_CredentialName t <> "" -> server_options g s = Val (n, opts) ->
  serve_conn X509KeyPair AppendCertsFromPEM secrets vss opts = Val (Serve tls p) ->
  exists sec data cfg crt key,
    secrets !! KeyFormat (gw_Namespace g) (tls_CredentialName t) = Some sec /\
    sec_Type sec = "kubernetes.io/tls" /\ Data sec = Some data /\
    data !! "tls.crt" = Some crt /\ data !! "tls.key" = Some key /\
    tls = Some cfg /\ cfg_Certificate cfg = (default [] crt, default [] key) /\
    X509KeyPair (default [] crt) (default [] key) = Ok tt /\
    cfg_MinVersion cfg = transformTLSVersion (MinProtocolVersion t) /\
    cfg_MaxVersion cfg = transformTLSVersion (MaxProtocolVersion t) /\
    cfg_CipherSuites cfg = omap (fun c => tlsCipherSuitesMaps !! c) (tls_CipherSuites t) /\
    ClientCAs cfg = mjoin (data !! "ca.crt") /\
    RequireAndVerifyClientCert cfg = bool_decide (is_Some (mjoin (data !! "ca.crt"))).
Proof.
  intros Ht Hne Ho [Hs _]%serve_conn_tls. pose proof (server_options_tls _ _ _ _ _ Ht Hne Ho) as Eo.
  rewrite Eo in Hs. apply serve_tls_Some in Hs as (sec & crt & key & ca & Hsec & Hk & Hx & ->); [|done].
  destruct (getTLSCertAndKey_Ok _ _ _ _ Hk) as (Hty & data & crt' & key' & Hd & Hc & Hkey & -> & -> & <-).
  eexists sec, data, _, crt', key'. repeat (split; [eassumption || reflexivity|]). cbn.
  by rewrite transformTLSCipherSuites_omap.
Qed.

(** When the maximal version is left unset, the server speaks no version
    of TLS above 1.0. *)
Theorem unset_version_means_tls10 g s t n opts secrets cfg :
  gs_Tls s = Some t -> tls_CredentialName t <> "" -> MaxProtocolVersion t = TLS_AUTO ->
  server_options g s = Val (n, opts) ->
  serve_tls X509KeyPair AppendCertsFromPEM secrets opts = Ok (Some cfg) ->
  cfg_MaxVersion cfg = VersionTLS10.
Proof.
  intros Ht Hne Hmax Ho Hs. pose proof (server_options_tls _ _ _ _ _ Ht Hne Ho) as Eo.
  rewrite Eo in Hs. apply serve_tls_Some in Hs as (sec & crt & key & ca & _ & _ & _ & [= ->]); [|done].
  cbn. by rewrite Hmax.
Qed.

Lemma bound_to_gateway_spec opts vs :
  bound_to_gateway opts vs = true <->
  head (Gateways vs) = Some (GwName opts) /\ Hosts vs = opt_Hosts opts.
Proof.
  unfold bound_to_gateway. destruct (Gateways vs) as [|g l]; cbn; [naive_solver|].
  rewrite andb_true_iff, String.eqb_eq, bool_decide_eq_true. naive_solver.
Qed.

Lemma tcp_proto_Ok opts l p :
  tcp_proto opts l = Val (Ok p) ->
  exists vs host port, vs ∈ l /\ Tcp vs = [[Some (mkDestination host (Some port))]] /\
    p = TCP (mkMeta host (opt_Namespace opts) port).
Proof.
  induction l as [|vs l IH]; [done|]. cbn [tcp_proto].
  assert (Hrec : tcp_proto opts l = Val (Ok p) -> exists vs' host port, vs' ∈ vs :: l /\
    Tcp vs' = [[Some (mkDestination host (Some port))]] /\ p = TCP (mkMeta host (opt_Namespace opts) port)).
  { intros (vs' & host & port & Hin & ?)%IH. exists vs', host, port. split; [by apply elem_of_cons; right|done]. }
  destruct (Tcp vs) as [|[|[[host [port|]]|] [|]] [|]] eqn:Et; try done; try exact Hrec.
  intros [= <-]. exists vs, host, port. split; [by apply elem_of_cons; left|done].
Qed.

Lemma cache_Range_elem {A} (c : gmap string A) x :
  x ∈ cache_Range c -> exists k, c !! k = Some x.
Proof. unfold cache_Range. intros ([k y] & -> & Hr)%list_elem_of_fmap. exists k. by apply elem_of_range. Qed.

(** The virtual service behind a protocol handler. *)
Lemma newProto_sound vss opts p :
  newProto vss opts = Val (Ok p) ->
  exists k vs, vss !! k = Some vs /\ head (Gateways vs) = Some (GwName opts) /\ Hosts vs = opt_Hosts opts /\
    (p = HTTP vs \/ exists host port, Tcp vs = [[Some (mkDestination host (Some port))]] /\
                      p = TCP (mkMeta host (opt_Namespace opts) port)).
Proof.
  unfold newProto. destruct (Exposed opts); [|done].
  assert (Hin : forall vs, vs ∈ List.filter (bound_to_gateway opts) (cache_Range vss) ->
    exists k, vss !! k = Some vs /\ head (Gateways vs) = Some (GwName opts) /\ Hosts vs = opt_Hosts opts).
  { intros vs [Hin Hb]%list_elem_of_In%filter_In. apply list_elem_of_In, cache_Range_elem in Hin as [k Hk].
    exists k. by rewrite <- bound_to_gateway_spec. }
  revert Hin. generalize (List.filter (bound_to_gateway opts) (cache_Range vss)) as l. intros l Hin.
  destruct (String.eqb (opt_Protocol opts) "HTTP" || String.eqb (opt_Protocol opts) "HTTPS").
  - destruct l as [|vs l]; [done|]. intros [= <-].
    destruct (Hin vs) as (k & ? & ? & ?); [by apply elem_of_cons; left|]. exists k, vs. auto.
  - destruct (String.eqb (opt_Protocol opts) "TCP"); [|done].
    intros (vs & host & port & Hvs & Htcp & ->)%tcp_proto_Ok.
    destruct (Hin vs Hvs) as (k & ? & ? & ?). exists k, vs. eauto 10.
Qed.

Context (regexp : string -> option (string -> bool)).
Context {LB SvcPort_ OutConn : Type}.
Context (GetServicePortName : LB -> service_meta -> option SvcPort_).
Context (TryConnectEndpoints : LB -> SvcPort_ -> option request -> go (result OutConn)).

Lemma TCP_Process_proxies lb meta r evs sp r' c :
  TCP_Process GetServicePortName TryConnectEndpoints lb meta r = Val evs -> Proxy sp r' c ∈ evs ->
  r' = r /\ GetServicePortName lb meta = Some sp /\ TryConnectEndpoints lb sp r = Val (Ok c).
Proof.
  unfold TCP_Process. destruct (GetServicePortName lb meta) as [sp'|]; [|by intros [= <-] ?%elem_of_nil].
  intros Hp. apply go_bind_Val_inv in Hp as ([c'|e] & Ht & [= <-]); intros Hin%list_elem_of_singleton; [|done].
  by injection Hin as -> -> ->.
Qed.

Lemma HTTP_Process_proxies vs meta reads evs sp r c :
  HTTP_Process regexp GetServicePortName TryConnectEndpoints (Some vs) meta reads = Val evs ->
  Proxy sp r c ∈ evs ->
  exists req lb m, r = Some req /\ (Ok req, lb) ∈ reads /\ checkHost (Some vs) (req_Host req) = Val (Ok tt) /\
    route regexp (Some vs) (RequestURI req) = Val (Ok m) /\ GetServicePortName lb m = Some sp /\
    TryConnectEndpoints lb sp r = Val (Ok c).
Proof.
  revert meta evs. induction reads as [|[[req|e] lb] reads IH]; intros meta evs.
  - intros [= <-] ?%elem_of_nil. done.
  - cbn [HTTP_Process]. intros Hp.
    apply go_bind_Val_inv in Hp as ([m|e] & Hr & Hp); [|injection Hp as <-; by intros ?%list_elem_of_singleton].
    apply go_bind_Val_inv in Hr as ([[]|e] & Hh & Hr); [|done].
    apply go_bind_Val_inv in Hp as (evs1 & Hevs & Hp). apply go_bind_Val_inv in Hp as (rest & Hrest & [= <-]).
    intros [Hin|Hin]%elem_of_app.
    + destruct (TCP_Process_proxies _ _ _ _ _ _ _ Hevs Hin) as (-> & Hg & Ht). exists req, lb, m.
      split_and!; try done. by apply elem_of_cons; left.
    + destruct (IH _ _ Hrest Hin) as (req' & lb' & m' & ? & ? & ?). exists req', lb', m'.
      split_and!; try tauto. by apply elem_of_cons; right.
  - intros [= <-] ?%list_elem_of_singleton. done.
Qed.

(** A request that is proxied by an HTTP server of the gateway went by a virtual
    service of the cache that names this gateway first and has exactly the
    hosts of the server, which accepts the host of the request, and it went to
    the service of the first route whose conditions match its URI. *)
Lemma proxied_request_is_routed vss opts vs meta reads evs sp r c :
  newProto vss opts = Val (Ok (HTTP vs)) ->
  HTTP_Process regexp GetServicePortName TryConnectEndpoints (Some vs) meta reads = Val evs ->
  Proxy sp r c ∈ evs ->
  (exists k, vss !! k = Some vs) /\ head (Gateways vs) = Some (GwName opts) /\ Hosts vs = opt_Hosts opts /\
  exists req lb rt m, r = Some req /\ (Ok req, lb) ∈ reads /\ checkHost (Some vs) (req_Host req) = Val (Ok tt) /\
    List.find (route_hits regexp (RequestURI req)) (Http vs) = Some rt /\
    route_target vs rt = Val m /\ GetServicePortName lb m = Some sp /\ TryConnectEndpoints lb sp r = Val (Ok c).
Proof.
  intros Hn Hp Hin. destruct (newProto_sound _ _ _ Hn) as (k & vs' & Hk & Hg & Hh & [[= <-]|(? & ? & _ & [=])]).
  destruct (HTTP_Process_proxies _ _ _ _ _ _ _ Hp Hin) as (req & lb & m & Hr & Hreq & Hc & Hroute & Hsp & Ht).
  rewrite route_by_find in Hroute. destruct (List.find _ _) as [rt|] eqn:Ef; [|done].
  apply go_bind_Val_inv in Hroute as (t & Ht' & [= ->]).
  split; [by exists k|]. split; [done|]. split; [done|]. exists req, lb, rt, m. auto 10.
Qed.
End serving.

(** ** The caches mirror the cluster *)

Lemma KeyFormat_inj ns1 n1 ns2 n2 :
  lacks "." ns1 = true -> lacks "." ns2 = true ->
  KeyFormat ns1 n1 = KeyFormat ns2 n2 -> (ns1, n1) = (ns2, n2).
Proof.
  unfold KeyFormat. intros H1 H2 Heq%(f_equal (Split ".")).
  rewrite !Split_app_sep in Heq by done. injection Heq as -> Hn%(f_equal (Join ".")).
  by rewrite !Join_Split in Hn; subst.
Qed.

Section mirror.
Context {A : Type} (as_ : object -> option A) (namespace name : A -> string).

(** The objects of this kind as the informer passes them: the type assertion finds
    them, and does not take a tombstone for one of them. *)
Context (wrap : A -> object).
Hypothesis as_wrap : forall x, as_ (wrap x) = Some x.
Hypothesis as_tombstone : forall obj, as_ (DeletedFinalStateUnknown obj) = None.

(** What happens to the objects of this kind in the cluster.  When the informer
    has missed the deletion of an object it finds out later, and knows only what
    it saw last of it. *)
Inductive cluster_change : Type :=
| Created (x : A)
| Changed (x y : A)
| Removed (x : A)
| RemovedMissed (last_known : A).

(** What the cluster holds afterwards. *)
Definition store_event (m : gmap (string * string) A) (ch : cluster_change) : gmap (string * string) A :=
  match ch with
  | Created x => <[(namespace x, name x) := x]> m
  | Changed x y => <[(namespace y, name y) := y]> (delete (namespace x, name x) m)
  | Removed x | RemovedMissed x => delete (namespace x, name x) m
  end.

(** The call of a handler: a missed deletion comes as a tombstone. *)
Definition cache_event (c : gmap string A) (ch : cluster_change) : gmap string A :=
  match ch with
  | Created x => handleAdd as_ namespace name c (wrap x)
  | Changed x y => handleUpdate as_ namespace name c (wrap x) (wrap y)
  | Removed x => handleDelete as_ namespace name c (wrap x)
  | RemovedMissed x => handleDelete as_ namespace name c (DeletedFinalStateUnknown (wrap x))
  end.

(** Namespaces are DNS labels, without dots. *)
Definition change_ok (ch : cluster_change) : Prop :=
  match ch with
  | Created x | Removed x | RemovedMissed x => lacks "." (namespace x) = true
  | Changed x y => lacks "." (namespace x) = true /\ lacks "." (namespace y) = true
  end.

Definition mirrors (c : gmap string A) (m : gmap (string * string) A) : Prop :=
  forall ns n, lacks "." ns = true -> cache_Get c (KeyFormat ns n) = m !! (ns, n).

Lemma mirrors_update c m x :
  lacks "." (namespace x) = true -> mirrors c m ->
  mirrors (cache_Update c (KeyFormat (namespace x) (name x)) x) (<[(namespace x, name x) := x]> m).
Proof.
  intros Hx Hm ns n Hns. unfold cache_Get, cache_Update.
  destruct (decide ((ns, n) = (namespace x, name x))) as [[= -> ->]|Hne]; [by rewrite !lookup_insert_eq|].
  rewrite !lookup_insert_ne; [by apply Hm|congruence|]. intros Heq. by apply KeyFormat_inj in Heq.
Qed.

Lemma mirrors_delete c m x :
  lacks "." (namespace x) = true -> mirrors c m ->
  mirrors (cache_Delete c (KeyFormat (namespace x) (name x))) (delete (namespace x, name x) m).
Proof.
  intros Hx Hm ns n Hns. unfold cache_Get, cache_Delete.
  destruct (decide ((ns, n) = (namespace x, name x))) as [[= -> ->]|Hne]; [by rewrite !lookup_delete_eq|].
  rewrite !lookup_delete_ne; [by apply Hm|congruence|]. intros Heq. by apply KeyFormat_inj in Heq.
Qed.

Lemma mirrors_event c m ch : change_ok ch -> mirrors c m -> mirrors (cache_event c ch) (store_event m ch).
Proof.
  destruct ch as [x|x y|x|x]; cbn; unfold handleAdd, handleUpdate, handleDelete, deleted_object; rewrite ?as_tombstone, ?as_wrap.
  - apply mirrors_update.
  - intros [Hx Hy] Hm. by apply mirrors_update, mirrors_delete.
  - apply mirrors_delete.
  - apply mirrors_delete.
Qed.

(** C36. After any sequence of changes in the cluster, deletions that the informer
    has missed and reports by tombstones included, the cache of secrets (or of
    virtual services) holds under the key of a namespace and a name what the
    cluster holds there. *)
Theorem cache_mirrors_cluster changes ns n :
  Forall change_ok changes -> lacks "." ns = true ->
  cache_Get (fold_left cache_event changes ∅) (KeyFormat ns n) = fold_left store_event changes ∅ !! (ns, n).
Proof.
  intros Hevs. revert ns n. change (mirrors (fold_left cache_event changes ∅) (fold_left store_event changes ∅)).
  assert (Hm : mirrors ∅ ∅) by (intros ns n _; unfold cache_Get; by rewrite !lookup_empty).
  revert Hm. generalize (∅ : gmap string A) as c, (∅ : gmap (string * string) A) as m.
  induction Hevs as [|ch chs Hch _ IH]; intros c m Hm; [done|]. by apply IH, mirrors_event.
Qed.
End mirror.

(** ** The listeners *)

Lemma filter_absent (a : netIP * Z) (l : list (netIP * Z)) : a ∉ l -> base.filter (.≠ a) l = l.
Proof.
  induction l as [|b l IH]; intros Hn; [done|]. apply not_elem_of_cons in Hn as [Hne Hn].
  rewrite filter_cons_True by congruence. by rewrite IH.
Qed.

Section sockets.
Context (ListenTCP : netIP * Z -> result unit).

Definition all_servers (gw : EdgeGateway) : list Server := mjoin (map_to_list (serversByGateway gw)).*2.

(** Exactly the servers the gateway keeps have a listener, each its own. *)
Definition sockets_ok (gw : EdgeGateway) : Prop :=
  listening gw ≡ₚ srv_addr <$> all_servers gw /\ NoDup (listening gw).

Lemma NewServer_Ok open ip port opts srv open' :
  NewServer ListenTCP open ip port opts = Ok (srv, open') ->
  srv = mkServer (ip, port) opts /\ open' = (ip, port) :: open /\ (ip, port) ∉ open.
Proof.
  unfold NewServer. case_bool_decide; [done|]. destruct (ListenTCP _); [|done]. by intros [= <- <-].
Qed.

Lemma start_servers_sockets exits gw open g open' servers :
  NoDup open -> start_servers ListenTCP exits gw open g = Val (open', servers) ->
  open' ≡ₚ (srv_addr <$> servers) ++ open /\ NoDup open'.
Proof.
  intros Hnd Hs. unfold start_servers in Hs.
  refine (go_fold_inv (fun '(o, ss) => o ≡ₚ (srv_addr <$> ss) ++ open /\ NoDup o) _ _ (open, []) (open', servers) _ _ Hs); [|done].
  intros [o ss] [ip s] [o' ss'] _ [Ho Hno]. unfold start_server. intros Hb.
  apply go_bind_Val_inv in Hb as ([number opts] & _ & Hb).
  destruct (NewServer _ _ _ _ _) as [[srv o2]|e] eqn:En.
  - injection Hb as <- <-. apply NewServer_Ok in En as (-> & -> & Hnin).
    rewrite fmap_app, <- (assoc_L (++)). cbn. rewrite <- Permutation_middle, <- Ho.
    split; [done|by constructor].
  - destruct (exits && _); [done|]. by injection Hb as <- <-.
Qed.

Lemma Stop_elem open srv a : a ∈ Stop open srv <-> a ∈ open /\ a <> srv_addr srv.
Proof. unfold Stop. rewrite list_elem_of_filter. tauto. Qed.

Lemma Stop_all servers open rest :
  NoDup open -> open ≡ₚ (srv_addr <$> servers) ++ rest ->
  fold_left Stop servers open ≡ₚ rest /\ NoDup (fold_left Stop servers open).
Proof.
  revert open. induction servers as [|srv servers IH]; intros open Hnd Hp; [done|].
  cbn [fold_left]. apply IH; [by apply list.NoDup_filter|].
  unfold Stop. rewrite Hp. cbn. rewrite decide_False by (intros Hn; by apply Hn).
  rewrite Hp in Hnd. cbn in Hnd. apply NoDup_cons in Hnd as [Hnin Hnd].
  rewrite filter_absent; [done|]. done.
Qed.

(** What the events of the gateway informer do: an addition is of a gateway
    that is not known. *)
Inductive gateway_step : EdgeGateway -> EdgeGateway -> Prop :=
| step_add gw g gw' :
    serversByGateway gw !! gateway_key g = None ->
    OnGatewayAdd ListenTCP gw g = Val gw' -> gateway_step gw gw'
| step_update gw g gw' : OnGatewayUpdate ListenTCP gw g = Val gw' -> gateway_step gw gw'
| step_delete gw g : gateway_step gw (OnGatewayDelete gw g).

(** The servers of a gateway besides those of the others. *)
Lemma all_servers_insert gw key servers open :
  serversByGateway gw !! key = None ->
  all_servers (mkEdgeGateway (listenIPs gw) (<[key := servers]> (serversByGateway gw)) open) ≡ₚ
  servers ++ all_servers gw.
Proof. intros Hk. unfold all_servers. cbn. by rewrite map_to_list_insert. Qed.

Lemma all_servers_lookup gw key servers open :
  serversByGateway gw !! key = Some servers ->
  all_servers gw ≡ₚ
  servers ++ all_servers (mkEdgeGateway (listenIPs gw) (delete key (serversByGateway gw)) open).
Proof. intros Hk. unfold all_servers. cbn. by rewrite <- (map_to_list_delete _ _ _ Hk). Qed.

(** Closing the listeners of one gateway. *)
Lemma stop_sockets gw key :
  sockets_ok gw ->
  sockets_ok (mkEdgeGateway (listenIPs gw) (delete key (serversByGateway gw))
    (fold_left Stop (default [] (serversByGateway gw !! key)) (listening gw))).
Proof.
  intros [Hp Hnd]. unfold sockets_ok. cbn [listening].
  destruct (serversByGateway gw !! key) as [servers|] eqn:Ek; cbn [default].
  - apply Stop_all; [done|]. etrans; [exact Hp|]. rewrite <- fmap_app. by apply fmap_Permutation, all_servers_lookup.
  - by rewrite delete_id.
Qed.

Lemma start_sockets exits gw g open servers :
  sockets_ok gw -> serversByGateway gw !! gateway_key g = None ->
  start_servers ListenTCP exits gw (listening gw) g = Val (open, servers) ->
  sockets_ok (mkEdgeGateway (listenIPs gw) (<[gateway_key g := servers]> (serversByGateway gw)) open).
Proof.
  intros [Hp Hnd] Hk Hs. destruct (start_servers_sockets _ _ _ _ _ _ Hnd Hs) as [Ho Hno].
  split; [|done]. cbn [listening]. by rewrite all_servers_insert, fmap_app, Ho, Hp by done.
Qed.

Lemma sockets_ok_step gw gw' : gateway_step gw gw' -> sockets_ok gw -> sockets_ok gw'.
Proof.
  intros Hstep Hok. destruct Hstep as [gw g gw' Hk Ha|gw g gw' Hu|gw g].
  - apply go_bind_Val_inv in Ha as ([open servers] & Hs & [= <-]). by eapply start_sockets.
  - apply go_bind_Val_inv in Hu as ([open servers] & Hs & [= <-]).
    refine (start_sockets true _ g open servers (stop_sockets gw (gateway_key g) Hok) _ Hs).
    apply lookup_delete_eq.
  - unfold OnGatewayDelete. pose proof (stop_sockets gw (gateway_key g) Hok) as Hst.
    by destruct (serversByGateway gw !! gateway_key g).
Qed.

(** C5. Whatever gateways are added, updated and deleted, the listeners that
    are open are exactly those of the servers the gateway keeps, one for each:
    none leaks and no two servers share an address. *)
Theorem listeners_match_servers ips gw :
  rtc gateway_step (mkEdgeGateway ips ∅ []) gw ->
  listening gw ≡ₚ srv_addr <$> all_servers gw /\ NoDup (listening gw).
Proof.
  intros Hr. change (sockets_ok gw). revert Hr.
  assert (H0 : sockets_ok (mkEdgeGateway ips ∅ [])) by (split; [done|constructor]). revert H0.
  generalize (mkEdgeGateway ips ∅ []) as gw0. intros gw0 H0 Hr.
  induction Hr as [|x y z Hxy _ IH]; [done|]. by apply IH, (sockets_ok_step x).
Qed.

(** ** Everything that can be served is served *)

Definition wanted (gw : EdgeGateway) (g : GatewayObject) : list (netIP * GatewayServer) :=
  ip ← listenIPs gw; s ← Servers g; [(ip, s)].

(** The server that should run for an address and a server of the gateway. *)
Definition wanted_server (g : GatewayObject) (x : netIP * GatewayServer) : option Server :=
  match server_options g x.2 with
  | Val (number, opts) => Some (mkServer (x.1, number) opts)
  | Panic _ => None
  end.

Lemma start_fold_all exits g xs open acc servers :
  Forall2 (fun x srv => wanted_server g x = Some srv) xs servers ->
  NoDup ((srv_addr <$> servers) ++ open) ->
  Forall (fun srv => ListenTCP (srv_addr srv) = Ok tt) servers ->
  go_fold (start_server ListenTCP exits g) (open, acc) xs =
    Val (reverse (srv_addr <$> servers) ++ open, acc ++ servers).
Proof.
  intros Hw. revert open acc. induction Hw as [|[ip s] srv xs servers' Hw _ IH]; intros open acc.
  { intros _ _. cbn. by rewrite app_nil_r. }
  intros Hnd Hl. cbn in Hnd.
  apply NoDup_cons in Hnd as [Hnin Hnd]. apply Forall_cons in Hl as [Hsrv Hl].
  unfold wanted_server in Hw. cbn [fst snd] in Hw. cbn [go_fold start_server].
  destruct (server_options g s) as [[number opts]|]; [|done]. injection Hw as <-. cbn [mbind go_bind].
  cbn [srv_addr] in *. unfold NewServer.
  rewrite bool_decide_false by (intros Hin; apply Hnin, elem_of_app; by right). rewrite Hsrv. cbn [mbind go_bind].
  rewrite IH; [| |done].
  2:{ rewrite <- Permutation_middle. by constructor. }
  cbn [fmap list_fmap srv_addr]. by rewrite reverse_cons, <- !(assoc_L (++)).
Qed.

(** C37. An update of a gateway replaces its servers by one server on every
    listen address for every server of the new specification, and leaves the
    other gateways alone, when the new servers have different addresses, the
    host lets it listen there and no other gateway uses one of the addresses;
    that the gateway itself used them before does not matter. *)
Theorem update_serves_all gw g servers :
  sockets_ok gw ->
  mapM (wanted_server g) (wanted gw g) = Some servers ->
  NoDup (srv_addr <$> servers) ->
  Forall (fun srv => ListenTCP (srv_addr srv) = Ok tt) servers ->
  (forall key' others srv, serversByGateway gw !! key' = Some others -> key' <> gateway_key g -> srv ∈ others ->
    srv_addr srv ∉ srv_addr <$> servers) ->
  exists gw', OnGatewayUpdate ListenTCP gw g = Val gw' /\
    serversByGateway gw' = <[gateway_key g := servers]> (serversByGateway gw) /\
    listening gw' ≡ₚ srv_addr <$> all_servers gw'.
Proof.
  intros Hok Hm Hnd Hl Hdis.
  destruct (stop_sockets gw (gateway_key g) Hok) as [Hst Hnst]. cbn [listening] in Hst, Hnst.
  set (open := fold_left Stop (default [] (serversByGateway gw !! gateway_key g)) (listening gw)) in *.
  assert (Hs : start_servers ListenTCP true gw open g = Val (reverse (srv_addr <$> servers) ++ open, servers)).
  { apply (start_fold_all true g (wanted gw g) open []); [by apply mapM_Some_1| |done].
    apply NoDup_app. split; [done|]. split; [|done]. intros a Ha Hin. rewrite Hst in Hin.
    apply list_elem_of_fmap in Hin as (srv & -> & (others & Hin & Hothers)%list_elem_of_join).
    apply list_elem_of_fmap in Hothers as ([key' others'] & -> & Hk%elem_of_map_to_list). cbn in Hk, Hin.
    apply lookup_delete_Some in Hk as [Hne Hk]. by eapply (Hdis key'). }
  eexists. split; [unfold OnGatewayUpdate; fold open; by rewrite Hs|]. cbn [serversByGateway listening].
  rewrite insert_delete_eq. split; [done|].
  pose proof (start_sockets true _ g _ _ (stop_sockets gw (gateway_key g) Hok) (lookup_delete_eq _ _) Hs) as [Hp _].
  cbn [listening serversByGateway listenIPs] in Hp. by rewrite insert_delete_eq in Hp.
Qed.
End sockets.

(** ** Witnesses *)

Definition demo_ip : netIP := [192; 168; 1; 10].
Definition demo_tls : TLSSettings :=
  mkTLSSettings "web-cert" TLSV1_2 TLS_AUTO ["TLS_AES_128_GCM_SHA256"; "unknown"].
Definition demo_https : GatewayServer := mkGatewayServer (Some ["shop.example"]) (Some (443, "HTTPS")) (Some demo_tls).
Definition demo_http : GatewayServer := mkGatewayServer (Some ["shop.example"]) (Some (80, "HTTP")) None.
Definition demo_gateway : GatewayObject := mkGateway "default" "gw" [demo_https; demo_http].
Definition demo_options : ServerOptions :=
  mkServerOptions true "gw" "default" (Some ["shop.example"]) "HTTPS" "web-cert" VersionTLS12 VersionTLS10 [0x1301].
Definition demo_secret : Secret :=
  mkSecret "default" "web-cert" "kubernetes.io/tls"
    (Some (list_to_map [("tls.crt", Some [1]); ("tls.key", Some [2]); ("ca.crt", Some [3])])).
Definition demo_vs : VirtualService :=
  mkVirtualService "default" "shop" (Some ["shop.example"]) ["gw"]
    [mkHTTPRoute [Some (Exact "/admin")] [Some (mkDestination "admin" (Some 8080))];
     mkHTTPRoute [Some (Prefix "/")] [];
     mkHTTPRoute [Some (Prefix "/cart")] [Some (mkDestination "cart" (Some 80))]] [].
Definition demo_secrets : gmap string Secret := {[ "default.web-cert" := demo_secret ]}.
Definition demo_vss : gmap string VirtualService := {[ "default.shop" := demo_vs ]}.
Definition demo_request : request := mkRequest "shop.example:443" "/cart/items".
Definition demo_regexp (_ : string) : option (string -> bool) := None.

Lemma served_over_tls_witness :
  serve_conn (fun _ _ => Ok tt) (fun _ => true) demo_secrets demo_vss demo_options =
    Val (Serve (Some (mkTlsConfig ([1], [2]) [0x1301] VersionTLS12 VersionTLS10 (Some [3]) true)) (HTTP demo_vs)) /\
  exists sec, demo_secrets !! KeyFormat "default" "web-cert" = Some sec /\ sec_Type sec = "kubernetes.io/tls".
Proof.
  split; [vm_compute; reflexivity|].
  destruct (served_over_tls (fun _ _ => Ok tt) (fun _ => true) demo_gateway demo_https demo_tls 443 demo_options
    demo_secrets demo_vss (Some (mkTlsConfig ([1], [2]) [0x1301] VersionTLS12 VersionTLS10 (Some [3]) true)) (HTTP demo_vs))
    as (sec & _ & _ & _ & _ & Hs & Ht & _); [reflexivity|discriminate|vm_compute; reflexivity..|].
  exists sec. split; [exact Hs|exact Ht].
Defined.

Lemma unset_version_means_tls10_witness :
  serve_tls (fun _ _ => Ok tt) (fun _ => true) demo_secrets demo_options =
    Ok (Some (mkTlsConfig ([1], [2]) [0x1301] VersionTLS12 VersionTLS10 (Some [3]) true)) /\
  cfg_MaxVersion (mkTlsConfig ([1], [2]) [0x1301] VersionTLS12 VersionTLS10 (Some [3]) true) = VersionTLS10.
Proof.
  split; [vm_compute; reflexivity|].
  apply (unset_version_means_tls10 (fun _ _ => Ok tt) (fun _ => true) demo_gateway demo_https demo_tls 443
    demo_options demo_secrets); [reflexivity|discriminate|reflexivity|vm_compute; reflexivity..].
Defined.

(** Two secrets are created, one is changed; both are deleted, and the informer
    misses the deletion of the first. *)
Definition demo_old_secret : Secret := mkSecret "default" "web-cert" "kubernetes.io/tls" None.
Definition demo_changes : list (cluster_change (A:=Secret)) :=
  [Created demo_old_secret; Created (mkSecret "default" "other" "" None);
   Changed demo_old_secret demo_secret; Removed (mkSecret "default" "other" "" None); RemovedMissed demo_old_secret].

Lemma cache_mirrors_cluster_witness :
  cache_Get (fold_left (cache_event as_Secret sec_Namespace sec_Name ObjSecret) (take 4 demo_changes) ∅) "default.web-cert"
    = Some demo_secret /\
  cache_Get (fold_left (cache_event as_Secret sec_Namespace sec_Name ObjSecret) demo_changes ∅) (KeyFormat "default" "web-cert")
    = None.
Proof.
  split; [vm_compute; reflexivity|].
  refine (eq_trans (cache_mirrors_cluster as_Secret sec_Namespace sec_Name ObjSecret _ _ demo_changes "default" "web-cert" _ _) _);
    [reflexivity|reflexivity| |reflexivity|vm_compute; reflexivity].
  repeat constructor.
Defined.

Definition demo_servers : list Server :=
  [mkServer (demo_ip, 443) demo_options;
   mkServer (demo_ip, 80) (mkServerOptions true "gw" "default" (Some ["shop.example"]) "HTTP" "" 0 0 [])].

Definition demo_edge : EdgeGateway :=
  mkEdgeGateway [demo_ip] {[ "default.gw" := demo_servers ]} [(demo_ip, 80); (demo_ip, 443)].

Lemma listeners_match_servers_witness :
  OnGatewayAdd (fun _ => Ok tt) (mkEdgeGateway [demo_ip] ∅ []) demo_gateway = Val demo_edge /\
  listening demo_edge ≡ₚ srv_addr <$> all_servers demo_edge.
Proof.
  assert (Ha : OnGatewayAdd (fun _ => Ok tt) (mkEdgeGateway [demo_ip] ∅ []) demo_gateway = Val demo_edge)
    by (vm_compute; reflexivity).
  split; [exact Ha|].
  apply (listeners_match_servers (fun _ => Ok tt) [demo_ip] demo_edge).
  apply rtc_once. apply (step_add (fun _ => Ok tt) _ demo_gateway); [vm_compute; reflexivity|exact Ha].
Defined.

Lemma update_serves_all_witness :
  sockets_ok demo_edge /\
  exists gw', OnGatewayUpdate (fun _ => Ok tt) demo_edge demo_gateway = Val gw' /\
    listening gw' ≡ₚ srv_addr <$> all_servers gw'.
Proof.
  assert (Hok : sockets_ok demo_edge).
  { split; [vm_compute; apply Permutation_swap|]. apply NoDup_cons. split; [by intros [=]%list_elem_of_singleton|apply NoDup_singleton]. }
  split; [exact Hok|].
  destruct (update_serves_all (fun _ => Ok tt) demo_edge demo_gateway demo_servers Hok) as (gw' & Hu & _ & Hp).
  - vm_compute. reflexivity.
  - apply NoDup_cons. split; [by intros [=]%list_elem_of_singleton|apply NoDup_singleton].
  - repeat constructor.
  - intros key' others srv Hk Hne. unfold demo_edge in Hk. cbn [serversByGateway] in Hk. apply lookup_singleton_Some in Hk as [<- _]. done.
  - exists gw'. split; [exact Hu|exact Hp].
Defined.
