(* ===== verification/TunnelUtil.v ===== *)
(** * Addresses and relays of the tunnel

    [src/pkg/tunnel/util.go] and the relay map of [tunnel.go]: peer
    identities, multi-addresses, the relay map made from the configuration
    and its refresh by the relay finder.  The libp2p types are parameters. *)

From Stdlib Require Import ZArith Lia Ascii String.
From stdpp Require Import base list gmap strings option.
From S2P Require Import Prelude GoStrings GoNet Config.

Local Open Scope Z_scope.

Definition UDP : string := "udp".
Definition TCP : string := "tcp".
Definition Websocket : string := "ws".
Definition Quic : string := "quic".
Definition ipIndex : Z := 2.

(** ** The libp2p types *)

(** Multi-addresses: a parsed address prints as a string. *)
Class Multiaddr (MA : Type) : Type := {
  Multiaddr_eq :: EqDecision MA;
  ma_String : MA -> string;
  NewMultiaddr : string -> result MA;
  IsPublicAddr : MA -> bool
}.

(** Peer identities: the one of the key pair generated from the MD5 sum of a
    string, which is deterministic. *)
Class Identity (ID : Type) : Type := {
  Identity_eq :: EqDecision ID;
  ID_String : ID -> string;
  IDOfKeyPair : string -> result ID
}.

Section util.
Context {MA ID : Type} `{Multiaddr MA} `{Identity ID} `{RangeOrder}.

Record AddrInfo : Type := mkAddrInfo { ai_ID : ID; Addrs : list MA }.

(** From node names to the relays of those names. *)
Local Abbreviation RelayMap := (gmap string AddrInfo).

Definition ContainsPublicIP (r : RelayMap) : bool :=
  existsb (fun p => existsb IsPublicAddr (Addrs p)) (range r).*2.

Definition PeerIDFromString (s : string) : result ID :=
  if String.eqb s "" then Err "empty string" else IDOfKeyPair s.

(** [ma.Contains] *)
Definition Multiaddr_Contains (maddrs : list MA) (dest : MA) : bool :=
  existsb (fun a => bool_decide (a = dest)) maddrs.

Definition AppendMultiaddrs (maddrs : list MA) (dest : MA) : list MA :=
  if negb (Multiaddr_Contains maddrs dest) then maddrs ++ [dest] else maddrs.

Definition circuit_string (maddr : MA) (relay : AddrInfo) : string :=
  Join "/" [ma_String maddr; "p2p"; ID_String (ai_ID relay); "p2p-circuit"].

(** The circuit addresses through every address of every relay. *)
Fixpoint circuit_addrs (l : list (MA * AddrInfo)) : result (list MA) :=
  match l with
  | [] => Ok []
  | (maddr, relay) :: l' =>
      match NewMultiaddr (circuit_string maddr relay) with
      | Err e => Err e
      | Ok circuitAddr =>
          match circuit_addrs l' with Err e => Err e | Ok as_ => Ok (circuitAddr :: as_) end
      end
  end.

Definition AddCircuitAddrsToPeer (peer : AddrInfo) (relayPeers : RelayMap) : result AddrInfo :=
  match circuit_addrs (relay ← (range relayPeers).*2; maddr ← Addrs relay; [(maddr, relay)]) with
  | Err e => Err e
  | Ok as_ => Ok (mkAddrInfo (ai_ID peer) (Addrs peer ++ as_))
  end.

Definition GenerateMultiAddrString (protocol ip : string) (port : Z) : string :=
  if String.eqb protocol TCP then "/ip4/" +:+ ip +:+ "/tcp/" +:+ Itoa port
  else if String.eqb protocol Websocket then "/ip4/" +:+ ip +:+ "/tcp/" +:+ Itoa port +:+ "/ws"
  else if String.eqb protocol Quic then "/ip4/" +:+ ip +:+ "/udp/" +:+ Itoa port +:+ "/quic"
  else "".

(** Stops at the first string that is not an address. *)
Fixpoint StringsToMaddrs (addrStrings : list string) : result (list MA) :=
  match addrStrings with
  | [] => Ok []
  | s :: rest =>
      match NewMultiaddr s with
      | Err e => Err e
      | Ok addr => match StringsToMaddrs rest with Err e => Err e | Ok mas => Ok (addr :: mas) end
      end
  end.

(** One relay node of the configuration. *)
Definition add_relay (protocol : string) (listenPort : Z) (relayPeers : RelayMap) (relayNode : RelayNode) : RelayMap :=
  let nodeName := rn_NodeName relayNode in
  match PeerIDFromString nodeName with
  | Err _ => relayPeers
  | Ok peerid =>
      let addrStrings := (fun addr => GenerateMultiAddrString protocol addr listenPort) <$> AdvertiseAddress relayNode in
      match StringsToMaddrs addrStrings with
      | Err _ => relayPeers
      | Ok maddrs => <[nodeName := mkAddrInfo peerid maddrs]> relayPeers
      end
  end.

Definition GenerateRelayMap (relayNodes : list RelayNode) (protocol : string) (listenPort : Z) : RelayMap :=
  fold_left (add_relay protocol listenPort) relayNodes ∅.

(** The second element of the printed address is taken for an IP address;
    [IsLoopback] and [IsPrivate] are false of the nil address. *)
Definition is_public_maddr (maddr : MA) : go bool :=
  let! ip := go_index (Split "/" (ma_String maddr)) ipIndex in
  let ipAddress := default [] (ParseIP ip) in
  Val (negb (IsLoopback ipAddress) && negb (IsPrivate ipAddress)).

Definition FilterPrivateMaddr (maddrs : list MA) : go (list MA) :=
  go_fold (fun result maddr =>
      let! keep := is_public_maddr maddr in
      Val (if keep : bool then result ++ [maddr] else result)) [] maddrs.

Definition is_circuit (maddr : MA) : bool := Contains (ma_String maddr) "p2p-circuit".

Definition FilterCircuitMaddr (maddrs : list MA) : list MA :=
  fold_left (fun result maddr => if negb (is_circuit maddr) then result ++ [maddr] else result) maddrs [].

Definition IsNoFindPeerError (err : string) : bool := HasSuffix err "failed to find any peer in table".

(** [refreshRelayMap] of tunnel.go; the relay of a known node is updated in
    place. *)
Definition refreshRelayMap (relayMap : RelayMap) (nodeName : string) (dhtPeer : AddrInfo) : go RelayMap :=
  let! public := FilterPrivateMaddr (Addrs dhtPeer) in
  let addrs := FilterCircuitMaddr public in
  match relayMap !! nodeName with
  | None => Val (<[nodeName := mkAddrInfo (ai_ID dhtPeer) addrs]> relayMap)
  | Some relayInfo =>
      Val (<[nodeName := mkAddrInfo (ai_ID relayInfo) (fold_left AppendMultiaddrs addrs (Addrs relayInfo))]> relayMap)
  end.

(** ** Network cards *)

(** [net.Interfaces], the names; [net.InterfaceByName], which fails or finds
    the card; the addresses of a card in CIDR notation. *)
Context (Interfaces : result (list string)).
Context (InterfaceByName : string -> result unit).
Context (InterfaceAddrs : string -> result (list string)).

Definition defaultFilteredInterfaces : list string :=
  ["docker"; "edgemesh"; "tunl"; "flannel"; "cni"; "br"; "kube-ipvs"].

Definition isFilterInterfaces (iface : string) (filteredInterfaces : list string) : bool :=
  existsb (fun ifi => HasPrefix iface ifi) filteredInterfaces.

(** The named cards, blanks around the names removed. *)
Fixpoint named_interfaces (ifaces : list string) : result (list string) :=
  match ifaces with
  | [] => Ok []
  | iface :: rest =>
      let iface := TrimSpace iface in
      if String.eqb iface "" then named_interfaces rest else
      match InterfaceByName iface with
      | Err e => Err ("failed to get interface " +:+ iface +:+ ", err: " +:+ e)
      | Ok _ => match named_interfaces rest with Err e => Err e | Ok ifis => Ok (iface :: ifis) end
      end
  end.

Definition card_ips (addrs : list string) : list string :=
  omap (fun addr =>
      match ParseCIDR addr with
      | Ok (ip, ipnet) => if (length (net_Mask ipnet) =? 4)%nat then Some (IP_String ip) else None
      | Err _ => None
      end) addrs.

Fixpoint interfaces_ips (filteredInterfaces ifis : list string) : result (list string) :=
  match ifis with
  | [] => Ok []
  | ifi :: rest =>
      if isFilterInterfaces ifi filteredInterfaces then interfaces_ips filteredInterfaces rest else
      match InterfaceAddrs ifi with
      | Err e => Err ("failed to get interface " +:+ ifi +:+ " addrs, err: " +:+ e)
      | Ok addrs =>
          match interfaces_ips filteredInterfaces rest with
          | Err e => Err e
          | Ok ips => Ok (card_ips addrs ++ ips)
          end
      end
  end.

Definition GetIPsFromInterfaces (listenInterfaces extraFilteredInterfaces : string) : result (list string) :=
  let ifis :=
    if String.eqb listenInterfaces "" || String.eqb listenInterfaces "*" then
      match Interfaces with
      | Err e => Err ("failed to get all interfaces, err: " +:+ e)
      | Ok ifis => Ok ifis
      end
    else named_interfaces (Split "," listenInterfaces) in
  match ifis with
  | Err e => Err e
  | Ok ifis =>
      let extra :=
        if String.eqb extraFilteredInterfaces "" then []
        else List.filter (fun s => negb (String.eqb s "")) (TrimSpace <$> Split "," extraFilteredInterfaces) in
      interfaces_ips (defaultFilteredInterfaces ++ extra) ifis
  end.
End util.
Arguments mkAddrInfo {MA ID}.
Arguments ai_ID {MA ID}.
Arguments Addrs {MA ID}.
Arguments AddrInfo : clear implicits.

Abbreviation RelayMap MA ID := (gmap string (AddrInfo MA ID)).

(** ** The relay map *)

Section relay_facts.
Context {MA ID : Type} `{Multiaddr MA} `{Identity ID} `{RangeOrder}.
Implicit Types (r : RelayMap MA ID) (a : MA).

(** The relay a node of the configuration stands for, if it is usable. *)
Definition relay_of (protocol : string) (listenPort : Z) (relayNode : RelayNode) : option (AddrInfo MA ID) :=
  match PeerIDFromString (rn_NodeName relayNode),
        StringsToMaddrs ((fun addr => GenerateMultiAddrString protocol addr listenPort) <$> AdvertiseAddress relayNode) with
  | Ok peerid, Ok maddrs => Some (mkAddrInfo peerid maddrs)
  | _, _ => None
  end.

Lemma add_relay_spec protocol port r rn :
  add_relay protocol port r rn =
    match relay_of protocol port rn with Some info => <[rn_NodeName rn := info]> r | None => r end.
Proof. unfold add_relay, relay_of. destruct (PeerIDFromString _); [|done]. by destruct (StringsToMaddrs _). Qed.

(** The relay map has for every name the last usable relay node of that name. *)
Lemma GenerateRelayMap_lookup nodes protocol port name :
  (GenerateRelayMap nodes protocol port : RelayMap MA ID) !! name =
    list.last (omap (fun rn => if bool_decide (rn_NodeName rn = name) then relay_of protocol port rn else None) nodes).
Proof.
  unfold GenerateRelayMap. induction nodes as [|rn nodes IH] using rev_ind; [done|].
  rewrite fold_left_app, omap_app, last_app. cbn. rewrite add_relay_spec.
  destruct (relay_of protocol port rn) as [info|] eqn:Er; cbn.
  - case_bool_decide as Hn; cbn; [rewrite Hn; by rewrite lookup_insert_eq|by rewrite lookup_insert_ne].
  - by case_bool_decide.
Qed.

(** *** Refreshing *)

Lemma is_public_maddr_Val a :
  (exists b, is_public_maddr a = Val b) <-> (2 <= count_byte "/" (ma_String a))%nat.
Proof.
  unfold is_public_maddr, ipIndex. pose proof (Split_length "/" (ma_String a)) as Hl.
  destruct (Split "/" (ma_String a)) as [|x [|y [|z l]]]; cbn in Hl; cbn; split; intros Hx; try lia; eauto;
    by destruct Hx.
Qed.

Lemma FilterPrivateMaddr_spec l acc :
  go_fold (fun result maddr =>
      let! keep := is_public_maddr maddr in
      Val (if keep : bool then result ++ [maddr] else result)) acc l =
  if forallb (fun a => negb (is_panic (is_public_maddr a))) l
  then Val (acc ++ List.filter (fun a => match is_public_maddr a with Val b => b | Panic _ => false end) l)
  else Panic "index out of range".
Proof.
  revert acc. induction l as [|a l IH]; intros acc; [by rewrite app_nil_r|]. cbn [go_fold forallb List.filter].
  destruct (is_public_maddr a) as [b|s] eqn:Ea; cbn [mbind go_bind is_panic negb andb].
  - rewrite IH. destruct (forallb _ l); [|done]. destruct b; [by rewrite <- (assoc_L (++))|done].
  - unfold is_public_maddr in Ea. destruct (go_index _ _) as [|s'] eqn:Ei; [done|]. injection Ea as <-.
    unfold go_index in Ei. repeat case_match; congruence.
Qed.

Lemma FilterCircuitMaddr_filter (l : list MA) : FilterCircuitMaddr l = List.filter (fun a => negb (is_circuit a)) l.
Proof.
  unfold FilterCircuitMaddr.
  enough (Hacc : forall acc, fold_left _ l acc = acc ++ List.filter (fun a => negb (is_circuit a)) l) by apply Hacc.
  induction l as [|a l IH]; intros acc; [by rewrite app_nil_r|]. cbn [fold_left List.filter].
  rewrite IH. by destruct (negb (is_circuit a)); [rewrite <- (assoc_L (++))|].
Qed.

Lemma Multiaddr_Contains_spec (l : list MA) a : Multiaddr_Contains l a = true <-> a ∈ l.
Proof.
  unfold Multiaddr_Contains. rewrite existsb_exists. split.
  - intros (x & Hx & Heq%bool_decide_eq_true). subst. by apply list_elem_of_In.
  - intros Ha. exists a. split; [by apply list_elem_of_In|by apply bool_decide_eq_true].
Qed.

Lemma AppendMultiaddrs_spec (l : list MA) a b :
  (b ∈ AppendMultiaddrs l a <-> b ∈ l \/ b = a) /\ (NoDup l -> NoDup (AppendMultiaddrs l a)).
Proof.
  unfold AppendMultiaddrs. destruct (Multiaddr_Contains l a) eqn:Ec; cbn [negb].
  - apply Multiaddr_Contains_spec in Ec. split; [|done]. split; [by left|]. by intros [?| ->].
  - assert (Hn : a ∉ l) by (rewrite <- Multiaddr_Contains_spec, Ec; done).
    split; [by rewrite elem_of_app, list_elem_of_singleton|].
    intros Hl. apply list.NoDup_app. split; [done|]. split; [|apply NoDup_singleton].
    intros x Hx Heq%list_elem_of_singleton. by subst.
Qed.

Lemma fold_AppendMultiaddrs l acc :
  (forall b, b ∈ fold_left AppendMultiaddrs l acc <-> b ∈ acc \/ b ∈ l) /\
  (NoDup acc -> NoDup (fold_left AppendMultiaddrs l acc)).
Proof.
  revert acc. induction l as [|a l IH]; intros acc; cbn [fold_left].
  - split; [|done]. intros b. rewrite elem_of_nil. tauto.
  - destruct (IH (AppendMultiaddrs acc a)) as [IHe IHn]. split.
    + intros b. rewrite IHe, elem_of_cons. rewrite (proj1 (AppendMultiaddrs_spec acc a b)). tauto.
    + intros Hn. by apply IHn, (AppendMultiaddrs_spec acc a a).
Qed.

(** The addresses of a found relay that are worth keeping. *)
Definition usable_relay_addr a : Prop := is_public_maddr a = Val true /\ is_circuit a = false.

(** Refreshing the relay map with a relay found in the DHT changes the
    entry of its node only: the entry keeps its identity and its addresses and
    gains exactly the public, direct addresses that were found, without
    duplicates. The refresh fails only for an address of a single component,
    of which the code takes the third element. *)
Theorem refreshRelayMap_spec r name (found : AddrInfo MA ID) :
  match refreshRelayMap r name found with
  | Panic _ => exists a, a ∈ Addrs found /\ (count_byte "/" (ma_String a) < 2)%nat
  | Val r' =>
      (forall a, a ∈ Addrs found -> (2 <= count_byte "/" (ma_String a))%nat) /\
      exists info, r' = <[name := info]> r /\
        ai_ID info = from_option ai_ID (ai_ID found) (r !! name) /\
        (forall a, a ∈ Addrs info <->
           a ∈ from_option Addrs [] (r !! name) \/ (a ∈ Addrs found /\ usable_relay_addr a)) /\
        (NoDup (from_option Addrs (Addrs found) (r !! name)) -> NoDup (Addrs info))
  end.
Proof.
  unfold refreshRelayMap, FilterPrivateMaddr. rewrite FilterPrivateMaddr_spec.
  destruct (forallb _ _) eqn:Ef; cbn [mbind go_bind].
  2:{ apply not_true_iff_false in Ef. rewrite forallb_forall in Ef.
      destruct (decide (Exists (fun a => (count_byte "/" (ma_String a) < 2)%nat) (Addrs found))) as [He|He].
      - by apply list.Exists_exists in He.
      - exfalso. apply Ef. intros a Ha. apply not_Exists_Forall in He; [|apply _].
        rewrite list.Forall_forall in He. destruct (proj2 (is_public_maddr_Val a)) as [b ->]; [|done].
        apply list_elem_of_In, He in Ha. cbn in Ha. lia. }
  rewrite app_nil_l, FilterCircuitMaddr_filter. rewrite forallb_forall in Ef.
  set (addrs := List.filter _ (List.filter _ _)).
  assert (Hin : forall a, a ∈ addrs <-> a ∈ Addrs found /\ usable_relay_addr a).
  { intros a. unfold addrs, usable_relay_addr. rewrite !list_elem_of_In, !filter_In, negb_true_iff.
    destruct (is_public_maddr a) as [[]|]; split; intros Hx; intuition congruence. }
  assert (Hnd : NoDup (Addrs found) -> NoDup addrs).
  { intros Hn%NoDup_ListNoDup. apply NoDup_ListNoDup. by do 2 apply List.NoDup_filter. }
  assert (Hcount : forall a, a ∈ Addrs found -> (2 <= count_byte "/" (ma_String a))%nat).
  { intros a Ha%list_elem_of_In%Ef. apply is_public_maddr_Val. destruct (is_public_maddr a); [by eexists|done]. }
  destruct (r !! name) as [old|]; cbn [from_option]; (split; [exact Hcount|]); eexists; (split; [reflexivity|]);
    cbn [ai_ID Addrs]; (split; [done|]).
  - destruct (fold_AppendMultiaddrs addrs (Addrs old)) as [He Hn]. split; [|done].
    intros a. by rewrite He, Hin.
  - split; [|done]. intros a. rewrite Hin, elem_of_nil. tauto.
Qed.
End relay_facts.
