(* ===== verification/Tunnel.v ===== *)
(** * The tunnel

    [src/pkg/tunnel/{tunnel,module}.go]: discovery and proxy handshakes, both
    sides, as programs that act on streams, on the libp2p host and on the node
    map; relay maintenance and configuration reload on the tunnel's state. *)

From Stdlib Require Import ZArith Lia Ascii String.
From stdpp Require Import base list gmap strings option.
From S2P Require Import Prelude GoStrings GoNet Config ProtoWire Messages TunnelUtil.

Local Open Scope Z_scope.

Record ProxyOptions : Type := mkProxyOptions {
  opt_Protocol : string;
  opt_NodeName : string;
  opt_IP : string;
  opt_Port : Z
}.

(** The format verb [%v]. *)
Definition ProxyOptions_string (o : ProxyOptions) : string :=
  "{" +:+ opt_Protocol o +:+ " " +:+ opt_NodeName o +:+ " " +:+ opt_IP o +:+ " " +:+ Itoa (opt_Port o) +:+ "}".

Definition DiscoveryProtocol : string := "/libp2p/tunnel-discovery/1.0.0".
Definition ProxyProtocol : string := "/libp2p/tunnel-proxy/1.0.0".
Definition CNIProtocol : string := "/libp2p/tunnel-cni/1.0.0".

Inductive DiscoveryType : Type := MdnsDiscovery | DhtDiscovery.
Definition DiscoveryType_string (d : DiscoveryType) : string :=
  match d with MdnsDiscovery => "MDNS" | DhtDiscovery => "DHT" end.

Definition DailRetryTime : nat := 3.
Definition RetryTime : nat := 3.

(** The goroutines that handlers start. *)
Inductive goroutine : Type := ProxyConn | ProxyConnUDP | DialTun.

(** ** Programs

    What the code does to its surroundings: the stream it works on, the libp2p
    host, the node map and the relay map of the tunnel, which other goroutines
    change too, and the network.  The address that is dialled is the one
    [net.ParseIP] gives; [net.DialTCP] and [net.DialUDP] take a nil address
    ([None]) for the local host. *)
Inductive prog {MA ID : Type} (M A : Type) : Type :=
| Ret (a : A)
| ReadMsg (k : result M -> prog M A)
| WriteMsg (m : M) (k : result unit -> prog M A)
| ResetStream (k : result unit -> prog M A)
| NewStream (id : ID) (protocol : string) (k : result unit -> prog M A)
| Connect (p : AddrInfo MA ID) (k : result unit -> prog M A)
| ConnsToPeer (id : ID) (k : nat -> prog M A)
| LookupPeer (name : string) (k : option ID -> prog M A)
| StorePeer (name : string) (id : ID) (k : prog M A)
| PeerInfo (id : ID) (k : list MA -> prog M A)
| AddAddrs (id : ID) (addrs : list MA) (k : prog M A)
| ReadRelayMap (k : RelayMap MA ID -> prog M A)
| Dial (protocol : string) (ip : option (list Z)) (port : Z) (k : result unit -> prog M A)
| Go (what : goroutine) (k : prog M A).
Arguments prog : clear implicits.
Arguments Ret {MA ID M A}.
Arguments ReadMsg {MA ID M A}.
Arguments WriteMsg {MA ID M A}.
Arguments ResetStream {MA ID M A}.
Arguments NewStream {MA ID M A}.
Arguments Connect {MA ID M A}.
Arguments ConnsToPeer {MA ID M A}.
Arguments LookupPeer {MA ID M A}.
Arguments StorePeer {MA ID M A}.
Arguments PeerInfo {MA ID M A}.
Arguments AddAddrs {MA ID M A}.
Arguments ReadRelayMap {MA ID M A}.
Arguments Dial {MA ID M A}.
Arguments Go {MA ID M A}.

Fixpoint prog_bind {MA ID M A B} (p : prog MA ID M A) (f : A -> prog MA ID M B) : prog MA ID M B :=
  match p with
  | Ret a => f a
  | ReadMsg k => ReadMsg (fun r => prog_bind (k r) f)
  | WriteMsg m k => WriteMsg m (fun r => prog_bind (k r) f)
  | ResetStream k => ResetStream (fun r => prog_bind (k r) f)
  | NewStream id pr k => NewStream id pr (fun r => prog_bind (k r) f)
  | Connect pi k => Connect pi (fun r => prog_bind (k r) f)
  | ConnsToPeer id k => ConnsToPeer id (fun r => prog_bind (k r) f)
  | LookupPeer n k => LookupPeer n (fun r => prog_bind (k r) f)
  | StorePeer n id k => StorePeer n id (prog_bind k f)
  | PeerInfo id k => PeerInfo id (fun r => prog_bind (k r) f)
  | AddAddrs id addrs k => AddAddrs id addrs (prog_bind k f)
  | ReadRelayMap k => ReadRelayMap (fun r => prog_bind (k r) f)
  | Dial pr ip port k => Dial pr ip port (fun r => prog_bind (k r) f)
  | Go g k => Go g (prog_bind k f)
  end.

Section tunnel.
Context {MA ID : Type} `{Multiaddr MA} `{Identity ID} `{RangeOrder}.
(** [AddrInfo.String], used in error messages. *)
Context (info_String : AddrInfo MA ID -> string).
Abbreviation tprog := (prog MA ID).

Definition isRelayPeer (relayMap : RelayMap MA ID) (id : ID) : bool :=
  existsb (fun relay => bool_decide (ai_ID relay = id)) (range relayMap).*2.

(** [defer stream.Reset()] *)
Definition then_reset {M A} (p : tprog M A) : tprog M A :=
  prog_bind p (fun a => ResetStream (fun _ => Ret a)).

(** ** Discovery *)

(** The handshake of [discovery] with the peer [peerID]. *)
Definition discovery_handshake (nodeName protocol : string) (peerID : ID) : tprog Discovery.t unit :=
  WriteMsg (Discovery.mk (Enum CONNECT) (Some protocol) (Some nodeName) []) (fun err =>
  match err with
  | Err _ => Ret tt
  | Ok _ =>
      ReadMsg (fun r =>
      match r with
      | Err _ => Ret tt
      | Ok msg =>
          if bool_decide (Discovery.GetType msg = SUCCESS)
          then StorePeer (Discovery.GetNodeName msg) peerID (Ret tt)
          else Ret tt
      end)
  end).

Definition discovery (self : ID) (nodeName : string) (discoverType : DiscoveryType) (pi : AddrInfo MA ID)
  : tprog Discovery.t unit :=
  if bool_decide (ai_ID pi = self) then Ret tt else
  let connect :=
    Connect pi (fun err =>
    match err with
    | Err _ => Ret tt
    | Ok _ =>
        NewStream (ai_ID pi) DiscoveryProtocol (fun err =>
        match err with
        | Err _ => Ret tt
        | Ok _ => then_reset (discovery_handshake nodeName (DiscoveryType_string discoverType) (ai_ID pi))
        end)
    end) in
  match discoverType with
  | MdnsDiscovery => connect
  | DhtDiscovery =>
      ReadRelayMap (fun relayMap =>
      if isRelayPeer relayMap (ai_ID pi) then connect else
      ReadRelayMap (fun relayMap =>
      match AddCircuitAddrsToPeer (mkAddrInfo (ai_ID pi) []) relayMap with
      | Err _ => Ret tt
      | Ok addrInfo => AddAddrs (ai_ID pi) (Addrs addrInfo) connect
      end))
  end.

Definition discoveryStreamHandler (nodeName : string) (remotePeer : ID) : tprog Discovery.t unit :=
  ReadMsg (fun r =>
  match r with
  | Err _ => Ret tt
  | Ok msg =>
      if bool_decide (Discovery.GetType msg = CONNECT) then
        WriteMsg (Discovery.mk (Enum SUCCESS) (Discovery.Protocol msg) (Some nodeName) (Discovery.XXX_unrecognized msg)) (fun err =>
        match err with
        | Err _ => Ret tt
        | Ok _ => StorePeer (Discovery.GetNodeName msg) remotePeer (Ret tt)
        end)
      else Ret tt
  end).

(** ** Proxy streams *)

(** Giving the stream up with the error [e]. *)
Definition fail_reset {M A} (nodeName : string) (resetErr : string -> string) (e : string) : tprog M (result A) :=
  ResetStream (fun r =>
  match r with
  | Err re => Ret (Err ("stream between " +:+ nodeName +:+ " reset err: " +:+ resetErr re))
  | Ok _ => Ret (Err e)
  end).

(** Waiting for the answer of the other end. *)
Definition await_answer (opts : ProxyOptions) : tprog Proxy.t (result unit) :=
  ReadMsg (fun r =>
  match r with
  | Err e => fail_reset (opt_NodeName opts) id ("read conn result msg from " +:+ opt_NodeName opts +:+ " err: " +:+ e)
  | Ok msg =>
      if bool_decide (Proxy.GetType msg = FAILED)
      then fail_reset (opt_NodeName opts) (fun _ => "%!w(<nil>)")
             ("libp2p dial " +:+ ProxyOptions_string opts +:+ " err: Proxy.type is " +:+ Msg_Type_String (Proxy.GetType msg))
      else Ret (Ok tt)
  end).

(** The handshake on a new stream, after which the stream is the connection. *)
Definition proxy_handshake (opts : ProxyOptions) (msg : Proxy.t) : tprog Proxy.t (result unit) :=
  WriteMsg msg (fun err =>
  match err with
  | Err e => fail_reset (opt_NodeName opts) id ("write conn msg to " +:+ opt_NodeName opts +:+ " err: " +:+ e)
  | Ok _ => await_answer opts
  end).

(** Opening a stream to a peer, with the circuit addresses of the relays, and
    the handshake on it. *)
Definition open_stream (protocol : string) (opts : ProxyOptions) (msg : Proxy.t) (destInfo : AddrInfo MA ID)
  : tprog Proxy.t (result unit) :=
  ReadRelayMap (fun relayMap =>
  match AddCircuitAddrsToPeer destInfo relayMap with
  | Err _ => Ret (Err ("failed to add circuit addrs to peer " +:+ info_String destInfo))
  | Ok destInfo =>
      AddAddrs (ai_ID destInfo) (Addrs destInfo)
      (NewStream (ai_ID destInfo) protocol (fun err =>
       match err with
       | Err e => Ret (Err ("new stream between " +:+ opt_NodeName opts +:+ ": " +:+ info_String destInfo +:+ " err: " +:+ e))
       | Ok _ => proxy_handshake opts msg
       end))
  end).

(** [GetProxyStream] and [GetCNIAdapterStream] differ in the protocol and the
    first message. *)
Definition get_stream (protocol : string) (opts : ProxyOptions) (msg : Proxy.t) : tprog Proxy.t (result unit) :=
  let destName := opt_NodeName opts in
  LookupPeer destName (fun destID =>
  match destID with
  | Some destID => PeerInfo destID (fun addrs => open_stream protocol opts msg (mkAddrInfo destID addrs))
  | None =>
      match PeerIDFromString destName with
      | Err e => Ret (Err ("failed to generate peer id for " +:+ destName +:+ " err: " +:+ e))
      | Ok destID => StorePeer destName destID (open_stream protocol opts msg (mkAddrInfo destID []))
      end
  end).

Definition connect_msg (opts : ProxyOptions) : Proxy.t :=
  Proxy.mk (Enum CONNECT) (Some (opt_Protocol opts)) (Some (opt_NodeName opts)) (Some (opt_IP opts)) (Some (opt_Port opts)) [].

Definition GetProxyStream (opts : ProxyOptions) : tprog Proxy.t (result unit) :=
  get_stream ProxyProtocol opts (connect_msg opts).

Definition GetCNIAdapterStream (opts : ProxyOptions) : tprog Proxy.t (result unit) :=
  get_stream CNIProtocol opts (connect_msg (mkProxyOptions (opt_Protocol opts) (opt_NodeName opts) "" 0)).

(** The dial loop; [err] is the error of the last attempt. *)
Fixpoint dial_loop {M} (tries : nat) (protocol ip : string) (port : Z) (err : string) : tprog M (result unit) :=
  match tries with
  | O => Ret (Err err)
  | S tries' =>
      Dial protocol (ParseIP ip) port (fun r =>
      match r with
      | Ok _ => Ret (Ok tt)
      | Err e => dial_loop tries' protocol ip port e
      end)
  end.

Definition tryDialEndpoint {M} (protocol ip : string) (port : Z) : tprog M (result unit) :=
  if String.eqb protocol TCP || String.eqb protocol UDP then dial_loop DailRetryTime protocol ip port ""
  else Ret (Err ("unsupported protocol: " +:+ protocol)).

(** What the handler does after dialling for [msg]. *)
Definition proxy_reply (msg : Proxy.t) (dialled : result unit) : tprog Proxy.t unit :=
  let targetProto := Proxy.GetProtocol msg in
  match dialled with
  | Err _ => WriteMsg Proxy.failed (fun _ => Ret tt)
  | Ok _ =>
      WriteMsg (Proxy.set_Type SUCCESS msg) (fun err =>
      match err with
      | Err _ => Ret tt
      | Ok _ =>
          if String.eqb targetProto TCP then Go ProxyConn (Ret tt)
          else if String.eqb targetProto UDP then Go ProxyConnUDP (Ret tt)
          else Ret tt
      end)
  end.

Definition proxyStreamHandler : tprog Proxy.t unit :=
  ReadMsg (fun r =>
  match r with
  | Err _ => Ret tt
  | Ok msg =>
      if bool_decide (Proxy.GetType msg = CONNECT) then
        prog_bind (tryDialEndpoint (Proxy.GetProtocol msg) (Proxy.GetIp msg) (Proxy.GetPort msg)) (proxy_reply msg)
      else Ret tt
  end).

Definition CNIAdapterStreamHandler : tprog Proxy.t unit :=
  ReadMsg (fun r =>
  match r with
  | Err _ => Ret tt
  | Ok msg =>
      if bool_decide (Proxy.GetType msg = CONNECT) then
        WriteMsg (Proxy.set_Type SUCCESS msg) (fun err =>
        match err with
        | Err _ => Ret tt
        | Ok _ => Go DialTun (Ret tt)
        end)
      else Ret tt
  end).

(** ** Relays *)

Fixpoint connect_retry {M} (tries : nat) (relay : AddrInfo MA ID) : tprog M unit :=
  match tries with
  | O => Ret tt
  | S tries' =>
      Connect relay (fun err => match err with Err _ => connect_retry tries' relay | Ok _ => Ret tt end)
  end.

Definition connectToRelay {M} (self : ID) (relay : AddrInfo MA ID) : tprog M unit :=
  if bool_decide (self = ai_ID relay) then Ret tt else
  ConnsToPeer (ai_ID relay) (fun n =>
  if (n =? 0)%nat then connect_retry RetryTime relay else Ret tt).

(** One goroutine for each relay. *)
Definition connectToRelays {M} (self : ID) (relayMap : RelayMap MA ID) : list (tprog M unit) :=
  connectToRelay self <$> (range relayMap).*2.

(** One round of [BootstrapConnect]: the names of the relays that could not be
    connected. *)
Definition bootstrap_round (self : ID) (connect : AddrInfo MA ID -> result unit) (bootstrapPeers : RelayMap MA ID)
  : list string :=
  omap (fun '(n, p) =>
      if bool_decide (ai_ID p = self) then None
      else match connect p with Err _ => Some n | Ok _ => None end) (range bootstrapPeers).

(** The rounds are those the timer allows. *)
Fixpoint BootstrapConnect (self : ID) (rounds : list (AddrInfo MA ID -> result unit)) (bootstrapPeers : RelayMap MA ID)
  : result unit :=
  match rounds with
  | [] => Err "timed out waiting for the condition"
  | connect :: rounds' =>
      match bootstrap_round self connect bootstrapPeers with
      | [] => Ok tt
      | _ :: _ => BootstrapConnect self rounds' bootstrapPeers
      end
  end.

Definition nodeNameFromPeerID (nodePeerMap : gmap string ID) (id : ID) : option string :=
  fst <$> List.find (fun '(_, peerID) => bool_decide (peerID = id)) (range nodePeerMap).

(** What [runRelayFinder] does with the peers the DHT finds; [addrs] is the
    peerstore. *)
Definition finder_peer (nodePeerMap : gmap string ID) (addrs : ID -> list MA) (relayMap : RelayMap MA ID) (p : ID)
  : go (RelayMap MA ID) :=
  match addrs p with
  | [] => Val relayMap
  | as_ =>
      match nodeNameFromPeerID nodePeerMap p with
      | None => Val relayMap
      | Some nodeName => refreshRelayMap relayMap nodeName (mkAddrInfo p as_)
      end
  end.

Definition finder_round (nodePeerMap : gmap string ID) (addrs : ID -> list MA) (closestPeers : result (list ID))
    (relayMap : RelayMap MA ID) : go (RelayMap MA ID) :=
  match closestPeers with
  | Err _ => Val relayMap
  | Ok peers => go_fold (finder_peer nodePeerMap addrs) relayMap peers
  end.

(** ** Configuration *)

(** [relayService] tells whether the service is there (not nil). *)
Record EdgeTunnel : Type := mkEdgeTunnel {
  Config : EdgeTunnelConfig.t;
  isRelay : bool;
  relayMap : RelayMap MA ID;
  relayService : bool
}.

(** Pointers may be nil. *)
Record reloadConfig : Type := mkReloadConfig { Modules : option (option (list RelayNode)) }.

(** [file] is what reading and unmarshalling the file gives; [New] and [Close]
    what the relay service answers.  At the end the relays of the new map are
    connected, see [connectToRelays]. *)
Definition doReload (t : EdgeTunnel) (file : result reloadConfig) (New Close : result unit) : go EdgeTunnel :=
  match file with
  | Err _ => Val t
  | Ok cfg =>
      match Modules cfg with
      | Some (Some relayNodes) =>
          let relays := GenerateRelayMap relayNodes (EdgeTunnelConfig.Transport (Config t)) (EdgeTunnelConfig.ListenPort (Config t)) in
          let t := mkEdgeTunnel (Config t) (isRelay t) relays (relayService t) in
          let server := String.eqb (EdgeTunnelConfig.Mode (Config t)) ServerClientMode in
          match relays !! EdgeTunnelConfig.NodeName (Config t) with
          | Some _ =>
              if negb (relayService t) && server then
                match New with
                | Err _ => Val t
                | Ok _ => Val (mkEdgeTunnel (Config t) true relays true)
                end
              else Val t
          | None =>
              if relayService t && server then
                match Close with
                | Err _ => Val t
                | Ok _ => Val (mkEdgeTunnel (Config t) false relays false)
                end
              else Val t
          end
      | _ => Panic "nil pointer dereference"
      end
  end.

(** The relay part of [newEdgeTunnel]; starting the relay service may fail. *)
Definition new_relay_state (c : EdgeTunnelConfig.t) (relayNodes : list RelayNode) (New : result unit) : result EdgeTunnel :=
  let relays := GenerateRelayMap relayNodes (EdgeTunnelConfig.Transport c) (EdgeTunnelConfig.ListenPort c) in
  let isRelay := bool_decide (is_Some (relays !! EdgeTunnelConfig.NodeName c)) in
  if isRelay && String.eqb (EdgeTunnelConfig.Mode c) ServerClientMode then
    match New with
    | Err e => Err ("run libp2p relayv2 service error: " +:+ e)
    | Ok _ => Ok (mkEdgeTunnel c isRelay relays true)
    end
  else Ok (mkEdgeTunnel c isRelay relays false).

(** The addresses the host listens on. *)
Definition generateListenAddr (c : EdgeTunnelConfig.t) (ips : result (list string)) : result (list string) :=
  match ips with
  | Err e => Err ("failed to get ips from listen interfaces: " +:+ e)
  | Ok ips =>
      let port := if String.eqb (EdgeTunnelConfig.Mode c) ServerClientMode then EdgeTunnelConfig.ListenPort c
                  else EdgeTunnelConfig.ListenPort c + 1 in
      Ok ((fun ip => GenerateMultiAddrString (EdgeTunnelConfig.Transport c) ip port) <$> ips)
  end.
End tunnel.
