(* ===== verification/TunnelProto.v ===== *)
(** * Handshakes over streams

    Two programs at the two ends of a stream, run in any interleaving and with
    any failures of the stream; a program logic in which each end relies on
    what the other end guarantees of its messages; and the theorems on the
    discovery and proxy handshakes and on the relay service. *)

From Stdlib Require Import ZArith Lia Ascii String.
From stdpp Require Import base list gmap strings option relations.
From S2P Require Import Prelude GoStrings GoNet Config ProtoWire Messages TunnelUtil Tunnel.

Local Open Scope Z_scope.

Section logic.
Context {MA ID : Type}.
Context (names : string -> ID -> Prop).
Abbreviation tprog := (prog MA ID).

(** ** Runs *)

(** What a program did, apart from reading and writing messages. *)
Inductive event : Type :=
| EReset
| EStream (id : ID) (protocol : string)
| EStore (name : string) (id : ID)
| EDial (protocol : string) (ip : option (list Z)) (port : Z) (r : result unit)
| EGo (what : goroutine).

(** One operation of a program with its queues of incoming and outgoing
    messages.  With [fails], reading and writing may fail, and a message whose
    writing failed may arrive nevertheless.  What the host and the relay map
    answer is arbitrary; the node map has entries that satisfy [names]. *)
Inductive pstep (fails : bool) {M A} : tprog M A -> list M -> list M -> tprog M A -> list M -> list M -> list event -> Prop :=
| ps_read m k inq out : pstep fails (ReadMsg k) (m :: inq) out (k (Ok m)) inq out []
| ps_read_err e k inq out : fails = true -> pstep fails (ReadMsg k) inq out (k (Err e)) inq out []
| ps_write m k inq out : pstep fails (WriteMsg m k) inq out (k (Ok tt)) inq (out ++ [m]) []
| ps_write_err m e k inq out : fails = true -> pstep fails (WriteMsg m k) inq out (k (Err e)) inq out []
| ps_write_lost m e k inq out : fails = true -> pstep fails (WriteMsg m k) inq out (k (Err e)) inq (out ++ [m]) []
| ps_reset r k inq out : pstep fails (ResetStream k) inq out (k r) inq out [EReset]
| ps_stream id pr r k inq out : pstep fails (NewStream id pr k) inq out (k r) inq out [EStream id pr]
| ps_connect pi r k inq out : pstep fails (Connect pi k) inq out (k r) inq out []
| ps_conns id n k inq out : pstep fails (ConnsToPeer id k) inq out (k n) inq out []
| ps_lookup n o k inq out : (forall id, o = Some id -> names n id) -> pstep fails (LookupPeer n k) inq out (k o) inq out []
| ps_store n id k inq out : pstep fails (StorePeer n id k) inq out k inq out [EStore n id]
| ps_info id as_ k inq out : pstep fails (PeerInfo id k) inq out (k as_) inq out []
| ps_addrs id as_ k inq out : pstep fails (AddAddrs id as_ k) inq out k inq out []
| ps_relays rm k inq out : pstep fails (ReadRelayMap k) inq out (k rm) inq out []
| ps_dial pr ip port r k inq out : pstep fails (Dial pr ip port k) inq out (k r) inq out [EDial pr ip port r]
| ps_go g k inq out : pstep fails (Go g k) inq out k inq out [EGo g].

(** The two ends of a stream, the messages under way and what was done. *)
Record session (M A B : Type) : Type := mkSession {
  client : tprog M A;
  server : tprog M B;
  to_server : list M;
  to_client : list M;
  client_log : list event;
  server_log : list event
}.
Arguments mkSession {M A B}.
Arguments client {M A B}.
Arguments server {M A B}.
Arguments to_server {M A B}.
Arguments to_client {M A B}.
Arguments client_log {M A B}.
Arguments server_log {M A B}.

Definition start {M A B} (c : tprog M A) (v : tprog M B) : session M A B := mkSession c v [] [] [] [].

Inductive session_step (fails : bool) {M A B} : session M A B -> session M A B -> Prop :=
| client_moves c c' v cs cs' sc sc' cl sl es :
    pstep fails c sc cs c' sc' cs' es ->
    session_step fails (mkSession c v cs sc cl sl) (mkSession c' v cs' sc' (cl ++ es) sl)
| server_moves c v v' cs cs' sc sc' cl sl es :
    pstep fails v cs sc v' cs' sc' es ->
    session_step fails (mkSession c v cs sc cl sl) (mkSession c v' cs' sc' cl (sl ++ es)).

(** *** Termination: every operation consumes a part of a program. *)

Lemma pstep_acc fails {M A} (p : tprog M A) :
  Acc (fun p' p => exists inq out inq' out' es, pstep fails p inq out p' inq' out' es) p.
Proof.
  induction p; constructor; intros p' (inq & out & inq' & out' & es & Hs); inversion Hs; subst; eauto.
Qed.

Lemma session_step_acc fails {M A B} (s : session M A B) : Acc (fun s' s => session_step fails s s') s.
Proof.
  destruct s as [c v cs sc cl sl]. revert v cs sc cl sl.
  induction (pstep_acc fails c) as [c _ IHc]. intros v.
  induction (pstep_acc fails v) as [v _ IHv]. intros cs sc cl sl. constructor. intros s' Hs.
  inversion Hs; subst; [eapply IHc|eapply IHv]; eauto 10.
Qed.

(** ** The logic *)

(** From the log [log], the program [p] writes messages that satisfy [G] (of
    the log so far), does things that satisfy [E] and returns a result that
    satisfies [Q], if the messages it reads satisfy [R] and the entries of the
    node map [names]. *)
Fixpoint safe {M A} (R : M -> Prop) (G : list event -> M -> Prop) (E : event -> Prop) (Q : list event -> A -> Prop)
    (log : list event) (p : tprog M A) : Prop :=
  let does ev p := E ev /\ safe R G E Q (log ++ [ev]) p in
  match p with
  | Ret a => Q log a
  | ReadMsg k => (forall m, R m -> safe R G E Q log (k (Ok m))) /\ forall e, safe R G E Q log (k (Err e))
  | WriteMsg m k => G log m /\ forall r, safe R G E Q log (k r)
  | ResetStream k => forall r, does EReset (k r)
  | NewStream id pr k => forall r, does (EStream id pr) (k r)
  | Connect pi k => forall r, safe R G E Q log (k r)
  | ConnsToPeer id k => forall n, safe R G E Q log (k n)
  | LookupPeer n k => forall o, (forall id, o = Some id -> names n id) -> safe R G E Q log (k o)
  | StorePeer n id k => does (EStore n id) k
  | PeerInfo id k => forall as_, safe R G E Q log (k as_)
  | AddAddrs id as_ k => safe R G E Q log k
  | ReadRelayMap k => forall rm, safe R G E Q log (k rm)
  | Dial pr ip port k => forall r, does (EDial pr ip port r) (k r)
  | Go g k => does (EGo g) k
  end.

Lemma safe_bind {M A B} R G E (Q : list event -> A -> Prop) (Q' : list event -> B -> Prop) log
    (p : tprog M A) (f : A -> tprog M B) :
  safe R G E Q log p -> (forall log a, Q log a -> safe R G E Q' log (f a)) -> safe R G E Q' log (prog_bind p f).
Proof.
  intros Hp Hf. revert log Hp. induction p; cbn; intros log Hp; naive_solver.
Qed.

Lemma safe_mono {M A} (R R' : M -> Prop) (G G' : list event -> M -> Prop) (E E' : event -> Prop)
    (Q Q' : list event -> A -> Prop) log (p : tprog M A) :
  (forall m, R' m -> R m) -> (forall log m, G log m -> G' log m) -> (forall ev, E ev -> E' ev) ->
  (forall log a, Q log a -> Q' log a) -> safe R G E Q log p -> safe R' G' E' Q' log p.
Proof. intros HR HG HE HQ. revert log. induction p; cbn; intros log; naive_solver. Qed.

Lemma safe_and {M A} R (G G' : list event -> M -> Prop) (E E' : event -> Prop) (Q Q' : list event -> A -> Prop) log (p : tprog M A) :
  safe R G E Q log p -> safe R G' E' Q' log p ->
  safe R (fun log m => G log m /\ G' log m) (fun ev => E ev /\ E' ev) (fun log a => Q log a /\ Q' log a) log p.
Proof. revert log. induction p; cbn; intros log; naive_solver. Qed.

Lemma safe_trivial {M A} log (p : tprog M A) :
  safe (fun _ => True) (fun _ _ => True) (fun _ => True) (fun _ _ => True) log p.
Proof. revert log. induction p; cbn; intros log; naive_solver. Qed.

(** Logs only grow, and what holds of a message goes on to hold. *)
Definition stable {M} (G : list event -> M -> Prop) : Prop := forall log log' m, G log m -> G (log ++ log') m.

Lemma pstep_safe fails {M A} R G E (Q : list event -> A -> Prop) log (p p' : tprog M A) inq out inq' out' es :
  stable G -> pstep fails p inq out p' inq' out' es ->
  safe R G E Q log p -> Forall R inq -> Forall (G log) out -> Forall E log ->
  safe R G E Q (log ++ es) p' /\ Forall R inq' /\ Forall (G (log ++ es)) out' /\ Forall E (log ++ es).
Proof.
  intros HG Hs Hp Hin Hout HE.
  assert (Hout' : Forall (G (log ++ es)) out) by (eapply Forall_impl; [exact Hout|]; intros; by apply HG).
  destruct Hs; cbn in Hp; rewrite ?app_nil_r in *; rewrite ?Forall_app, ?Forall_cons, ?Forall_nil in *; naive_solver.
Qed.

(** Each end relies on what the other one guarantees, for any later log of
    the other one. *)
Section composition.
Context {M A B : Type} (fails : bool).
Context (Gc Gs : list event -> M -> Prop) (Ec Es : event -> Prop).
Context (Qc : list event -> list event -> A -> Prop) (Qs : list event -> list event -> B -> Prop).
Context (HGc : stable Gc) (HGs : stable Gs).

Definition session_inv (s : session M A B) : Prop :=
  (forall sl, safe (Gs (server_log s ++ sl)) Gc Ec (Qc (server_log s ++ sl)) (client_log s) (client s)) /\
  (forall cl, safe (Gc (client_log s ++ cl)) Gs Es (Qs (client_log s ++ cl)) (server_log s) (server s)) /\
  Forall (Gc (client_log s)) (to_server s) /\ Forall (Gs (server_log s)) (to_client s) /\
  Forall Ec (client_log s) /\ Forall Es (server_log s).

Lemma stable_Forall (G : list event -> M -> Prop) log log' l :
  stable G -> Forall (G log) l -> Forall (G (log ++ log')) l.
Proof. intros HG Hl. eapply Forall_impl; [exact Hl|]. intros m. apply HG. Qed.

Lemma session_inv_step s s' : session_step fails s s' -> session_inv s -> session_inv s'.
Proof.
  intros [c c' v cs cs' sc sc' cl sl es Hs|c v v' cs cs' sc sc' cl sl es Hs] (Hc & Hv & Hcs & Hsc & HEc & HEs);
    cbn in *; unfold session_inv; cbn.
  - assert (Hstep : forall l, safe (Gs (sl ++ l)) Gc Ec (Qc (sl ++ l)) (cl ++ es) c' /\ Forall (Gc (cl ++ es)) cs' /\
        Forall Ec (cl ++ es)).
    { intros l. destruct (pstep_safe _ _ _ _ _ _ _ _ _ _ _ _ _ HGc Hs (Hc l)) as (? & _ & ? & ?); auto.
      by apply stable_Forall. }
    assert (Hsc' : Forall (Gs sl) sc').
    { destruct (pstep_safe _ _ _ _ _ _ _ _ _ _ _ _ _ HGc Hs (Hc [])) as (_ & Hin & _); auto; rewrite app_nil_r in *; done. }
    destruct (Hstep []) as (_ & ? & ?). split_and!; try done; [intros l; apply Hstep|].
    intros l. rewrite <- (assoc_L (++)). apply Hv.
  - assert (Hstep : forall l, safe (Gc (cl ++ l)) Gs Es (Qs (cl ++ l)) (sl ++ es) v' /\ Forall (Gs (sl ++ es)) sc' /\
        Forall Es (sl ++ es)).
    { intros l. destruct (pstep_safe _ _ _ _ _ _ _ _ _ _ _ _ _ HGs Hs (Hv l)) as (? & _ & ? & ?); auto.
      by apply stable_Forall. }
    assert (Hcs' : Forall (Gc cl) cs').
    { destruct (pstep_safe _ _ _ _ _ _ _ _ _ _ _ _ _ HGs Hs (Hv [])) as (_ & Hin & _); auto; rewrite app_nil_r in *; done. }
    destruct (Hstep []) as (_ & ? & ?). split_and!; try done; [|intros l; apply Hstep].
    intros l. rewrite <- (assoc_L (++)). apply Hc.
Qed.

(** Whatever the interleaving and the failures, both ends keep their promises. *)
Lemma session_sound c v s :
  (forall sl, safe (Gs sl) Gc Ec (Qc sl) [] c) -> (forall cl, safe (Gc cl) Gs Es (Qs cl) [] v) ->
  rtc (session_step fails) (start c v) s ->
  (forall a, client s = Ret a -> Qc (server_log s) (client_log s) a) /\
  (forall b, server s = Ret b -> Qs (client_log s) (server_log s) b) /\
  Forall Ec (client_log s) /\ Forall Es (server_log s).
Proof.
  intros Hc Hv Hr. assert (Hi : session_inv (start c v)) by (unfold session_inv, start; cbn; auto 10).
  assert (Hs : session_inv s).
  { clear Hc Hv. induction Hr as [|x y z Hxy _ IH]; [done|]. by apply IH, (session_inv_step x). }
  destruct Hs as (Hsc & Hsv & _ & _ & HEc & HEs). specialize (Hsc []). specialize (Hsv []).
  rewrite app_nil_r in Hsc, Hsv. split_and!; try done.
  - intros a Ha. by rewrite Ha in Hsc.
  - intros b Hb. by rewrite Hb in Hsv.
Qed.
End composition.
End logic.

Arguments event : clear implicits.
Arguments EReset {ID}.
Arguments EStream {ID}.
Arguments EStore {ID}.
Arguments EDial {ID}.
Arguments EGo {ID}.
Arguments session : clear implicits.
Arguments mkSession {MA ID M A B}.
Arguments client {MA ID M A B}.
Arguments server {MA ID M A B}.
Arguments to_server {MA ID M A B}.
Arguments to_client {MA ID M A B}.
Arguments client_log {MA ID M A B}.
Arguments server_log {MA ID M A B}.

(** ** The proxy handshake *)

Section proxy.
Context {MA ID : Type} (names : string -> ID -> Prop).
Implicit Types opts : ProxyOptions.
Abbreviation psession := (session MA ID Proxy.t (result unit) unit).

(** [EDial] of the target of the client with success: of the address that
    [net.ParseIP] makes of what the client asked for. *)
Definition target_dialled opts (log : list (event ID)) : Prop :=
  EDial (opt_Protocol opts) (ParseIP (opt_IP opts)) (opt_Port opts) (Ok tt) ∈ log.

(** The goroutine for the connection of a protocol. *)
Definition proxy_goroutine (protocol : string) : goroutine :=
  if String.eqb protocol TCP then ProxyConn else ProxyConnUDP.

(** What the handler may do for a client with [opts]. *)
Definition serves_target opts (ev : event ID) : Prop :=
  match ev with
  | EDial pr ip port _ => pr = opt_Protocol opts /\ ip = ParseIP (opt_IP opts) /\ port = opt_Port opts
  | EGo g => g = proxy_goroutine (opt_Protocol opts)
  | _ => False
  end.

(** An address with leading zeros is not one for [net.ParseIP]: for such an
    endpoint the handler connects to its own host and reports success. *)
Example unparsable_address : ParseIP "010.0.0.1" = None /\ ParseIP "10.0.0.1" <> None.
Proof. split; [reflexivity|discriminate]. Qed.

Definition answer_honest opts (log : list (event ID)) (m : Proxy.t) : Prop :=
  Proxy.GetType m <> FAILED -> target_dialled opts log.

Lemma answer_honest_stable opts : stable (answer_honest opts).
Proof. intros log log' m Hm Hne. apply elem_of_app. left. by apply Hm. Qed.

(** The client sends its request, and returns without an error only after an
    honest answer; it does nothing but resetting the stream, so what held of
    its log [log] holds when it returns. *)
Lemma client_safe (E : event ID -> Prop) (P : list (event ID) -> Prop) opts sl log :
  E EReset -> P log ->
  safe names (answer_honest opts sl) (fun _ m => m = connect_msg opts) E
    (fun log r => r = Ok tt -> target_dialled opts sl /\ P log) log (proxy_handshake (MA:=MA) opts (connect_msg opts)).
Proof.
  intros HE HP. cbn. split; [done|]. intros [[]|e]; cbn; [|intros [[]|e']; done].
  split; [|intros e [[]|e']; done].
  intros m Hm. case_bool_decide as Hty; cbn; [intros [[]|e']; done|]. intros _. split; [by apply Hm|done].
Qed.

Lemma dial_loop_safe opts R n e log :
  safe names R (answer_honest opts) (serves_target opts)
    (fun log r => r = Ok tt -> target_dialled opts log) log
    (dial_loop (MA:=MA) n (opt_Protocol opts) (opt_IP opts) (opt_Port opts) e).
Proof.
  revert e log. induction n as [|n IH]; intros e log; cbn; [done|]. intros [[]|e']; (split; [done|]).
  - cbn. intros _. apply elem_of_app. right. apply list_elem_of_here.
  - apply IH.
Qed.

Lemma server_safe opts :
  safe names (fun m => m = connect_msg opts) (answer_honest opts) (serves_target opts) (fun _ _ => True) []
    (proxyStreamHandler (MA:=MA)).
Proof.
  cbn. split; [|done]. intros m ->. cbn.
  apply safe_bind with (Q := fun log r => r = Ok tt -> target_dialled opts log).
  - unfold tryDialEndpoint. destruct (_ || _); [apply dial_loop_safe|done].
  - intros log [[]|e] Hr; cbn.
    + split; [intros _; by apply Hr|]. intros [[]|e]; [|done].
      destruct (String.eqb (opt_Protocol opts) TCP) eqn:Et; cbn; unfold proxy_goroutine; [by rewrite Et|].
      destruct (String.eqb (opt_Protocol opts) UDP) eqn:Eu; cbn; unfold proxy_goroutine; by rewrite ?Et.
    + split; [|done]. intros Hn. by destruct Hn.
Qed.

(** Whatever the interleaving and the failures of the stream, a client
    that is given a proxy stream to a node that runs the handler has its
    target dialled there: [GetProxyStream] returns a stream only after the
    handler connected to the requested protocol, address and port, and the
    handler dials and proxies nothing else. *)
Theorem proxy_stream_reaches_target opts (s : psession) :
  rtc (session_step names true) (start (proxy_handshake opts (connect_msg opts)) proxyStreamHandler) s ->
  (client s = Ret (Ok tt) -> target_dialled opts (server_log s)) /\ Forall (serves_target opts) (server_log s).
Proof.
  intros Hr.
  destruct (session_sound names true (fun _ m => m = connect_msg opts) (answer_honest opts) (fun ev => ev = EReset)
    (serves_target opts) (fun sl _ r => r = Ok tt -> target_dialled opts sl /\ True) (fun _ _ _ => True)
    (fun _ _ _ Hm => Hm) (answer_honest_stable opts) _ _ s
    (fun sl => client_safe _ (fun _ => True) opts sl [] eq_refl I) (fun _ => server_safe opts) Hr) as (Hc & _ & _ & Hs).
  split; [|done]. intros Hret. by apply (Hc _ Hret).
Qed.

(** *** Without failures of the stream *)

(** The server program with [n] attempts to dial left. *)
Definition dialling opts (n : nat) (e : string) : prog MA ID Proxy.t unit :=
  prog_bind (dial_loop n (opt_Protocol opts) (opt_IP opts) (opt_Port opts) e) (proxy_reply (connect_msg opts)).

Definition proxied opts : prog MA ID Proxy.t unit := Go (proxy_goroutine (opt_Protocol opts)) (Ret tt).

Definition no_dial (log : list (event ID)) : Prop :=
  Forall (fun ev => exists pr ip port e, ev = EDial pr ip port (Err e)) log.

(** The states of a run for a supported protocol. *)
Inductive handshake_state opts : psession -> Prop :=
| hs_start : handshake_state opts (start (proxy_handshake opts (connect_msg opts)) proxyStreamHandler)
| hs_sent : handshake_state opts (mkSession (await_answer opts) proxyStreamHandler [connect_msg opts] [] [] [])
| hs_dialling n e log :
    (length log + n = DailRetryTime)%nat -> no_dial log ->
    handshake_state opts (mkSession (await_answer opts) (dialling opts n e) [] [] [] log)
| hs_refused log : length log = DailRetryTime -> no_dial log ->
    handshake_state opts (mkSession (await_answer opts) (Ret tt) [] [Proxy.failed] [] log)
| hs_dialled log : no_dial log -> (length log < DailRetryTime)%nat ->
    handshake_state opts (mkSession (await_answer opts) (proxy_reply (connect_msg opts) (Ok tt)) [] [] []
      (log ++ [EDial (opt_Protocol opts) (ParseIP (opt_IP opts)) (opt_Port opts) (Ok tt)]))
| hs_answered log v log' : no_dial log -> (length log < DailRetryTime)%nat ->
    (v = proxied opts /\ log' = [] \/ v = Ret tt /\ log' = [EGo (proxy_goroutine (opt_Protocol opts))]) ->
    handshake_state opts (mkSession (await_answer opts) v [] [Proxy.set_Type SUCCESS (connect_msg opts)] []
      (log ++ EDial (opt_Protocol opts) (ParseIP (opt_IP opts)) (opt_Port opts) (Ok tt) :: log'))
| hs_open log v log' : no_dial log -> (length log < DailRetryTime)%nat ->
    (v = proxied opts /\ log' = [] \/ v = Ret tt /\ log' = [EGo (proxy_goroutine (opt_Protocol opts))]) ->
    handshake_state opts (mkSession (Ret (Ok tt)) v [] [] []
      (log ++ EDial (opt_Protocol opts) (ParseIP (opt_IP opts)) (opt_Port opts) (Ok tt) :: log'))
| hs_failed c e cl log : length log = DailRetryTime -> no_dial log ->
    (c = fail_reset (opt_NodeName opts) (fun _ => "%!w(<nil>)") e \/ exists e', c = Ret (Err e')) ->
    handshake_state opts (mkSession c (Ret tt) [] [] cl log).

Lemma proxy_reply_Ok opts :
  opt_Protocol opts = TCP \/ opt_Protocol opts = UDP ->
  proxy_reply (MA:=MA) (ID:=ID) (connect_msg opts) (Ok tt) =
    WriteMsg (Proxy.set_Type SUCCESS (connect_msg opts)) (fun err => match err with Err _ => Ret tt | Ok _ => proxied opts end).
Proof. unfold proxy_reply, proxied, proxy_goroutine. cbn. by intros [-> | ->]. Qed.

Lemma handshake_state_step opts s s' :
  opt_Protocol opts = TCP \/ opt_Protocol opts = UDP ->
  handshake_state opts s -> session_step names false s s' -> handshake_state opts s'.
Proof.
  intros Hp Hs Hstep. pose proof (proxy_reply_Ok opts Hp) as Hgo.
  destruct Hs as [| |[|n] e log Hn Hl|log Hn Hl|log Hl Hn|log v log' Hl Hn Hv|log v log' Hl Hn Hv|c e cl log Hn Hl Hc];
    inversion Hstep as [? ? ? ? ? ? ? ? ? ? Hm|? ? ? ? ? ? ? ? ? ? Hm]; subst; clear Hstep.
  all: try (inversion Hm; subst; clear Hm; done).
  - inversion Hm; subst; [apply hs_sent|done..].
  - inversion Hm; subst; [|done]. cbn.
    replace (tryDialEndpoint _ _ _) with (dial_loop (MA:=MA) (ID:=ID) (M:=Proxy.t) DailRetryTime (opt_Protocol opts)
      (opt_IP opts) (opt_Port opts) "") by (unfold tryDialEndpoint; by destruct Hp as [-> | ->]).
    apply (hs_dialling opts DailRetryTime "" []); [done|constructor].
  - inversion Hm; subst; [|done..]. rewrite app_nil_r. apply hs_refused; [lia|done].
  - inversion Hm; subst. destruct r as [[]|e']; cbn.
    + apply hs_dialled; [done|lia].
    + apply hs_dialling; [rewrite length_app; cbn; lia|]. apply Forall_app. split; [done|]. repeat constructor. eauto.
  - inversion Hm; subst; [|done]. cbn. eapply hs_failed; eauto.
  - change (pstep names false (proxy_reply (connect_msg opts) (Ok tt)) [] [] v' cs' sc' es) in Hm.
    rewrite Hgo in Hm. inversion Hm; subst; [|done..]. rewrite app_nil_r. apply hs_answered; auto.
  - inversion Hm; subst; [|done]. cbn. rewrite bool_decide_false by done. by apply hs_open.
  - destruct Hv as [[-> ->]|[-> ->]]; inversion Hm; subst. rewrite <- (assoc_L (++)). apply hs_answered; auto.
  - destruct Hv as [[-> ->]|[-> ->]]; inversion Hm; subst. rewrite <- (assoc_L (++)). apply hs_open; auto.
  - destruct Hc as [-> |[e' ->]]; inversion Hm; subst. destruct r; eapply (hs_failed _ _ ""); eauto.
Qed.

Lemma no_dial_target opts log : no_dial log -> ~ target_dialled opts log.
Proof. intros Hn Hin. unfold no_dial in Hn. rewrite list.Forall_forall in Hn. by destruct (Hn _ Hin) as (? & ? & ? & ? & [=]). Qed.

Lemma no_dial_Go log g : no_dial log -> EGo g ∉ log.
Proof. intros Hn Hin. unfold no_dial in Hn. rewrite list.Forall_forall in Hn. by destruct (Hn _ Hin) as (? & ? & ? & ? & [=]). Qed.

(** The state is final, or some end can move. *)
Lemma handshake_state_final opts s :
  opt_Protocol opts = TCP \/ opt_Protocol opts = UDP ->
  handshake_state opts s -> (forall s', ~ session_step names false s s') ->
  server s = Ret tt /\ exists r, client s = Ret r /\
    (r = Ok tt <-> target_dialled opts (server_log s)) /\
    (r = Ok tt <-> EGo (proxy_goroutine (opt_Protocol opts)) ∈ server_log s) /\
    (length (server_log s) <= S DailRetryTime)%nat.
Proof.
  intros Hp Hs Hfin.
  destruct Hs as [| |[|n] e log Hn Hl|log Hn Hl|log Hl Hn|log v log' Hl Hn Hv|log v log' Hl Hn Hv|c e cl log Hn Hl Hc];
    try (exfalso; eapply Hfin; first [solve [eapply client_moves; constructor] 
      | solve [eapply server_moves; cbn; first [apply (ps_dial _ _ _ _ _ (Ok tt)) | constructor]]]).
  - destruct Hv as [[-> ->]|[-> ->]]; [exfalso; eapply Hfin; eapply server_moves; constructor|].
    split; [done|]. exists (Ok tt). cbn. split; [done|]. unfold target_dialled.
    split; [split; [intros _; apply elem_of_app; right; apply list_elem_of_here|done]|].
    split; [split; [intros _|done]; apply elem_of_app; right; apply list_elem_of_further, list_elem_of_here|].
    rewrite length_app. cbn in *. lia.
  - destruct Hc as [-> |[e' ->]]; [exfalso; eapply Hfin; eapply client_moves; apply (ps_reset _ _ (Ok tt))|].
    split; [done|]. exists (Err e'). cbn. split; [done|].
    split; [split; [done|intros Ht; by apply no_dial_target in Ht]|].
    split; [split; [done|intros Hg; by apply no_dial_Go in Hg]|lia].
Qed.

(** C25. Without failures of the stream, every run of the proxy handshake for
    TCP or UDP ends, with both ends done; the client has its stream exactly if
    one of the at most three attempts to dial the target succeeded, and then
    the handler proxies the connection. *)
Theorem proxy_handshake_completes opts (s : psession) :
  opt_Protocol opts = TCP \/ opt_Protocol opts = UDP ->
  rtc (session_step names false) (start (proxy_handshake opts (connect_msg opts)) proxyStreamHandler) s ->
  Acc (fun s' s => session_step names false s s') s /\
  ((forall s', ~ session_step names false s s') ->
   server s = Ret tt /\ exists r, client s = Ret r /\
    (r = Ok tt <-> target_dialled opts (server_log s)) /\
    (r = Ok tt <-> EGo (proxy_goroutine (opt_Protocol opts)) ∈ server_log s) /\
    (length (server_log s) <= S DailRetryTime)%nat).
Proof.
  intros Hp Hr. split; [apply session_step_acc|]. apply handshake_state_final; [done|].
  pose proof (hs_start opts) as H0. revert H0.
  induction Hr as [|x y z Hxy _ IH]; intros Hx; [done|]. apply IH. by eapply handshake_state_step.
Qed.
End proxy.

(** ** The node map *)

Section node_map.
Context {MA ID : Type} `{Multiaddr MA} `{Identity ID} `{RangeOrder}.
Context (info_String : AddrInfo MA ID -> string).

(** The node has the identity generated from its name. *)
Definition named (name : string) (id : ID) : Prop := PeerIDFromString name = Ok id.

Lemma stable_const {M} (P : M -> Prop) : stable (fun (_ : list (event ID)) m => P m).
Proof. intros log log' m Hm. exact Hm. Qed.

(** What an end of the discovery stores: the name and identity of the other. *)
Definition stores_only (name : string) (id : ID) (ev : event ID) : Prop :=
  match ev with EStore n i => n = name /\ i = id | EReset => True | _ => False end.

Definition claims (name : string) (m : Discovery.t) : Prop := Discovery.NodeName m = Some name.

Lemma discovery_client_safe names cname sname protocol sid :
  safe names (claims sname) (fun _ => claims cname) (stores_only sname sid) (fun _ _ => True) []
    (then_reset (discovery_handshake (MA:=MA) cname protocol sid)).
Proof.
  cbn. split; [done|]. intros [[]|e]; cbn; [|done]. split; [|done].
  intros m Hm. unfold Discovery.GetNodeName. rewrite Hm. case_bool_decide; cbn; auto.
Qed.

Lemma discovery_server_safe names cname sname cid :
  safe names (claims cname) (fun _ => claims sname) (stores_only cname cid) (fun _ _ => True) []
    (discoveryStreamHandler (MA:=MA) sname cid).
Proof.
  cbn. split; [|done]. intros m Hm. case_bool_decide; cbn; [|done]. split; [done|]. intros [[]|e]; cbn; [|done].
  unfold Discovery.GetNodeName. by rewrite Hm.
Qed.

(** C33. In every run of the discovery handshake, whatever fails, a node only
    ever maps the other node's name to the other node's identity: the node
    maps stay consistent with the identities that are generated from names. *)
Theorem discovery_maps_names (names : string -> ID -> Prop) cname sname protocol cid sid
    (s : session MA ID Discovery.t unit unit) n id :
  named cname cid -> named sname sid ->
  rtc (session_step names true)
    (start (then_reset (discovery_handshake cname protocol sid)) (discoveryStreamHandler sname cid)) s ->
  (EStore n id ∈ client_log s -> n = sname /\ id = sid /\ named n id) /\
  (EStore n id ∈ server_log s -> n = cname /\ id = cid /\ named n id).
Proof.
  intros Hc Hs Hr.
  destruct (session_sound names true (fun _ => claims cname) (fun _ => claims sname) (stores_only sname sid)
    (stores_only cname cid) (fun _ _ _ => True) (fun _ _ _ => True) (stable_const _) (stable_const _) _ _ s
    (fun _ => discovery_client_safe names cname sname protocol sid)
    (fun _ => discovery_server_safe names cname sname cid) Hr) as (_ & _ & HEc & HEs).
  rewrite list.Forall_forall in HEc, HEs.
  split; intros Hin; [destruct (HEc _ Hin) as [-> ->]|destruct (HEs _ Hin) as [-> ->]]; auto.
Qed.

Lemma AddCircuitAddrsToPeer_ID (p p' : AddrInfo MA ID) rm : AddCircuitAddrsToPeer p rm = Ok p' -> ai_ID p' = ai_ID p.
Proof. unfold AddCircuitAddrsToPeer. destruct (circuit_addrs _); [|done]. by intros [= <-]. Qed.

(** Streams to, and entries for, the destination. *)
Definition to_destination (protocol destName : string) (ev : event ID) : Prop :=
  match ev with
  | EStream id pr => named destName id /\ pr = protocol
  | EStore n id => n = destName /\ named destName id
  | EReset => True
  | _ => False
  end.

(** Opening a stream is as safe as the handshake on it. *)
Section opening.
Context (R : Proxy.t -> Prop) (G : list (event ID) -> Proxy.t -> Prop) (Q : list (event ID) -> result unit -> Prop).
Context (protocol : string) (opts : ProxyOptions) (msg : Proxy.t).
Context (Qerr : forall log e, Q log (Err e)).
Abbreviation safe_here := (safe named R G (to_destination protocol (opt_NodeName opts)) Q).
Context (Hhandshake : forall id log, named (opt_NodeName opts) id -> EStream id protocol ∈ log ->
  safe_here log (proxy_handshake (MA:=MA) opts msg)).

Lemma open_stream_safe info log :
  named (opt_NodeName opts) (ai_ID info) -> safe_here log (open_stream info_String protocol opts msg info).
Proof.
  intros Hi rm. destruct (AddCircuitAddrsToPeer info rm) as [info'|] eqn:Ea; [|by apply Qerr].
  apply AddCircuitAddrsToPeer_ID in Ea. intros r. rewrite Ea. split; [done|]. destruct r as [[]|]; [|by apply Qerr].
  eapply Hhandshake; [done|]. apply elem_of_app. right. apply list_elem_of_here.
Qed.

Lemma get_stream_safe : safe_here [] (get_stream info_String protocol opts msg).
Proof.
  intros [id|] Hid.
  - intros addrs. apply open_stream_safe. by apply Hid.
  - destruct (PeerIDFromString (opt_NodeName opts)) as [id|] eqn:Ep; [|by apply Qerr]. split; [done|]. by apply open_stream_safe.
Qed.
End opening.

Lemma handshake_only_resets (E : event ID -> Prop) opts msg log :
  E EReset ->
  safe named (fun _ => True) (fun _ _ => True) E (fun _ _ => True) log (proxy_handshake (MA:=MA) opts msg).
Proof.
  intros HE. cbn. split; [done|]. intros [[]|e]; cbn; [|intros [[]|e']; done].
  split; [|intros e [[]|e']; done]. intros m _. case_bool_decide; cbn; [intros [[]|e']; done|done].
Qed.

(** As long as the node map is consistent, [GetProxyStream] opens its
    stream to the node it is asked for, also when the node was never
    discovered, and keeps the node map consistent, whatever the other end of
    the stream does. *)
Theorem GetProxyStream_destination {B} opts (v : prog MA ID Proxy.t B) s id :
  rtc (session_step named true) (start (GetProxyStream info_String opts) v) s ->
  (forall pr, EStream id pr ∈ client_log s -> named (opt_NodeName opts) id /\ pr = ProxyProtocol) /\
  (forall n, EStore n id ∈ client_log s -> n = opt_NodeName opts /\ named n id).
Proof.
  intros Hr.
  destruct (session_sound named true (fun _ _ => True) (fun _ _ => True) (to_destination ProxyProtocol (opt_NodeName opts))
    (fun _ => True) (fun _ _ _ => True) (fun _ _ _ => True) (stable_const _) (stable_const _) _ _ s
    (fun _ => get_stream_safe _ _ _ ProxyProtocol opts (connect_msg opts) (fun _ _ => I)
                (fun _ log _ _ => handshake_only_resets _ opts (connect_msg opts) log I))
    (fun _ => safe_trivial named [] v) Hr)
    as (_ & _ & HEc & _).
  rewrite list.Forall_forall in HEc. split.
  - intros pr Hin. exact (HEc _ Hin).
  - intros n Hin. by destruct (HEc _ Hin) as [-> ?].
Qed.
End node_map.

(** ** The relay service *)

Section relay_service.
Context {MA ID : Type} `{Multiaddr MA} `{Identity ID}.
Implicit Types t : EdgeTunnel (MA:=MA) (ID:=ID).

(** The node is a usable relay node of the list. *)
Definition relay_listed (c : EdgeTunnelConfig.t) (nodes : list RelayNode) : bool :=
  existsb (fun rn => bool_decide (rn_NodeName rn = EdgeTunnelConfig.NodeName c) &&
                     bool_decide (is_Some (relay_of (MA:=MA) (ID:=ID) (EdgeTunnelConfig.Transport c) (EdgeTunnelConfig.ListenPort c) rn))) nodes.

Lemma relay_listed_spec c nodes :
  relay_listed c nodes =
    bool_decide (is_Some ((GenerateRelayMap nodes (EdgeTunnelConfig.Transport c) (EdgeTunnelConfig.ListenPort c) : RelayMap MA ID) !! EdgeTunnelConfig.NodeName c)).
Proof.
  rewrite GenerateRelayMap_lookup. apply eq_bool_prop_intro. rewrite bool_decide_spec, last_is_Some.
  unfold relay_listed. rewrite Is_true_true, existsb_exists. split.
  - intros (rn & Hin & [Hn Hr]%andb_true_iff). rewrite bool_decide_eq_true in Hn, Hr. destruct Hr as [i Hi].
    intros He. assert (Hx : i ∈ @nil (AddrInfo MA ID)); [|by apply elem_of_nil in Hx]. rewrite <- He.
    apply list_elem_of_omap. exists rn. split; [by apply list_elem_of_In|]. by rewrite bool_decide_true.
  - intros Hne. destruct (omap _ _) as [|i l] eqn:Eo; [done|].
    assert (Hi : i ∈ i :: l) by apply list_elem_of_here. rewrite <- Eo in Hi.
    apply list_elem_of_omap in Hi as (rn & Hin & Hrn). case_bool_decide as Hn; [|done]. exists rn.
    split; [by apply list_elem_of_In|]. rewrite !bool_decide_true by eauto. done.
Qed.

(** One reload: the file that was read, and how the relay service answers. *)
Definition reload t (x : result reloadConfig * result unit * result unit) :=
  let '(file, New, Close) := x in doReload t file New Close.

Lemma doReload_flags c t x t' :
  Config t = c -> EdgeTunnelConfig.Mode c = ServerClientMode -> isRelay t = relayService t -> reload t x = Val t' ->
  Config t' = c /\ isRelay t' = relayService t'.
Proof.
  destruct x as [[file New] Close]. cbn. unfold doReload. intros <- Hm Hf.
  destruct file as [[[[nodes|]|]]|]; cbn; try done; [|by intros [= <-]].
  rewrite Hm, String.eqb_refl. destruct (GenerateRelayMap _ _ _ !! _), (relayService t), New, Close; by intros [= <-].
Qed.

(** Whatever was reloaded before, and whatever failed, a reload of a
    configuration in which the relay service can be started and stopped leaves
    it running exactly if the configuration lists this node with usable
    addresses, and the relay map is that of the configuration; the flag
    [isRelay] always tells whether the service runs. *)
Theorem relay_service_follows_config c nodes0 New0 t0 xs t :
  EdgeTunnelConfig.Mode c = ServerClientMode ->
  new_relay_state c nodes0 New0 = Ok t0 -> go_fold reload t0 xs = Val t ->
  isRelay t = relayService t /\
  forall nodes, exists t', doReload t (Ok (mkReloadConfig (Some (Some nodes)))) (Ok tt) (Ok tt) = Val t' /\
    relayMap t' = GenerateRelayMap nodes (EdgeTunnelConfig.Transport c) (EdgeTunnelConfig.ListenPort c) /\
    relayService t' = relay_listed c nodes /\ isRelay t' = relay_listed c nodes.
Proof.
  intros Hm Hnew Hxs.
  assert (Hinit : Config t0 = c /\ isRelay t0 = relayService t0).
  { unfold new_relay_state in Hnew. rewrite Hm, String.eqb_refl, andb_true_r in Hnew.
    case_bool_decide; [destruct New0|]; simplify_eq; done. }
  assert (Ht : Config t = c /\ isRelay t = relayService t).
  { refine (go_fold_inv (fun t => Config t = c /\ isRelay t = relayService t) reload xs t0 t _ Hinit Hxs).
    intros t1 x t2 _ [Hc Hf]. by apply doReload_flags. }
  destruct Ht as [Hc Hf]. split; [done|]. intros nodes. rewrite relay_listed_spec. unfold doReload. cbn.
  rewrite Hc, Hm, String.eqb_refl, !andb_true_r.
  destruct (GenerateRelayMap nodes _ _ !! _) eqn:Eg; destruct (relayService t) eqn:Es; cbn; eexists; (split; [reflexivity|]);
    rewrite ?bool_decide_true, ?bool_decide_false by (by eauto || by intros []); cbn; by rewrite ?Hf, ?Es.
Qed.
End relay_service.

(** ** Witnesses *)

#[export] Instance string_Multiaddr : Multiaddr string := {|
  ma_String s := s;
  NewMultiaddr s := if HasPrefix s "/" then Ok s else Err "must begin with /";
  IsPublicAddr _ := true
|}.

#[export] Instance string_Identity : Identity string := {|
  ID_String s := s;
  IDOfKeyPair s := Ok ("id-" +:+ s)
|}.

Definition demo_opts : ProxyOptions := mkProxyOptions "tcp" "edge1" "10.1.0.7" 8080.
Definition demo_names (name id : string) : Prop := True.

Abbreviation demo_session := (session string string Proxy.t (result unit) unit).

(** The first dial fails, the second one succeeds. *)
Definition demo_final : demo_session :=
  mkSession (Ret (Ok tt)) (Ret tt) [] [] []
    [EDial "tcp" (ParseIP "10.1.0.7") 8080 (Err "refused"); EDial "tcp" (ParseIP "10.1.0.7") 8080 (Ok tt); EGo ProxyConn].

Ltac client_does r := eapply rtc_l; [eapply client_moves; r|cbn].
Ltac server_does r := eapply rtc_l; [eapply server_moves; r|cbn].

Lemma demo_run fails :
  rtc (session_step demo_names fails) (start (proxy_handshake demo_opts (connect_msg demo_opts)) proxyStreamHandler)
    demo_final.
Proof.
  client_does ltac:(apply ps_write). server_does ltac:(apply ps_read).
  server_does ltac:(apply (ps_dial _ _ _ _ _ (Err "refused"))). server_does ltac:(apply (ps_dial _ _ _ _ _ (Ok tt))).
  server_does ltac:(apply ps_write). server_does ltac:(apply ps_go). client_does ltac:(apply ps_read).
  apply rtc_refl.
Qed.

Lemma proxy_stream_reaches_target_witness :
  client demo_final = Ret (Ok tt) /\ target_dialled demo_opts (server_log demo_final).
Proof.
  split; [reflexivity|].
  apply (proxy_stream_reaches_target (MA:=string) demo_names demo_opts demo_final (demo_run true)). reflexivity.
Defined.

Lemma proxy_handshake_completes_witness :
  opt_Protocol demo_opts = TCP /\
  Acc (fun s' s => session_step demo_names false s s') demo_final.
Proof.
  split; [reflexivity|].
  apply (proxy_handshake_completes (MA:=string) demo_names demo_opts demo_final); [left; reflexivity|apply (demo_run false)].
Defined.

Definition demo_discovered : session string string Discovery.t unit unit :=
  mkSession (Ret tt) (Ret tt) [] [] [EStore "cloud" "id-cloud"; EReset] [EStore "edge1" "id-edge1"].

Lemma demo_discovery_run :
  rtc (session_step demo_names true)
    (start (then_reset (discovery_handshake "edge1" "MDNS" "id-cloud")) (discoveryStreamHandler "cloud" "id-edge1"))
    demo_discovered.
Proof.
  client_does ltac:(apply ps_write). server_does ltac:(apply ps_read). server_does ltac:(apply ps_write).
  server_does ltac:(apply ps_store). client_does ltac:(apply ps_read). client_does ltac:(apply ps_store).
  client_does ltac:(apply (ps_reset _ _ (Ok tt))). apply rtc_refl.
Qed.

Lemma discovery_maps_names_witness :
  EStore "cloud" "id-cloud" ∈ client_log demo_discovered /\ named "cloud" "id-cloud".
Proof.
  assert (Hin : EStore "cloud" "id-cloud" ∈ client_log demo_discovered) by apply list_elem_of_here.
  split; [exact Hin|].
  exact (proj2 (proj2 (proj1 (discovery_maps_names demo_names "edge1" "cloud" "MDNS" "id-edge1" "id-cloud"
    demo_discovered "cloud" "id-cloud" eq_refl eq_refl demo_discovery_run) Hin))).
Defined.

Definition demo_info (p : AddrInfo string string) : string := ai_ID p.

Definition demo_opening : demo_session :=
  mkSession (proxy_handshake demo_opts (connect_msg demo_opts)) proxyStreamHandler [] []
    [EStore "edge1" "id-edge1"; EStream "id-edge1" ProxyProtocol] [].

Lemma demo_opening_run :
  rtc (session_step named true) (start (GetProxyStream demo_info demo_opts) proxyStreamHandler) demo_opening.
Proof.
  client_does ltac:(apply (ps_lookup _ _ _ None); discriminate). client_does ltac:(apply ps_store).
  client_does ltac:(apply (ps_relays _ _ ∅)). client_does ltac:(apply ps_addrs).
  client_does ltac:(apply (ps_stream _ _ _ _ (Ok tt))). apply rtc_refl.
Qed.

Lemma GetProxyStream_destination_witness :
  EStream "id-edge1" ProxyProtocol ∈ client_log demo_opening /\ named "edge1" "id-edge1".
Proof.
  assert (Hin : EStream "id-edge1" ProxyProtocol ∈ client_log demo_opening)
    by (apply list_elem_of_further, list_elem_of_here).
  split; [exact Hin|].
  exact (proj1 (proj1 (GetProxyStream_destination demo_info demo_opts proxyStreamHandler demo_opening "id-edge1"
    demo_opening_run) ProxyProtocol Hin)).
Defined.

Definition demo_config : EdgeTunnelConfig.t :=
  EdgeTunnelConfig.set_NodeName (newDefaultEdgeTunnelConfig "") "cloud".
Definition demo_relay : RelayNode := mkRelayNode "cloud" ["203.0.113.5"].
Definition demo_tunnel : EdgeTunnel (MA:=string) (ID:=string) := mkEdgeTunnel demo_config false ∅ false.

Lemma relay_service_follows_config_witness :
  go_fold reload demo_tunnel [(Err "no file", Ok tt, Ok tt)] = Val demo_tunnel /\
  exists t', doReload demo_tunnel (Ok (mkReloadConfig (Some (Some [demo_relay])))) (Ok tt) (Ok tt) = Val t' /\
    relayService t' = true.
Proof.
  split; [reflexivity|].
  destruct (relay_service_follows_config demo_config [] (Ok tt) demo_tunnel [(Err "no file", Ok tt, Ok tt)] demo_tunnel)
    as [_ Hr]; [reflexivity|vm_compute; reflexivity|reflexivity|].
  destruct (Hr [demo_relay]) as (t' & Ht & _ & Hs & _). exists t'. split; [exact Ht|].
  rewrite Hs. vm_compute. reflexivity.
Defined.
