(* ===== verification/TunnelWire.v ===== *)
(** * Handshakes as bytes

    [src/pkg/tunnel/tunnel.go] writes and reads the messages of its handshakes
    through [Msgio] on a libp2p stream, and then uses the stream itself as the
    connection ([src/pkg/tunnel/conn.go]).  Two ends exchange bytes here, in
    any pieces and with failures at any byte; every run refines one of
    [TunnelProto], in which they exchange messages. *)

From Stdlib Require Import ZArith Lia Ascii String.
From stdpp Require Import base list gmap strings option relations.
From S2P Require Import Prelude GoStrings GoNet Config ProtoWire Messages Msgio TunnelUtil Tunnel TunnelProto.

Local Open Scope Z_scope.

Definition MaxReadSize : Z := 4096.

(** ** conn.go *)

(** A libp2p stream as far as the wrapper uses it. *)
Record Stream : Type := mkP2pStream {
  st_Protocol : string;
  LocalMultiaddr : string;
  RemoteMultiaddr : string;
  st_bytes : stream
}.

Record StreamAddr : Type := mkStreamAddr { protocol : string; multiAddr : string }.
Definition StreamAddr_Network (sa : StreamAddr) : string := protocol sa.
Definition StreamAddr_String (sa : StreamAddr) : string := multiAddr sa.

Record StreamConn : Type := mkStreamConn { sc_Stream : Stream; laddr : StreamAddr; raddr : StreamAddr }.

Definition NewStreamConn (s : Stream) : StreamConn :=
  mkStreamConn s (mkStreamAddr (st_Protocol s) (LocalMultiaddr s)) (mkStreamAddr (st_Protocol s) (RemoteMultiaddr s)).

Definition LocalAddr (ns : StreamConn) : StreamAddr := laddr ns.
Definition RemoteAddr (ns : StreamConn) : StreamAddr := raddr ns.

(** ** Runs *)

Section wire.
Context {MA ID : Type} (names : string -> ID -> Prop).
Abbreviation tprog := (prog MA ID).

(** The operations that use the bytes of the stream. *)
Definition is_io {M A} (p : tprog M A) : bool :=
  match p with Tunnel.ReadMsg _ | Tunnel.WriteMsg _ _ => true | _ => false end.

Section ends.
Context {M : Type} `{ProtoMessage M}.

(** One end: its program, its reader until a read fails, and whether a write
    has failed. *)
Record wend (A : Type) : Type := mkEnd {
  w_prog : tprog M A;
  w_reader : option uvarintReader;
  w_open : bool;
  w_log : list (event ID)
}.
Arguments mkEnd {A}.
Arguments w_prog {A}.
Arguments w_reader {A}.
Arguments w_open {A}.
Arguments w_log {A}.

(** One operation of an end, and the bytes it sends.  A read that fails may
    have taken any part of the input, so the reader is not used any more; a
    write that fails may have sent any part of the message, and later writes
    fail. *)
Inductive wstep {A} : wend A -> list Z -> wend A -> Prop :=
| w_read ur ur' m k o log :
    Msgio.ReadMsg ur = (ur', Ok m) ->
    wstep (mkEnd (Tunnel.ReadMsg k) (Some ur) o log) [] (mkEnd (k (Ok m)) (Some ur') o log)
| w_read_err r e k o log :
    wstep (mkEnd (Tunnel.ReadMsg k) r o log) [] (mkEnd (k (Err e)) None o log)
| w_write m k r log :
    wstep (mkEnd (Tunnel.WriteMsg m k) r true log) (frame m) (mkEnd (k (Ok tt)) r true log)
| w_write_err m k r e sent rest log :
    frame m = sent ++ rest ->
    wstep (mkEnd (Tunnel.WriteMsg m k) r true log) sent (mkEnd (k (Err e)) r false log)
| w_write_closed m k r e log :
    wstep (mkEnd (Tunnel.WriteMsg m k) r false log) [] (mkEnd (k (Err e)) r false log)
| w_other p p' r o log es :
    is_io p = false -> pstep names true p [] [] p' [] [] es ->
    wstep (mkEnd p r o log) [] (mkEnd p' r o (log ++ es)).

(** Both ends and the bytes under way. *)
Record wire (A B : Type) : Type := mkWire {
  w_client : wend A;
  w_server : wend B;
  up : list Z;
  down : list Z
}.
Arguments mkWire {A B}.
Arguments w_client {A B}.
Arguments w_server {A B}.
Arguments up {A B}.
Arguments down {A B}.

(** The reader finds one more piece of the stream. *)
Definition arrives {A} (seg : list Z) (x : wend A) : wend A :=
  mkEnd (w_prog x) (more_reader [seg] <$> w_reader x) (w_open x) (w_log x).

Inductive wire_step {A B} : wire A B -> wire A B -> Prop :=
| wire_client c c' v sent u d : wstep c sent c' -> wire_step (mkWire c v u d) (mkWire c' v (u ++ sent) d)
| wire_server c v v' sent u d : wstep v sent v' -> wire_step (mkWire c v u d) (mkWire c v' u (d ++ sent))
| wire_up c v seg u d : seg <> [] -> wire_step (mkWire c v (seg ++ u) d) (mkWire c (arrives seg v) u d)
| wire_down c v seg u d : seg <> [] -> wire_step (mkWire c v u (seg ++ d)) (mkWire (arrives seg c) v u d).

(** A stream that has just been opened: nothing read, nothing written. *)
Definition open_end {A} (p : tprog M A) : wend A :=
  mkEnd p (Some (NewDelimitedReader (mkStream [] EOF) MaxReadSize)) true [].
Definition wire_start {A B} (c : tprog M A) (v : tprog M B) : wire A B := mkWire (open_end c) (open_end v) [] [].

(** ** The refinement *)

Definition good (m : M) : Prop := wf m /\ zlen (Marshal m) < 2 ^ 63.

(** The reader has before it, here and under way, the messages [q] and then
    at most a part of a message, if the writer has failed. *)
Definition carries (r : option uvarintReader) (fly : list Z) (open : bool) (q : list M) : Prop :=
  Forall good q /\
  forall ur, r = Some ur ->
    steady (rd (ur_r ur)) /\
    exists part, content (ur_r ur) ++ fly = concat (map frame q) ++ part /\
      (open = true -> part = []) /\
      (part = [] \/ exists m rest, good m /\ frame m = part ++ rest /\ rest <> []).

Definition in_flight (fly : list Z) : list (list Z) := if decide (fly = []) then [] else [fly].

Lemma in_flight_spec fly : concat (in_flight fly) = fly /\ Forall (fun seg => seg <> []) (in_flight fly).
Proof.
  unfold in_flight. case_decide as Hd; [by subst|]. cbn. rewrite app_nil_r. split; [done|].
  apply Forall_cons_2; [done|apply Forall_nil_2].
Qed.

(** Of a stream that starts with a message, the message is read. *)
Lemma read_first ur ur' (m m0 : M) c :
  Msgio.ReadMsg ur = (ur', Ok m) -> steady (rd (ur_r ur)) -> good m0 -> content (ur_r ur) = frame m0 ++ c ->
  m = m0 /\ content (ur_r ur') = c /\ steady (rd (ur_r ur')).
Proof.
  intros Hr Hs [Hw Hlen] Hc. destruct (Z.le_gt_cases (zlen (Marshal m0)) (maxSize ur)) as [Hmax|Hmax].
  - destruct (ReadMsg_frame ur m0 c) as (ur1 & Hr1 & Hc1 & _ & [_ Hst] & _); [done|done|done|].
    rewrite Hr in Hr1. injection Hr1 as -> ->. auto.
  - destruct (ReadMsg_large ur m0 c) as (ur1 & Hr1 & _); [done|done|done|]. by rewrite Hr in Hr1.
Qed.

Lemma carries_read ur ur' m fly open q :
  Msgio.ReadMsg ur = (ur', Ok m) -> carries (Some ur) fly open q ->
  exists q', q = m :: q' /\ carries (Some ur') fly open q'.
Proof.
  intros Hr [Hq Hc]. destruct (Hc ur eq_refl) as (Hs & part & Hcont & Hopen & Hpart).
  assert (Hmore : forall bs m0 c, good m0 -> content (ur_r ur) ++ bs = frame m0 ++ c ->
    m = m0 /\ content (ur_r ur') ++ bs = c /\ steady (rd (ur_r ur'))).
  { intros bs m0 c Hg Hbs. destruct (in_flight_spec bs) as [Hcat Hne].
    destruct (read_first (more_reader (in_flight bs) ur) (more_reader (in_flight bs) ur') m m0 c) as (-> & Hc' & Hst);
      [by apply ReadMsg_more|by apply more_steady|done|cbn [more_reader ur_r]; by rewrite more_content, Hcat|].
    cbn [more_reader ur_r] in Hc', Hst. rewrite more_content, Hcat in Hc'. split; [done|]. split; [done|].
    by apply (proj1 (list.Forall_app _ _ _)) in Hst as [? _]. }
  destruct q as [|m0 q].
  - exfalso. destruct Hpart as [->|(m0 & rest & Hg & Hf & Hne)].
    + apply app_nil in Hcont as [Hnil _]. destruct (ReadMsg_end (M:=M) ur Hs Hnil) as [ur1 Hr1]. by rewrite Hr in Hr1.
    + destruct (Hmore (fly ++ rest) m0 []) as (_ & Hc' & _); [done|rewrite app_nil_r, (assoc_L (++)), Hcont; done|].
      apply app_nil in Hc' as [_ Hc']. apply app_nil in Hc' as [_ Hc']. done.
  - apply Forall_cons_1 in Hq as [Hg Hq]. cbn [map concat] in Hcont. rewrite <- (assoc_L (++)) in Hcont.
    destruct (Hmore fly m0 _ Hg Hcont) as (-> & Hc' & Hst). exists q. split; [done|]. split; [done|].
    intros ur1 [= <-]. split; [done|]. by exists part.
Qed.

Lemma carries_none fly open q : Forall good q -> carries None fly open q.
Proof. by split. Qed.

Lemma carries_write r fly q m :
  carries r fly true q -> good m -> carries r (fly ++ frame m) true (q ++ [m]).
Proof.
  intros [Hq Hc] Hm. split; [apply Forall_app_2; [done|by apply Forall_cons_2, Forall_nil_2]|].
  intros ur Hur. destruct (Hc ur Hur) as (Hs & part & Hcont & Hopen & _). split; [done|].
  exists []. rewrite (Hopen eq_refl), app_nil_r in Hcont. rewrite (assoc_L (++)), Hcont, app_nil_r, map_app, concat_app.
  cbn [map concat]. rewrite app_nil_r. split; [done|]. split; [done|by left].
Qed.

(** The bytes a failed write sent: the message, or a part of it. *)
Lemma carries_write_err r fly q m sent rest :
  carries r fly true q -> good m -> frame m = sent ++ rest ->
  carries r (fly ++ sent) false (if decide (rest = []) then q ++ [m] else q).
Proof.
  intros Hc Hm Hf. case_decide as Hd.
  - subst rest. rewrite app_nil_r in Hf. subst sent. destruct (carries_write r fly q m Hc Hm) as [Hq Hc']. split; [done|].
    intros ur Hur. destruct (Hc' ur Hur) as (Hs & part & Hcont & _ & Hpart). split; [done|]. by exists part.
  - destruct Hc as [Hq Hc]. split; [done|]. intros ur Hur. destruct (Hc ur Hur) as (Hs & part & Hcont & Hopen & _).
    split; [done|]. exists sent. rewrite (Hopen eq_refl), app_nil_r in Hcont. rewrite (assoc_L (++)), Hcont.
    split; [done|]. split; [done|]. right. by exists m, rest.
Qed.

Lemma carries_arrives r seg fly open q :
  seg <> [] -> carries r (seg ++ fly) open q -> carries (more_reader [seg] <$> r) fly open q.
Proof.
  intros Hne [Hq Hc]. split; [done|]. intros ur Hur. destruct r as [ur0|]; [|done]. injection Hur as <-.
  destruct (Hc ur0 eq_refl) as (Hs & part & Hcont & Hrest). cbn [more_reader ur_r].
  split; [apply more_steady; [done|by apply Forall_cons_2, Forall_nil_2]|].
  exists part. rewrite more_content. cbn. rewrite app_nil_r, <- (assoc_L (++)). done.
Qed.

Lemma carries_open r fly q : carries r fly true q -> carries r fly false q.
Proof. intros [Hq Hc]. split; [done|]. intros ur Hur. destruct (Hc ur Hur) as (Hs & part & ? & _ & ?). split; [done|]. by exists part. Qed.

(** *** One end *)

(** An operation on bytes is one on messages: of the queue [inq] that the
    reader carries, and of the queue [out] of the messages sent. *)
Lemma wstep_refines {A} R G E Q (x x' : wend A) sent fly_in open_in inq fly_out r_out out log :
  (forall log m, G log m -> good m) -> wstep x sent x' -> safe names R G E Q log (w_prog x) ->
  carries (w_reader x) fly_in open_in inq -> carries r_out fly_out (w_open x) out ->
  exists inq' out' es,
    pstep names true (w_prog x) inq out (w_prog x') inq' out' es /\ w_log x' = w_log x ++ es /\
    carries (w_reader x') fly_in open_in inq' /\ carries r_out (fly_out ++ sent) (w_open x') out'.
Proof.
  intros HG Hw Hsafe Hin Hout. destruct Hw; cbn [w_prog w_reader w_open w_log] in *; rewrite ?app_nil_r in *.
  - destruct (carries_read _ _ _ _ _ _ ltac:(eassumption) Hin) as (q' & -> & Hq').
    exists q', out, []. rewrite app_nil_r. split; [constructor|done].
  - exists inq, out, []. rewrite app_nil_r. split; [by constructor|]. split; [done|]. split; [by apply carries_none, Hin|done].
  - destruct Hsafe as [Hg _]. exists inq, (out ++ [m]), []. rewrite app_nil_r. split; [constructor|]. split; [done|].
    split; [done|]. apply carries_write; [done|by eapply HG].
  - destruct Hsafe as [Hg _]. exists inq, (if decide (rest = []) then out ++ [m] else out), []. rewrite app_nil_r.
    split; [case_decide; by constructor|]. split; [done|]. split; [done|]. eapply carries_write_err; [done|by eapply HG|done].
  - exists inq, out, []. rewrite app_nil_r. split; [by constructor|done].
  - exists inq, out, es. split; [|done]. match goal with H : pstep _ _ _ _ _ _ _ _ _ |- _ => inversion H; subst end;
      try done; by constructor.
Qed.

(** *** Both ends *)

Definition matches {A B} (w : wire A B) (s : session MA ID M A B) : Prop :=
  client s = w_prog (w_client w) /\ client_log s = w_log (w_client w) /\
  server s = w_prog (w_server w) /\ server_log s = w_log (w_server w) /\
  carries (w_reader (w_server w)) (up w) (w_open (w_client w)) (to_server s) /\
  carries (w_reader (w_client w)) (down w) (w_open (w_server w)) (to_client s).

Section simulation.
Context {A B : Type}.
Context (Gc Gs : list (event ID) -> M -> Prop) (Ec Es : event ID -> Prop).
Context (Qc : list (event ID) -> list (event ID) -> A -> Prop) (Qs : list (event ID) -> list (event ID) -> B -> Prop).
Context (HGc : stable Gc) (HGs : stable Gs).
Context (Hgc : forall log m, Gc log m -> good m) (Hgs : forall log m, Gs log m -> good m).
Abbreviation inv := (session_inv (MA:=MA) names Gc Gs Ec Es Qc Qs).

Lemma wire_step_refines (w w' : wire A B) s :
  wire_step w w' -> matches w s -> inv s ->
  exists s', rtc (session_step names true) s s' /\ matches w' s' /\ inv s'.
Proof.
  intros Hw (Ec1 & El1 & Es1 & El2 & Hup & Hdown) Hinv. destruct Hw as [c c' v sent u d Hw|c v v' sent u d Hw|c v seg u d Hne|c v seg u d Hne];
    cbn [w_client w_server up down] in *; destruct s as [sc sv ts tc cl sl]; cbn [client server to_server to_client client_log server_log] in *; subst.
  - pose proof Hinv as (Hsafe & _). specialize (Hsafe []).
    destruct (wstep_refines _ _ _ _ c c' sent _ _ _ _ _ _ _ Hgc Hw Hsafe Hdown Hup) as (inq & out & es & Hp & Hlog & Hin & Hout).
    exists (mkSession (w_prog c') (w_prog v) out inq (w_log c ++ es) (w_log v)).
    assert (Hstep : session_step names true (mkSession (w_prog c) (w_prog v) ts tc (w_log c) (w_log v))
      (mkSession (w_prog c') (w_prog v) out inq (w_log c ++ es) (w_log v))) by (by constructor).
    split; [by apply rtc_once|]. split; [|by eapply session_inv_step].
    unfold matches. cbn. rewrite Hlog. done.
  - pose proof Hinv as (_ & Hsafe & _). specialize (Hsafe []).
    destruct (wstep_refines _ _ _ _ v v' sent _ _ _ _ _ _ _ Hgs Hw Hsafe Hup Hdown) as (inq & out & es & Hp & Hlog & Hin & Hout).
    exists (mkSession (w_prog c) (w_prog v') inq out (w_log c) (w_log v ++ es)).
    assert (Hstep : session_step names true (mkSession (w_prog c) (w_prog v) ts tc (w_log c) (w_log v))
      (mkSession (w_prog c) (w_prog v') inq out (w_log c) (w_log v ++ es))) by (by constructor).
    split; [by apply rtc_once|]. split; [|by eapply session_inv_step].
    unfold matches. cbn. rewrite Hlog. done.
  - eexists. split; [apply rtc_refl|]. split; [|exact Hinv]. unfold matches. cbn. split_and!; try done. by apply carries_arrives.
  - eexists. split; [apply rtc_refl|]. split; [|exact Hinv]. unfold matches. cbn. split_and!; try done. by apply carries_arrives.
Qed.

Lemma open_end_carries : carries (Some (NewDelimitedReader (mkStream [] EOF) MaxReadSize)) [] true [].
Proof.
  split; [apply Forall_nil_2|]. intros ur [= <-]. split; [apply Forall_nil_2|]. exists []. split; [done|]. split; [done|by left].
Qed.

(** Every run on bytes is one on messages: the same programs, the same logs. *)
Lemma wire_refines (c : tprog M A) (v : tprog M B) w :
  (forall sl, safe names (Gs sl) Gc Ec (Qc sl) [] c) -> (forall cl, safe names (Gc cl) Gs Es (Qs cl) [] v) ->
  rtc wire_step (wire_start c v) w ->
  exists s, rtc (session_step names true) (start c v) s /\ matches w s.
Proof.
  intros Hc Hv Hr.
  assert (Hinv : inv (start c v)) by (unfold session_inv, start; cbn; auto 10).
  assert (Hm : matches (wire_start c v) (start c v)) by (unfold matches; cbn; split_and!; try done; apply open_end_carries).
  revert Hinv Hm. generalize (start c v) as s. induction Hr as [w|w w1 w2 Hs _ IH]; intros s Hinv Hm.
  - exists s. split; [apply rtc_refl|done].
  - destruct (wire_step_refines _ _ _ Hs Hm Hinv) as (s1 & Hr1 & Hm1 & Hinv1).
    destruct (IH s1 Hinv1 Hm1) as (s2 & Hr2 & Hm2). exists s2. split; [by etrans|done].
Qed.

(** What holds of the messages holds of the bytes. *)
Lemma wire_sound (c : tprog M A) (v : tprog M B) w :
  (forall sl, safe names (Gs sl) Gc Ec (Qc sl) [] c) -> (forall cl, safe names (Gc cl) Gs Es (Qs cl) [] v) ->
  rtc wire_step (wire_start c v) w ->
  (forall a, w_prog (w_client w) = Ret a -> Qc (w_log (w_server w)) (w_log (w_client w)) a) /\
  (forall b, w_prog (w_server w) = Ret b -> Qs (w_log (w_client w)) (w_log (w_server w)) b) /\
  Forall Ec (w_log (w_client w)) /\ Forall Es (w_log (w_server w)).
Proof.
  intros Hc Hv Hr. destruct (wire_refines c v w Hc Hv Hr) as (s & Hs & E1 & E2 & E3 & E4 & _).
  rewrite <- E1, <- E2, <- E3, <- E4. by apply (session_sound names true Gc Gs Ec Es Qc Qs HGc HGs c v).
Qed.
End simulation.
End ends.
End wire.

Arguments mkEnd {MA ID M A}.
Arguments w_prog {MA ID M A}.
Arguments w_reader {MA ID M A}.
Arguments w_open {MA ID M A}.
Arguments w_log {MA ID M A}.
Arguments mkWire {MA ID M A B}.
Arguments w_client {MA ID M A B}.
Arguments w_server {MA ID M A B}.
Arguments up {MA ID M A B}.
Arguments down {MA ID M A B}.

(** ** The proxy handshake *)

(** Options of a size that Kubernetes allows. *)
Definition opts_ok (opts : ProxyOptions) : Prop :=
  - 2 ^ 31 <= opt_Port opts < 2 ^ 31 /\
  (String.length (opt_Protocol opts) + String.length (opt_NodeName opts) + String.length (opt_IP opts) <= 3900)%nat.

Lemma append_field_size num v :
  (length (append_field [] num v) <= 20 + match v with Int32 _ => 0 | Str s => String.length s end)%nat.
Proof.
  assert (Hv : forall x, (length (varint_groups 10 x) <= 10)%nat) by (intros x; apply (varint_groups_length 9)).
  destruct v as [v|s]; unfold append_field, appendInt32Ptr, appendStringPtr, AppendString, AppendVarint;
    rewrite app_nil_l, !length_app, ?length_bytes_of_string;
    [pose proof (Hv (EncodeTag num VarintType)); pose proof (Hv (to_u64 v))
    |pose proof (Hv (EncodeTag num BytesType)); pose proof (Hv (zlen (bytes_of_string s)))]; lia.
Qed.

Definition field_bound (m : message) (f : Z * field_kind) : nat :=
  match fields m !! f.1 with
  | None => 0
  | Some (Int32 _) => 20
  | Some (Str s) => 20 + String.length s
  end.

Lemma marshal_size table m :
  (length (marshalAppendPointer table [] m) <= sum_list_with (field_bound m) table + length (unknown m))%nat.
Proof.
  unfold marshalAppendPointer. rewrite length_app. apply Nat.add_le_mono_r.
  induction table as [|f table IH] using rev_ind; [done|]. rewrite fold_left_app, sum_list_with_app. cbn [fold_left sum_list_with].
  unfold field_bound at 2. destruct (fields m !! f.1) as [v|]; [|lia].
  rewrite append_field_nil, length_app. pose proof (append_field_size f.1 v). destruct v; lia.
Qed.

(** The messages of a handshake with these options. *)
Definition handshake_msg (opts : ProxyOptions) (ty : Msg_Type) : Proxy.t :=
  Proxy.mk (Some ty) (Some (opt_Protocol opts)) (Some (opt_NodeName opts)) (Some (opt_IP opts)) (Some (opt_Port opts)) [].

Lemma handshake_msg_size opts ty :
  opts_ok opts -> (length (Marshal (handshake_msg opts ty)) < defaultBufSize)%nat.
Proof.
  intros [_ Hl]. eapply Nat.le_lt_trans; [apply marshal_size|].
  replace (sum_list_with _ _)
    with (20 + ((20 + String.length (opt_Protocol opts)) + ((20 + String.length (opt_NodeName opts)) +
           ((20 + String.length (opt_IP opts)) + (20 + 0)))))%nat by reflexivity.
  cbn [unknown pm_message proxy_proto proxy_message handshake_msg Proxy.XXX_unrecognized length]. unfold defaultBufSize. lia.
Qed.

Lemma handshake_msg_fits opts ty :
  opts_ok opts -> - 2 ^ 31 <= ty < 2 ^ 31 -> fits MaxReadSize (handshake_msg opts ty).
Proof.
  intros Hok Hty. pose proof (handshake_msg_size opts ty Hok) as Hl. unfold defaultBufSize in Hl. destruct Hok as [Hp Hs].
  split; [|unfold zlen, MaxReadSize; lia].
  apply proxy_wf; cbn; try (intros x [= <-]); try done; lia.
Qed.

Lemma failed_good : good Proxy.failed.
Proof. split; [|vm_compute; reflexivity]. apply proxy_wf; try (intros x [= <-]); done. Qed.

Lemma connect_msg_eq opts : connect_msg opts = handshake_msg opts CONNECT.
Proof. done. Qed.

Section proxy.
Context {MA ID : Type} (names : string -> ID -> Prop).
Implicit Types opts : ProxyOptions.

(** What the handler answers to the request with [opts]. *)
Definition an_answer opts (m : Proxy.t) : Prop := m = Proxy.failed \/ m = handshake_msg opts SUCCESS.

Lemma an_answer_good opts m : opts_ok opts -> an_answer opts m -> good m.
Proof.
  intros Hok [-> | ->]; [apply failed_good|]. destruct (handshake_msg_fits opts SUCCESS Hok) as (? & ? & ?); done.
Qed.

Lemma dial_loop_silent (R : Proxy.t -> Prop) G n protocol ip port e log :
  safe names R G (fun _ => True) (fun _ _ => True) log (dial_loop (MA:=MA) n protocol ip port e).
Proof. revert e log. induction n as [|n IH]; intros e log; cbn; [done|]. intros [[]|e']; (split; [done|]); [done|apply IH]. Qed.

Lemma server_answers opts :
  safe names (fun m => m = connect_msg opts) (fun _ => an_answer opts) (fun _ => True) (fun _ _ => True) []
    (proxyStreamHandler (MA:=MA)).
Proof.
  cbn. split; [|done]. intros m ->. cbn.
  apply safe_bind with (Q := fun _ _ => True).
  - unfold tryDialEndpoint. destruct (_ || _); [apply dial_loop_silent|done].
  - intros log [[]|e] _; cbn.
    + split; [by right|]. intros [[]|e]; [|done]. destruct (String.eqb _ TCP); cbn; [done|]. by destruct (String.eqb _ UDP); cbn.
    + split; [by left|done].
Qed.

(** C6. The promise of the proxy handshake holds on the wire.  Whatever pieces
    the bytes of the handshake arrive in and wherever a transfer breaks off, a
    client that gets its connection has its target dialled by the handler at
    the other end, which dials and proxies nothing else: every run on bytes is
    a run on messages. *)
Theorem handshake_on_the_wire opts w :
  opts_ok opts ->
  rtc (wire_step names) (wire_start (MA:=MA) (proxy_handshake opts (connect_msg opts)) proxyStreamHandler) w ->
  (w_prog (w_client w) = Ret (Ok tt) -> target_dialled opts (w_log (w_server w))) /\
  Forall (serves_target opts) (w_log (w_server w)) /\
  exists s, rtc (session_step names true) (start (proxy_handshake opts (connect_msg opts)) proxyStreamHandler) s /\
    matches w s.
Proof.
  intros Hok Hr.
  set (Gc := fun (_ : list (event ID)) m => m = connect_msg opts).
  set (Gs := fun (log : list (event ID)) m => answer_honest opts log m /\ an_answer opts m).
  assert (HGs : stable Gs) by (intros log log' m [Ha Hb]; split; [by apply answer_honest_stable|done]).
  assert (Hgc : forall log m, Gc log m -> good m).
  { intros _ m ->. destruct (handshake_msg_fits opts CONNECT Hok) as (? & ? & ?); done. }
  assert (Hgs : forall log m, Gs log m -> good m) by (intros log m [_ Ha]; by eapply an_answer_good).
  assert (Hc : forall sl, safe names (Gs sl) Gc (fun ev => ev = EReset)
    (fun _ r => r = Ok tt -> target_dialled opts sl) [] (proxy_handshake (MA:=MA) opts (connect_msg opts))).
  { intros sl. eapply safe_mono; [| | | |apply (client_safe names (fun ev => ev = EReset) (fun _ => True) opts sl []); done].
    - intros m [Ha _]. exact Ha.
    - done.
    - done.
    - intros log r Hx He. by destruct (Hx He). }
  assert (Hv : forall cl, safe names (Gc cl) Gs (serves_target opts) (fun _ _ => True) [] (proxyStreamHandler (MA:=MA))).
  { intros cl. eapply safe_mono; [| | | |exact (safe_and _ _ _ _ _ _ _ _ _ _ (server_safe names opts) (server_answers opts))];
      [done|done|by intros ev [? _]|done]. }
  destruct (wire_sound names Gc Gs (fun ev => ev = EReset) (serves_target opts)
    (fun sl _ r => r = Ok tt -> target_dialled opts sl) (fun _ _ _ => True) (fun _ _ _ Hm => Hm) HGs Hgc Hgs _ _ w Hc Hv Hr)
    as (H1 & _ & _ & H2).
  split; [intros Hret; by apply (H1 _ Hret)|]. split; [done|].
  exact (wire_refines names Gc Gs (fun ev => ev = EReset) (serves_target opts)
    (fun sl _ r => r = Ok tt -> target_dialled opts sl) (fun _ _ _ => True) (fun _ _ _ Hm => Hm) HGs Hgc Hgs _ _ w Hc Hv Hr).
Qed.
End proxy.

(** ** The connection after the handshake *)

Definition with_bytes (st : Stream) (s : stream) : Stream :=
  mkP2pStream (st_Protocol st) (LocalMultiaddr st) (RemoteMultiaddr st) s.

(** The end of [GetProxyStream]: the answer is read through a reader of its
    own, and the stream, as that reader left it, is the connection; resetting
    the stream succeeds. *)
Definition read_response (opts : ProxyOptions) (st : Stream) : result StreamConn :=
  let '(streamReader, r) := Msgio.ReadMsg (NewDelimitedReader (st_bytes st) MaxReadSize) in
  match r with
  | Err e => Err ("read conn result msg from " +:+ opt_NodeName opts +:+ " err: " +:+ e)
  | Ok msg =>
      if bool_decide (Proxy.GetType msg = FAILED)
      then Err ("libp2p dial " +:+ ProxyOptions_string opts +:+ " err: Proxy.type is " +:+ Msg_Type_String (Proxy.GetType msg))
      else Ok (NewStreamConn (with_bytes st (rd (ur_r streamReader))))
  end.

(** What will be read from a connection. *)
Definition conn_bytes (c : StreamConn) : list Z := concat (segments (st_bytes (sc_Stream c))).

(** C23. What arrives together with the answer is lost.  Let the stream hold
    the handler's answer and behind it the first bytes of the target, and the
    answer end within a segment that goes on with [y]: the connection the
    client gets, with the addresses of the stream, yields exactly the bytes
    after that segment.  So the connection is complete if and only if nothing
    arrived with the answer. *)
Theorem connection_misses_read_ahead opts st segs1 x y segs2 e :
  opts_ok opts -> x <> [] -> small (mkStream (segs1 ++ (x ++ y) :: segs2) e) ->
  concat segs1 ++ x = frame (handshake_msg opts SUCCESS) ->
  exists conn,
    read_response opts (with_bytes st (mkStream (segs1 ++ (x ++ y) :: segs2) e)) = Ok conn /\
    LocalAddr conn = mkStreamAddr (st_Protocol st) (LocalMultiaddr st) /\
    RemoteAddr conn = mkStreamAddr (st_Protocol st) (RemoteMultiaddr st) /\
    conn_bytes conn = concat segs2 /\
    (conn_bytes conn = y ++ concat segs2 <-> y = []).
Proof.
  intros Hok Hx Hs Hf. unfold read_response. cbn [st_bytes with_bytes].
  rewrite (ReadMsg_reads_ahead MaxReadSize (handshake_msg opts SUCCESS) segs1 x y segs2 e);
    [|by apply handshake_msg_fits|by apply handshake_msg_size|done|done|done].
  eexists. split; [reflexivity|]. split; [done|]. split; [done|]. split; [done|].
  unfold conn_bytes. cbn. split; [|by intros ->]. intros He. apply (f_equal length) in He. rewrite length_app in He.
  destruct y; [done|]. cbn in He. lia.
Qed.

(** *** Concrete runs *)

Definition wire_opts : ProxyOptions := mkProxyOptions "tcp" "edge1" "10.1.0.7" 3306.
Definition wire_stream : Stream := mkP2pStream ProxyProtocol "/ip4/10.0.0.1/tcp/20006" "/ip4/10.0.0.2/tcp/20006" (mkStream [] EOF).

(** A server that speaks first: its greeting arrives with the answer. *)
Definition greeting : list Z := bytes_of_string "5.7.42-log".

Lemma wire_opts_ok : opts_ok wire_opts.
Proof. split; cbn; lia. Qed.

Lemma connection_misses_read_ahead_witness :
  exists conn,
    read_response wire_opts (with_bytes wire_stream
      (mkStream [frame (handshake_msg wire_opts SUCCESS) ++ greeting; [1; 2]] EOF)) = Ok conn /\
    conn_bytes conn = [1; 2].
Proof.
  destruct (connection_misses_read_ahead wire_opts wire_stream [] (frame (handshake_msg wire_opts SUCCESS)) greeting [[1; 2]] EOF)
    as (conn & Hr & _ & _ & Hb & _).
  - exact wire_opts_ok.
  - discriminate.
  - repeat apply Forall_cons_2; [split; apply Nat.leb_le; vm_compute; reflexivity..|apply Forall_nil_2].
  - reflexivity.
  - exists conn. split; [exact Hr|exact Hb].
Defined.

(** All bytes under way arrive at once. *)
Lemma all_up {A B} (c : wend A) (v : wend B) u d :
  u <> [] -> wire_step demo_names (MA:=string) (M:=Proxy.t) (mkWire c v u d) (mkWire c (arrives u v) [] d).
Proof. intros Hu. rewrite <- (app_nil_r u) at 1. by constructor. Qed.

Lemma all_down {A B} (c : wend A) (v : wend B) u d :
  d <> [] -> wire_step demo_names (MA:=string) (M:=Proxy.t) (mkWire c v u d) (mkWire (arrives d c) v u []).
Proof. intros Hd. rewrite <- (app_nil_r d) at 1. by constructor. Qed.

(** A handshake in which the first dial fails. *)
Lemma wire_run : exists w,
  rtc (wire_step demo_names) (wire_start (MA:=string) (proxy_handshake wire_opts (connect_msg wire_opts)) proxyStreamHandler) w /\
  w_prog (w_client w) = Ret (Ok tt).
Proof.
  eexists. split.
  - unfold wire_start, open_end. eapply rtc_l; [apply wire_client, w_write|].
    eapply rtc_l; [apply all_up; discriminate|]. unfold arrives. cbn [w_prog w_reader w_open w_log fmap option_fmap option_map].
    eapply rtc_l; [apply wire_server; eapply (w_read _ _ _ (connect_msg wire_opts)); vm_compute; reflexivity|].
    eapply rtc_l; [apply wire_server, w_other; [reflexivity|apply (ps_dial _ _ _ _ _ (Err "refused"))]|].
    eapply rtc_l; [apply wire_server, w_other; [reflexivity|apply (ps_dial _ _ _ _ _ (Ok tt))]|].
    eapply rtc_l; [apply wire_server, w_write|].
    eapply rtc_l; [apply all_down; discriminate|]. unfold arrives. cbn [w_prog w_reader w_open w_log fmap option_fmap option_map].
    eapply rtc_l; [apply wire_client; eapply (w_read _ _ _ (handshake_msg wire_opts SUCCESS)); vm_compute; reflexivity|].
    apply rtc_refl.
  - reflexivity.
Qed.

Lemma handshake_on_the_wire_witness :
  exists w : wire (MA:=string) (ID:=string) (M:=Proxy.t) (result unit) unit,
    w_prog (w_client w) = Ret (Ok tt) /\ target_dialled wire_opts (w_log (w_server w)).
Proof.
  destruct wire_run as (w & Hr & Hret). exists w. split; [exact Hret|].
  exact (proj1 (handshake_on_the_wire demo_names wire_opts w wire_opts_ok Hr) Hret).
Defined.
