(* ===== verification/TunnelModule.v ===== *)
(** * The tunnel module

    [src/pkg/tunnel/{module,limit}.go] and the background loops of
    [tunnel.go]: how the libp2p host is configured, the stream limits, what
    [Run] starts, and the relay finder with the channel it feeds.  libp2p, the
    private key, the file watcher and the network cards are parameters; an
    option given to libp2p is a value of [p2p_option]. *)

From Stdlib Require Import ZArith Lia Ascii String.
From stdpp Require Import base list gmap strings option.
From S2P Require Import Prelude GoStrings GoNet Config ProtoWire Messages TunnelUtil Tunnel TunnelProto.

Local Open Scope Z_scope.

(** ** Stream limits ([limit.go]) *)

(** Addition of [int]s wraps around at 64 bits. *)
Definition MaxInt : Z := 9223372036854775807.
Definition i64 (x : Z) : Z := (x + 2 ^ 63) mod 2 ^ 64 - 2 ^ 63.

(** The fields of [rcmgr.BaseLimit]. *)
Record BaseLimit : Type := mkBaseLimit {
  Streams : Z;
  StreamsInbound : Z;
  StreamsOutbound : Z;
  Conns : Z;
  ConnsInbound : Z;
  ConnsOutbound : Z;
  FD : Z;
  Memory : Z
}.

Section limits.
(** [rcmgr.BaseLimitIncrease], and the limits that are left as they are. *)
Context {Increase OtherLimits : Type} (no_increase : Increase).

(** The fields of [rcmgr.ScalingLimitConfig] that are set or read. *)
Record ScalingLimitConfig : Type := mkScaling {
  ProtocolBaseLimit : BaseLimit;
  ProtocolLimitIncrease : Increase;
  ProtocolLimits : gmap string (BaseLimit * Increase);
  ProtocolPeerBaseLimit : BaseLimit;
  ProtocolPeerLimitIncrease : Increase;
  other_limits : OtherLimits
}.

Context (DefaultLimits : ScalingLimitConfig).

Definition AddProtocolLimit (l : ScalingLimitConfig) (proto : string) (base : BaseLimit) (inc : Increase)
    : ScalingLimitConfig :=
  mkScaling (ProtocolBaseLimit l) (ProtocolLimitIncrease l) (<[proto := (base, inc)]> (ProtocolLimits l))
    (ProtocolPeerBaseLimit l) (ProtocolPeerLimitIncrease l) (other_limits l).

(** Setting the three stream limits of a protocol and peer. *)
Definition set_peer_streams (l : ScalingLimitConfig) (streams inbound outbound : Z) (inc : Increase)
    : ScalingLimitConfig :=
  let p := ProtocolPeerBaseLimit l in
  mkScaling (ProtocolBaseLimit l) (ProtocolLimitIncrease l) (ProtocolLimits l)
    (mkBaseLimit streams inbound outbound (Conns p) (ConnsInbound p) (ConnsOutbound p) (FD p) (Memory p)) inc
    (other_limits l).

Definition proto_limit (streams inbound outbound : Z) : BaseLimit :=
  mkBaseLimit streams inbound outbound 0 0 0 (FD (ProtocolBaseLimit DefaultLimits)) (Memory (ProtocolBaseLimit DefaultLimits)).

Definition useLimit (config : TunnelLimitConfig.t) : ScalingLimitConfig :=
  let scalingLimits := DefaultLimits in
  let protoLimit := proto_limit
    (i64 (TunnelLimitConfig.TunnelBaseStreamIn config + TunnelLimitConfig.TunnelBaseStreamOut config))
    (TunnelLimitConfig.TunnelBaseStreamIn config) (TunnelLimitConfig.TunnelBaseStreamOut config) in
  let scalingLimits :=
    AddProtocolLimit scalingLimits ProxyProtocol protoLimit (ProtocolLimitIncrease DefaultLimits) in
  set_peer_streams scalingLimits
    (i64 (TunnelLimitConfig.TunnelPeerBaseStreamIn config + TunnelLimitConfig.TunnelPeerBaseStreamOut config))
    (TunnelLimitConfig.TunnelPeerBaseStreamIn config) (TunnelLimitConfig.TunnelPeerBaseStreamOut config)
    (ProtocolPeerLimitIncrease scalingLimits).

Definition useNoLimit : ScalingLimitConfig :=
  let scalingLimits := DefaultLimits in
  let scalingLimits :=
    AddProtocolLimit scalingLimits ProxyProtocol (proto_limit MaxInt MaxInt MaxInt) no_increase in
  set_peer_streams scalingLimits MaxInt MaxInt MaxInt no_increase.

Section build.
(** [libp2p.SetDefaultServiceLimits] and [AutoScale]; [rcmgr.NewResourceManager]. *)
Context {Limits Manager : Type} (scale : ScalingLimitConfig -> Limits) (NewResourceManager : Limits -> result Manager).

Definition buildLimitOpt (scalingLimits : ScalingLimitConfig) : result Manager :=
  NewResourceManager (scale scalingLimits).

Definition CreateLimitOpt (config : option TunnelLimitConfig.t) : go (result Manager) :=
  let! config := deref config in
  Val (buildLimitOpt (if negb (TunnelLimitConfig.Enable config) then useNoLimit else useLimit config)).
End build.

Lemma i64_small x : - 2 ^ 63 <= x < 2 ^ 63 -> i64 x = x.
Proof. intros Hx. unfold i64. rewrite Z.mod_small; lia. Qed.

Lemma i64_overflow x : 2 ^ 63 <= x < 2 ^ 64 -> i64 x = x - 2 ^ 64.
Proof.
  intros Hx. unfold i64. replace (x + 2 ^ 63) with ((x - 2 ^ 63) + 1 * 2 ^ 64) by lia.
  rewrite Z.mod_add by lia. rewrite Z.mod_small by lia. lia.
Qed.

(** The limits of the proxy protocol and of each of its peers. *)
Definition proxy_limit (l : ScalingLimitConfig) : option BaseLimit := fst <$> ProtocolLimits l !! ProxyProtocol.

(** The stream limits of the tunnel.  With limits disabled they are all
    the largest [int].  Otherwise inbound and outbound limits are those of the
    configuration, and the total is their sum as long as that fits 64 bits:
    then it never refuses a stream both others allow.  If it does not fit, the
    total is negative, although both limits are not. *)
Theorem stream_limits_bounds (config : TunnelLimitConfig.t) :
  let i := TunnelLimitConfig.TunnelBaseStreamIn config in
  let o := TunnelLimitConfig.TunnelBaseStreamOut config in
  0 <= i <= MaxInt -> 0 <= o <= MaxInt ->
  (exists l, proxy_limit (useLimit config) = Some l /\ StreamsInbound l = i /\ StreamsOutbound l = o /\
     if decide (i + o <= MaxInt) then Streams l = i + o /\ i <= Streams l /\ o <= Streams l else Streams l < 0) /\
  (exists l, proxy_limit useNoLimit = Some l /\ Streams l = MaxInt /\ StreamsInbound l = MaxInt /\ StreamsOutbound l = MaxInt).
Proof.
  intros i o Hi Ho. unfold proxy_limit, useLimit, useNoLimit, AddProtocolLimit, set_peer_streams. cbn [ProtocolLimits].
  rewrite !lookup_insert_eq. unfold MaxInt in *. split; [|by eexists].
  eexists. split; [done|]. cbn [fst StreamsInbound StreamsOutbound Streams proto_limit]. split; [done|]. split; [done|].
  fold i o. case_decide; [rewrite i64_small by lia; lia|]. rewrite i64_overflow by lia. lia.
Qed.
End limits.
Arguments ScalingLimitConfig : clear implicits.

(** ** The module ([module.go]) *)

Section module.
Context {MA ID : Type} `{Multiaddr MA} `{Identity ID} `{RangeOrder}.

(** The options the host is made with, in terms of what they carry. *)
Inductive p2p_option : Type :=
| AddrsFactory (added : list MA)
| ForceReachabilityPrivate
| PrivateNetwork
| IdentityOption (nodeName : string)
| ListenAddrStrings (addrs : list string)
| DefaultSecurity
| TransportOption (protocol : string)
| ConnectionManager (low high : Z)
| NATPortMap
| Routing (bootstrap : list (AddrInfo MA ID))
| AutoRelay (maxCandidates : Z)
| EnableNATService
| EnableHolePunching
| ResourceManager.

(** What the libraries answer. *)
Record p2p_env : Type := mkEnv {
  GenerateKeyPairWithString : string -> result unit;
  NewConnManager : result unit;
  ListenIPs : result (list string);         (** [GetIPsFromInterfaces] *)
  GeneratePSKReader : string -> result unit;
  DecodeV1PSK : result unit;
  LimitOpt : result unit;                   (** [CreateLimitOpt], for the configured limits *)
  libp2p_New : list p2p_option -> result unit;
  relayv2_New : result unit;
  NewIDService : result unit;
  holepunch_NewService : result unit;
  dht_Bootstrap : result unit;
  initMDNS : string -> result unit;
  initDHT : string -> result unit;
  NewWatcher : result unit;
  watcher_Add : string -> result unit
}.

(** [newDHT]: the relays the DHT starts from. *)
Definition newDHT (relayPeers : RelayMap MA ID) : list (AddrInfo MA ID) := (range relayPeers).*2.

(** A module that is enabled has a host, the channel of relay candidates with
    its capacity, handlers for the streams of some protocols, and a channel to
    stop it. *)
Record host_setup : Type := mkHost {
  host_options : list p2p_option;
  peerSource : Z;
  handlers : list string
}.

Record tunnel_module : Type := mkModule {
  tunnel : EdgeTunnel (MA:=MA) (ID:=ID);
  setup : option host_setup
}.

Definition is_server (c : EdgeTunnelConfig.t) : bool := String.eqb (EdgeTunnelConfig.Mode c) ServerClientMode.

(** The options up to the private network: those that depend on the relays. *)
Definition relay_options (c : EdgeTunnelConfig.t) (relayMap : RelayMap MA ID) : list p2p_option :=
  let myInfo := relayMap !! EdgeTunnelConfig.NodeName c in
  match myInfo with
  | Some info => if is_server c then [AddrsFactory (Addrs info)] else []
  | None => if negb (ContainsPublicIP relayMap) then [ForceReachabilityPrivate] else []
  end.

(** More candidates than configured if there are more relays. *)
Definition raise_candidates (c : EdgeTunnelConfig.t) (relayNums : Z) : EdgeTunnelConfig.t :=
  if EdgeTunnelConfig.MaxCandidates c <? relayNums then EdgeTunnelConfig.set_MaxCandidates c relayNums else c.

Definition psk_options (env : p2p_env) (psk : PSK.t) : result (list p2p_option) :=
  if PSK.Enable psk then
    match GeneratePSKReader env (PSK.Path psk) with
    | Err e => Err ("failed to generate psk reader: " +:+ e)
    | Ok _ =>
        match DecodeV1PSK env with
        | Err e => Err ("failed to decode v1 psk: " +:+ e)
        | Ok _ => Ok [PrivateNetwork]
        end
    end
  else Ok [].

Definition fixed_options (c : EdgeTunnelConfig.t) (listenAddr : list string) (relayMap : RelayMap MA ID) : list p2p_option :=
  [IdentityOption (EdgeTunnelConfig.NodeName c); ListenAddrStrings listenAddr; DefaultSecurity;
   TransportOption (EdgeTunnelConfig.Transport c); ConnectionManager 100 400; NATPortMap; Routing (newDHT relayMap);
   AutoRelay (EdgeTunnelConfig.MaxCandidates c); EnableNATService; EnableHolePunching].

(** The services that are started once the host is there. *)
Definition start_services (env : p2p_env) (c : EdgeTunnelConfig.t) : result unit :=
  match NewIDService env with
  | Err e => Err ("new id service error: " +:+ e)
  | Ok _ =>
  match holepunch_NewService env with
  | Err e => Err ("run libp2p holepunch service error: " +:+ e)
  | Ok _ =>
  match dht_Bootstrap env with
  | Err e => Err ("failed to bootstrap dht: " +:+ e)
  | Ok _ =>
  match initMDNS env (EdgeTunnelConfig.Rendezvous c) with
  | Err e => Err ("init mdns discovery error: " +:+ e)
  | Ok _ =>
  match initDHT env (EdgeTunnelConfig.Rendezvous c) with
  | Err e => Err ("init dht discovery error: " +:+ e)
  | Ok _ =>
  match NewWatcher env with
  | Err e => Err ("init config watcher errror: " +:+ e)
  | Ok _ =>
  match watcher_Add env (EdgeTunnelConfig.ConfigPath c) with
  | Err e => Err ("failed to add watch in " +:+ EdgeTunnelConfig.ConfigPath c +:+ ", err: " +:+ e)
  | Ok _ => Ok tt
  end end end end end end end.

Definition stream_handlers (c : EdgeTunnelConfig.t) : list string :=
  if is_server c then [DiscoveryProtocol; ProxyProtocol; CNIProtocol] else [].

(** [BootstrapConnect] comes before the discovery services; its error is only
    logged. *)
Definition newEdgeTunnel (env : p2p_env) (c : EdgeTunnelConfig.t) : go (result tunnel_module) :=
  if negb (EdgeTunnelConfig.Enable c) then Val (Ok (mkModule (mkEdgeTunnel c false ∅ false) None)) else
  let capacity := EdgeTunnelConfig.MaxCandidates c in
  if capacity <? 0 then Panic "makechan: size out of range" else
  match GenerateKeyPairWithString env (EdgeTunnelConfig.NodeName c) with
  | Err e => Val (Err ("failed to generate private key: " +:+ e))
  | Ok _ =>
  match NewConnManager env with
  | Err e => Val (Err ("failed to new conn manager: " +:+ e))
  | Ok _ =>
  match generateListenAddr c (ListenIPs env) with
  | Err e => Val (Err ("failed to generate listenAddr: " +:+ e))
  | Ok listenAddr =>
      let relayMap := GenerateRelayMap (EdgeTunnelConfig.RelayNodes c) (EdgeTunnelConfig.Transport c)
                        (EdgeTunnelConfig.ListenPort c) in
      let opts := relay_options c relayMap in
      let c := raise_candidates c (Z.of_nat (size relayMap)) in
      let! psk := deref (EdgeTunnelConfig.PSK c) in
      match psk_options env psk with
      | Err e => Val (Err e)
      | Ok pskOpts =>
          let opts := opts ++ pskOpts ++ fixed_options c listenAddr relayMap in
          let! _ := deref (EdgeTunnelConfig.MetricConfig c) in
          let! _ := deref (EdgeTunnelConfig.TunnelLimitConfig c) in
          let opts := opts ++ match LimitOpt env with Ok _ => [ResourceManager] | Err _ => [] end in
          match libp2p_New env opts with
          | Err e => Val (Err ("failed to new p2p host: " +:+ e))
          | Ok _ =>
          match new_relay_state c (EdgeTunnelConfig.RelayNodes c) (relayv2_New env) with
          | Err e => Val (Err e)
          | Ok t =>
          match start_services env c with
          | Err e => Val (Err e)
          | Ok _ => Val (Ok (mkModule t (Some (mkHost opts capacity (stream_handlers c)))))
          end end end
      end
  end end end.

(** [Shutdown] closes the channel that stops the loops; a module that is
    disabled has none. *)
Definition tunnel_Shutdown (m : tunnel_module) : go unit :=
  match setup m with Some _ => Val tt | None => Panic "close of nil channel" end.

(** What [Run] starts. *)
Inductive tunnel_task : Type := MetricsServer | MdnsTask | DhtTask | ConfigWatcher | Heartbeat.

Definition tunnel_Run : list tunnel_task := [MetricsServer; MdnsTask; DhtTask; ConfigWatcher; Heartbeat].

(** The discovery loops run the handshake for each peer that is found, one
    after the other; the heartbeat connects to the relays in every round. *)
Definition runMdnsDiscovery (self : ID) (nodeName : string) (mdnsPeerChan : list (AddrInfo MA ID)) : list (prog MA ID Discovery.t unit) :=
  discovery self nodeName MdnsDiscovery <$> mdnsPeerChan.

Definition runDhtDiscovery (self : ID) (nodeName : string) (dhtPeerChan : list (AddrInfo MA ID)) : list (prog MA ID Discovery.t unit) :=
  discovery self nodeName DhtDiscovery <$> dhtPeerChan.

Definition runHeartbeat {M} (self : ID) (relayMaps : list (RelayMap MA ID)) : list (list (prog MA ID M unit)) :=
  connectToRelays self <$> relayMaps.

(** [runMetricsServer]: the address served, if metrics are enabled. *)
Definition runMetricsServer (c : EdgeTunnelConfig.t) (NewExporter : result unit) : go (option string) :=
  let! m := deref (EdgeTunnelConfig.MetricConfig c) in
  if negb (MetricConfig.Enable m) then Val None
  else match NewExporter with
       | Err _ => Val None
       | Ok _ => Val (Some (":" +:+ Itoa (MetricConfig.Port m)))
       end.
End module.
Arguments p2p_option : clear implicits.
Arguments p2p_env : clear implicits.

Section host_facts.
Context {MA ID : Type} `{Multiaddr MA} `{Identity ID} `{RangeOrder}.

Lemma raise_candidates_max c n :
  EdgeTunnelConfig.MaxCandidates (raise_candidates c n) = Z.max (EdgeTunnelConfig.MaxCandidates c) n.
Proof. unfold raise_candidates. destruct (Z.ltb_spec (EdgeTunnelConfig.MaxCandidates c) n); cbn; lia. Qed.

(** Only the number of candidates changes. *)
Lemma raise_candidates_same c n :
  exists k, raise_candidates c n = EdgeTunnelConfig.set_MaxCandidates c k.
Proof. unfold raise_candidates. destruct (_ <? _); [by eexists|]. exists (EdgeTunnelConfig.MaxCandidates c). by destruct c. Qed.

Lemma new_relay_state_Ok c nodes New (t : EdgeTunnel (MA:=MA) (ID:=ID)) :
  new_relay_state c nodes New = Ok t ->
  let relays := GenerateRelayMap nodes (EdgeTunnelConfig.Transport c) (EdgeTunnelConfig.ListenPort c) in
  let listed := bool_decide (is_Some (relays !! EdgeTunnelConfig.NodeName c)) in
  relayMap t = relays /\ isRelay t = listed /\ relayService t = listed && is_server c.
Proof.
  unfold new_relay_state, is_server. destruct (bool_decide _), (String.eqb (EdgeTunnelConfig.Mode c) ServerClientMode); cbn;
    try destruct New; by intros [= <-].
Qed.

(** The listen address for one of the host's addresses. *)
Definition listen_addr (c : EdgeTunnelConfig.t) (ip : string) : string :=
  GenerateMultiAddrString (EdgeTunnelConfig.Transport c) ip
    (if is_server c then EdgeTunnelConfig.ListenPort c else EdgeTunnelConfig.ListenPort c + 1).

Lemma relay_options_elem c (relays : RelayMap MA ID) o :
  o ∈ relay_options c relays <->
  match relays !! EdgeTunnelConfig.NodeName c with
  | Some info => is_server c = true /\ o = AddrsFactory (Addrs info)
  | None => ContainsPublicIP relays = false /\ o = ForceReachabilityPrivate
  end.
Proof.
  unfold relay_options. destruct (relays !! _); [destruct (is_server c)|destruct (ContainsPublicIP relays)]; cbn;
    rewrite ?list_elem_of_singleton, ?elem_of_nil; naive_solver.
Qed.

Lemma psk_options_elem (env : p2p_env MA ID) psk opts o :
  psk_options env psk = Ok opts -> o ∈ opts <-> PSK.Enable psk = true /\ o = PrivateNetwork.
Proof.
  unfold psk_options. destruct (PSK.Enable psk); [|intros [= <-]; rewrite elem_of_nil; naive_solver].
  destruct (GeneratePSKReader env (PSK.Path psk)), (DecodeV1PSK env); intros [= <-]. rewrite list_elem_of_singleton. naive_solver.
Qed.

(** What is known of the options of the host. *)
Record host_spec (c : EdgeTunnelConfig.t) (psk : PSK.t) (ips : list string) (relays : RelayMap MA ID) (h : host_setup (MA:=MA) (ID:=ID)) : Prop := {
  spec_private : ForceReachabilityPrivate ∈ host_options h <->
    relays !! EdgeTunnelConfig.NodeName c = None /\ ContainsPublicIP relays = false;
  spec_advertised : forall added, AddrsFactory added ∈ host_options h <->
    is_server c = true /\ exists info, relays !! EdgeTunnelConfig.NodeName c = Some info /\ added = Addrs info;
  spec_psk : PrivateNetwork ∈ host_options h <-> PSK.Enable psk = true;
  spec_listen : forall addrs, ListenAddrStrings addrs ∈ host_options h <-> addrs = map (listen_addr c) ips;
  spec_candidates : forall k, AutoRelay k ∈ host_options h <->
    k = Z.max (EdgeTunnelConfig.MaxCandidates c) (Z.of_nat (size relays))
}.

Lemma host_options_spec env c psk pskOpts ips relays limit :
  psk_options env psk = Ok pskOpts ->
  let c' := raise_candidates c (Z.of_nat (size relays)) in
  (limit = [] \/ limit = [ResourceManager]) ->
  forall capacity hs,
  host_spec c psk ips relays
    (mkHost ((relay_options c relays ++ pskOpts ++ fixed_options c' (map (listen_addr c) ips) relays) ++ limit) capacity hs).
Proof.
  intros Hp c' Hl capacity hs. pose proof (raise_candidates_max c (Z.of_nat (size relays))) as Hmax. fold c' in Hmax.
  assert (Hlim : forall o, o ∈ limit -> o = ResourceManager).
  { intros o Ho. destruct Hl; subst; [by apply elem_of_nil in Ho|]. by apply list_elem_of_singleton in Ho. }
  assert (Hel : forall o, o ∈ (relay_options c relays ++ pskOpts ++ fixed_options c' (map (listen_addr c) ips) relays) ++ limit <->
    o ∈ relay_options c relays \/ (PSK.Enable psk = true /\ o = PrivateNetwork) \/
    o ∈ fixed_options c' (map (listen_addr c) ips) relays \/ o ∈ limit).
  { intros o. rewrite !elem_of_app, (psk_options_elem env psk pskOpts o Hp). tauto. }
  assert (Hfix : forall o, o ∈ fixed_options c' (map (listen_addr c) ips) relays \/ o ∈ limit ->
    match o with
    | ListenAddrStrings addrs => addrs = map (listen_addr c) ips
    | AutoRelay k => k = EdgeTunnelConfig.MaxCandidates c'
    | AddrsFactory _ | ForceReachabilityPrivate | PrivateNetwork => False
    | _ => True
    end).
  { intros o [Ho|Ho]; [|by apply Hlim in Ho as ->]. unfold fixed_options in Ho. rewrite !elem_of_cons, elem_of_nil in Ho.
    repeat destruct Ho as [-> |Ho]; done. }
  assert (Hin : forall o, o ∈ [ListenAddrStrings (map (listen_addr c) ips); AutoRelay (EdgeTunnelConfig.MaxCandidates c')] ->
    o ∈ fixed_options c' (map (listen_addr c) ips) relays).
  { intros o. unfold fixed_options. rewrite !elem_of_cons, !elem_of_nil. tauto. }
  constructor; cbn [host_options]; intros; rewrite Hel, relay_options_elem; (split; [|intros Hx]).
  - intros [Ho|[[_ Ho]|Ho]]; [|done|by apply Hfix in Ho]. by destruct (relays !! _); destruct Ho.
  - left. destruct Hx as [-> ?]. done.
  - intros [Ho|[[_ Ho]|Ho]]; [|done|by apply Hfix in Ho]. destruct (relays !! _) as [info|]; destruct Ho; [|done]. simplify_eq. eauto.
  - left. destruct Hx as (? & info & -> & ->). done.
  - intros [Ho|[[Ho _]|Ho]]; [by destruct (relays !! _); destruct Ho|done|by apply Hfix in Ho].
  - right. left. done.
  - intros [Ho|[[_ Ho]|Ho]]; [by destruct (relays !! _); destruct Ho|done|by apply Hfix in Ho].
  - right. right. left. apply Hin. subst. apply list_elem_of_here.
  - intros [Ho|[[_ Ho]|Ho]]; [by destruct (relays !! _); destruct Ho|done|]. apply Hfix in Ho. by rewrite Ho.
  - right. right. left. apply Hin. subst. rewrite Hmax. apply list_elem_of_further, list_elem_of_here.
Qed.

Lemma generateListenAddr_map c ips addrs :
  generateListenAddr c ips = Ok addrs -> exists l, ips = Ok l /\ addrs = map (listen_addr c) l.
Proof.
  unfold generateListenAddr. destruct ips as [l|]; [|done]. intros [= <-]. exists l. split; [done|].
  unfold listen_addr, is_server. by destruct (String.eqb _ _).
Qed.

(** C18. The host an enabled tunnel is made with, whenever it can be made: it
    is declared private exactly if the node is no relay and no relay has a
    public address; a relay in server mode advertises the addresses of the
    configuration; the private network is used exactly if the pre-shared key is
    enabled; it listens on its addresses, on the next port in client mode; the
    candidates are at least as many as the relays; the relay service and the
    stream handlers run in server mode only, the former on relays.  The channel
    of candidates keeps the configured capacity. *)
Theorem newEdgeTunnel_host env c m :
  EdgeTunnelConfig.Enable c = true -> newEdgeTunnel env c = Val (Ok m) ->
  let relays := GenerateRelayMap (EdgeTunnelConfig.RelayNodes c) (EdgeTunnelConfig.Transport c) (EdgeTunnelConfig.ListenPort c) in
  let listed := bool_decide (is_Some (relays !! EdgeTunnelConfig.NodeName c)) in
  exists h psk ips, setup m = Some h /\ EdgeTunnelConfig.PSK c = Some psk /\ ListenIPs env = Ok ips /\
    host_spec c psk ips relays h /\
    relayMap (tunnel m) = relays /\ isRelay (tunnel m) = listed /\ relayService (tunnel m) = listed && is_server c /\
    handlers h = (if is_server c then [DiscoveryProtocol; ProxyProtocol; CNIProtocol] else []) /\
    peerSource h = EdgeTunnelConfig.MaxCandidates c.
Proof.
  intros He Hn relays listed. unfold newEdgeTunnel in Hn. rewrite He in Hn. cbn [negb] in Hn.
  destruct (_ <? 0); [done|]. destruct (GenerateKeyPairWithString env _); [|done]. destruct (NewConnManager env); [|done].
  destruct (generateListenAddr c (ListenIPs env)) as [addrs|] eqn:Ea; [|done].
  destruct (generateListenAddr_map c _ addrs Ea) as (ips & Hips & ->). fold relays in Hn.
  destruct (raise_candidates_same c (Z.of_nat (size relays))) as [k Hk].
  assert (Hpsk : EdgeTunnelConfig.PSK (raise_candidates c (Z.of_nat (size relays))) = EdgeTunnelConfig.PSK c) by (by rewrite Hk).
  rewrite Hpsk in Hn. destruct (EdgeTunnelConfig.PSK c) as [psk|] eqn:Ep; [|done]. cbn [deref mbind go_bind] in Hn.
  destruct (psk_options env psk) as [pskOpts|] eqn:Eo; [|done].
  apply go_bind_Val_inv in Hn as (? & _ & Hn). apply go_bind_Val_inv in Hn as (? & _ & Hn).
  destruct (libp2p_New env _); [|done].
  destruct (new_relay_state _ _ _) as [t|] eqn:Et; [|done]. destruct (start_services env _); [|done].
  injection Hn as <-. rewrite Hk in Et. apply new_relay_state_Ok in Et as (Hm & Hr & Hs).
  eexists _, psk, ips. split; [reflexivity|]. do 2 (split; [done|]). split.
  { apply (host_options_spec env); [done|]. destruct (LimitOpt env); auto. }
  repeat split; [exact Hm|exact Hr|exact Hs|]. cbn [handlers]. by rewrite Hk.
Qed.
End host_facts.

(** ** The relay finder ([runRelayFinder] of [tunnel.go]) *)

(** Where the finder is: between two rounds, sending the relays of the map,
    sending the peers the DHT found, stopped, or dead. *)
Inductive finder_pc (MA ID : Type) : Type :=
| Waiting
| SendRelays (rest : list (AddrInfo MA ID))
| SendPeers (rest : list ID)
| FinderEnded
| FinderPanicked.
Arguments Waiting {MA ID}.
Arguments SendRelays {MA ID}.
Arguments SendPeers {MA ID}.
Arguments FinderEnded {MA ID}.
Arguments FinderPanicked {MA ID}.

(** The channel [peerSource] with what was taken from it, the relay map, the
    relay maps of the rounds that were begun, the number of rounds that were
    completed, and whether [stopCh] is closed. *)
Record finder (MA ID : Type) : Type := mkFinder {
  pc : finder_pc MA ID;
  chan : list (AddrInfo MA ID);
  taken : list (AddrInfo MA ID);
  finder_map : RelayMap MA ID;
  begun : list (RelayMap MA ID);
  rounds : nat;
  stopped : bool
}.
Arguments mkFinder {MA ID}.
Arguments pc {MA ID}.
Arguments chan {MA ID}.
Arguments taken {MA ID}.
Arguments finder_map {MA ID}.
Arguments begun {MA ID}.
Arguments rounds {MA ID}.
Arguments stopped {MA ID}.

Section finder.
Context {MA ID : Type} `{Multiaddr MA} `{Identity ID} `{RangeOrder}.
Implicit Types f : finder MA ID.

(** Sending on a channel: there is room in the buffer, or the channel is empty
    and a receiver waits.  The flag tells whether a receiver takes part.  The
    other case of the [select], [hostCtx.Done()], is that of
    [context.Background()], which is never done. *)
Inductive send_peer (capacity : Z) (x : AddrInfo MA ID) : bool -> list (AddrInfo MA ID) * list (AddrInfo MA ID) ->
    list (AddrInfo MA ID) * list (AddrInfo MA ID) -> Prop :=
| send_buffered c t : Z.of_nat (length c) < capacity -> send_peer capacity x false (c, t) (c ++ [x], t)
| send_received t : send_peer capacity x true ([], t) ([], t ++ [x]).

(** The relays of a round: all but the node itself. *)
Definition finder_relays (self : ID) (m : RelayMap MA ID) : list (AddrInfo MA ID) :=
  filter (fun relay => ai_ID relay <> self) (range m).*2.

(** [closest] is the answer of the DHT, [addrs] the peerstore, [known] the map
    of node names.  [wait.PollUntil] looks at [stopCh] between two rounds.  At
    any time the watcher may replace the relay map ([finder_reload]); a loop
    over the old map goes on with it. *)
Inductive finder_step (capacity : Z) (self : ID) : bool -> finder MA ID -> finder MA ID -> Prop :=
| finder_tick c t m ms k s :
    finder_step capacity self false (mkFinder Waiting c t m ms k s)
      (mkFinder (SendRelays (finder_relays self m)) c t m (ms ++ [m]) k s)
| finder_relay b r rest c t c' t' m ms k s : send_peer capacity r b (c, t) (c', t') ->
    finder_step capacity self b (mkFinder (SendRelays (r :: rest)) c t m ms k s) (mkFinder (SendRelays rest) c' t' m ms k s)
| finder_closest (closest : result (list ID)) c t m ms k s :
    finder_step capacity self false (mkFinder (SendRelays []) c t m ms k s)
      match closest with
      | Err _ => mkFinder Waiting c t m ms (S k) s
      | Ok peers => mkFinder (SendPeers peers) c t m ms k s
      end
| finder_no_addrs p rest c t m ms k s :
    finder_step capacity self false (mkFinder (SendPeers (p :: rest)) c t m ms k s) (mkFinder (SendPeers rest) c t m ms k s)
| finder_found b (known : gmap string ID) (addrs : ID -> list MA) p rest c t c' t' m ms k s :
    addrs p <> [] -> send_peer capacity (mkAddrInfo p (addrs p)) b (c, t) (c', t') ->
    finder_step capacity self b (mkFinder (SendPeers (p :: rest)) c t m ms k s)
      match finder_peer known addrs m p with
      | Val m' => mkFinder (SendPeers rest) c' t' m' ms k s
      | Panic _ => mkFinder FinderPanicked c' t' m ms k s
      end
| finder_round_ends c t m ms k s :
    finder_step capacity self false (mkFinder (SendPeers []) c t m ms k s) (mkFinder Waiting c t m ms (S k) s)
| finder_stops c t m ms k :
    finder_step capacity self false (mkFinder Waiting c t m ms k true) (mkFinder FinderEnded c t m ms k true)
| finder_shutdown p c t m ms k s :
    finder_step capacity self false (mkFinder p c t m ms k s) (mkFinder p c t m ms k true)
| finder_reload p c t m m' ms k s :
    finder_step capacity self false (mkFinder p c t m ms k s) (mkFinder p c t m' ms k s)
| finder_receive p x c t m ms k s :
    finder_step capacity self true (mkFinder p (x :: c) t m ms k s) (mkFinder p c (t ++ [x]) m ms k s).

Definition finder_steps (capacity : Z) (self : ID) : finder MA ID -> finder MA ID -> Prop :=
  rtc (fun f f' => exists b, finder_step capacity self b f f').

Definition start_finder (m : RelayMap MA ID) : finder MA ID := mkFinder Waiting [] [] m [] 0 false.

(** The number of relays that are other nodes. *)
Definition others (self : ID) (m : RelayMap MA ID) : nat := length (finder_relays self m).

(** The relays of the rounds that were completed. *)
Definition relays_of (self : ID) (ms : list (RelayMap MA ID)) : nat := sum_list_with (others self) ms.

Lemma relays_of_snoc self ms m : relays_of self (ms ++ [m]) = (relays_of self ms + others self m)%nat.
Proof. unfold relays_of. rewrite sum_list_with_app. cbn. lia. Qed.

(** The rounds that were begun are those completed and the one under way; what
    was sent are the relays of all these, up to those still to come. *)
Definition relays_due (self : ID) f : Prop :=
  let sent := (length (chan f) + length (taken f))%nat in
  (match pc f with
   | SendRelays rest => exists ms m, begun f = ms ++ [m] /\ length ms = rounds f /\
       relays_of self ms <= sent /\ relays_of self (begun f) <= sent + length rest
   | SendPeers _ | FinderPanicked => length (begun f) = S (rounds f) /\ relays_of self (begun f) <= sent
   | Waiting | FinderEnded => length (begun f) = rounds f /\ relays_of self (begun f) <= sent
   end)%nat.

Lemma send_peer_length capacity x b c t c' t' :
  send_peer capacity x b (c, t) (c', t') ->
  (length c' + length t' = S (length c + length t))%nat /\
  (Z.of_nat (length c) <= Z.max 0 capacity -> Z.of_nat (length c') <= Z.max 0 capacity).
Proof. intros Hs. inversion Hs; subst; rewrite ?length_app; cbn [length]; lia. Qed.

Definition finder_inv (capacity : Z) (self : ID) f : Prop :=
  Z.of_nat (length (chan f)) <= Z.max 0 capacity /\ relays_due self f.

Lemma finder_step_inv capacity self b f f' :
  finder_step capacity self b f f' -> finder_inv capacity self f -> finder_inv capacity self f'.
Proof.
  intros Hs [Hc Hd]. unfold finder_inv, relays_due in *.
  destruct Hs as [c t m ms k s|b r rest c t c' t' m ms k s Hsend|[peers|e] c t m ms k s| |
                  b known addrs p rest c t c' t' m ms k s _ Hsend| | | | |p x c t m ms k s];
    cbn [chan pc taken finder_map begun rounds] in *;
    try match goal with H : send_peer _ _ _ _ _ |- _ => apply send_peer_length in H as [Hl Hb] end; try done.
  - split; [done|]. exists ms, m. split; [done|]. split; [lia|]. split; [lia|].
    rewrite relays_of_snoc. unfold others. lia.
  - split; [by apply Hb|]. destruct Hd as (ms0 & m0 & Hm & Hk & Hs & Hr). exists ms0, m0. split; [done|].
    split; [done|]. cbn [length] in Hr. lia.
  - split; [done|]. destruct Hd as (ms0 & m0 & Hm & Hk & Hs & Hr). cbn [length] in Hr. split; [|lia].
    rewrite Hm, length_app. cbn. lia.
  - split; [done|]. destruct Hd as (ms0 & m0 & Hm & Hk & Hs & Hr). cbn [length] in Hr. split; [|lia].
    rewrite Hm, length_app. cbn. lia.
  - destruct (finder_peer known addrs m p) as [m'|]; cbn [chan pc taken finder_map begun rounds]; lia.
  - cbn [length] in Hc. split; [lia|]. rewrite length_app. cbn [length] in *.
    destruct p as [|rest|rest| |]; [lia| |lia..]. destruct Hd as (ms0 & m0 & Hm & Hk & Hs & Hr). exists ms0, m0.
    split; [done|]. split; [done|]. lia.
Qed.

Lemma finder_steps_inv capacity self m f :
  finder_steps capacity self (start_finder m) f -> finder_inv capacity self f.
Proof.
  intros Hs. assert (H0i : finder_inv capacity self (start_finder m)) by (unfold finder_inv, relays_due; cbn; lia).
  revert H0i Hs. generalize (start_finder m). intros f0 H0i Hs.
  induction Hs as [|f1 f2 f3 [b Hb] _ IH]; [done|]. eapply IH, finder_step_inv; done.
Qed.

Lemma relays_of_take self n ms : (relays_of self (take n ms) <= relays_of self ms)%nat.
Proof.
  unfold relays_of. rewrite <- (take_drop n ms) at 2. rewrite sum_list_with_app. lia.
Qed.

Lemma relays_of_each self ms : Forall (fun m => (1 <= others self m)%nat) ms -> (length ms <= relays_of self ms)%nat.
Proof. induction 1 as [|m ms Hm _ IH]; [done|]. unfold relays_of in *. cbn. lia. Qed.

(** C32. The finder is never ahead of the component that takes the relays from
    the channel by more than its capacity, whatever the watcher does to the
    relay map: the relays of the rounds it completed, other than the node
    itself and counted in the map that each round began with, are at most what
    was taken plus the capacity.  So if there was another relay in every round
    it began, the rounds completed are at most that many, and if nothing is
    taken (a node that needs no relay takes none) at most the capacity. *)
Theorem relay_finder_bounded capacity self m f :
  finder_steps capacity self (start_finder m) f ->
  Z.of_nat (relays_of self (take (rounds f) (begun f))) <= Z.of_nat (length (taken f)) + Z.max 0 capacity /\
  (Forall (fun m => (1 <= others self m)%nat) (begun f) ->
   Z.of_nat (rounds f) <= Z.of_nat (length (taken f)) + Z.max 0 capacity).
Proof.
  intros Hs. destruct (finder_steps_inv _ _ _ _ Hs) as [Hc Hd]. unfold relays_due in Hd.
  assert (Hsum : (relays_of self (take (rounds f) (begun f)) <= length (chan f) + length (taken f))%nat /\
                 (rounds f <= length (begun f))%nat).
  { pose proof (relays_of_take self (rounds f) (begun f)).
    destruct (pc f) as [|rest|rest| |]; [lia| |lia..]. destruct Hd as (ms0 & m0 & -> & <- & Hd & _).
    rewrite take_app_length, length_app. lia. }
  destruct Hsum as [Hsum Hlen]. split; [lia|]. intros Hone.
  apply (Forall_take _ (rounds f)), relays_of_each in Hone. rewrite length_take in Hone. lia.
Qed.

(** A finder that waits for room in the channel does not end, not even once
    the module was shut down. *)
Lemma blocked_finder_stays capacity self r rest f f' :
  pc f = SendRelays (r :: rest) -> capacity <= Z.of_nat (length (chan f)) ->
  rtc (finder_step capacity self false) f f' ->
  pc f' = SendRelays (r :: rest) /\ chan f' = chan f.
Proof.
  intros Hp Hc Hs. induction Hs as [|f1 f2 f3 Hstep _ IH]; [done|].
  assert (Hk : pc f2 = pc f1 /\ chan f2 = chan f1).
  { inversion Hstep as [| ? ? ? ? ? ? ? ? ? ? ? Hsend| | | | | | | |]; subst; cbn in *; try done; simplify_eq.
    inversion Hsend; subst. lia. }
  destruct Hk as [Hp2 Hc2]. rewrite <-Hc2. apply IH; congruence.
Qed.
End finder.

(** ** Witnesses *)

Definition demo_base : BaseLimit := mkBaseLimit 2048 1024 1024 0 0 0 0 65536.
Definition demo_limits : ScalingLimitConfig unit unit := mkScaling demo_base tt ∅ demo_base tt tt.

Lemma stream_limits_bounds_witness :
  (exists l, proxy_limit (useLimit demo_limits (TunnelLimitConfig.mk true 10240 10240 10240 10240)) = Some l /\
     Streams l = 20480 /\ 10240 <= Streams l) /\
  exists l, proxy_limit (useLimit demo_limits (TunnelLimitConfig.mk true MaxInt 1 1 1)) = Some l /\ Streams l < 0.
Proof.
  split.
  - destruct (stream_limits_bounds tt demo_limits (TunnelLimitConfig.mk true 10240 10240 10240 10240)) as [(l & Hl & _ & _ & Hs) _];
      [cbn; unfold MaxInt; lia..|]. exists l. cbn in Hs. destruct Hs as (Hs & Hi & _). repeat split; [exact Hl|exact Hs|lia].
  - destruct (stream_limits_bounds tt demo_limits (TunnelLimitConfig.mk true MaxInt 1 1 1)) as [(l & Hl & _ & _ & Hs) _];
      [cbn; unfold MaxInt; lia..|]. exists l. split; [exact Hl|exact Hs].
Defined.

(** Everything succeeds. *)
Definition demo_env : p2p_env string string := {|
  GenerateKeyPairWithString _ := Ok tt;
  NewConnManager := Ok tt;
  ListenIPs := Ok ["10.0.0.1"%string];
  GeneratePSKReader _ := Ok tt;
  DecodeV1PSK := Ok tt;
  LimitOpt := Ok tt;
  libp2p_New _ := Ok tt;
  relayv2_New := Ok tt;
  NewIDService := Ok tt;
  holepunch_NewService := Ok tt;
  dht_Bootstrap := Ok tt;
  initMDNS _ := Ok tt;
  initDHT _ := Ok tt;
  NewWatcher := Ok tt;
  watcher_Add _ := Ok tt
|}.

(** The defaults on the only relay, but with no candidates. *)
Definition demo_tunnel_config : EdgeTunnelConfig.t := {|
  EdgeTunnelConfig.Enable := true;
  EdgeTunnelConfig.Mode := ServerClientMode;
  EdgeTunnelConfig.NodeName := "cloud";
  EdgeTunnelConfig.ListenPort := 20006;
  EdgeTunnelConfig.Transport := "tcp";
  EdgeTunnelConfig.Rendezvous := Rendezvous;
  EdgeTunnelConfig.RelayNodes := [mkRelayNode "cloud" ["1.2.3.4"%string]];
  EdgeTunnelConfig.EnableIpfsLog := false;
  EdgeTunnelConfig.MaxCandidates := 0;
  EdgeTunnelConfig.HeartbeatPeriod := 120;
  EdgeTunnelConfig.FinderPeriod := 60;
  EdgeTunnelConfig.PSK := Some (PSK.mk true PSKPath);
  EdgeTunnelConfig.TunnelLimitConfig := Some (TunnelLimitConfig.mk true 10240 10240 10240 10240);
  EdgeTunnelConfig.ConfigPath := "/etc/agent.yaml";
  EdgeTunnelConfig.ListenInterfaces := "*";
  EdgeTunnelConfig.ExtraFilteredInterfaces := "";
  EdgeTunnelConfig.MetricConfig := Some (MetricConfig.mk false 9999)
|}.

Definition demo_module : tunnel_module (MA:=string) (ID:=string) :=
  match newEdgeTunnel demo_env demo_tunnel_config with
  | Val (Ok m) => m
  | _ => mkModule (mkEdgeTunnel demo_tunnel_config false ∅ false) None
  end.

Lemma newEdgeTunnel_host_witness :
  relayService (tunnel demo_module) = true /\
  exists h, setup demo_module = Some h /\ AutoRelay 1 ∈ host_options h /\ peerSource h = 0.
Proof.
  destruct (newEdgeTunnel_host demo_env demo_tunnel_config demo_module eq_refl) as (h & psk & ips & Hh & _ & _ & Hs & _ & _ & Hr & _ & Hp);
    [vm_compute; reflexivity|].
  split; [rewrite Hr; vm_compute; reflexivity|]. exists h. split; [exact Hh|]. split; [|exact Hp].
  apply (spec_candidates _ _ _ _ _ Hs). vm_compute. reflexivity.
Defined.

Definition demo_relay : AddrInfo string string := mkAddrInfo "id-cloud"%string ["/ip4/1.2.3.4/tcp/20006"%string].
Definition demo_relays : RelayMap string string := {["cloud"%string := demo_relay]}.

(** A round with the relay of the first map, during which the watcher empties the
    map, and a round with none. *)
Definition demo_finder : finder string string :=
  mkFinder Waiting [demo_relay] [] ∅ [demo_relays; ∅] 2 false.

Lemma demo_finder_run : finder_steps 1 "id-edge1"%string (start_finder demo_relays) demo_finder.
Proof.
  pose proof (finder_tick 1 "id-edge1"%string [] [] demo_relays [] 0 false) as Ht.
  replace (finder_relays _ _) with [demo_relay] in Ht by (vm_compute; reflexivity).
  eapply rtc_l; [eexists; exact Ht|].
  eapply rtc_l; [eexists; apply (finder_reload _ _ _ _ _ _ ∅)|].
  eapply rtc_l; [eexists; apply (finder_relay _ _ false), send_buffered; cbn; lia|].
  eapply rtc_l; [eexists; apply (finder_closest _ _ (Err "failed to find any peer in table"))|].
  eapply rtc_l; [eexists; apply finder_tick|].
  replace (finder_relays _ ∅) with (@nil (AddrInfo string string)) by (vm_compute; reflexivity).
  eapply rtc_l; [eexists; apply (finder_closest _ _ (Err "failed to find any peer in table"))|]. apply rtc_refl.
Qed.

Lemma relay_finder_bounded_witness :
  rounds demo_finder = 2%nat /\ relays_of "id-edge1"%string (take (rounds demo_finder) (begun demo_finder)) = 1%nat /\
  Z.of_nat (relays_of "id-edge1"%string (take (rounds demo_finder) (begun demo_finder))) <= 0 + 1.
Proof.
  split; [reflexivity|]. split; [vm_compute; reflexivity|].
  exact (proj1 (relay_finder_bounded 1 "id-edge1"%string demo_relays demo_finder demo_finder_run)).
Defined.
