(* ===== verification/TunnelKeys.v ===== *)
(** * Keys of the tunnel

    The functions of [src/pkg/tunnel/util.go] that derive keys: the private
    key of a node from its name, and the key of the private network from a
    file, with the codec of libp2p that reads the latter
    ([core/pnet/codec.go]).  The random numbers of [math/rand], from which the
    key pair is made, and the identity of a key are parameters. *)

From Stdlib Require Import ZArith Lia Ascii String.
From stdpp Require Import base list gmap strings option.
From S2P Require Import Prelude GoStrings GoNet Config Digests ProtoWire Messages TunnelUtil Tunnel TunnelProto TunnelModule.

Local Open Scope Z_scope.

(** ** The identity of a node *)

(** [int64] of eight bytes, the highest first. *)
Definition be_int64 (bs : list Z) : Z := i64 (be_value bs).

Section identity.
Context {Key MA ID : Type} `{Multiaddr MA}.
(** [crypto.GenerateKeyPairWithReader] of Ed25519 with the random numbers of a
    seed, and [peer.IDFromPrivateKey]. *)
Context (KeyPairOfSeed : Z -> result Key).
Context (IDFromPrivateKey : Key -> result ID).

Definition GenerateKeyPairWithString (s : string) : result Key :=
  if String.eqb s "" then Err "empty string" else
  let sum := md5 (bytes_of_string s) in
  let seed := be_int64 (take 8 sum) in
  KeyPairOfSeed seed.

Definition GeneratePeerInfo (hostname : string) (addrs : list string) : result (AddrInfo MA ID) :=
  match GenerateKeyPairWithString hostname with
  | Err e => Err e
  | Ok priv =>
      match IDFromPrivateKey priv with
      | Err e => Err e
      | Ok pid =>
          match StringsToMaddrs addrs with
          | Err e => Err e
          | Ok mas => Ok (mkAddrInfo pid mas)
          end
      end
  end.

(** The identity of a name, as the rest of the tunnel uses it. *)
Definition identity_of_name (s : string) : result ID :=
  match GenerateKeyPairWithString s with
  | Err e => Err e
  | Ok priv => IDFromPrivateKey priv
  end.

Lemma GenerateKeyPairWithString_seed s t :
  s <> "" -> t <> "" -> take 8 (md5 (bytes_of_string s)) = take 8 (md5 (bytes_of_string t)) ->
  GenerateKeyPairWithString s = GenerateKeyPairWithString t.
Proof.
  intros Hs Ht Heq. unfold GenerateKeyPairWithString. apply String.eqb_neq in Hs, Ht. by rewrite Hs, Ht, Heq.
Qed.
End identity.

(** ** Transports *)

(** The constructors of the transports given to libp2p; for another name the
    option is nil. *)
Inductive transport : Type := NewTCPTransport | WsNew | QuicNewTransport.

Definition GenerateTransportOption (protocol : string) : option transport :=
  if String.eqb protocol TCP then Some NewTCPTransport
  else if String.eqb protocol Websocket then Some WsNew
  else if String.eqb protocol Quic then Some QuicNewTransport
  else None.

(** ** The private network *)

Definition newline : Z := 10.
Definition pathPSKv1 : list Z := bytes_of_string "/key/swarm/psk/1.0.0/".
Definition pathBin : list Z := bytes_of_string "/bin/".
Definition pathBase16 : list Z := bytes_of_string "/base16/".
Definition pathBase64 : list Z := bytes_of_string "/base64/".

Definition GeneratePSKReader (ReadFile : string -> result (list Z)) (path : string) : result (list Z) :=
  let buf := bytes_of_string "/key/swarm/psk/1.0.0/" ++ [newline] ++ bytes_of_string "/base64/" ++ [newline] in
  match ReadFile path with
  | Err e => Err e
  | Ok data =>
      let key := EncodeToString (sha256 data) in
      Ok (buf ++ bytes_of_string key)
  end.

(** [bufio.Reader.ReadBytes('\n')]: the line with its end, and the rest. *)
Fixpoint read_bytes_nl (b : list Z) : option (list Z * list Z) :=
  match b with
  | [] => None
  | x :: b' =>
      if x =? newline then Some ([x], b')
      else match read_bytes_nl b' with Some (l, r) => Some (x :: l, r) | None => None end
  end.

(** [bytes.TrimRight(header, "\r\n")] *)
Definition is_line_end (x : Z) : bool := (x =? 10) || (x =? 13).
Fixpoint trim_right_nl (b : list Z) : list Z :=
  match b with
  | [] => []
  | x :: b' =>
      match trim_right_nl b' with
      | [] => if is_line_end x then [] else [x]
      | t => x :: t
      end
  end.

Definition readHeader (b : list Z) : result (list Z * list Z) :=
  match read_bytes_nl b with
  | None => Err "EOF"
  | Some (header, rest) => Ok (trim_right_nl header, rest)
  end.

(** [base64.StdEncoding]: the value of a character. *)
Definition b64_value (c : Z) : option Z :=
  if (65 <=? c) && (c <=? 90) then Some (c - 65)
  else if (97 <=? c) && (c <=? 122) then Some (c - 71)
  else if (48 <=? c) && (c <=? 57) then Some (c + 4)
  else if c =? 43 then Some 62
  else if c =? 47 then Some 63
  else None.

(** Four characters are twenty-four bits. *)
Definition quad (a b c d : Z) : list Z :=
  let val := Z.lor (Z.lor (Z.lor (Z.shiftl a 18) (Z.shiftl b 12)) (Z.shiftl c 6)) d in
  [u8 (Z.shiftr val 16); u8 (Z.shiftr val 8); u8 val].

(** The bytes that the decoder delivers before it fails or ends, from text
    without line ends.  Padding closes the text: [xx==] holds one byte and
    [xxx=] two, and nothing after them is decoded. *)
Definition padding : Z := 61.

Fixpoint b64_decode (cs : list Z) : list Z :=
  match cs with
  | a :: b :: c :: d :: cs' =>
      match b64_value a, b64_value b, b64_value c, b64_value d with
      | Some a, Some b, Some c, Some d => quad a b c d ++ b64_decode cs'
      | Some a, Some b, Some c, None => if d =? padding then take 2 (quad a b c 0) else []
      | Some a, Some b, None, None => if (c =? padding) && (d =? padding) then take 1 (quad a b 0 0) else []
      | _, _, _, _ => []
      end
  | _ => []
  end.

Definition hex_value (c : Z) : option Z :=
  if (48 <=? c) && (c <=? 57) then Some (c - 48)
  else if (97 <=? c) && (c <=? 102) then Some (c - 87)
  else if (65 <=? c) && (c <=? 70) then Some (c - 55)
  else None.

Fixpoint hex_decode (cs : list Z) : list Z :=
  match cs with
  | a :: b :: cs' =>
      match hex_value a, hex_value b with
      | Some a, Some b => (16 * a + b) :: hex_decode cs'
      | _, _ => []
      end
  | _ => []
  end.

(** [expectHeader] and [DecodeV1PSK]; [io.ReadFull] fails unless the decoder
    delivers all 32 bytes, whose error is here of one text. *)
Definition DecodeV1PSK (b : list Z) : result (list Z) :=
  match readHeader b with
  | Err e => Err e
  | Ok (header, b) =>
      if negb (bool_decide (header = pathPSKv1))
      then Err ("expected file header " +:+ string_of_bytes pathPSKv1 +:+ ", got: " +:+ string_of_bytes header) else
      match readHeader b with
      | Err e => Err e
      | Ok (header, b) =>
          let decoded :=
            if bool_decide (header = pathBase16) then Ok (hex_decode b)
            else if bool_decide (header = pathBase64) then Ok (b64_decode (base.filter (fun c => is_line_end c = false) b))
            else if bool_decide (header = pathBin) then Ok b
            else Err ("unknown encoding: " +:+ string_of_bytes header) in
          match decoded with
          | Err e => Err e
          | Ok out => if Nat.ltb (length out) 32 then Err "unexpected EOF" else Ok (take 32 out)
          end
      end
  end.

(** The key of the private network of a node with the file. *)
Definition network_key (ReadFile : string -> result (list Z)) (path : string) : result (list Z) :=
  match GeneratePSKReader ReadFile path with
  | Err e => Err e
  | Ok b => DecodeV1PSK b
  end.

(** ** What the key of the network is made of *)

(** A hexadecimal digit read as a digit of base 64. *)
Definition hex_code (x : Z) : Z := if x <? 10 then 48 + x else 87 + x.
Definition misread (x : Z) : Z := if x <? 10 then 52 + x else 16 + x.
Definition is_nibble (x : Z) : Prop := 0 <= x < 16.

Lemma b64_value_hex x : is_nibble x -> b64_value (hex_code x) = Some (misread x).
Proof.
  unfold is_nibble, hex_code, misread. intros Hx. destruct (Z.ltb_spec x 10); unfold b64_value.
  - replace (65 <=? 48 + x) with false by lia. replace (97 <=? 48 + x) with false by lia. cbn [andb].
    replace (48 <=? 48 + x) with true by lia. replace (48 + x <=? 57) with true by lia. cbn [andb]. f_equal; lia.
  - replace (87 + x <=? 90) with false by lia. rewrite andb_false_r.
    replace (97 <=? 87 + x) with true by lia. replace (87 + x <=? 122) with true by lia. cbn [andb]. f_equal; lia.
Qed.

Lemma misread_inj x y : is_nibble x -> is_nibble y -> misread x = misread y -> x = y.
Proof. unfold is_nibble, misread. intros. destruct (Z.ltb_spec x 10), (Z.ltb_spec y 10); lia. Qed.

Lemma misread_range x : is_nibble x -> 0 <= misread x < 64.
Proof. unfold is_nibble, misread. intros. destruct (Z.ltb_spec x 10); lia. Qed.

Definition is_sextet (x : Z) : Prop := 0 <= x < 64.

Lemma quad_value a b c d :
  is_sextet a -> is_sextet b -> is_sextet c -> is_sextet d ->
  Z.lor (Z.lor (Z.lor (Z.shiftl a 18) (Z.shiftl b 12)) (Z.shiftl c 6)) d = a * 2 ^ 18 + b * 2 ^ 12 + c * 2 ^ 6 + d.
Proof.
  unfold is_sextet. intros Ha Hb Hc Hd. rewrite <-!Z.lor_assoc, !Z.shiftl_mul_pow2 by lia.
  rewrite (lor_disjoint c d 6), (lor_disjoint b _ 12), (lor_disjoint a _ 18) by lia. lia.
Qed.

Lemma three_bytes v :
  0 <= v < 2 ^ 24 -> v = 65536 * u8 (Z.shiftr v 16) + 256 * u8 (Z.shiftr v 8) + u8 v.
Proof.
  intros Hv. unfold u8. rewrite !Z.shiftr_div_pow2 by lia. change (2 ^ 16) with (256 * 256). change (2 ^ 8) with 256.
  rewrite <-Z.div_div by lia. rewrite (Z.mod_small (v / 256 / 256)).
  - pose proof (Z.div_mod v 256). pose proof (Z.div_mod (v / 256) 256). lia.
  - split; [repeat apply Z.div_pos; lia|]. repeat (apply Z.div_lt_upper_bound; [lia|]). lia.
Qed.

Lemma quad_inj a b c d a' b' c' d' :
  is_sextet a -> is_sextet b -> is_sextet c -> is_sextet d ->
  is_sextet a' -> is_sextet b' -> is_sextet c' -> is_sextet d' ->
  quad a b c d = quad a' b' c' d' -> a = a' /\ b = b' /\ c = c' /\ d = d'.
Proof.
  intros. revert select (quad _ _ _ _ = _). unfold quad. rewrite !quad_value by done. intros Heq.
  injection Heq as Hb1 Hb2 Hb3. unfold is_sextet in *.
  pose proof (three_bytes (a * 2 ^ 18 + b * 2 ^ 12 + c * 2 ^ 6 + d) ltac:(lia)) as Hv.
  rewrite Hb1, Hb2, Hb3, <-three_bytes in Hv by lia. lia.
Qed.

(** The text of digits. *)
Definition hex_text (ns : list Z) : list Z := map hex_code ns.
Definition digits (bs : list Z) : list Z := concat (map hex_digits bs).

Lemma hex_digits_spec b : is_u8 b -> Forall is_nibble (hex_digits b) /\ hex_digits b = [b / 16; b mod 16].
Proof.
  intros Hb. assert (hex_digits b = [b / 16; b mod 16]) as ->.
  { unfold hex_digits. rewrite Z.shiftr_div_pow2 by lia. change 15 with (Z.ones 4). by rewrite Z.land_ones by lia. }
  unfold is_u8, is_nibble in *. split; [|done].
  repeat constructor; Z.div_mod_to_equations; lia.
Qed.

Lemma digits_nibbles bs : Forall is_u8 bs -> Forall is_nibble (digits bs).
Proof.
  induction 1 as [|b bs Hb _ IH]; [constructor|]. unfold digits. cbn [map concat].
  apply Forall_app_2; [by apply hex_digits_spec|done].
Qed.

Lemma length_digits bs : length (digits bs) = (2 * length bs)%nat.
Proof. induction bs as [|b bs IH]; [done|]. unfold digits in *. cbn in *. lia. Qed.

Lemma digits_app bs cs : digits (bs ++ cs) = digits bs ++ digits cs.
Proof. unfold digits. by rewrite map_app, concat_app. Qed.

Lemma digits_inj bs cs : Forall is_u8 bs -> Forall is_u8 cs -> digits bs = digits cs -> bs = cs.
Proof.
  intros Hbs. revert cs. induction Hbs as [|b bs Hb _ IH]; intros cs Hcs Heq; destruct Hcs as [|c cs Hc Hcs]; try done.
  unfold digits in Heq. cbn [map concat] in Heq.
  rewrite (proj2 (hex_digits_spec b Hb)), (proj2 (hex_digits_spec c Hc)) in Heq.
  injection Heq as Hh Hl Heq. f_equal; [|by apply IH]. rewrite (Z.div_mod b 16), (Z.div_mod c 16) by lia. congruence.
Qed.

Lemma hex_digit_byte x : is_nibble x -> Z.of_N (N_of_ascii (hex_digit x)) = hex_code x.
Proof.
  unfold is_nibble, hex_digit, hex_code. intros Hx.
  rewrite N_ascii_embedding by (destruct (Z.ltb_spec x 10); lia). destruct (Z.ltb_spec x 10); lia.
Qed.

Lemma hex_text_of_digest bs :
  Forall is_u8 bs -> bytes_of_string (EncodeToString bs) = hex_text (digits bs).
Proof.
  intros Hbs. unfold EncodeToString, hex_text. fold (digits bs).
  induction (digits_nibbles bs Hbs) as [|x ns Hx _ IH]; [done|]. cbn. by rewrite hex_digit_byte, IH.
Qed.

(** ** The misread text *)

Lemma b64_decode_quad a b c d ns :
  is_nibble a -> is_nibble b -> is_nibble c -> is_nibble d ->
  b64_decode (hex_text (a :: b :: c :: d :: ns)) =
    quad (misread a) (misread b) (misread c) (misread d) ++ b64_decode (hex_text ns).
Proof. intros. cbn [hex_text map b64_decode]. by rewrite !b64_value_hex. Qed.

(** Four nibbles at a time. *)
Lemma quads_ind (P : list Z -> Prop) :
  P [] ->
  (forall a b c d ns, is_nibble a -> is_nibble b -> is_nibble c -> is_nibble d -> Forall is_nibble ns ->
     P ns -> P (a :: b :: c :: d :: ns)) ->
  forall k ns, Forall is_nibble ns -> length ns = (4 * k)%nat -> P ns.
Proof.
  intros Hnil Hcons k. induction k as [|k IH]; intros ns Hns Hlen; [by destruct ns|].
  do 4 (destruct ns as [|? ns]; [cbn in Hlen; lia|]).
  repeat (apply Forall_cons_1 in Hns as [? Hns]). apply Hcons; try done. apply IH; [done|]. cbn in Hlen. lia.
Qed.

Lemma b64_decode_app k ns ms :
  Forall is_nibble ns -> length ns = (4 * k)%nat ->
  b64_decode (hex_text (ns ++ ms)) = b64_decode (hex_text ns) ++ b64_decode (hex_text ms).
Proof.
  intros Hns Hlen. revert k ns Hns Hlen. apply (quads_ind (fun ns => b64_decode (hex_text (ns ++ ms)) = _)); [done|].
  intros a b c d ns Ha Hb Hc Hd Hns IH. cbn [app]. rewrite !b64_decode_quad, IH by done. by rewrite app_assoc.
Qed.

Lemma b64_decode_bytes k ns :
  Forall is_nibble ns -> length ns = (4 * k)%nat ->
  Forall is_u8 (b64_decode (hex_text ns)) /\ length (b64_decode (hex_text ns)) = (3 * k)%nat.
Proof.
  intros Hns Hlen. assert (3 * length ns = 4 * (3 * k))%nat as Hk by lia.
  cut (Forall is_u8 (b64_decode (hex_text ns)) /\ 4 * length (b64_decode (hex_text ns)) = 3 * length ns)%nat;
    [intros [? ?]; split; [done|lia]|].
  clear Hk. revert k ns Hns Hlen.
  apply (quads_ind (fun ns => Forall is_u8 (b64_decode (hex_text ns)) /\ 4 * length (b64_decode (hex_text ns)) = 3 * length ns)%nat).
  - split; [constructor|done].
  - intros a b c d ns Ha Hb Hc Hd Hns [IHu IHl]. rewrite b64_decode_quad by done. split.
    + apply Forall_app_2; [|done]. repeat constructor; apply u8_range.
    + rewrite length_app. cbn [length quad]. lia.
Qed.

Lemma b64_decode_inj k ns ms :
  Forall is_nibble ns -> Forall is_nibble ms -> length ns = (4 * k)%nat -> length ms = (4 * k)%nat ->
  b64_decode (hex_text ns) = b64_decode (hex_text ms) -> ns = ms.
Proof.
  intros Hns Hms Hln Hlm. revert ms Hms Hlm. assert (Hk : exists k', length ns = (4 * k')%nat) by eauto.
  cut (forall ms, Forall is_nibble ms -> length ms = length ns ->
    b64_decode (hex_text ns) = b64_decode (hex_text ms) -> ns = ms); [intros H ms Hms Hlm; apply H; [done|lia]|].
  clear Hk. revert k ns Hns Hln. apply (quads_ind (fun ns => forall ms, Forall is_nibble ms -> length ms = length ns ->
    b64_decode (hex_text ns) = b64_decode (hex_text ms) -> ns = ms)).
  - by intros [|] _.
  - intros a b c d ns Ha Hb Hc Hd Hns IH ms Hms Hlen Heq.
    do 4 (destruct ms as [|? ms]; [done|]). repeat (apply Forall_cons_1 in Hms as [? Hms]).
    rewrite !b64_decode_quad in Heq by done. apply app_inj_1 in Heq as [Hq Heq]; [|done].
    apply quad_inj in Hq as (Hqa & Hqb & Hqc & Hqd); try (by apply misread_range).
    apply misread_inj in Hqa, Hqb, Hqc, Hqd; try done. subst. f_equal; f_equal; f_equal; f_equal.
    apply IH; [done| |done]. cbn in Hlen. lia.
Qed.

Lemma hex_text_no_line_end ns :
  Forall is_nibble ns -> base.filter (fun c => is_line_end c = false) (hex_text ns) = hex_text ns.
Proof.
  induction 1 as [|x ns Hx _ IH]; [done|]. cbn [hex_text map]. rewrite filter_cons_True; [by f_equal|].
  unfold is_line_end, hex_code, is_nibble in *. destruct (Z.ltb_spec x 10); lia.
Qed.

Lemma DecodeV1PSK_base64 text :
  DecodeV1PSK (pathPSKv1 ++ [newline] ++ pathBase64 ++ [newline] ++ text) =
    let out := b64_decode (base.filter (fun c => is_line_end c = false) text) in
    if Nat.ltb (length out) 32 then Err "unexpected EOF" else Ok (take 32 out).
Proof. reflexivity. Qed.

Lemma network_key_digest ReadFile path data :
  ReadFile path = Ok data ->
  network_key ReadFile path = Ok (take 32 (b64_decode (hex_text (digits (sha256 data))))).
Proof.
  intros Hr. unfold network_key, GeneratePSKReader. rewrite Hr. cbn [mbind].
  fold pathPSKv1 pathBase64. rewrite <-!app_assoc, DecodeV1PSK_base64.
  destruct (sha256_bytes data) as [Hu Hl]. rewrite hex_text_of_digest by done.
  pose proof (digits_nibbles _ Hu) as Hn. rewrite hex_text_no_line_end by done. cbv zeta.
  assert (Hd : length (digits (sha256 data)) = (4 * 16)%nat) by (rewrite length_digits, Hl; done).
  destruct (b64_decode_bytes 16 _ Hn Hd) as [_ Hlen].
  by rewrite (proj2 (Nat.ltb_ge _ _)) by (rewrite Hlen; lia).
Qed.

(** The key of a digest split after [j] pairs of bytes. *)
Lemma key_split j ds :
  Forall is_u8 ds -> length ds = 32%nat -> (j <= 16)%nat ->
  b64_decode (hex_text (digits ds)) =
    b64_decode (hex_text (digits (take (2 * j) ds))) ++ b64_decode (hex_text (digits (drop (2 * j) ds))).
Proof.
  intros Hu Hl Hj. rewrite <-(take_drop (2 * j) ds) at 1. rewrite digits_app.
  apply (b64_decode_app j); [apply digits_nibbles; by apply Forall_take|].
  rewrite length_digits, length_take. lia.
Qed.

Lemma length_key_prefix j ds :
  Forall is_u8 ds -> length ds = 32%nat -> (j <= 16)%nat ->
  length (b64_decode (hex_text (digits (take (2 * j) ds)))) = (3 * j)%nat.
Proof.
  intros Hu Hl Hj. apply b64_decode_bytes; [apply digits_nibbles; by apply Forall_take|].
  rewrite length_digits, length_take. lia.
Qed.

(** C24. The key of the private network.  A node whose file can be read has a
    key, of 32 bytes, for the digest is written as text that the codec takes
    for base 64 and that is always long enough; two nodes whose digests agree
    on their first 22 bytes have the same key, whatever their other ten bytes,
    and nodes with the same key have digests that agree on the first 20. *)
Theorem network_key_spec ReadFile path data :
  ReadFile path = Ok data ->
  (exists key, network_key ReadFile path = Ok key /\ length key = 32%nat /\ Forall is_u8 key)
  /\ forall ReadFile' path' data', ReadFile' path' = Ok data' ->
       (take 22 (sha256 data) = take 22 (sha256 data') -> network_key ReadFile path = network_key ReadFile' path')
       /\ (network_key ReadFile path = network_key ReadFile' path' ->
           take 20 (sha256 data) = take 20 (sha256 data')).
Proof.
  intros Hr. destruct (sha256_bytes data) as [Hu Hl]. rewrite (network_key_digest _ _ _ Hr). split.
  - destruct (b64_decode_bytes 16 (digits (sha256 data))) as [Hk Hlen];
      [by apply digits_nibbles|by rewrite length_digits, Hl|].
    eexists. split; [done|]. split; [rewrite length_take, Hlen; lia|by apply Forall_take].
  - intros ReadFile' path' data' Hr'. destruct (sha256_bytes data') as [Hu' Hl'].
    rewrite (network_key_digest _ _ _ Hr'). split; intros Heq.
    + rewrite (key_split 11 (sha256 data)), (key_split 11 (sha256 data')) by (done || lia).
      rewrite !take_app_le by (rewrite length_key_prefix by (done || lia); lia).
      change (2 * 11)%nat with 22%nat. by rewrite Heq.
    + injection Heq as Heq. apply (f_equal (take 30)) in Heq. rewrite !take_take in Heq.
      change (Nat.min 30 32) with 30%nat in Heq.
      rewrite (key_split 10 (sha256 data)), (key_split 10 (sha256 data')) in Heq by (done || lia).
      rewrite !take_app_length' in Heq by (rewrite length_key_prefix; (done || lia)).
      apply (b64_decode_inj 10) in Heq; try (apply digits_nibbles; by apply Forall_take);
        try (rewrite length_digits, length_take; lia).
      apply digits_inj in Heq; [done|by apply Forall_take..].
Qed.

Example network_key_spec_witness :
  exists key, network_key (fun _ => Ok [97; 98; 99]) "/etc/psk" = Ok key /\ length key = 32%nat /\ Forall is_u8 key.
Proof. exact (proj1 (network_key_spec (fun _ => Ok [97; 98; 99]) "/etc/psk" [97; 98; 99] eq_refl)). Defined.

Example network_key_abc :
  network_key (fun _ => Ok (bytes_of_string "abc")) "/etc/psk" =
    Ok [109;174;252;215;166;223;241;253;53;113;247;154;227;94;53;227;71;94;229;214;158;219;109;183;111;77;55;235;86;183;247;173].
Proof. vm_compute. reflexivity. Qed.
