(* ===== verification/TunnelWatch.v ===== *)
(** * Background services of the tunnel

    The parts of [src/pkg/tunnel/tunnel.go] that wait for something: the
    watcher that reloads the configuration ([runConfigWatcher]), beside the
    relay finder, which adds what it finds to the same relay map, and the peers
    that mDNS and the DHT find ([discoveryNotifee], [initMDNS], [initDHT] and
    the loops over their channels).  The file watcher, the mDNS service and the
    DHT are parameters: what they deliver is the input of the steps. *)

From Stdlib Require Import ZArith Lia Ascii String.
From stdpp Require Import base list gmap strings option relations.
From S2P Require Import Prelude GoStrings GoNet Config ProtoWire Messages TunnelUtil Tunnel TunnelProto.

Local Open Scope Z_scope.

(** ** The configuration watcher *)

(** Operations of fsnotify are bits. *)
Definition fsnotify_Create : Z := 1.
Definition fsnotify_Write : Z := 2.
Definition fsnotify_Remove : Z := 4.
Definition fsnotify_Rename : Z := 8.
Definition fsnotify_Chmod : Z := 16.

(** What the [select] receives: an event or an error of the watcher; [None]
    once the channel is closed. *)
Inductive watch_case : Type :=
| Events (event : option Z)
| Errors (err : option string).

(** What the outside answers in one turn of the loop: adding the file to the
    watcher again, and what each of the two places that reload finds. *)
Record watch_turn : Type := mkTurn {
  received : watch_case;
  watcher_readd : result unit;
  removed_reload : result reloadConfig * result unit * result unit;
  written_reload : result reloadConfig * result unit * result unit
}.

Section watcher.
Context {MA ID : Type} `{Multiaddr MA} `{Identity ID}.
Implicit Types t : EdgeTunnel (MA:=MA) (ID:=ID).

(** Where the loop is: waiting, or returned, after [cfgWatcher.Close]. *)
Inductive watch_phase : Type := Watching | WatcherClosed.

(** One turn of the loop. *)
Definition watch_step t (x : watch_turn) : go (EdgeTunnel (MA:=MA) (ID:=ID) * watch_phase) :=
  match received x with
  | Events None => Val (t, Watching)
  | Events (Some op) =>
      let! (t, phase) :=
        (if op =? fsnotify_Remove then
           match watcher_readd x with
           | Err _ => Val (t, WatcherClosed)
           | Ok _ => let! t := reload t (removed_reload x) in Val (t, Watching)
           end
         else Val (t, Watching)) in
      match phase with
      | WatcherClosed => Val (t, WatcherClosed)
      | Watching =>
          if Z.land op fsnotify_Write =? fsnotify_Write
          then let! t := reload t (written_reload x) in Val (t, Watching)
          else Val (t, Watching)
      end
  | Errors None => Val (t, Watching)
  | Errors (Some _) => Val (t, Watching)
  end.

(** The relay finder is a goroutine of its own and writes to the same map; here
    is what it does to it between two turns of the watcher, see [finder_step] of
    [TunnelModule] for the rest of it. *)
Inductive relay_event : Type :=
| WatchTurn (x : watch_turn)
| FinderRefresh (nodeName : string) (found : AddrInfo MA ID).

Definition refresh_tunnel t (nodeName : string) (found : AddrInfo MA ID) : go (EdgeTunnel (MA:=MA) (ID:=ID)) :=
  let! m := refreshRelayMap (relayMap t) nodeName found in
  Val (mkEdgeTunnel (Config t) (isRelay t) m (relayService t)).

(** The loop, for what it receives, with the finder beside it; once it has
    returned it receives nothing. *)
Fixpoint runConfigWatcher t (phase : watch_phase) (es : list relay_event) : go (EdgeTunnel (MA:=MA) (ID:=ID) * watch_phase) :=
  match es with
  | [] => Val (t, phase)
  | FinderRefresh nodeName found :: es' =>
      let! t := refresh_tunnel t nodeName found in
      runConfigWatcher t phase es'
  | WatchTurn x :: es' =>
      match phase with
      | WatcherClosed => runConfigWatcher t WatcherClosed es'
      | Watching => let! (t, phase) := watch_step t x in runConfigWatcher t phase es'
      end
  end.

(** *** What the watcher promises

    A turn in which the file was removed and cannot be watched again, and the
    file that is read in a turn: one if it was removed, or written to. *)
Definition loses_file (x : watch_turn) : bool :=
  match received x, watcher_readd x with
  | Events (Some op), Err _ => op =? fsnotify_Remove
  | _, _ => false
  end.

Definition turn_reload (x : watch_turn) : option (result reloadConfig * result unit * result unit) :=
  match received x with
  | Events (Some op) =>
      if op =? fsnotify_Remove then Some (removed_reload x)
      else if Z.testbit op 1 then Some (written_reload x) else None
  | _ => None
  end.

(** The relay nodes of a file that can be read. *)
Definition file_nodes (r : result reloadConfig * result unit * result unit) : option (list RelayNode) :=
  match r with
  | (Ok cfg, _, _) => match Modules cfg with Some (Some nodes) => Some nodes | _ => None end
  | _ => None
  end.

(** What should be known after some events: whether the file is watched, the
    relay nodes of the last file that could be read, and what the finder found
    since. *)
Record view : Type := mkView { v_watching : bool; v_nodes : list RelayNode; v_found : list (string * AddrInfo MA ID) }.

Definition view_event (v : view) (e : relay_event) : view :=
  match e with
  | FinderRefresh n f => mkView (v_watching v) (v_nodes v) (v_found v ++ [(n, f)])
  | WatchTurn x =>
      if negb (v_watching v) then v
      else if loses_file x then mkView false (v_nodes v) (v_found v)
      else match turn_reload x ≫= file_nodes with
           | Some nodes => mkView true nodes []
           | None => v
           end
  end.

(** The relay map is that of the file and what was found: the nodes of both,
    each with the identity of the file if it is listed there, and with the
    addresses of the file and those found that can be used by others. *)
Definition relays_from (file : RelayMap MA ID) (found : list (string * AddrInfo MA ID)) (m : RelayMap MA ID) : Prop :=
  forall name, match m !! name with
  | None => file !! name = None /\ name ∉ found.*1
  | Some info =>
      (forall i, file !! name = Some i -> ai_ID info = ai_ID i) /\
      (file !! name = None -> exists f, (name, f) ∈ found /\ ai_ID info = ai_ID f) /\
      forall a, a ∈ Addrs info <-> a ∈ from_option Addrs [] (file !! name) \/
                                   exists f, (name, f) ∈ found /\ a ∈ Addrs f /\ usable_relay_addr a
  end.

Lemma relays_from_file file : relays_from file [] file.
Proof.
  intros name. destruct (file !! name) as [i|]; [|split; [done|apply not_elem_of_nil]].
  split; [by intros ? [= <-]|]. split; [done|]. intros a. cbn. split; [by left|].
  intros [?|(f & Hf & _)]; [done|]. by apply not_elem_of_nil in Hf.
Qed.

Lemma relays_from_refresh file found m n f m' :
  relays_from file found m -> refreshRelayMap m n f = Val m' -> relays_from file (found ++ [(n, f)]) m'.
Proof.
  intros Hm Hr. pose proof (refreshRelayMap_spec m n f) as Hs. rewrite Hr in Hs.
  destruct Hs as (_ & info & -> & Hid & Ha & _). intros name. destruct (decide (name = n)) as [->|Hne].
  - rewrite lookup_insert_eq. specialize (Hm n). destruct (m !! n) as [old|]; cbn in Hid, Ha.
    + destruct Hm as (Hf & Hn & Hold). split; [intros i Hi; rewrite Hid; by apply Hf|]. split.
      * intros Hi. destruct (Hn Hi) as (g & Hg & Heq). exists g. rewrite elem_of_app. split; [by left|congruence].
      * intros a. rewrite Ha, Hold. setoid_rewrite elem_of_app. setoid_rewrite list_elem_of_singleton. naive_solver.
    + destruct Hm as [Hf Hn]. rewrite Hf. split; [done|]. split.
      * intros _. exists f. rewrite elem_of_app, list_elem_of_singleton. by split; [right|].
      * intros a. rewrite Ha. cbn. setoid_rewrite elem_of_app. setoid_rewrite list_elem_of_singleton.
        split; [naive_solver|]. intros [?|(g & [Hg|[= ->]] & Hga)]; [by left| |by right].
        exfalso. apply Hn, list_elem_of_fmap. by exists (n, g).
  - rewrite lookup_insert_ne by done. specialize (Hm name). destruct (m !! name) as [old|].
    + destruct Hm as (Hf & Hn & Hold). split; [done|]. split.
      * intros Hi. destruct (Hn Hi) as (g & Hg & ?). exists g. rewrite elem_of_app. by split; [left|].
      * intros a. rewrite Hold. setoid_rewrite elem_of_app. setoid_rewrite list_elem_of_singleton. naive_solver.
    + rewrite fmap_app, not_elem_of_app. cbn. rewrite list_elem_of_singleton. naive_solver.
Qed.

Lemma write_bit op : (Z.land op fsnotify_Write =? fsnotify_Write) = Z.testbit op 1.
Proof.
  unfold fsnotify_Write. destruct (Z.testbit op 1) eqn:Eb.
  - apply Z.eqb_eq, Z.bits_inj'. intros i Hi. rewrite Z.land_spec.
    destruct (decide (i = 1)) as [-> |Hne]; [by rewrite Eb|].
    replace (Z.testbit 2 i) with false; [by rewrite andb_false_r|]. symmetry. apply (Z.pow2_bits_false 1). lia.
  - apply Z.eqb_neq. intros Heq. apply (f_equal (fun z => Z.testbit z 1)) in Heq. by rewrite Z.land_spec, Eb in Heq.
Qed.

(** A turn reloads at most once, and ends the loop if it loses the file. *)
Lemma watch_step_reload t x :
  watch_step t x =
    if loses_file x then Val (t, WatcherClosed)
    else match turn_reload x with
         | Some r => let! t := reload t r in Val (t, Watching)
         | None => Val (t, Watching)
         end.
Proof.
  unfold watch_step, loses_file, turn_reload. destruct (received x) as [[op|]|[]]; try by destruct (watcher_readd x).
  rewrite write_bit. destruct (Z.eqb_spec op fsnotify_Remove) as [-> |Hne]; [|by destruct (watcher_readd x), (Z.testbit op 1)].
  destruct (watcher_readd x); [|done]. by destruct (reload t (removed_reload x)).
Qed.

Lemma reload_map t r t' :
  reload t r = Val t' ->
  Config t' = Config t /\
  relayMap t' = match file_nodes r with
                | Some nodes => GenerateRelayMap nodes (EdgeTunnelConfig.Transport (Config t)) (EdgeTunnelConfig.ListenPort (Config t))
                | None => relayMap t
                end.
Proof.
  destruct r as [[[[[[nodes|]|]]|] New] Close]; cbn; try done; [|by intros [= <-]].
  repeat case_match; by intros [= <-].
Qed.

Definition server_mode (c : EdgeTunnelConfig.t) : bool := String.eqb (EdgeTunnelConfig.Mode c) ServerClientMode.

(** In server mode the flag tells whether the relay service runs; in another
    mode it never runs, and the flag is [start]. *)
Definition flags_ok (c : EdgeTunnelConfig.t) (start : bool) t : Prop :=
  Config t = c /\ if server_mode c then isRelay t = relayService t else relayService t = false /\ isRelay t = start.

Lemma reload_flags c start t r t' : reload t r = Val t' -> flags_ok c start t -> flags_ok c start t'.
Proof.
  unfold flags_ok, server_mode. destruct r as [[file New] Close]. cbn. unfold doReload. intros Hd [<- Hf]. revert Hd.
  destruct file as [[[[nodes|]|]]|]; cbn; try done; [|by intros [= <-]].
  destruct (String.eqb (EdgeTunnelConfig.Mode (Config t)) ServerClientMode) eqn:Em;
    destruct (GenerateRelayMap _ _ _ !! _), (relayService t) eqn:Es, New, Close; intros [= <-]; cbn; rewrite ?Em; cbn;
    rewrite ?Es in *; intuition congruence.
Qed.

(** A file that can be read decides whether the relay service runs. *)
Lemma doReload_decides c start t nodes :
  flags_ok c start t ->
  exists t', doReload t (Ok (mkReloadConfig (Some (Some nodes)))) (Ok tt) (Ok tt) = Val t' /\
    relayMap t' = GenerateRelayMap nodes (EdgeTunnelConfig.Transport c) (EdgeTunnelConfig.ListenPort c) /\
    relayService t' = server_mode c && relay_listed (MA:=MA) (ID:=ID) c nodes.
Proof.
  intros [<- Hf]. rewrite relay_listed_spec. unfold doReload, server_mode in *. cbn.
  destruct (String.eqb (EdgeTunnelConfig.Mode (Config t)) ServerClientMode); cbn in *;
    destruct (GenerateRelayMap nodes _ _ !! _) eqn:Eg; destruct (relayService t) eqn:Es; cbn;
    eexists; (split; [reflexivity|]); cbn; rewrite ?bool_decide_true, ?bool_decide_false by (by eauto || by intros []);
    cbn; by rewrite ?Es; destruct Hf.
Qed.

(** What the watcher and the finder keep. *)
Definition watch_inv (c : EdgeTunnelConfig.t) (start : bool) (v : view) t (phase : watch_phase) : Prop :=
  flags_ok c start t /\
  relays_from (GenerateRelayMap (v_nodes v) (EdgeTunnelConfig.Transport c) (EdgeTunnelConfig.ListenPort c)) (v_found v) (relayMap t) /\
  phase = (if v_watching v then Watching else WatcherClosed).

Lemma runConfigWatcher_inv c start es v t phase t' phase' :
  runConfigWatcher t phase es = Val (t', phase') -> watch_inv c start v t phase ->
  watch_inv c start (fold_left view_event es v) t' phase'.
Proof.
  revert v t phase. induction es as [|e es IH]; intros v t phase Hr Hi; cbn in Hr; [by injection Hr as <- <-|].
  destruct Hi as (Hf & Hm & Hp). destruct e as [x|n f]; cbn [fold_left view_event].
  - destruct (v_watching v) eqn:Ew; subst phase; cbn [negb].
    2:{ apply (IH v _ _ Hr). by split; [|split; [|rewrite Ew]]. }
    apply go_bind_Val_inv in Hr as ([t1 p1] & Hs & Hr). rewrite watch_step_reload in Hs.
    destruct (loses_file x); [injection Hs as <- <-; by apply (IH _ _ _ Hr)|].
    destruct (turn_reload x) as [r|]; cbn [mbind option_bind].
    2:{ injection Hs as <- <-. apply (IH v _ _ Hr). by split; [|split; [|rewrite Ew]]. }
    apply go_bind_Val_inv in Hs as (t2 & Hl & [= <- <-]). pose proof (reload_map _ _ _ Hl) as [_ Hmap].
    pose proof (reload_flags _ _ _ _ _ Hl Hf) as Hf'. apply (IH _ _ _ Hr).
    destruct (file_nodes r) as [nodes|].
    + split; [done|]. split; [|done]. rewrite Hmap, (proj1 Hf). apply relays_from_file.
    + split; [done|]. split; [by rewrite Hmap|by rewrite Ew].
  - unfold refresh_tunnel in Hr. apply go_bind_Val_inv in Hr as (t1 & Ht & Hr).
    apply go_bind_Val_inv in Ht as (m & Href & [= <-]). apply (IH _ _ _ Hr). split; [done|]. split; [|done].
    by eapply relays_from_refresh.
Qed.

Lemma runConfigWatcher_app es es' t phase t1 phase1 :
  runConfigWatcher t phase es = Val (t1, phase1) ->
  runConfigWatcher t phase (es ++ es') = runConfigWatcher t1 phase1 es'.
Proof.
  revert t phase. induction es as [|e es IH]; intros t phase Hr; cbn in *; [by injection Hr as <- <-|].
  destruct e as [x|n f].
  - destruct phase; [|by apply IH]. apply go_bind_Val_inv in Hr as ([t2 p2] & -> & Hr). by apply IH.
  - apply go_bind_Val_inv in Hr as (t2 & -> & Hr). by apply IH.
Qed.

Lemma closed_stays ys t : runConfigWatcher t WatcherClosed (map WatchTurn ys) = Val (t, WatcherClosed).
Proof. by induction ys. Qed.

Lemma view_lost es v :
  v_watching v = true -> v_watching (fold_left view_event es v) = false <-> exists x, WatchTurn x ∈ es /\ loses_file x = true.
Proof.
  assert (Hoff : forall es v, v_watching v = false -> v_watching (fold_left view_event es v) = false).
  { clear. induction es as [|e es IH]; intros v Hv; [done|]. apply IH. destruct e; cbn; by rewrite ?Hv. }
  revert v. induction es as [|e es IH]; intros v Hv; cbn [fold_left].
  { split; [congruence|]. by intros (x & Hx%not_elem_of_nil & _). }
  setoid_rewrite elem_of_cons. destruct (v_watching (view_event v e)) eqn:Ew.
  - rewrite IH by done. split; [intros (x & ? & ?); exists x; tauto|]. intros (x & [<-|Hx] & Hl); [|by exists x].
    cbn in Ew. by rewrite Hv, Hl in Ew.
  - split; [|intros _; by apply Hoff]. intros _. destruct e as [x|]; cbn in Ew; [|congruence]. exists x. split; [by left|].
    rewrite Hv in Ew. cbn in Ew. destruct (loses_file x); [done|]. by destruct (turn_reload x ≫= file_nodes); cbn in Ew; congruence.
Qed.

(** The file is written to, and can be read; the relay service can be started
    and stopped. *)
Definition written (nodes : list RelayNode) : watch_turn :=
  let r := (Ok (mkReloadConfig (Some (Some nodes))), Ok tt, Ok tt) in mkTurn (Events (Some fsnotify_Write)) (Ok tt) r r.

Lemma watch_step_written t nodes :
  watch_step t (written nodes) =
    let! t := doReload t (Ok (mkReloadConfig (Some (Some nodes)))) (Ok tt) (Ok tt) in Val (t, Watching).
Proof. reflexivity. Qed.

Lemma new_relay_state_inv c nodes0 New0 t0 :
  new_relay_state c nodes0 New0 = Ok t0 ->
  watch_inv c (relay_listed (MA:=MA) (ID:=ID) c nodes0) (mkView true nodes0 []) t0 Watching.
Proof.
  unfold new_relay_state, watch_inv, flags_ok, server_mode. intros Hn. rewrite relay_listed_spec.
  destruct (String.eqb (EdgeTunnelConfig.Mode c) ServerClientMode).
  - rewrite andb_true_r in Hn. case_bool_decide; [destruct New0|]; simplify_eq; by split; [|split; [apply relays_from_file|]].
  - rewrite andb_false_r in Hn. injection Hn as <-. by split; [|split; [apply relays_from_file|]].
Qed.

End watcher.

(** ** Peers that are found *)

Section discovery.
Context {MA ID : Type} `{Multiaddr MA} `{Identity ID}.

(** The channel [PeerChan] is not buffered: [HandlePeerFound] returns when the
    loop takes the peer.  [finding] are the calls that wait, in the order in
    which they were made. *)
Record discoveryNotifee : Type := mkNotifee { finding : list (AddrInfo MA ID) }.

Definition HandlePeerFound (n : discoveryNotifee) (pi : AddrInfo MA ID) : discoveryNotifee := mkNotifee (finding n ++ [pi]).

(** [Start] of the mDNS service, and [FindPeers] of the DHT, whose channel the
    tunnel only reads. *)
Definition initMDNS (Start : string -> result unit) (rendezvous : string) : result discoveryNotifee :=
  let n := mkNotifee [] in
  match Start rendezvous with Err e => Err e | Ok _ => Ok n end.

(** [Advertise] starts a goroutine; its error is not seen. *)
Definition initDHT {Chan} (FindPeers : string -> result Chan) (rendezvous : string) : result Chan :=
  match FindPeers rendezvous with Err e => Err e | Ok peerChan => Ok peerChan end.

(** The loop [runMdnsDiscovery] while peers are found: the peer it talks to,
    if any, and those it has talked to. *)
Record mdns_state : Type := mkMdns {
  notifee : discoveryNotifee;
  talking : option (AddrInfo MA ID);
  talked : list (AddrInfo MA ID)
}.

Inductive mdns_label : Type := Found (pi : AddrInfo MA ID) | Took | Finished.

Inductive mdns_step : mdns_label -> mdns_state -> mdns_state -> Prop :=
| mdns_found n cur past pi :
    mdns_step (Found pi) (mkMdns n cur past) (mkMdns (HandlePeerFound n pi) cur past)
| mdns_take pi rest past :
    mdns_step Took (mkMdns (mkNotifee (pi :: rest)) None past) (mkMdns (mkNotifee rest) (Some pi) past)
| mdns_finish n pi past :
    mdns_step Finished (mkMdns n (Some pi) past) (mkMdns n None (past ++ [pi])).

Inductive mdns_run : list mdns_label -> mdns_state -> mdns_state -> Prop :=
| mdns_idle s : mdns_run [] s s
| mdns_more l ls s s' s'' : mdns_step l s s' -> mdns_run ls s' s'' -> mdns_run (l :: ls) s s''.

Definition found_peer (l : mdns_label) : option (AddrInfo MA ID) := match l with Found pi => Some pi | _ => None end.

(** Every peer found is talked to once, in the order of finding. *)
Definition mdns_peers (s : mdns_state) : list (AddrInfo MA ID) :=
  talked s ++ option_list (talking s) ++ finding (notifee s).

Lemma mdns_in_order ls s s' : mdns_run ls s s' -> mdns_peers s' = mdns_peers s ++ omap found_peer ls.
Proof.
  induction 1 as [s|l ls s s' s'' Hs _ IH]; [by rewrite app_nil_r|]. rewrite IH. unfold mdns_peers.
  destruct Hs as [n cur past pi|pi rest past|n pi past]; cbn [notifee talking talked finding HandlePeerFound option_list omap list_omap found_peer].
  - by rewrite <-!(assoc_L (++)).
  - done.
  - cbn. by rewrite <-!(assoc_L (++)).
Qed.

(** Whatever waits can be taken: the loop is never stuck. *)
Lemma mdns_progress s :
  finding (notifee s) <> [] \/ is_Some (talking s) -> exists l s', mdns_step l s s' /\ found_peer l = None.
Proof.
  destruct s as [[[|pi rest]] [cur|] past]; cbn.
  - intros _. eexists Finished, _. split; [constructor|done].
  - intros [?|[? ?]]; done.
  - intros _. eexists Finished, _. split; [constructor|done].
  - intros _. eexists Took, _. split; [constructor|done].
Qed.
End discovery.
Arguments discoveryNotifee : clear implicits.
Arguments mdns_state : clear implicits.

(** ** Witnesses *)

(** The file is replaced, then chmodded, then written to, and the finder finds
    this relay and another; then the channel of errors is closed, and at last the
    file is removed for good. *)
Definition demo_turn (c : watch_case) (add : result unit) (nodes : list RelayNode) : watch_turn :=
  let r := (Ok (mkReloadConfig (Some (Some nodes))), Ok tt, Ok tt) in mkTurn c add r r.

Definition demo_relay_events : list (relay_event (MA:=string) (ID:=string)) :=
  [FinderRefresh "edge-7" (mkAddrInfo "id-7" ["/ip4/7.7.7.7/tcp/20006"]);
   WatchTurn (demo_turn (Events (Some fsnotify_Remove)) (Ok tt) []);
   WatchTurn (demo_turn (Events (Some fsnotify_Chmod)) (Ok tt) []);
   WatchTurn (demo_turn (Events (Some (Z.lor fsnotify_Write fsnotify_Chmod))) (Ok tt) [demo_relay]);
   FinderRefresh "edge-9" (mkAddrInfo "id-9" ["/ip4/8.8.4.4/tcp/20006"]);
   WatchTurn (demo_turn (Errors None) (Ok tt) []);
   WatchTurn (demo_turn (Events (Some fsnotify_Remove)) (Err "no such file or directory") [])].

Definition demo_watched : EdgeTunnel (MA:=string) (ID:=string) :=
  match runConfigWatcher demo_tunnel Watching demo_relay_events with Val (t, _) => t | Panic _ => demo_tunnel end.

