(* ===== verification/EndToEnd.v ===== *)
(** * Connections end to end

    The path of a TCP connection to a service through the components that
    carry it: the accept loop of its proxy socket ([ProxySocket]), the choice
    and dialling of an endpoint ([LoadBalancer]) and, for a pod of another
    node, the stream of the tunnel ([Tunnel]) with the handler at its other
    end.  The network is a record of what the peers do, with the law that the
    streams of the tunnel are runs of the two programs of [Tunnel]; it also says
    what other goroutines do to the load balancer, which changes all the time. *)

From Stdlib Require Import ZArith Lia Ascii String.
From stdpp Require Import base list gmap strings option relations.
From S2P Require Import Prelude GoStrings GoNet Config NetUtil ProtoWire Messages TunnelUtil Tunnel TunnelProto.
From S2P Require Import LbUtil LbPolicy LoadBalancer LbInvariant LbConnect ProxySocket.

Local Open Scope Z_scope.

(** ** The tunnel's promise *)

Section tunnel.
Context {MA ID : Type} `{Multiaddr MA} `{Identity ID} `{RangeOrder}.
Context (info_String : AddrInfo MA ID -> string).
Abbreviation psession := (session MA ID Proxy.t (result unit) unit).

(** A run of [GetProxyStream] against a node that runs the handler. *)
Definition stream_run (opts : Tunnel.ProxyOptions) (s : psession) : Prop :=
  rtc (session_step named true)
    (start (GetProxyStream info_String opts) proxyStreamHandler) s.

(** The stream leads to the node asked for, and its handler connected to the
    target: to the address that [net.ParseIP] makes of the one asked for, and to
    the node itself if it makes none. *)
Definition stream_reaches (opts : Tunnel.ProxyOptions) (s : psession) : Prop :=
  target_dialled opts (server_log s) /\
  exists id, named (opt_NodeName opts) id /\
    EStream id ProxyProtocol ∈ client_log s.

Lemma stream_run_reaches opts s :
  stream_run opts s -> client s = Ret (Ok tt) -> stream_reaches opts s.
Proof.
  set (P := fun log : list (event ID) => exists id, named (opt_NodeName opts) id /\
              EStream id ProxyProtocol ∈ log).
  intros Hr Hret.
  destruct (session_sound named true (fun _ m => m = connect_msg opts)
    (answer_honest opts) (to_destination ProxyProtocol (opt_NodeName opts))
    (serves_target opts) (fun sl log r => r = Ok tt -> target_dialled opts sl /\ P log)
    (fun _ _ _ => True) (fun _ _ _ Hm => Hm) (answer_honest_stable opts)
    (GetProxyStream info_String opts) proxyStreamHandler s) as (Hc & _);
    [|intros _; apply server_safe|exact Hr|exact (Hc _ Hret eq_refl)].
  intros sl. apply get_stream_safe; [done|].
  intros id log Hid Hin. apply client_safe; [done|]. by exists id.
Qed.

(** ** The network *)

Context {R : Type}.
Implicit Types lb : LoadBalancer R.

(** What happens around one attempt to connect: what other goroutines have done
    to the load balancer since the last attempt or connection, how dials of
    addresses end, and for every request to the tunnel a run that has returned. *)
Record network : Type := mkNetwork {
  n_others : LoadBalancer R -> LoadBalancer R;
  n_now : Z;
  n_rand : Z;
  n_Dial : string -> string -> result unit;
  n_session : Tunnel.ProxyOptions -> psession;
  n_answer : Tunnel.ProxyOptions -> result unit;
  n_runs : forall opts, stream_run opts (n_session opts);
  n_returns : forall opts, client (n_session opts) = Ret (n_answer opts)
}.

(** Where a connection was dialled, and what was written to it so far. *)
Inductive route : Type :=
| Direct (protocol addr : string)
| Stream (opts : Tunnel.ProxyOptions) (s : psession).

Record connection : Type := mkConnection { c_route : route; c_sent : list Z }.

(** The request to the tunnel as the load balancer makes it. *)
Definition tunnel_opts (o : ProxyOptions) : Tunnel.ProxyOptions :=
  Tunnel.mkProxyOptions (po_Protocol o) (po_NodeName o) (po_IP o) (po_Port o).

Definition attempt_of (n : network) : attempt (R := R) (OutConn := connection) :=
  mkAttempt (n_others n) (n_now n) (n_rand n)
    (fun protocol addr =>
       match n_Dial n protocol addr with
       | Ok _ => Ok (mkConnection (Direct protocol addr) [])
       | Err e => Err e
       end)
    (fun o =>
       match n_answer n (tunnel_opts o) with
       | Ok _ => Ok (mkConnection (Stream (tunnel_opts o) (n_session n (tunnel_opts o))) [])
       | Err e => Err e
       end).

(** ** The path of a connection *)

Section path.
Context `{HashRingSpec R}.
Context {Request Conn : Type}.
Context (Header_Get : Request -> string -> string).
Context (ReadRequest : Conn -> Conn * result Request).
Context (RemoteAddr : Conn -> string).
Context (Request_Write : Request -> result (list Z)).
Context (Conn_Write : connection -> list Z -> result unit).
Context (service : ServicePortName).
Context (ShouldSkipService : Service -> bool).
Context (ParseIPSloppy : string -> list Z).
Context (LoadBalancerStatusEqual : list (string * string) -> list (string * string) -> bool).

(** Any number of operations of the load balancer. *)
Abbreviation steps :=
  (rtc (lb_step ShouldSkipService ParseIPSloppy LoadBalancerStatusEqual Header_Get ReadRequest RemoteAddr)).

(** What the other goroutines do are operations of the load balancer. *)
Definition others_step (n : network) : Prop := forall lb, steps lb (n_others n lb).

Lemma steps_ok lb lb' : steps lb lb' -> lb_ok lb -> lb_ok lb'.
Proof. induction 1 as [|lb1 lb2 lb3 Hs _ IH]; [done|]. intros Hok. by eapply IH, lb_step_ok. Qed.

Definition connection_Write (c : connection) (b : list Z) : result connection :=
  match Conn_Write c b with
  | Ok _ => Ok (mkConnection (c_route c) (c_sent c ++ b))
  | Err e => Err e
  end.

Abbreviation connect := (try_connect Header_Get ReadRequest RemoteAddr Request_Write connection_Write).
Abbreviation next := (nextEndpointWithConn Header_Get ReadRequest RemoteAddr).

(** The route was opened for the endpoint [ep]: a dial of its address for an
    endpoint without node or on this node, and else a stream to its node whose
    handler connected to the address ([stream_reaches]). *)
Definition route_to (nodeName protocol ep : string) (r : route) : Prop :=
  exists node pod ip port, parseEndpoint ep = Some (node, pod, ip, port) /\
  match r with
  | Direct proto addr =>
      proto = protocol /\ addr = JoinHostPort ip port /\ (node = EmptyNodeName \/ node = nodeName)
  | Stream opts s =>
      node <> EmptyNodeName /\ node <> nodeName /\
      exists p, ParseInt port 32 = Some p /\ opts = Tunnel.mkProxyOptions protocol node ip p /\ stream_reaches opts s
  end.

Lemma dialEndpoint_route lb n protocol ep c :
  dialEndpoint lb (attempt_of n) protocol ep = Ok c ->
  route_to (lb_NodeName (Config lb)) protocol ep (c_route c).
Proof.
  unfold dialEndpoint, route_to. destruct (parseEndpoint ep) as [[[[node pod] ip] port]|]; [|done]. intros Hd.
  exists node, pod, ip, port. split; [done|].
  destruct (String.eqb node EmptyNodeName || String.eqb node (lb_NodeName (Config lb))) eqn:El; cbn in Hd.
  - destruct (n_Dial n _ _); [|done]. injection Hd as <-. cbn. split; [done|]. split; [done|].
    apply orb_true_iff in El as [El|El]; apply String.eqb_eq in El; auto.
  - apply orb_false_iff in El as [E1 E2]. apply String.eqb_neq in E1, E2.
    destruct (ParseInt port 32) as [p|]; [|done]. cbn in Hd.
    pose proof (n_returns n (Tunnel.mkProxyOptions protocol node ip p)) as Hret.
    unfold tunnel_opts in Hd; cbn in Hd.
    destruct (n_answer n _) as [[]|]; [|done]. injection Hd as <-. cbn. split; [done|]. split; [done|].
    exists p. split; [done|]. split; [done|]. apply stream_run_reaches; [apply n_runs|done].
Qed.

(** The connection leads to the endpoint that was chosen, and it was an endpoint
    of the service port when it was chosen. *)
Definition reaches (ch : choice (R := R)) (protocol : string) (c : connection) : Prop :=
  exists s ep, services (ch_state ch) !! service = Some s /\ ch_endpoint ch = Ok ep /\ ep ∈ endpoints s /\
    route_to (lb_NodeName (Config (ch_state ch))) protocol ep (c_route c).

(** Choosing fails only without endpoints or if the client's address is
    malformed. *)
Lemma next_error now k lb sp src reset conn req lb' conn' req' e :
  next now k lb sp src reset conn req = Val (lb', conn', req', Err e) ->
  ServiceHasEndpoints lb sp = false \/ exists addr e', src = Some addr /\ SplitHostPort addr = Err e'.
Proof.
  unfold nextEndpointWithConn, ServiceHasEndpoints. destruct (services lb !! sp) as [s|] eqn:Es; [|by left].
  destruct (length (endpoints s) =? 0)%nat eqn:El; [by left|].
  intros Hn. apply go_bind_Val_inv in Hn as ([[c1 q1] picked] & _ & Hn). destruct picked as [ep|]; [done|].
  destruct (isSessionAffinity (affinity s)).
  - destruct src as [addr|]; [|done]. destruct (SplitHostPort addr) as [[ip port]|e'] eqn:Ea; [|eauto].
    destruct (if reset then None else live_affinity now s ip) as [a|]; [done|].
    by apply go_bind_Val_inv in Hn as ([s1 ep] & Ht & Hn).
  - by apply go_bind_Val_inv in Hn as ([s1 ep] & Ht & Hn).
Qed.

Lemma forward_request_route c req c' :
  forward_request Request_Write connection_Write c req = Ok c' -> c_route c' = c_route c.
Proof.
  unfold forward_request, connection_Write. destruct req as [q|]; [|by intros [= <-]].
  destruct (Request_Write q) as [b|]; [|by intros [= <-]]. destruct (Conn_Write c b); [|done]. by intros [= <-].
Qed.

Abbreviation run := (connect_run Header_Get ReadRequest RemoteAddr Request_Write connection_Write).

(** Every choice is made in a state that the operations lead to, and a connection
    leads to the endpoint that was chosen last. *)
Lemma run_reaches sp src protocol req reset nets lb conn lb' conn' choices r :
  run sp src protocol req reset (map attempt_of nets) lb conn lb' conn' choices r ->
  sp = service -> lb_ok lb -> Forall others_step nets ->
  steps lb lb' /\ Forall (fun ch => steps lb (ch_state ch)) choices /\
  forall c, r = Ok c -> exists ch, last choices = Some ch /\ reaches ch protocol c.
Proof.
  intros Hr ->. remember (map attempt_of nets) as attempts eqn:Ea. revert nets Ea.
  induction Hr as [|reset a attempts lb conn lb' conn' req' e Hn|
      reset a attempts lb conn lb' conn' req' ep out Hn Hd|
      reset a attempts lb conn lb1 conn1 req1 ep e lb' conn' choices r Hn _ _ Hrest IH]; intros nets Ea Hok Ho.
  { split; [done|]. by split. }
  all: destruct nets as [|n nets]; [done|]; injection Ea as -> ->; apply Forall_cons in Ho as [Hn1 Ho];
    assert (Hoth : steps lb (n_others n lb)) by apply Hn1;
    assert (Hok' : lb_ok (n_others n lb)) by (by eapply steps_ok).
  1-2: split; [etrans; [exact Hoth|]; apply rtc_once; eapply step_next; exact Hn|]; split; [by apply Forall_singleton|]; try done.
  - intros c Hc. eexists. split; [done|].
    destruct (nextEndpointWithConn_ok _ _ _ _ _ _ _ _ _ _ _ _ _ _ _ Hn Hok') as [_ Hep].
    destruct (Hep ep eq_refl) as (s & Hs & Hin). exists s, ep. cbn. split; [done|]. split; [done|]. split; [done|].
    rewrite (forward_request_route _ _ _ Hc). by eapply dialEndpoint_route.
  - assert (Hs1 : steps lb lb1) by (etrans; [exact Hoth|]; apply rtc_once; eapply step_next; exact Hn).
    destruct (IH nets eq_refl) as (Hs' & Hch & Hc); [by eapply steps_ok|done|]. split; [by etrans|]. split.
    + constructor; [done|]. eapply Forall_impl; [exact Hch|]. cbn. intros ch Hst. by etrans.
    + intros c Hrc. destruct (Hc c Hrc) as (ch & Hl & Hre). exists ch. split; [|done]. rewrite last_cons. by rewrite Hl.
Qed.

(** *** Connections that are served *)

(** In this state every endpoint of the service port answers. *)
Definition answers lb (protocol : string) (n : network) : Prop :=
  forall s ep, services lb !! service = Some s -> ep ∈ endpoints s ->
    exists c, dialEndpoint lb (attempt_of n) protocol ep = Ok c.

(** The first choice is made in the state that the others have left, and if its
    endpoints answer the client is connected. *)
Lemma run_served addr protocol req reset n nets lb conn lb' conn' choices r :
  run service (Some addr) protocol req reset (map attempt_of (n :: nets)) lb conn lb' conn' choices r ->
  lb_ok (n_others n lb) -> (exists x, SplitHostPort addr = Ok x) -> (forall c b, Conn_Write c b = Ok tt) ->
  exists ch, head choices = Some ch /\ ch_state ch = n_others n lb /\
    (ServiceHasEndpoints (ch_state ch) service = true -> answers (ch_state ch) protocol n -> exists c, r = Ok c).
Proof.
  intros Hr Hok [x Hx] Hw. inversion Hr as [|? ? ? ? ? ? ? ? e Hn|? ? ? ? ? ? ? req' ep out Hn Hd|
      ? ? ? ? ? lb1 conn1 req1 ep e ? ? ? ? Hn Hd He Hrest]; subst; (eexists; split; [done|]; split; [done|]); cbn; intros Hep Hans.
  - apply next_error in Hn as [Hno|(a & e' & [= ->] & He)]; cbn in *; congruence.
  - unfold forward_request, connection_Write. destruct req' as [q|]; [|by eexists].
    destruct (Request_Write q); [|by eexists]. rewrite Hw. by eexists.
  - destruct (nextEndpointWithConn_ok _ _ _ _ _ _ _ _ _ _ _ _ _ _ _ Hn Hok) as [_ Hmem].
    destruct (Hmem ep eq_refl) as (s & Hs & Hin). destruct (Hans s ep Hs Hin) as [c Hc]. cbn in Hd. congruence.
Qed.

(** ** The accept loop *)

(** A turn of the loop with the networks of its attempts to connect. *)
Record turn : Type := mkServedTurn {
  t_alive_before : bool;
  t_accepted : result Conn;
  t_alive_after : bool;
  t_networks : list network
}.

Definition turn_of (t : turn) : tcp_turn (R := R) (Conn := Conn) (OutConn := connection) :=
  mkTurn (t_alive_before t) (t_accepted t) (t_alive_after t) (map attempt_of (t_networks t)).

(** A connection that was accepted, with the networks of its attempts. *)
Definition accepted_conn (t : turn) : option (Conn * list network) :=
  match t_accepted t with Ok c => Some (c, t_networks t) | Err _ => None end.

Abbreviation fate := (tcp_fate (R := R) (Conn := Conn) (OutConn := connection)).

Definition is_proxied (f : fate) : bool := match f with Proxied _ _ _ => true | ClosedIn _ _ => false end.

Definition fate_choices (f : fate) : list (choice (R := R)) :=
  match f with Proxied _ _ chs => chs | ClosedIn _ chs => chs end.

(** A connection that is proxied leads to the endpoint chosen last, in a state
    that the operations lead to from [lb]. *)
Definition arrives lb (f : fate) : Prop :=
  forall conn c chs, f = Proxied conn c chs ->
    exists ch, last chs = Some ch /\ steps lb (ch_state ch) /\ reaches ch "tcp" c.

(** A connection with a proper address is proxied if the service port has
    endpoints, and they answer, when the first choice is made for it. *)
Definition served_if_answered lb (x : Conn * list network) (f : fate) : Prop :=
  (exists a, SplitHostPort (RemoteAddr x.1) = Ok a) -> forall n nets, x.2 = n :: nets ->
  exists ch, head (fate_choices f) = Some ch /\ steps lb (ch_state ch) /\
    (ServiceHasEndpoints (ch_state ch) service = true -> answers (ch_state ch) "tcp" n -> is_proxied f = true).

Definition fate_ok lb (x : Conn * list network) (f : fate) : Prop :=
  arrives lb f /\ ((forall c b, Conn_Write c b = Ok tt) -> served_if_answered lb x f).

Lemma fate_ok_later lb lb' x f : steps lb lb' -> fate_ok lb' x f -> fate_ok lb x f.
Proof.
  intros Hs [Ha Hv]. split.
  - intros conn c chs Hf. destruct (Ha conn c chs Hf) as (ch & Hl & Hst & Hr). exists ch. split; [done|]. split; [by etrans|done].
  - intros Hw Hx n nets Hn. destruct (Hv Hw Hx n nets Hn) as (ch & Hh & Hst & Hp). exists ch. split; [done|]. split; [by etrans|done].
Qed.

(** The fate of one connection. *)
Lemma connection_fate lb conn nets lb' conn' choices r :
  connect (map attempt_of nets) lb service (Some (RemoteAddr conn)) "tcp" (Some conn) None false = Val (lb', conn', choices, r) ->
  lb_ok lb -> Forall others_step nets ->
  steps lb lb' /\ fate_ok lb (conn, nets)
    (match r with Err _ => ClosedIn (default conn conn') choices | Ok c => Proxied (default conn conn') c choices end).
Proof.
  intros Hc Hok Ho. apply try_connect_run in Hc.
  destruct (run_reaches _ _ _ _ _ _ _ _ _ _ _ _ Hc eq_refl Hok Ho) as (Hs & Hch & Hr). split; [done|].
  rewrite list.Forall_forall in Hch. split.
  - intros conn0 c chs Hf. destruct r as [c'|]; [|done]. injection Hf as <- <- <-.
    destruct (Hr c' eq_refl) as (ch & Hl & Hre). exists ch. split; [done|]. split; [|done].
    apply Hch. by apply last_Some_elem_of.
  - intros Hw Hx n nets' Hn. cbn in Hx, Hn. subst nets. apply Forall_cons in Ho as [Hn1 _].
    destruct (run_served _ _ _ _ _ _ _ _ _ _ _ _ Hc (steps_ok _ _ (Hn1 lb) Hok) Hx Hw) as (ch & Hh & Hst & Hp).
    exists ch. split; [by destruct r|]. split; [rewrite Hst; apply Hn1|]. intros He Ha. destruct (Hp He Ha) as [c ->]. done.
Qed.

Lemma ProxyLoop_path ts lb lb' fates returned :
  tcp_ProxyLoop Header_Get ReadRequest RemoteAddr Request_Write connection_Write service (map turn_of ts) lb =
    Val (lb', fates, returned) ->
  lb_ok lb -> Forall (fun t => Forall others_step (t_networks t)) ts ->
  exists n, (returned = false -> n = length ts) /\ Forall2 (fate_ok lb) (omap accepted_conn (take n ts)) fates.
Proof.
  revert lb lb' fates returned. induction ts as [|t ts IH]; intros lb lb' fates returned Hl Hok Ho; cbn [map tcp_ProxyLoop] in Hl.
  { injection Hl as _ <- <-. by exists 0%nat. }
  assert (Hend : forall fs, [] = fs -> returned = true -> exists n, (returned = false -> n = length (t :: ts)) /\
                   Forall2 (fate_ok lb) (omap accepted_conn (take n (t :: ts))) fs) by (intros fs <- ->; by exists 0%nat).
  destruct (negb _); [injection Hl as _ ? ?; by apply Hend|]. cbn [accepted turn_of] in Hl. apply Forall_cons in Ho as [Ho1 Ho].
  destruct (t_accepted t) as [conn|e] eqn:Ea.
  - apply go_bind_Val_inv in Hl as ([[[lb1 conn1] chs] r] & Hc & Hl).
    apply go_bind_Val_inv in Hl as ([[lb2 fs] ret] & Hrec & [= <- <- <-]).
    destruct (connection_fate _ _ _ _ _ _ _ Hc Hok Ho1) as [Hs Hf].
    destruct (IH _ _ _ _ Hrec (steps_ok _ _ Hs Hok) Ho) as (n & Hn & Hfs). exists (S n). split; [intros Hret; cbn; by rewrite Hn|].
    cbn. unfold accepted_conn at 1. rewrite Ea. constructor; [done|].
    eapply Forall2_impl; [exact Hfs|]. intros x f. by apply fate_ok_later.
  - destruct (IsTooManyFDsError e); [done|]. destruct (IsClosedError e); [injection Hl as _ ? ?; by apply Hend|].
    destruct (negb _); [injection Hl as _ ? ?; by apply Hend|].
    destruct (IH _ _ _ _ Hl Hok Ho) as (n & Hn & Hfs). exists (S n). split; [intros Hret; cbn; by rewrite Hn|].
    cbn. unfold accepted_conn at 1. by rewrite Ea.
Qed.

(** C3. A connection to a service ends at one of its pods.  Let the accept loop run
    from a reachable state of the load balancer, which other goroutines change
    before every choice of an endpoint.  Each connection it proxies is connected
    to the endpoint chosen last, which was an endpoint of the service port when it
    was chosen: by a dial of the endpoint's address for an endpoint of this node or
    of none, and else by a stream that was opened to the endpoint's node and whose
    handler there connected to the endpoint's port at the address that
    [net.ParseIP] makes of the endpoint's (at its own host if that is not an
    address for it), whatever failed on the way and whatever was tried before.
    And a connection from a proper address is proxied if, when the first choice is
    made for it, the service port has endpoints and they answer. *)
Theorem connection_reaches_service config ts lb lb' fates returned :
  reachable ShouldSkipService ParseIPSloppy LoadBalancerStatusEqual Header_Get ReadRequest RemoteAddr config lb ->
  Forall (fun t => Forall others_step (t_networks t)) ts ->
  tcp_ProxyLoop Header_Get ReadRequest RemoteAddr Request_Write connection_Write service (map turn_of ts) lb =
    Val (lb', fates, returned) ->
  exists n, (returned = false -> n = length ts) /\
    Forall2 (fun x f =>
        (forall conn c chs, f = Proxied conn c chs ->
           exists ch, last chs = Some ch /\ steps lb (ch_state ch) /\ reaches ch "tcp" c) /\
        ((forall c b, Conn_Write c b = Ok tt) -> served_if_answered lb x f))
      (omap accepted_conn (take n ts)) fates.
Proof. intros Hr Ho Hl. exact (ProxyLoop_path _ _ _ _ _ Hl (reachable_ok _ _ _ _ _ _ _ _ Hr) Ho). Qed.
End path.
End tunnel.

(** ** A concrete run *)

(** The peers of the demonstration: every address answers, and the tunnel
    opens TCP streams to every node. *)
Definition demo_client_log (opts : Tunnel.ProxyOptions) : list (event string) :=
  let id := "id-" +:+ opt_NodeName opts in [EStore (opt_NodeName opts) id; EStream id ProxyProtocol].

Definition demo_answer (opts : Tunnel.ProxyOptions) : result unit :=
  if String.eqb (opt_NodeName opts) "" then Err "failed to generate peer id for  err: empty string"
  else if String.eqb (opt_Protocol opts) TCP then Ok tt
  else Err ("new stream between " +:+ opt_NodeName opts +:+ ": id-" +:+ opt_NodeName opts +:+ " err: refused").

Definition demo_stream (opts : Tunnel.ProxyOptions) : TunnelProto.demo_session :=
  if String.eqb (opt_NodeName opts) "" then mkSession (Ret (demo_answer opts)) proxyStreamHandler [] [] [] []
  else if String.eqb (opt_Protocol opts) TCP
  then mkSession (Ret (Ok tt)) (Ret tt) [] [] (demo_client_log opts)
         [EDial (opt_Protocol opts) (ParseIP (opt_IP opts)) (opt_Port opts) (Ok tt); EGo ProxyConn]
  else mkSession (Ret (demo_answer opts)) proxyStreamHandler [] [] (demo_client_log opts) [].

Ltac opens_stream Hn r :=
  client_does ltac:(apply (ps_lookup _ _ _ None); discriminate); unfold PeerIDFromString; rewrite Hn; cbn;
  client_does ltac:(apply ps_store); client_does ltac:(apply (ps_relays _ _ ∅));
  client_does ltac:(apply ps_addrs); client_does ltac:(apply (ps_stream _ _ _ _ r)).

Lemma demo_stream_run opts : stream_run demo_info opts (demo_stream opts).
Proof.
  unfold stream_run, demo_stream, demo_answer. destruct opts as [proto node ip port]. cbn.
  destruct (String.eqb node "") eqn:En.
  { apply String.eqb_eq in En as ->. client_does ltac:(apply (ps_lookup _ _ _ None); discriminate). apply rtc_refl. }
  destruct (String.eqb proto TCP) eqn:Et.
  - apply String.eqb_eq in Et as ->. opens_stream En (Ok (A:=unit) tt). client_does ltac:(apply ps_write).
    server_does ltac:(apply ps_read). server_does ltac:(apply (ps_dial _ _ _ _ _ (Ok tt))).
    server_does ltac:(apply ps_write). server_does ltac:(apply ps_go). client_does ltac:(apply ps_read).
    apply rtc_refl.
  - opens_stream En (Err (A:=unit) "refused"). apply rtc_refl.
Qed.

Lemma demo_stream_returns opts : client (demo_stream opts) = Ret (demo_answer opts).
Proof. unfold demo_stream, demo_answer. by destruct (String.eqb (opt_NodeName opts) ""), (String.eqb (opt_Protocol opts) TCP). Qed.

Definition demo_network (others : LoadBalancer list_ring -> LoadBalancer list_ring) : network demo_info (R := list_ring) :=
  mkNetwork demo_info others 0 0 (fun _ _ => Ok tt) demo_stream demo_answer demo_stream_run demo_stream_returns.

Definition demo_addr (_ : unit) : string := "10.1.1.1:1000".

(** A service with an endpoint on this node, one without a node and one on
    another node. *)
Definition demo_pods : Endpoints :=
  mkEndpoints "default" "web"
    [mkSubset [mkAddress "10.0.0.1" (Some "edge-1") (Some "web-a"); mkAddress "10.0.0.2" None None;
               mkAddress "10.0.1.7" (Some "edge-2") (Some "web-b")] [mkEndpointPort "http" 80]].

Definition demo_balancer : LoadBalancer list_ring :=
  get (New demo_config) (OnEndpointsAdd (fun _ l => l) (New demo_config) demo_pods).

Lemma demo_balancer_reachable :
  reachable (fun _ => false) (fun _ => []) (fun _ _ => true) no_header no_request demo_addr demo_config demo_balancer.
Proof.
  apply rtc_once. apply (step_endpoints_add _ _ _ _ _ _ _ canonical_range (fun _ l => l) demo_pods).
  - done.
  - apply distinct_endpoints_dec. vm_compute. reflexivity.
  - intros p s Hs. simpl in Hs. by rewrite lookup_empty in Hs.
  - vm_compute. reflexivity.
Qed.

(** Meanwhile two of the pods go away. *)
Definition demo_pods_later : Endpoints :=
  mkEndpoints "default" "web" [mkSubset [mkAddress "10.0.1.7" (Some "edge-2") (Some "web-b")] [mkEndpointPort "http" 80]].

Definition demo_update (lb : LoadBalancer list_ring) : LoadBalancer list_ring :=
  get lb (OnEndpointsUpdate (fun _ l => l) lb demo_pods demo_pods_later).

Abbreviation demo_steps_ok :=
  (others_step demo_info no_header no_request demo_addr (fun _ => false) (fun _ => []) (fun _ _ => true)).

Lemma demo_update_step : demo_steps_ok (demo_network demo_update).
Proof.
  intros lb. cbn. unfold demo_update. destruct (OnEndpointsUpdate _ lb demo_pods demo_pods_later) as [lb'|] eqn:E; [|apply rtc_refl].
  apply rtc_once. refine (step_endpoints_update _ _ _ _ _ _ _ canonical_range (fun _ l => l) demo_pods demo_pods_later lb' _ _ E); [done|].
  apply distinct_endpoints_dec. vm_compute. reflexivity.
Qed.

Lemma demo_id_step : demo_steps_ok (demo_network id).
Proof. intros lb. apply rtc_refl. Qed.

(** Two connections, the update, a third connection, and the end of the
    listener. *)
Abbreviation path_turn := (turn demo_info (R := list_ring) (Conn := unit)).
Definition demo_turn (n : network demo_info (R := list_ring)) : path_turn := mkServedTurn demo_info true (Ok tt) true [n].
Definition demo_end : path_turn :=
  mkServedTurn demo_info true (Err "accept: use of closed network connection") false [].
Definition demo_served : list path_turn :=
  [demo_turn (demo_network id); demo_turn (demo_network id); demo_turn (demo_network demo_update); demo_end].

Local Abbreviation demo_path_loop :=
  (tcp_ProxyLoop no_header no_request demo_addr (fun _ => Err "") (connection_Write (fun _ _ => Ok tt)) demo_port
     (map (turn_of demo_info) demo_served) demo_balancer).

Definition demo_balancer_after : LoadBalancer list_ring :=
  match demo_path_loop with Val (lb, _, _) => lb | Panic _ => demo_balancer end.
Definition demo_path_fates : list (tcp_fate (R := list_ring) (Conn := unit) (OutConn := connection (MA := string) (ID := string))) :=
  match demo_path_loop with Val (_, fates, _) => fates | Panic _ => [] end.

(** The third connection goes through the tunnel. *)
Definition demo_remote : connection (MA := string) (ID := string) :=
  let opts := Tunnel.mkProxyOptions "tcp" "edge-2" "10.0.1.7" 80 in mkConnection (Stream opts (demo_stream opts)) [].

Lemma connection_reaches_service_witness :
  exists c0 c1 chs0 chs1 chs ch,
    demo_path_fates = [Proxied tt c0 chs0; Proxied tt c1 chs1; Proxied tt demo_remote chs] /\
    last chs = Some ch /\ reaches demo_port ch "tcp" demo_remote.
Proof.
  destruct (connection_reaches_service demo_info no_header no_request demo_addr (fun _ => Err "") (fun _ _ => Ok tt)
    demo_port (fun _ => false) (fun _ => []) (fun _ _ => true) demo_config demo_served demo_balancer demo_balancer_after
    demo_path_fates true demo_balancer_reachable) as (n & _ & Hf).
  - apply Forall_cons_2; [apply Forall_singleton, demo_id_step|]. apply Forall_cons_2; [apply Forall_singleton, demo_id_step|].
    apply Forall_cons_2; [apply Forall_singleton, demo_update_step|]. apply Forall_singleton, Forall_nil_2.
  - vm_compute. reflexivity.
  - assert (He : exists c0 c1 chs0 chs1 chs, demo_path_fates = [Proxied tt c0 chs0; Proxied tt c1 chs1; Proxied tt demo_remote chs])
      by (vm_compute; do 5 eexists; reflexivity).
    destruct He as (c0 & c1 & chs0 & chs1 & chs & He).
    assert (Hlk : demo_path_fates !! 2%nat = Some (Proxied tt demo_remote chs)) by (rewrite He; reflexivity).
    destruct (Forall2_lookup_r _ _ _ _ _ Hf Hlk) as (x & _ & Ha & _).
    destruct (Ha tt demo_remote chs eq_refl) as (ch & Hl & _ & Hr).
    exists c0, c1, chs0, chs1, chs, ch. split; [exact He|]. split; [exact Hl|exact Hr].
Defined.
