(* ===== verification/GatewayPath.v ===== *)
(** * Requests to the gateway, end to end

    The path of a request from a connection of a gateway server to a pod: the
    routes of a virtual service ([Gateway]), the service port and endpoint the
    load balancer chooses ([LoadBalancer]) and the network or the tunnel
    ([EndToEnd]).  The load balancer is shared by all connections, so every
    request finds a state of its own.  A client may keep its connection: then the
    loop of [HTTP.Process] and the goroutines that copy to the pods of earlier
    requests read from it at the same time, and a run is a sequence of the steps
    of all of them. *)

From Stdlib Require Import ZArith Lia Ascii String.
From stdpp Require Import base list gmap strings option relations.
From S2P Require Import Prelude GoStrings GoNet Config NetUtil ProtoWire Messages TunnelUtil Tunnel TunnelProto.
From S2P Require Import LbUtil LbPolicy LoadBalancer LbInvariant LbConnect LbSync ProxySocket EndToEnd.
From S2P Require Import GatewayIPs Gateway GatewayServers.

Local Open Scope Z_scope.

Section gateway.
Context {MA ID : Type} `{Multiaddr MA} `{Identity ID} `{RangeOrder}.
Context (info_String : AddrInfo MA ID -> string).
Context {R : Type} `{HashRingSpec R}.
Context {Conn : Type}.
Context (Header_Get : request -> string -> string).
Context (ReadRequest : Conn -> Conn * result request).
Context (RemoteAddr : Conn -> string).
Context (Request_Write : request -> result (list Z)).
Context (Conn_Write : connection (MA:=MA) (ID:=ID) -> list Z -> result unit).
Context (regexp : string -> option (string -> bool)).
Implicit Types lb : LoadBalancer R.

Abbreviation net := (network info_String (R:=R)).
Abbreviation conn_to_pod := (connection (MA:=MA) (ID:=ID)).

(** What a call of the gateway finds: the load balancer, and what the peers do
    during its attempts to connect. *)
Record surroundings : Type := mkSurroundings {
  s_balancer : LoadBalancer R;
  s_networks : list net
}.

(** The calls of [TCP.Process] on the client's connection [conn]. *)
Definition find_port (x : surroundings) (m : service_meta) : option ServicePortName :=
  GetServicePortName (s_balancer x) (mkNN (SvcNamespace m) (SvcName m)) (SvcPort m).

(** The connection, with the choices that led to it. *)
Definition connect_port (conn : Conn) (x : surroundings) (sp : ServicePortName) (req : option request)
  : go (result (conn_to_pod * list (choice (R:=R)))) :=
  let! (_, _, choices, r) :=
    TryConnectEndpoints Header_Get ReadRequest RemoteAddr Request_Write (connection_Write Conn_Write)
      (map (attempt_of info_String) (s_networks x)) (s_balancer x) sp (Some (RemoteAddr conn)) "tcp" (Some conn) req in
  Val (match r with Ok c => Ok (c, choices) | Err e => Err e end).

Definition gateway_TCP (conn : Conn) := TCP_Process find_port (connect_port conn).
Definition gateway_HTTP (conn : Conn) := HTTP_Process regexp find_port (connect_port conn).

(** ** What is sent to the endpoint *)

Lemma dialEndpoint_sent lb (n : net) protocol ep c :
  dialEndpoint lb (attempt_of info_String n) protocol ep = Ok c -> c_sent c = [].
Proof.
  unfold dialEndpoint. cbn. intros Hd. repeat case_match; by simplify_eq.
Qed.

(** The bytes of a request, as far as it can be written down. *)
Definition request_bytes (q : request) : list Z := match Request_Write q with Ok b => b | Err _ => [] end.

Lemma forward_sent lb (n : net) protocol ep c0 q c :
  dialEndpoint lb (attempt_of info_String n) protocol ep = Ok c0 ->
  forward_request Request_Write (connection_Write Conn_Write) c0 (Some q) = Ok c -> c_sent c = request_bytes q.
Proof.
  intros Hd. apply dialEndpoint_sent in Hd. unfold forward_request, request_bytes, connection_Write.
  destruct (Request_Write q) as [b|]; [|by intros [= <-]]. destruct (Conn_Write c0 b); [|done]. intros [= <-]. cbn. by rewrite Hd.
Qed.

(** ** Where a request goes *)

(** A service port of the load balancer that belongs to the service and has the
    number the route names. *)
Definition port_of_service lb (m : service_meta) (sp : ServicePortName) : Prop :=
  spn_name sp = mkNN (SvcNamespace m) (SvcName m) /\
  exists info, serviceMap lb !! sp = Some info /\ portal_port (si_portal info) = SvcPort m.

Lemma find_port_sound x m sp : find_port x m = Some sp -> port_of_service (s_balancer x) m sp.
Proof.
  unfold find_port, GetServicePortName. destruct (List.find _ _) as [[sp' info]|] eqn:Ef; [|done]. intros [= <-].
  apply find_some in Ef as [Hin Hb]. apply list_elem_of_In, elem_of_range in Hin.
  apply andb_true_iff in Hb as [Hn Hport]. apply bool_decide_eq_true in Hn. zbool. split; [done|]. by exists info.
Qed.

Section steps.
Context (ShouldSkipService : Service -> bool).
Context (ParseIPSloppy : string -> list Z).
Context (LoadBalancerStatusEqual : list (string * string) -> list (string * string) -> bool).
Abbreviation reachable_lb config :=
  (reachable ShouldSkipService ParseIPSloppy LoadBalancerStatusEqual Header_Get ReadRequest RemoteAddr config).
Abbreviation lb_steps :=
  (rtc (lb_step ShouldSkipService ParseIPSloppy LoadBalancerStatusEqual Header_Get ReadRequest RemoteAddr)).

(** The load balancer is in a reachable state, and other goroutines only do
    operations of it. *)
Definition surroundings_ok (config : LbConfig) (x : surroundings) : Prop :=
  reachable_lb config (s_balancer x) /\
  Forall (others_step info_String Header_Get ReadRequest RemoteAddr ShouldSkipService ParseIPSloppy LoadBalancerStatusEqual)
    (s_networks x).

Lemma connect_port_reaches config conn x sp q c choices :
  connect_port conn x sp (Some q) = Val (Ok (c, choices)) -> surroundings_ok config x ->
  (exists ch, last choices = Some ch /\ lb_steps (s_balancer x) (ch_state ch) /\ reaches sp ch "tcp" c) /\
  c_sent c = request_bytes q.
Proof.
  unfold connect_port, TryConnectEndpoints. intros Hc [Hr Ho].
  apply go_bind_Val_inv in Hc as ([[[lb' conn'] chs] r] & Ht & Hc). destruct r as [c'|]; [|done]. injection Hc as -> ->.
  apply try_connect_run in Ht.
  destruct (run_reaches _ _ _ _ _ _ _ _ _ _ _ _ _ _ _ _ _ _ _ _ _ _ Ht eq_refl (reachable_ok _ _ _ _ _ _ _ _ Hr) Ho)
    as (_ & Hch & Hre). rewrite list.Forall_forall in Hch. split.
  - destruct (Hre c eq_refl) as (ch & Hl & Hrc). exists ch. split; [done|]. split; [|done].
    apply Hch. by apply last_Some_elem_of.
  - destruct (connect_run_dialled _ _ _ _ _ _ _ _ _ _ _ _ _ _ _ _ _ Ht)
      as (failed & ch & a & ep & out0 & req' & _ & _ & Ha & _ & Hd & Hf & Hq).
    rewrite (Hq q eq_refl) in Hf. apply list_lookup_fmap_Some in Ha as (n & -> & _). by eapply forward_sent.
Qed.

(** When the first choice is made, the service port has endpoints and they
    answer. *)
Definition port_answers (conn : Conn) (x : surroundings) (sp : ServicePortName) : Prop :=
  (exists a, SplitHostPort (RemoteAddr conn) = Ok a) /\
  exists n nets, s_networks x = n :: nets /\ ServiceHasEndpoints (n_others _ n (s_balancer x)) sp = true /\
    answers info_String sp (n_others _ n (s_balancer x)) "tcp" n.

Lemma connect_port_served config conn x sp req r :
  connect_port conn x sp req = Val r -> surroundings_ok config x -> port_answers conn x sp ->
  (forall c b, Conn_Write c b = Ok tt) -> exists c, r = Ok c.
Proof.
  unfold connect_port, TryConnectEndpoints. intros Hc [Hr Ho] (Ha & n & nets & Hn & He & Hans) Hw.
  apply go_bind_Val_inv in Hc as ([[[lb' conn'] chs] r'] & Ht & [= <-]). rewrite Hn in Ht, Ho.
  apply Forall_cons in Ho as [Ho _]. apply try_connect_run in Ht.
  assert (Hok : lb_ok (n_others _ n (s_balancer x))) by (eapply steps_ok; [apply Ho|by eapply reachable_ok]).
  destruct (run_served _ _ _ _ _ _ _ _ _ _ _ _ _ _ _ _ _ _ _ Ht Hok Ha Hw) as (ch & _ & Hst & Hp).
  rewrite Hst in Hp. destruct (Hp He Hans) as [c ->]. by eexists.
Qed.

(** A request that the virtual service accepts and routes to a port whose
    endpoints answer. *)
Definition read_served (vs : VirtualService) (conn : Conn) (req : request) (x : surroundings) : Prop :=
  exists m sp, checkHost (Some vs) (req_Host req) = Val (Ok tt) /\
    Gateway.route regexp (Some vs) (RequestURI req) = Val (Ok m) /\ find_port x m = Some sp /\ port_answers conn x sp.

Abbreviation event := (conn_event ServicePortName (conn_to_pod * list (choice (R:=R)))).

Lemma gateway_HTTP_served config vs conn meta req x evs :
  gateway_HTTP conn (Some vs) meta [(Ok req, x)] = Val evs -> surroundings_ok config x ->
  (forall c b, Conn_Write c b = Ok tt) -> read_served vs conn req x -> exists sp c, evs = [Proxy sp (Some req) c].
Proof.
  unfold gateway_HTTP. cbn [HTTP_Process]. intros Hp Hx Hw (m & sp & Hh & Hr & Hf & Ha).
  cbn [mbind go_bind] in Hp. rewrite Hh, Hr in Hp. cbn [mbind go_bind] in Hp.
  apply go_bind_Val_inv in Hp as (evs1 & Hevs & [= <-]). unfold TCP_Process in Hevs. rewrite Hf in Hevs.
  apply go_bind_Val_inv in Hevs as (r & Hc & Hevs).
  destruct (connect_port_served _ _ _ _ _ _ Hc Hx Ha Hw) as [c ->]. injection Hevs as <-. by exists sp, c.
Qed.

(** ** A connection that is kept

    After it has proxied a request, [HTTP.Process] reads the next one from the
    same connection, which the goroutine of [ProxyConn] for the pod of that
    request reads, too.  What the client sends comes in segments, each of which
    one of them takes. *)

(** When the bytes read so far are a request, or an error of [http.ReadRequest];
    [None] if it waits for more.  The body is part of the request here, though it
    is read only when the request is written to the pod. *)
Context (parse : list Z -> option (result request)).

(** Who took a segment: the loop, the goroutine that copies to the [i]-th pod, or
    that goroutine in vain, when the pod did not take it. *)
Inductive reader : Type := ByLoop | ByCopier (i : nat) | LostBy (i : nat).

(** A connection to a pod, with the bytes of the request it was opened for, the
    request, what was found then, and the choices that were made. *)
Record backend : Type := mkBackend {
  b_bytes : list Z;
  b_request : request;
  b_around : surroundings;
  b_port : ServicePortName;
  b_choices : list (choice (R:=R));
  b_conn : conn_to_pod
}.

(** Where the loop is: it has read some bytes of a request, it has read one, or it
    has returned. *)
Inductive loop_state : Type :=
| Reading (buf : list Z)
| Processing (buf : list Z) (req : request)
| Returned.

(** What the client sent and nobody has read, what was read, by whom and in
    which order, the loop, the pods connected to, the requests handled by the
    loop, and whether the client's connection is open. *)
Record kept : Type := mkKept {
  incoming : list (list Z);
  readings : list (reader * list Z);
  loop : loop_state;
  backends : list backend;
  handled : list (list Z * request * surroundings * list event);
  is_open : bool
}.

Definition backend_of (buf : list Z) (req : request) (x : surroundings) (ev : event) : option backend :=
  match ev with Proxy sp _ (c, chs) => Some (mkBackend buf req x sp chs c) | CloseConn => None end.

Definition set_conn (b : backend) (c : conn_to_pod) : backend :=
  mkBackend (b_bytes b) (b_request b) (b_around b) (b_port b) (b_choices b) c.

Definition closes (evs : list event) : bool := existsb (fun ev => match ev with CloseConn => true | _ => false end) evs.

Section kept_steps.
Context (config : LbConfig) (vs : VirtualService) (conn : Conn) (meta : service_meta).

Inductive kept_step : kept -> kept -> Prop :=
| client_sends seg inc rd l bs hs o :
    kept_step (mkKept inc rd l bs hs o) (mkKept (inc ++ [seg]) rd l bs hs o)
| loop_reads seg inc rd buf bs hs :
    parse buf = None ->
    kept_step (mkKept (seg :: inc) rd (Reading buf) bs hs true)
      (mkKept inc (rd ++ [(ByLoop, seg)]) (Reading (buf ++ seg)) bs hs true)
| loop_parses inc rd buf req bs hs o :
    parse buf = Some (Ok req) ->
    kept_step (mkKept inc rd (Reading buf) bs hs o) (mkKept inc rd (Processing buf req) bs hs o)
| loop_fails inc rd buf bs hs o :
    (o = false \/ inc = [] \/ exists e, parse buf = Some (Err e)) ->
    kept_step (mkKept inc rd (Reading buf) bs hs o) (mkKept inc rd Returned bs hs false)
| loop_handles inc rd buf req bs hs o x evs :
    surroundings_ok config x -> gateway_HTTP conn (Some vs) meta [(Ok req, x)] = Val evs ->
    kept_step (mkKept inc rd (Processing buf req) bs hs o)
      (mkKept inc rd (if closes evs then Returned else Reading []) (bs ++ omap (backend_of buf req x) evs)
         (hs ++ [(buf, req, x, evs)]) (o && negb (closes evs)))
| copier_reads i seg inc rd l bs hs b c :
    bs !! i = Some b -> connection_Write Conn_Write (b_conn b) seg = Ok c ->
    kept_step (mkKept (seg :: inc) rd l bs hs true)
      (mkKept inc (rd ++ [(ByCopier i, seg)]) l (<[i := set_conn b c]> bs) hs true)
| copier_fails i seg inc rd l bs hs b e :
    bs !! i = Some b -> connection_Write Conn_Write (b_conn b) seg = Err e ->
    kept_step (mkKept (seg :: inc) rd l bs hs true) (mkKept inc (rd ++ [(LostBy i, seg)]) l bs hs false)
| conn_closes inc rd l bs hs o : kept_step (mkKept inc rd l bs hs o) (mkKept inc rd l bs hs false).

(** A connection that was accepted, of which nothing is read. *)
Definition kept_start : kept := mkKept [] [] (Reading []) [] [] true.

(** The bytes that a reader took. *)
Definition read_by (p : reader -> bool) (rd : list (reader * list Z)) : list Z :=
  concat ((List.filter (fun x => p x.1) rd).*2).
#[local] Arguments read_by : simpl never.

Definition is_loop (r : reader) : bool := match r with ByLoop => true | _ => false end.
Definition is_copier (i : nat) (r : reader) : bool := match r with ByCopier j => Nat.eqb i j | _ => false end.

Lemma read_by_snoc p rd r seg : read_by p (rd ++ [(r, seg)]) = read_by p rd ++ (if p r then seg else []).
Proof.
  unfold read_by. rewrite List.filter_app, fmap_app, concat_app. cbn. destruct (p r); cbn; by rewrite ?app_nil_r.
Qed.

(** The bytes of the request that the loop is at. *)
Definition loop_bytes (l : loop_state) : list Z := match l with Reading buf | Processing buf _ => buf | Returned => [] end.

(** A request that was read was routed by the virtual service to a service port,
    and a connection made to an endpoint of it. *)
Definition routed (b : backend) : Prop :=
  exists rt m ch, parse (b_bytes b) = Some (Ok (b_request b)) /\
    checkHost (Some vs) (req_Host (b_request b)) = Val (Ok tt) /\
    List.find (route_hits regexp (RequestURI (b_request b))) (Http vs) = Some rt /\ route_target vs rt = Val m /\
    port_of_service (s_balancer (b_around b)) m (b_port b) /\
    last (b_choices b) = Some ch /\ lb_steps (s_balancer (b_around b)) (ch_state ch) /\ reaches (b_port b) ch "tcp" (b_conn b).

(** What was sent to a pod: the request it was opened for, then what was copied. *)
Definition sent_ok (rd : list (reader * list Z)) (i : nat) (b : backend) : Prop :=
  c_sent (b_conn b) = request_bytes (b_request b) ++ read_by (is_copier i) rd.

(** The number of a reader, which is below the number of pods. *)
Definition reader_ok (n : nat) (r : reader) : Prop :=
  match r with ByLoop => True | ByCopier i | LostBy i => (i < n)%nat end.

(** The requests of the loop are what it read, up to where it returned. *)
Definition loop_account (k : kept) : Prop :=
  (exists rest, read_by is_loop (readings k) = concat ((fun h => h.1.1.1) <$> handled k) ++ loop_bytes (loop k) ++ rest /\
     (loop k <> Returned -> rest = [])) /\
  Forall (fun h => parse h.1.1.1 = Some (Ok h.1.1.2) /\
    ((forall c b, Conn_Write c b = Ok tt) -> read_served vs conn h.1.1.2 h.1.2 -> exists sp c, h.2 = [Proxy sp (Some h.1.1.2) c]))
    (handled k) /\
  match loop k with Processing buf req => parse buf = Some (Ok req) | _ => True end.

(** No segment is read by a goroutine before the loop has read one. *)
Definition loop_first (k : kept) : Prop :=
  (backends k <> [] -> handled k <> []) /\ (readings k <> [] -> exists seg, head (readings k) = Some (ByLoop, seg)) /\
  (handled k <> [] -> readings k <> []).

Record kept_inv (k : kept) : Prop := mkKeptInv {
  inv_routed : Forall routed (backends k);
  inv_sent : forall i b, backends k !! i = Some b -> sent_ok (readings k) i b;
  inv_readers : Forall (fun x => reader_ok (length (backends k)) x.1) (readings k);
  inv_account : loop_account k;
  inv_first : loop_first k
}.
Hypothesis parse_nil : parse [] = None.

(** The loop has read what it handled. *)
Lemma handled_readings k : loop_account k -> handled k <> [] \/ loop_bytes (loop k) <> [] -> readings k <> [].
Proof.
  intros [(rest & Hr & _) [Hh _]] Hne He. rewrite He in Hr. unfold read_by in Hr. cbn in Hr.
  symmetry in Hr. apply app_eq_nil in Hr as [Hc [Hl _]%app_eq_nil]. destruct Hne as [Hne|Hne]; [|done].
  destruct (handled k) as [|[[[buf req] x] evs] hs]; [done|]. cbn in Hc. apply app_eq_nil in Hc as [-> _].
  inversion Hh as [|? ? [Hp _] _]. cbn in Hp. rewrite parse_nil in Hp. done.
Qed.

Lemma kept_start_inv : kept_inv kept_start.
Proof.
  constructor; cbn; [done|done|done| |done]. split; [|done]. exists []. done.
Qed.

Lemma gateway_HTTP_backend buf req x evs :
  surroundings_ok config x -> gateway_HTTP conn (Some vs) meta [(Ok req, x)] = Val evs ->
  parse buf = Some (Ok req) ->
  Forall (fun b => routed b /\ c_sent (b_conn b) = request_bytes (b_request b)) (omap (backend_of buf req x) evs).
Proof.
  intros Hx Hg Hp. apply list.Forall_forall. intros b (ev & Hev & Hb)%list_elem_of_omap.
  destruct ev as [|sp r [c chs]]; [done|]. injection Hb as <-.
  destruct (HTTP_Process_proxies _ _ _ _ _ _ _ _ _ _ Hg Hev) as (req' & x' & m & -> & Hin & Hc & Hr & Hf & Ht).
  apply list_elem_of_singleton in Hin as [= -> ->].
  destruct (connect_port_reaches _ _ _ _ _ _ _ Ht Hx) as [(ch & Hl & Hs & Hre) Hse].
  rewrite route_by_find in Hr. destruct (List.find _ _) as [rt|] eqn:Ef; [|done].
  apply go_bind_Val_inv in Hr as (t & Ht' & [= ->]). split; [|done].
  exists rt, m, ch. cbn. split_and!; try done. by apply find_port_sound.
Qed.

Lemma reader_ok_mono n n' r : (n <= n')%nat -> reader_ok n r -> reader_ok n' r.
Proof. destruct r; cbn; lia. Qed.

(** A pod that has just been connected to has been copied nothing. *)
Lemma read_by_fresh i n rd :
  Forall (fun x => reader_ok n x.1) rd -> (n <= i)%nat -> read_by (is_copier i) rd = [].
Proof.
  intros Hr Hi. unfold read_by. induction Hr as [|[r seg] rd Hx _ IH]; [done|]. cbn in *.
  destruct r as [|j|j]; cbn in *; [done| |done]. destruct (Nat.eqb_spec i j); [lia|done].
Qed.

(** Steps that leave the pods, the readings and the requests alone. *)
Lemma kept_inv_same inc inc' rd l l' bs hs o o' :
  kept_inv (mkKept inc rd l bs hs o) -> loop_account (mkKept inc' rd l' bs hs o') -> kept_inv (mkKept inc' rd l' bs hs o').
Proof. intros [? ? ? ? ?] ?. by constructor. Qed.

Lemma loop_handles_inv inc rd buf req bs hs o x evs :
  surroundings_ok config x -> gateway_HTTP conn (Some vs) meta [(Ok req, x)] = Val evs ->
  kept_inv (mkKept inc rd (Processing buf req) bs hs o) ->
  kept_inv (mkKept inc rd (if closes evs then Returned else Reading []) (bs ++ omap (backend_of buf req x) evs)
              (hs ++ [(buf, req, x, evs)]) (o && negb (closes evs))).
Proof.
  intros Hx Hg [Hr Hs Hrd Ha Hf]. pose proof Ha as [(rest & Hacc & Hrest) [Hh Hp]]. cbn in *.
  pose proof (gateway_HTTP_backend buf req x evs Hx Hg Hp) as Hnew. constructor; cbn.
  - apply Forall_app. split; [done|]. eapply Forall_impl; [exact Hnew|]. by intros ? [? _].
  - intros i b Hi. destruct (decide (i < length bs)%nat) as [Hlt|Hge]; [rewrite lookup_app_l in Hi by done; by apply Hs|].
    rewrite lookup_app_r in Hi by lia. rewrite list.Forall_forall in Hnew.
    destruct (Hnew b) as [_ Hsent]; [by eapply list_elem_of_lookup_2|].
    unfold sent_ok. rewrite (read_by_fresh i (length bs)) by (done || lia). by rewrite app_nil_r.
  - eapply Forall_impl; [exact Hrd|]. intros y. apply reader_ok_mono. rewrite length_app. lia.
  - split; [exists []|split].
    + cbn. rewrite Hacc, (Hrest ltac:(done)), fmap_app, concat_app. cbn. split; [|done].
      rewrite !app_nil_r. destruct (closes evs); cbn; by rewrite ?app_nil_r.
    + apply Forall_app. split; [done|]. apply Forall_singleton. cbn. split; [done|]. intros Hw Hrs.
      exact (gateway_HTTP_served config vs conn meta req x evs Hg Hx Hw Hrs).
    + cbn. by destruct (closes evs).
  - destruct Hf as (Hb & Hhd & _). split; [by destruct hs|]. split; [done|]. intros _.
    apply (handled_readings _ Ha). right. cbn. intros ->. by rewrite parse_nil in Hp.
Qed.

Lemma copier_reads_inv i seg inc rd l bs hs b c o :
  bs !! i = Some b -> connection_Write Conn_Write (b_conn b) seg = Ok c ->
  kept_inv (mkKept (seg :: inc) rd l bs hs o) ->
  kept_inv (mkKept inc (rd ++ [(ByCopier i, seg)]) l (<[i := set_conn b c]> bs) hs o).
Proof.
  intros Hi Hw [Hr Hs Hrd Ha Hf]. cbn in *. pose proof (lookup_lt_Some _ _ _ Hi) as Hlt.
  assert (Hc : c_route c = c_route (b_conn b) /\ c_sent c = c_sent (b_conn b) ++ seg).
  { unfold connection_Write in Hw. destruct (Conn_Write _ _); [|done]. by injection Hw as <-. }
  destruct Hc as [Hroute Hsent]. rewrite list.Forall_forall in Hr. constructor; cbn.
  - apply Forall_insert; [by apply list.Forall_forall|].
    destruct (Hr b) as (rt & m & ch & ? & ? & ? & ? & ? & ? & ? & (s & ep & ? & ? & ? & Hrt)); [by eapply list_elem_of_lookup_2|].
    exists rt, m, ch. split_and!; try done. exists s, ep. split_and!; try done. cbn. by rewrite Hroute.
  - intros j b' Hj. unfold sent_ok. rewrite read_by_snoc. destruct (decide (i = j)) as [<-|Hne].
    + rewrite list_lookup_insert_eq in Hj by done. injection Hj as <-. cbn. rewrite Nat.eqb_refl, Hsent, (Hs i b Hi).
      by rewrite <- (assoc_L (++)).
    + rewrite list_lookup_insert_ne in Hj by done. cbn. rewrite (proj2 (Nat.eqb_neq j i)) by done. rewrite app_nil_r. by apply Hs.
  - rewrite length_insert. apply Forall_app. split; [done|]. by apply Forall_singleton.
  - destruct Ha as [(rest & Hacc & Hrest) Ha]. split; [|exact Ha]. exists rest. cbn. rewrite read_by_snoc. cbn. by rewrite app_nil_r.
  - destruct Hf as (Hb & Hhd & Hne). assert (Hbs : bs <> []) by (by intros ->). split; [intros _; by apply Hb|]. cbn.
    assert (Hrdn : rd <> []) by (by apply Hne, Hb). split; [|intros _; by destruct rd]. intros _.
    destruct (Hhd Hrdn) as [s0 Hs0]. exists s0. by destruct rd.
Qed.

Lemma copier_fails_inv i seg inc rd l bs hs b o o' :
  bs !! i = Some b -> kept_inv (mkKept (seg :: inc) rd l bs hs o) ->
  kept_inv (mkKept inc (rd ++ [(LostBy i, seg)]) l bs hs o').
Proof.
  intros Hi [Hr Hs Hrd Ha Hf]. cbn in *. pose proof (lookup_lt_Some _ _ _ Hi) as Hlt. constructor; cbn; [done| | | |].
  - intros j b' Hj. unfold sent_ok. rewrite read_by_snoc. cbn. rewrite app_nil_r. by apply Hs.
  - apply Forall_app. split; [done|]. by apply Forall_singleton.
  - destruct Ha as [(rest & Hacc & Hrest) Ha]. split; [|exact Ha]. exists rest. cbn. rewrite read_by_snoc. cbn. by rewrite app_nil_r.
  - destruct Hf as (Hb & Hhd & Hne). assert (Hbs : bs <> []) by (by intros ->). split; [done|]. cbn.
    assert (Hrdn : rd <> []) by (by apply Hne, Hb). split; [|intros _; by destruct rd]. intros _.
    destruct (Hhd Hrdn) as [s0 Hs0]. exists s0. by destruct rd.
Qed.

Lemma loop_reads_inv seg inc rd buf bs hs o :
  kept_inv (mkKept (seg :: inc) rd (Reading buf) bs hs o) ->
  kept_inv (mkKept inc (rd ++ [(ByLoop, seg)]) (Reading (buf ++ seg)) bs hs o).
Proof.
  intros [Hr Hs Hrd Ha Hf]. cbn in *. constructor; cbn; [done| | | |].
  - intros j b' Hj. unfold sent_ok. rewrite read_by_snoc. cbn. rewrite app_nil_r. by apply Hs.
  - apply Forall_app. split; [done|]. by apply Forall_singleton.
  - destruct Ha as [(rest & Hacc & Hrest) Ha]. split; [|exact Ha]. exists []. cbn in *. split; [|done].
    rewrite read_by_snoc, Hacc, Hrest by done. cbn. by rewrite !app_nil_r, <- (assoc_L (++)).
  - destruct Hf as (Hb & Hhd & Hne). split; [done|]. cbn. split; [|intros _; by destruct rd]. intros _.
    destruct rd as [|[r s0] rd]; [by exists seg|]. destruct Hhd as [s1 Hs1]; [done|]. exists s1. exact Hs1.
Qed.

Lemma kept_step_inv k k' : kept_step k k' -> kept_inv k -> kept_inv k'.
Proof.
  destruct 1 as [seg inc rd l bs hs o|seg inc rd buf bs hs _|inc rd buf req bs hs o Hp|inc rd buf bs hs o _|
                 inc rd buf req bs hs o x evs Hx Hg|i seg inc rd l bs hs b c Hi Hw|i seg inc rd l bs hs b e Hi _|inc rd l bs hs o];
    intros Hinv; pose proof (inv_account _ Hinv) as Ha.
  - by eapply kept_inv_same.
  - by apply loop_reads_inv.
  - eapply kept_inv_same; [exact Hinv|]. destruct Ha as [(rest & Hacc & Hrest) [Hh _]]. split; [|by split].
    exists rest. split; [done|]. intros _. by apply Hrest.
  - eapply kept_inv_same; [exact Hinv|]. destruct Ha as [(rest & Hacc & Hrest) [Hh _]]. split; [|by split].
    exists buf. cbn in *. rewrite Hacc, Hrest by done. by rewrite app_nil_r.
  - by apply loop_handles_inv.
  - by eapply copier_reads_inv.
  - by eapply copier_fails_inv.
  - by eapply kept_inv_same.
Qed.

Lemma kept_steps_inv k : rtc kept_step kept_start k -> kept_inv k.
Proof.
  intros Hs. pose proof kept_start_inv as Hi. revert Hs Hi. generalize kept_start. intros k0 Hs.
  induction Hs as [|k1 k2 k3 Hstep _ IH]; [done|]. intros Hi. by eapply IH, kept_step_inv.
Qed.

(** Once a request is proxied, all that the client sends later may be copied to its
    pod, whatever the hosts and paths of the requests in it. *)
Lemma later_requests_bypass_routing later rd l b bs hs :
  (forall c seg, Conn_Write c seg = Ok tt) ->
  exists c, rtc kept_step (mkKept later rd l (b :: bs) hs true)
    (mkKept [] (rd ++ ((fun seg => (ByCopier 0, seg)) <$> later)) l (set_conn b c :: bs) hs true) /\
    c_sent c = c_sent (b_conn b) ++ concat later.
Proof.
  intros Hw. revert rd b. induction later as [|seg later IH]; intros rd b.
  - exists (b_conn b). cbn. rewrite !app_nil_r. split; [|done]. by destruct b.
  - set (c := mkConnection (c_route (b_conn b)) (c_sent (b_conn b) ++ seg)).
    destruct (IH (rd ++ [(ByCopier 0, seg)]) (set_conn b c)) as (c' & Hs & Hc). exists c'. split.
    + eapply rtc_l; [apply (copier_reads 0%nat seg later rd l (b :: bs) hs b c); [done|]; unfold connection_Write; by rewrite Hw|].
      cbn. rewrite <- (assoc_L (++)) in Hs. exact Hs.
    + rewrite Hc. cbn. by rewrite <- (assoc_L (++)).
Qed.
End kept_steps.

(** C4. What becomes of a connection that an HTTP server of the gateway serves,
    while the load balancer goes from one reachable state to another, and the loop
    of [HTTP.Process] and the goroutines that copy to the pods take what the client
    sends in any order.
    A pod is only ever connected to for a request that the loop read: the virtual
    service is one of the cache that names this gateway first and has exactly the
    hosts of the server, it accepts the host of that request, the service port has
    the number and belongs to the service that the first matching route names, and
    the connection leads, directly or through the tunnel (see C3 for addresses), to
    an endpoint that the service port had when it was chosen.  To a pod are sent
    the bytes of the request it was connected to for, as far as it can be written,
    and then exactly what its goroutine copied; what the loop read are the requests
    it handled and the one it is at.  The first that the client sends is always read
    by the loop, but what it sends after a request was proxied may be copied to the
    pod of that request and is then not routed (see
    [later_requests_bypass_routing]).  And a request that the loop reads, that is
    accepted and routed to a port whose endpoints answer, is proxied. *)
Theorem request_reaches_service config vss opts vs conn meta k :
  parse [] = None -> newProto vss opts = Val (Ok (HTTP vs)) -> rtc (kept_step config vs conn meta) kept_start k ->
  (exists key, vss !! key = Some vs) /\ head (Gateways vs) = Some (GwName opts) /\ Hosts vs = opt_Hosts opts /\
  (forall i b, backends k !! i = Some b -> routed vs b /\
     c_sent (b_conn b) = request_bytes (b_request b) ++ read_by (is_copier i) (readings k)) /\
  (exists rest, read_by is_loop (readings k) = concat ((fun h => h.1.1.1) <$> handled k) ++ loop_bytes (loop k) ++ rest /\
     (loop k <> Returned -> rest = [])) /\
  (readings k <> [] -> exists seg, head (readings k) = Some (ByLoop, seg)) /\
  forall buf req x evs, (buf, req, x, evs) ∈ handled k -> parse buf = Some (Ok req) /\
    ((forall c b, Conn_Write c b = Ok tt) -> read_served vs conn req x -> exists sp c, evs = [Proxy sp (Some req) c]).
Proof.
  intros Hnil Hn Hs. destruct (newProto_sound _ _ _ Hn) as (key & vs' & Hk & Hg & Hh & [[= <-]|(? & ? & _ & [=])]).
  destruct (kept_steps_inv _ _ _ _ Hnil _ Hs) as [Hr Hse _ [Hacc [Hhd _]] [_ [Hf _]]].
  split; [by exists key|]. split; [done|]. split; [done|]. split; [|split; [done|split; [done|]]].
  - intros i b Hb. split; [|by apply Hse]. rewrite list.Forall_forall in Hr. apply Hr. by eapply list_elem_of_lookup_2.
  - intros buf req x evs Hin. rewrite list.Forall_forall in Hhd. exact (Hhd _ Hin).
Qed.
End steps.
End gateway.

(** ** A concrete run *)

(** The service of [LbSync] with the pods of [EndToEnd]. *)
Definition path_balancer : LoadBalancer list_ring :=
  get demo_synced (OnEndpointsAdd (fun _ l => l) demo_synced demo_pods).

Definition path_vs : VirtualService :=
  mkVirtualService "default" "shop" (Some ["shop.example"]) ["gw"]
    [mkHTTPRoute [Some (Exact "/admin")] [Some (mkDestination "admin" (Some 8080))];
     mkHTTPRoute [Some (Prefix "/cart")] [Some (mkDestination "web" (Some 80))]] [].
Definition path_vss : gmap string VirtualService := {[ "default.shop" := path_vs ]}.
Definition path_write (q : request) : result (list Z) := Ok (bytes_of_string (RequestURI q)).
Definition path_header (_ : request) (_ : string) : string := "".
Definition path_read (c : unit) : unit * result request := (c, Err "EOF").
(** A request is any two bytes. *)
Definition path_parse (l : list Z) : option (result request) :=
  match l with _ :: _ :: _ => Some (Ok demo_request) | _ => None end.

Local Abbreviation pod_connection := (connection (MA:=string) (ID:=string)).

Definition path_around : surroundings demo_info (R:=list_ring) :=
  mkSurroundings demo_info path_balancer [demo_network id].

Local Abbreviation path_HTTP :=
  (gateway_HTTP demo_info path_header path_read demo_addr path_write (fun _ _ => Ok tt) demo_regexp tt (Some path_vs)
     (mkMeta "" "" 0) [(Ok demo_request, path_around)]).

Local Abbreviation path_step :=
  (kept_step demo_info path_header path_read demo_addr path_write (fun _ _ => Ok tt) demo_regexp
     never_skip parse_ip status_equal path_parse demo_config path_vs tt (mkMeta "" "" 0)).

Lemma path_balancer_reachable :
  reachable never_skip parse_ip status_equal path_header path_read demo_addr demo_config path_balancer.
Proof.
  apply rtc_l with (OnServiceSynced (New demo_config)); [constructor|].
  apply rtc_l with (OnEndpointsSynced (OnServiceSynced (New demo_config))); [constructor|].
  apply rtc_l with demo_added; [apply (step_service_change _ _ _ _ _ _ _ None (Some demo_service)); vm_compute; reflexivity|].
  apply rtc_l with (take_changes demo_added).1; [apply step_take; vm_compute; reflexivity|].
  apply rtc_l with demo_synced;
    [apply (step_process _ _ _ _ _ _ _ canonical_range 0 (take_changes demo_added).2); vm_compute; reflexivity|].
  apply rtc_once. apply (step_endpoints_add _ _ _ _ _ _ _ canonical_range (fun _ l => l) demo_pods).
  - done.
  - apply distinct_endpoints_dec. vm_compute. reflexivity.
  - intros p s. apply (map_Forall_lookup_1 (fun _ s => endpoints s = [])).
    apply (bool_decide_eq_true (map_Forall _ _)). vm_compute. reflexivity.
  - vm_compute. reflexivity.
Qed.

Lemma path_around_ok :
  surroundings_ok demo_info path_header path_read demo_addr never_skip parse_ip status_equal demo_config path_around.
Proof.
  split; [exact path_balancer_reachable|]. apply Forall_singleton. intros lb. apply rtc_refl.
Qed.

Definition path_events : list (conn_event ServicePortName (pod_connection * list (choice (R:=list_ring)))) :=
  match path_HTTP with Val evs => evs | Panic _ => [] end.

Definition path_pod : pod_connection * list (choice (R:=list_ring)) :=
  match path_events with Proxy _ _ c :: _ => c | _ => (mkConnection (Direct "" "") [], []) end.

Lemma path_events_eq : path_events = [Proxy demo_port (Some demo_request) path_pod].
Proof. vm_compute. reflexivity. Qed.

Definition path_backend : backend demo_info (R:=list_ring) :=
  mkBackend demo_info [1; 2] demo_request path_around demo_port path_pod.2 path_pod.1.

Definition path_copied : pod_connection :=
  mkConnection (c_route (b_conn _ path_backend)) (c_sent (b_conn _ path_backend) ++ [3]).

(** The client sends three segments: two make up a request, the third is copied to
    its pod. *)
Definition path_kept : kept demo_info (R:=list_ring) :=
  mkKept demo_info [] [(ByLoop, [1]); (ByLoop, [2]); (ByCopier 0, [3])] (Reading [])
    [set_conn demo_info path_backend path_copied] [([1; 2], demo_request, path_around, path_events)] true.

Lemma path_kept_run : rtc path_step (kept_start demo_info) path_kept.
Proof.
  eapply rtc_l; [apply client_sends with (seg := [1])|]. eapply rtc_l; [apply client_sends with (seg := [2])|].
  eapply rtc_l; [apply client_sends with (seg := [3])|]. cbn [app].
  eapply rtc_l; [apply loop_reads; reflexivity|]. eapply rtc_l; [apply loop_reads; reflexivity|].
  eapply rtc_l; [apply loop_parses with (req := demo_request); reflexivity|].
  eapply rtc_l; [apply loop_handles with (x := path_around) (evs := path_events); [exact path_around_ok|vm_compute; reflexivity]|].
  replace (closes path_events) with false by (by rewrite path_events_eq).
  replace (omap (backend_of demo_info ([1] ++ [2]) demo_request path_around) path_events) with [path_backend]
    by (rewrite path_events_eq; unfold path_backend; by destruct path_pod).
  apply rtc_once. apply copier_reads with (i := 0%nat) (b := path_backend) (c := path_copied); reflexivity.
Qed.

Lemma request_reaches_service_witness :
  exists b, backends demo_info path_kept !! 0%nat = Some b /\
    c_sent (b_conn demo_info b) = bytes_of_string "/cart/items" ++ [3] /\
    routed demo_info path_header path_read demo_addr demo_regexp never_skip parse_ip status_equal path_parse path_vs b.
Proof.
  destruct (request_reaches_service demo_info path_header path_read demo_addr path_write (fun _ _ => Ok tt) demo_regexp
    never_skip parse_ip status_equal path_parse demo_config path_vss demo_options path_vs tt (mkMeta "" "" 0) path_kept)
    as (_ & _ & _ & Hb & _).
  - reflexivity.
  - vm_compute. reflexivity.
  - exact path_kept_run.
  - exists (set_conn demo_info path_backend path_copied). split; [reflexivity|].
    destruct (Hb 0%nat (set_conn demo_info path_backend path_copied) eq_refl) as [Hr Hs].
    split; [|exact Hr]. refine (eq_trans Hs _). vm_compute. reflexivity.
Defined.
