(* ===== verification/Socks5.v ===== *)
(** * The SOCKS5 proxy

    [src/pkg/proxy/socks5_proxy.go]: parsing the client's messages from reads
    that return what has arrived, and handling connections by goroutines that
    share the parsed request, one step for every use of it. *)

From Stdlib Require Import ZArith Lia Ascii String.
From stdpp Require Import base list strings option.
From S2P Require Import Prelude GoStrings GoNet.

Local Open Scope Z_scope.

(** ** Connections

    What the client sent arrives in segments; a read returns at most one
    segment. *)
Record conn : Type := mkConn { segments : list (list Z); written : list (list Z); broken : bool }.

(** Fallible operations on a connection. *)
Definition io (A : Type) : Type := conn -> result A * conn.

#[export] Instance io_ret : MRet io := fun A a c => (Ok a, c).
#[export] Instance io_bind : MBind io := fun A B f m c =>
  match m c with
  | (Ok a, c') => f a c'
  | (Err e, c') => (Err e, c')
  end.

Definition io_fail {A} (e : string) : io A := fun c => (Err e, c).

(** [conn.Read] into a new buffer of [n] bytes: the buffer afterwards. *)
Definition Read (n : nat) : io (list Z) := fun c =>
  if (n =? 0)%nat then (Ok [], c) else
  match segments c with
  | [] => (Err "EOF", c)
  | seg :: segs =>
      let got := take n seg in
      (Ok (got ++ replicate (n - length got) 0),
       mkConn (match drop n seg with [] => segs | rest => rest :: segs end) (written c) (broken c))
  end.

Definition Write (b : list Z) : io unit := fun c =>
  if broken c then (Err "broken pipe", c) else (Ok tt, mkConn (segments c) (written c ++ [b]) (broken c)).

(** ** Parsing *)

Definition Version : Z := 5.
Definition DefaultMethod : Z := 0.
Definition Success : Z := 0.
Definition ATYPIPv4 : Z := 1.
Definition ATYPDomain : Z := 3.
Definition ATYPIPv6 : Z := 4.
Definition CmdConnect : Z := 1.
Definition DefaultResponse : list Z := [Version; Success; 0; 1; 0; 0; 0; 0; 0; 0].

Record Request : Type := mkRequest {
  req_Version : Z;
  Command : Z;
  Rsv : Z;
  AddressType : Z;
  DstAddr : string;
  DstPort : Z
}.

Definition handShake : io unit :=
  data ← Read 2;
  if negb (nth0 data 0 =? Version) then io_fail "invalid version" else
  if nth0 data 1 =? 0 then io_fail "method length error" else
  ms ← Read (Z.to_nat (nth0 data 1));
  if negb (existsb (Z.eqb DefaultMethod) ms) then io_fail "this method is not yet supported" else
  Write [Version; Success].

(** The destination address. *)
Definition read_host (atyp : Z) : io string :=
  if atyp =? ATYPIPv4 then addr ← Read 4; mret (IP_String addr)
  else if atyp =? ATYPIPv6 then addr ← Read 16; mret (IP_String addr)
  else if atyp =? ATYPDomain then
    dal ← Read 1;
    addr ← Read (Z.to_nat (nth0 dal 0));
    mret (string_of_bytes addr)
  else io_fail "destination address is incorrect".

Definition NewRequest : io Request :=
  data ← Read 4;
  if negb (nth0 data 0 =? Version) then io_fail "invalid version" else
  host ← read_host (nth0 data 3);
  port ← Read 2;
  mret (mkRequest (nth0 data 0) (nth0 data 1) (nth0 data 2) (nth0 data 3) host
          (Z.lor (nth0 port 1) (Z.shiftl (nth0 port 0) 8))).

(** The request of the shared handle is replaced when parsing succeeds. *)
Definition ParsingConnect (handle : Request) (c : conn) : result unit * Request * conn :=
  match (handShake ≫= fun _ => NewRequest) c with
  | (Ok r, c') => (Ok tt, r, c')
  | (Err e, c') => (Err e, handle, c')
  end.

(** ** Handling connections *)

Record pod : Type := mkPod { pod_Name : string; PodIP : string }.

Section handling.
(** The pods with the agent's label on a node, from the API server. *)
Context (ListPods : string -> result (list pod)).
(** [s.Config.NodeName] *)
Context (localNode : string).

Definition AgentPodName : string := "edgemesh-agent".

(** The last pod of the list whose name contains the agent's. *)
Definition getTargetIPByNodeName (nodeName : string) : result string :=
  match ListPods nodeName with
  | Err e => Err e
  | Ok pods =>
      fold_left (fun acc p => if Contains (pod_Name p) AgentPodName then Ok (PodIP p) else acc) pods
        (Err ("edgemesh agent not found on node [" +:+ nodeName +:+ "]"))
  end.

(** Where a connection is proxied, over TCP: node, address and port. *)
Record target : Type := mkTarget { t_host : string; t_ip : string; t_port : Z }.

(** [tunnel.Agent.GetProxyStream] *)
Context (GetProxyStream : target -> result unit).

(** The client is answered once there is a stream; if that fails it is proxied
    all the same.  Without a stream the connection is closed without an
    answer. *)
Definition proxyConnectToRemote (t : target) (c : conn) : option target * conn :=
  match GetProxyStream t with
  | Err _ => (None, c)
  | Ok _ => (Some t, (Write DefaultResponse c).2)
  end.

(** How far a goroutine that runs [HandleSocksProxy] is: each step but the first
    is one use of [s.SocksHandle.Request], which other goroutines may have
    replaced since the last.  Parsing is one step: up to the assignment at its
    end it touches only its own connection. *)
Inductive pc : Type :=
| Parse
| CheckType
| CheckAddr
| Lookup
| CheckCommand (targetIP : string)
| ReadHost (targetIP : string)
| ReadPort (targetIP host : string)
| Finished (proxied : option target).

Record thread : Type := mkThread { th_conn : conn; th_pc : pc }.

Definition thread_step (req : Request) (th : thread) : Request * thread :=
  let finish := mkThread (th_conn th) (Finished None) in
  let goto pc := mkThread (th_conn th) pc in
  match th_pc th with
  | Parse =>
      match ParsingConnect req (th_conn th) with
      | (Err _, req, c) => (req, mkThread c (Finished None))
      | (Ok _, req, c) => (req, mkThread c CheckType)
      end
  | CheckType => (req, if negb (AddressType req =? ATYPDomain) then finish else goto CheckAddr)
  | CheckAddr => (req, if String.eqb (DstAddr req) localNode then finish else goto Lookup)
  | Lookup =>
      (req, match getTargetIPByNodeName (DstAddr req) with
            | Err _ => finish
            | Ok ip => goto (CheckCommand ip)
            end)
  | CheckCommand ip => (req, if Command req =? CmdConnect then goto (ReadHost ip) else finish)
  | ReadHost ip => (req, goto (ReadPort ip (DstAddr req)))
  | ReadPort ip host =>
      let '(proxied, c) := proxyConnectToRemote (mkTarget host ip (DstPort req)) (th_conn th) in
      (req, mkThread c (Finished proxied))
  | Finished _ => (req, th)
  end.

(** The proxy: the shared request and the goroutines; a schedule says which
    goroutine runs next. *)
Record Socks5Proxy : Type := mkSocks5Proxy { handle : Request; threads : list thread }.

Definition run_thread (s : Socks5Proxy) (i : nat) : Socks5Proxy :=
  match threads s !! i with
  | None => s
  | Some th => let '(req, th') := thread_step (handle s) th in mkSocks5Proxy req (<[i := th']> (threads s))
  end.

Definition run_schedule (s : Socks5Proxy) (schedule : list nat) : Socks5Proxy := fold_left run_thread schedule s.

(** The goroutines that [Start] runs for accepted connections, and the request
    of a new proxy. *)
Definition Start (conns : list conn) : Socks5Proxy :=
  mkSocks5Proxy (mkRequest 0 0 0 0 "" 0) ((fun c => mkThread c Parse) <$> conns).
End handling.

(** ** Parsing decodes *)

(** The segments carry the fields, and no field is split between two. *)
Inductive aligned : list (list Z) -> list (list Z) -> Prop :=
| al_nil : aligned [] []
| al_cut f fs segs : f <> [] -> aligned fs segs -> aligned (f :: fs) (f :: segs)
| al_join f fs s segs : f <> [] -> s <> [] -> aligned fs (s :: segs) -> aligned (f :: fs) ((f ++ s) :: segs).

Lemma Read_aligned f fs segs :
  aligned (f :: fs) segs ->
  exists segs', aligned fs segs' /\
    forall n w b, n = length f -> Read n (mkConn segs w b) = (Ok f, mkConn segs' w b).
Proof.
  intros Ha.
  assert (Hread : forall s segs0 w b, f <> [] ->
    Read (length f) (mkConn ((f ++ s) :: segs0) w b) = (Ok f, mkConn (match s with [] => segs0 | _ => s :: segs0 end) w b)).
  { intros s segs0 w b Hf. unfold Read. destruct (Nat.eqb_spec (length f) 0) as [Hl|_].
    { by destruct f. }
    cbn [segments written broken]. rewrite take_app_length, drop_app_length, Nat.sub_diag. cbn.
    rewrite app_nil_r. by destruct s. }
  inversion Ha as [|? ? segs1 Hf Hfs|? ? s segs1 Hf Hs Hfs]; subst.
  - exists segs1. split; [done|]. intros n w b ->. rewrite <- (app_nil_r f) at 2. by apply Hread.
  - exists (s :: segs1). split; [done|]. intros n w b ->. rewrite Hread by done. by destruct s.
Qed.

(** Destinations as the client encodes them. *)
Inductive dest : Type := V4 (addr : list Z) | V6 (addr : list Z) | Domain (name : list Z).

Record wire_request : Type := mkWire { w_cmd : Z; w_rsv : Z; w_dest : dest; w_hi : Z; w_lo : Z }.

Definition dest_type (d : dest) : Z :=
  match d with V4 _ => ATYPIPv4 | V6 _ => ATYPIPv6 | Domain _ => ATYPDomain end.
Definition dest_fields (d : dest) : list (list Z) :=
  match d with V4 a | V6 a => [a] | Domain n => [[zlen n]; n] end.
Definition dest_host (d : dest) : string :=
  match d with V4 a | V6 a => IP_String a | Domain n => string_of_bytes n end.

Definition dest_ok (d : dest) : Prop :=
  match d with V4 a => length a = 4%nat | V6 a => length a = 16%nat | Domain n => 0 < zlen n < 256 end.

(** The messages of a client that offers [methods]. *)
Definition fields (methods : list Z) (w : wire_request) : list (list Z) :=
  [Version; zlen methods] :: methods :: [Version; w_cmd w; w_rsv w; dest_type (w_dest w)] ::
  dest_fields (w_dest w) ++ [[w_hi w; w_lo w]].

Definition request_of (w : wire_request) : Request :=
  mkRequest Version (w_cmd w) (w_rsv w) (dest_type (w_dest w)) (dest_host (w_dest w)) (256 * w_hi w + w_lo w).

Lemma io_bind_step {A B} (m : io A) (f : A -> io B) c a c' : m c = (Ok a, c') -> (m ≫= f) c = f a c'.
Proof. unfold mbind, io_bind. by intros ->. Qed.

Lemma read_host_aligned d rest segs :
  dest_ok d -> aligned (dest_fields d ++ rest) segs ->
  exists segs', aligned rest segs' /\
    forall w b, read_host (dest_type d) (mkConn segs w b) = (Ok (dest_host d), mkConn segs' w b).
Proof.
  intros Hd Ha. destruct d as [a|a|n]; cbn in Hd, Ha.
  1: change (read_host (dest_type (V4 a))) with (addr ← Read 4; mret (IP_String addr) : io string).
  2: change (read_host (dest_type (V6 a))) with (addr ← Read 16; mret (IP_String addr) : io string).
  1, 2: destruct (Read_aligned _ _ _ Ha) as (segs' & Hs & Hr); exists segs'; (split; [done|]); intros w b;
    by erewrite io_bind_step by (apply Hr; lia).
  destruct (Read_aligned _ _ _ Ha) as (segs1 & Ha1 & Hr1). destruct (Read_aligned _ _ _ Ha1) as (segs' & Hs & Hr).
  exists segs'. split; [done|]. intros w b.
  change (read_host (dest_type (Domain n))) with
    (dal ← Read 1; addr ← Read (Z.to_nat (nth0 dal 0)); mret (string_of_bytes addr) : io string).
  erewrite io_bind_step by (apply Hr1; done). erewrite io_bind_step; [done|]. apply Hr.
  cbn. unfold zlen. lia.
Qed.

(** C35. A client's greeting and request are parsed to the request it encodes,
    whatever the methods it offers besides the supported one, for all three
    kinds of addresses and however the fields are grouped into segments, as
    long as no field is split. *)
Theorem ParsingConnect_decodes methods w rest segs h :
  0 < zlen methods < 256 -> DefaultMethod ∈ methods -> dest_ok (w_dest w) ->
  is_u8 (w_hi w) -> is_u8 (w_lo w) ->
  aligned (fields methods w ++ rest) segs ->
  exists segs', aligned rest segs' /\
    ParsingConnect h (mkConn segs [] false) = (Ok tt, request_of w, mkConn segs' [[Version; Success]] false).
Proof.
  intros Hm Hin Hd Hhi Hlo Ha. cbn in Ha. rewrite <- (assoc_L (++)) in Ha.
  destruct (Read_aligned _ _ _ Ha) as (s1 & Ha1 & Hr1). destruct (Read_aligned _ _ _ Ha1) as (s2 & Ha2 & Hr2).
  destruct (Read_aligned _ _ _ Ha2) as (s3 & Ha3 & Hr3).
  destruct (read_host_aligned _ _ _ Hd Ha3) as (s4 & Ha4 & Hr4). destruct (Read_aligned _ _ _ Ha4) as (s5 & Ha5 & Hr5).
  exists s5. split; [done|]. unfold ParsingConnect, mbind, io_bind.
  assert (Hhs : handShake (mkConn segs [] false) = (Ok tt, mkConn s2 [[Version; Success]] false)).
  { unfold handShake. erewrite io_bind_step by (apply Hr1; done). cbn [nth0 nth negb Z.eqb Version Pos.eqb].
    destruct (Z.eqb_spec (zlen methods) 0) as [|_]; [lia|].
    erewrite io_bind_step by (apply Hr2; unfold zlen; lia).
    replace (existsb (Z.eqb DefaultMethod) methods) with true; [done|].
    symmetry. apply existsb_exists. exists DefaultMethod. split; [by apply list_elem_of_In|done]. }
  rewrite Hhs. unfold NewRequest. erewrite io_bind_step by (apply Hr3; done).
  cbn [nth0 nth negb Z.eqb Version Pos.eqb]. erewrite io_bind_step by (apply Hr4).
  erewrite io_bind_step by (apply Hr5; done). cbn [nth0 nth]. unfold request_of, mret, io_ret.
  repeat f_equal. rewrite Z.lor_comm, Z.shiftl_mul_pow2 by lia. unfold is_u8 in *.
  rewrite (lor_disjoint (w_hi w) (w_lo w) 8) by lia. lia.
Qed.

(** A request whose port arrives in two segments is accepted with a wrong port. *)
Lemma split_port_misread methods w hi lo h :
  methods = [DefaultMethod] -> w = mkWire CmdConnect 0 (Domain [110; 49]) hi lo ->
  ParsingConnect h (mkConn [take 11 (concat (fields methods w)); [lo]] [] false) =
    (Ok tt, mkRequest Version CmdConnect 0 ATYPDomain "n1" (Z.lor 0 (Z.shiftl hi 8)), mkConn [[lo]] [[Version; Success]] false).
Proof. intros -> ->. reflexivity. Qed.

(** ** The shared request *)

Section race.
Context (ListPods : string -> result (list pod)) (localNode : string) (GetProxyStream : target -> result unit).
Abbreviation step := (thread_step ListPods localNode GetProxyStream).
Abbreviation run := (run_schedule ListPods localNode GetProxyStream).
Abbreviation run1 := (run_thread ListPods localNode GetProxyStream).

(** The request on a connection, if it can be parsed. *)
Definition parsed (c : conn) : option Request :=
  match (handShake ≫= fun _ => NewRequest) c with (Ok r, _) => Some r | (Err _, _) => None end.

(** The shared request after goroutine [j] has run: a goroutine parses when it runs
    for the first time, and not if it is among those that have run before. *)
Definition then_parsed (conns : list conn) (seen : list nat) (h : Request) (j : nat) : Request :=
  if existsb (Nat.eqb j) seen then h else default h (conns !! j ≫= parsed).

Definition no_request_yet : Request := mkRequest 0 0 0 0 "" 0.

(** What goroutine [i] finds as the shared request, each time that it runs: the
    one that was parsed last, [h] at first. *)
Fixpoint finds_from (conns : list conn) (seen : list nat) (h : Request) (schedule : list nat) (i : nat) : list Request :=
  match schedule with
  | [] => []
  | j :: schedule' =>
      (if Nat.eqb j i then [h] else []) ++ finds_from conns (j :: seen) (then_parsed conns seen h j) schedule' i
  end.

Definition finds (conns : list conn) : list nat -> nat -> list Request := finds_from conns [] no_request_yet.

(** Where a connection is proxied whose handling finds these requests: it is checked
    with the first two after parsing, its address is looked up with the third, and
    node and port are taken from the last two. *)
Definition served (c : conn) (found : list Request) : option target :=
  match parsed c, found with
  | Some _, _ :: r1 :: r2 :: r3 :: r4 :: r5 :: r6 :: _ =>
      if negb (AddressType r1 =? ATYPDomain) || String.eqb (DstAddr r2) localNode then None else
      match getTargetIPByNodeName ListPods (DstAddr r3) with
      | Err _ => None
      | Ok ip =>
          let t := mkTarget (DstAddr r5) ip (DstPort r6) in
          if Command r4 =? CmdConnect then match GetProxyStream t with Ok _ => Some t | Err _ => None end else None
      end
  | _, _ => None
  end.

Definition proxied_to (s : Socks5Proxy) (i : nat) : option target :=
  match th_pc <$> threads s !! i with Some (Finished t) => t | _ => None end.

(** *** Runs of one goroutine *)

Definition run_local (th : thread) (found : list Request) : thread := fold_left (fun th r => (step r th).2) found th.

(** A goroutine that has finished stays so. *)
Lemma run_local_finished c t found : run_local (mkThread c (Finished t)) found = mkThread c (Finished t).
Proof. by induction found. Qed.

Lemma run_local_cons th r found : run_local th (r :: found) = run_local (step r th).2 found.
Proof. done. Qed.

Lemma ParsingConnect_parsed h c :
  exists c', ParsingConnect h c = (match parsed c with Some _ => Ok tt | None => (ParsingConnect h c).1.1 end, default h (parsed c), c') /\
    (parsed c = None -> exists e, (ParsingConnect h c).1.1 = Err e).
Proof.
  unfold ParsingConnect, parsed. destruct ((handShake ≫= fun _ => NewRequest) c) as [[r|e] c'] eqn:E; exists c'; cbn; [done|].
  split; [done|]. intros _. by exists e.
Qed.

Definition outcome (th : thread) : option target := match th_pc th with Finished t => t | _ => None end.

Local Ltac next_step := rewrite run_local_cons; unfold thread_step at 1; cbn [th_pc th_conn snd].
Local Ltac stopped := rewrite run_local_finished; by repeat case_match.

Lemma run_local_served c found : outcome (run_local (mkThread c Parse) found) = served c found.
Proof.
  unfold served. destruct found as [|r0 found]; [by destruct (parsed c)|].
  destruct (ParsingConnect_parsed r0 c) as (c' & Hp & He). next_step. rewrite Hp.
  destruct (parsed c) as [r|]; cbn [fst snd].
  2:{ destruct (He eq_refl) as [e Hee]. rewrite Hee. cbn [snd]. by rewrite run_local_finished. }
  destruct found as [|r1 found]; [done|]. next_step. destruct (negb _); cbn [orb]; [stopped|].
  destruct found as [|r2 found]; [done|]. next_step. destruct (String.eqb (DstAddr r2) localNode); [stopped|].
  destruct found as [|r3 found]; [done|]. next_step. destruct (getTargetIPByNodeName ListPods (DstAddr r3)) as [ip|]; [|stopped].
  destruct found as [|r4 found]; [done|]. next_step. destruct (Command r4 =? CmdConnect); [|stopped].
  destruct found as [|r5 [|r6 found]]; [done|done|]. next_step. next_step. unfold proxyConnectToRemote.
  destruct (GetProxyStream _); cbn [snd]; by rewrite run_local_finished.
Qed.

(** *** Runs of all *)

(** A goroutine is as far as the requests it found have brought it, and has parsed
    exactly if it has run. *)
Definition tracks (conns : list conn) (seen : list nat) (s : Socks5Proxy) : Prop :=
  length (threads s) = length conns /\
  forall j c, conns !! j = Some c -> if decide (j ∈ seen) then exists th, threads s !! j = Some th /\ th_pc th <> Parse
                                     else threads s !! j = Some (mkThread c Parse).

Lemma thread_step_pc r th : th_pc (step r th).2 <> Parse.
Proof.
  unfold thread_step, proxyConnectToRemote. destruct th as [c []]; cbn; repeat case_match; cbn; congruence.
Qed.

Lemma thread_step_keeps r th : th_pc th <> Parse -> (step r th).1 = r.
Proof. unfold thread_step, proxyConnectToRemote. destruct th as [c []]; cbn; try done; intros _; repeat case_match; done. Qed.

Lemma existsb_elem_of (j : nat) seen : existsb (Nat.eqb j) seen = bool_decide (j ∈ seen).
Proof.
  apply eq_true_iff_eq. rewrite existsb_exists, bool_decide_eq_true. split.
  - intros (k & Hk & ->%Nat.eqb_eq). by apply list_elem_of_In.
  - intros Hj. exists j. split; [by apply list_elem_of_In|by apply Nat.eqb_eq].
Qed.

Lemma run_thread_tracks conns seen s j :
  tracks conns seen s ->
  tracks conns (j :: seen) (run1 s j) /\
  handle (run1 s j) = then_parsed conns seen (handle s) j.
Proof.
  unfold then_parsed. rewrite existsb_elem_of.
  intros [Hl Ht]. unfold run_thread. destruct (threads s !! j) as [th|] eqn:Ej.
  - assert (Hj : is_Some (conns !! j)) by (apply lookup_lt_is_Some; rewrite <- Hl; by eapply lookup_lt_Some).
    destruct Hj as [c Hc]. destruct (step (handle s) th) as [r th'] eqn:Es. split.
    + split; [cbn; by rewrite length_insert|]. cbn. intros k ck Hk. destruct (decide (k = j)) as [->|Hne].
      * rewrite decide_True by apply list_elem_of_here. rewrite list_lookup_insert_eq by (by eapply lookup_lt_Some).
        eexists. split; [done|]. pose proof (thread_step_pc (handle s) th) as Hp. by rewrite Es in Hp.
      * rewrite list_lookup_insert_ne by done. specialize (Ht k ck Hk).
        destruct (decide (k ∈ seen)); [rewrite decide_True by (by apply list_elem_of_further)|
          rewrite decide_False by (rewrite elem_of_cons; tauto)]; done.
    + cbn. specialize (Ht j c Hc). destruct (decide (j ∈ seen)) as [Hin|Hin].
      * rewrite bool_decide_true by done. destruct Ht as (th0 & Hth0 & Hp). rewrite Ej in Hth0. injection Hth0 as <-.
        pose proof (thread_step_keeps (handle s) th Hp) as Hk. by rewrite Es in Hk.
      * rewrite bool_decide_false by done. rewrite Ej in Ht. injection Ht as ->. rewrite Hc. cbn [mbind option_bind].
        destruct (ParsingConnect_parsed (handle s) c) as (c' & Hp & He). unfold thread_step in Es. cbn [th_pc th_conn] in Es.
        rewrite Hp in Es. destruct (parsed c) as [r'|]; [by injection Es as <- _|].
        destruct (He eq_refl) as [e Hee]. rewrite Hee in Es. by injection Es as <- _.
  - assert (Hj : conns !! j = None) by (apply lookup_ge_None; rewrite <- Hl; by apply lookup_ge_None). split.
    + split; [done|]. intros k ck Hk. specialize (Ht k ck Hk).
      destruct (decide (k ∈ seen)); [rewrite decide_True by (by apply list_elem_of_further); done|].
      rewrite decide_False; [done|]. rewrite elem_of_cons. intros [->|?]; [congruence|done].
    + rewrite Hj. by case_bool_decide.
Qed.

(** What goroutine [i] finds during a run from [s]. *)
Fixpoint found_in (s : Socks5Proxy) (schedule : list nat) (i : nat) : list Request :=
  match schedule with
  | [] => []
  | j :: schedule' => (if decide (j = i) then [handle s] else []) ++ found_in (run1 s j) schedule' i
  end.

Lemma run_threads s schedule i th :
  threads s !! i = Some th -> threads (run s schedule) !! i = Some (run_local th (found_in s schedule i)).
Proof.
  revert s th. induction schedule as [|j schedule IH]; intros s th Hi; [done|]. cbn [run_schedule fold_left found_in].
  assert (Hn : threads (run1 s j) !! i = Some (if decide (j = i) then (step (handle s) th).2 else th)).
  { unfold run_thread. destruct (decide (j = i)) as [->|Hne].
    - rewrite Hi. destruct (step (handle s) th) as [r th'] eqn:E. cbn. by rewrite list_lookup_insert_eq by (by eapply lookup_lt_Some).
    - destruct (threads s !! j) as [thj|]; [|done]. destruct (step (handle s) thj). cbn. by rewrite list_lookup_insert_ne. }
  change (fold_left run1 schedule (run1 s j)) with (run (run1 s j) schedule). rewrite (IH _ _ Hn).
  unfold run_local. rewrite fold_left_app. by destruct (decide (j = i)).
Qed.

Lemma found_in_finds conns seen s schedule i :
  tracks conns seen s -> found_in s schedule i = finds_from conns seen (handle s) schedule i.
Proof.
  revert seen s. induction schedule as [|j schedule IH]; intros seen s Ht; [done|]. cbn [found_in finds_from].
  destruct (run_thread_tracks conns seen s j Ht) as [Ht' <-]. rewrite (IH _ _ Ht').
  by destruct (decide (j = i)) as [->|Hne%Nat.eqb_neq]; [rewrite Nat.eqb_refl|rewrite Hne].
Qed.

Lemma Start_tracks conns : tracks conns [] (Start conns).
Proof.
  split; [cbn; by rewrite length_fmap|]. intros j c Hj. rewrite decide_False by apply not_elem_of_nil.
  cbn. by rewrite list_lookup_fmap, Hj.
Qed.

Lemma proxied_to_served conns schedule i c :
  conns !! i = Some c -> proxied_to (run (Start conns) schedule) i = served c (finds conns schedule i).
Proof.
  intros Hi. unfold proxied_to. rewrite (run_threads _ _ i (mkThread c Parse)) by (cbn; by rewrite list_lookup_fmap, Hi).
  cbn [fmap option_fmap option_map]. rewrite (found_in_finds conns []) by apply Start_tracks.
  rewrite <- run_local_served. by unfold outcome.
Qed.

(** A request that the proxy supports, for a node with the address [ip]. *)
Definition supported (r : Request) (ip : string) : Prop :=
  AddressType r = ATYPDomain /\ DstAddr r <> localNode /\ Command r = CmdConnect /\
  getTargetIPByNodeName ListPods (DstAddr r) = Ok ip.

(** The second client's request is parsed after [k] of the steps of the first. *)
Definition interrupted (k : nat) : list nat := replicate k 0%nat ++ [1%nat] ++ replicate (7 - k) 0%nat.

Lemma interrupted_served ca cb ra rb ipa ipb k :
  parsed ca = Some ra -> parsed cb = Some rb -> supported ra ipa -> supported rb ipb ->
  (forall t, GetProxyStream t = Ok tt) -> (1 <= k <= 7)%nat ->
  served ca (finds [ca; cb] (interrupted k) 0) =
    Some (mkTarget (if (k <=? 5)%nat then DstAddr rb else DstAddr ra) (if (k <=? 3)%nat then ipb else ipa)
            (if (k <=? 6)%nat then DstPort rb else DstPort ra)).
Proof.
  intros Ha Hb (Ta & La & Ca & Ia) (Tb & Lb & Cb & Ib) Hs Hk.
  apply String.eqb_neq in La, Lb.
  assert (Hcases : k = 1%nat \/ k = 2%nat \/ k = 3%nat \/ k = 4%nat \/ k = 5%nat \/ k = 6%nat \/ k = 7%nat) by lia.
  assert (Hfinds : finds [ca; cb] (interrupted k) 0 = [no_request_yet] ++ replicate (k - 1) ra ++ replicate (7 - k) rb).
  { unfold finds. destruct Hcases as [->|[->|[->|[->|[->|[->| ->]]]]]]; cbn; unfold then_parsed; cbn; by rewrite Ha, ?Hb. }
  rewrite Hfinds. unfold served. rewrite Ha.
  destruct Hcases as [->|[->|[->|[->|[->|[->| ->]]]]]]; cbn;
    rewrite ?Ta, ?Tb, ?La, ?Lb; cbn; rewrite ?Ia, ?Ib, ?Ca, ?Cb; cbn; by rewrite Hs.
Qed.

(** C38. The request of a connection is shared with all others.  For every number of
    connections and every schedule of their goroutines, where a connection is
    proxied is decided by what its goroutine finds as the shared request, which is
    always the one that was parsed last, of whatever connection: it is checked with
    what it finds at its second and third step, its address is looked up with the
    fourth, its command taken from the fifth, and its node and port from the sixth
    and seventh.  So with two clients, one whose request is parsed after [k] steps
    of the other: up to the third step the other is proxied to its node, address
    and port; up to the fifth to its node and port, but at the address of the node
    that was asked for; at the sixth to the right node and address, but its port;
    and only after that to what was asked for. *)
Theorem concurrent_request_overwritten :
  (forall conns schedule i c, conns !! i = Some c ->
     proxied_to (run (Start conns) schedule) i = served c (finds conns schedule i)) /\
  (forall ca cb ra rb ipa ipb k,
     parsed ca = Some ra -> parsed cb = Some rb -> supported ra ipa -> supported rb ipb ->
     (forall t, GetProxyStream t = Ok tt) -> (1 <= k <= 7)%nat ->
     proxied_to (run (Start [ca; cb]) (interrupted k)) 0 =
       Some (mkTarget (if (k <=? 5)%nat then DstAddr rb else DstAddr ra) (if (k <=? 3)%nat then ipb else ipa)
               (if (k <=? 6)%nat then DstPort rb else DstPort ra))).
Proof.
  split; [apply proxied_to_served|]. intros ca cb ra rb ipa ipb k Ha Hb Hsa Hsb Hst Hk.
  rewrite (proxied_to_served _ _ _ ca) by done. by apply interrupted_served.
Qed.
End race.

(** ** Witnesses *)

Definition demo_wire : wire_request := mkWire CmdConnect 0 (Domain [110; 49]) 31 144.
Definition demo_wire2 : wire_request := mkWire CmdConnect 0 (Domain [110; 50]) 0 22.
Definition demo_conn (w : wire_request) : conn := mkConn (fields [2; 0] w) [] false.

Lemma ParsingConnect_decodes_witness :
  ParsingConnect (mkRequest 0 0 0 0 "" 0) (demo_conn demo_wire) =
    (Ok tt, mkRequest 5 1 0 3 "n1" 8080, mkConn [] [[5; 0]] false) /\
  exists segs', aligned [] segs' /\
    ParsingConnect (mkRequest 0 0 0 0 "" 0) (demo_conn demo_wire) =
      (Ok tt, request_of demo_wire, mkConn segs' [[Version; Success]] false).
Proof.
  split; [vm_compute; reflexivity|].
  apply (ParsingConnect_decodes [2; 0] demo_wire []); cbn; unfold is_u8;
    [unfold zlen; cbn; lia|apply list_elem_of_further, list_elem_of_here|unfold zlen; cbn; lia|lia|lia|].
  repeat (apply al_cut; [discriminate|]). apply al_nil.
Defined.

Definition demo_pods (node : string) : result (list pod) :=
  Ok [mkPod "edgemesh-agent-x" ("10.0.0." +:+ (if String.eqb node "n1" then "1" else "2"))].

Definition reachable (t : target) : result unit := Ok tt.

(** The node and port of the second client, at the address of the first one's
    node. *)
Lemma concurrent_request_overwritten_witness :
  proxied_to (run_schedule demo_pods "n0" reachable (Start [demo_conn demo_wire; demo_conn demo_wire2])
    [0; 0; 0; 0; 1; 0; 0; 0]%nat) 0 = Some (mkTarget "n2" "10.0.0.1" 22).
Proof.
  apply (proj2 (concurrent_request_overwritten demo_pods "n0" reachable) (demo_conn demo_wire) (demo_conn demo_wire2)
    (mkRequest 5 1 0 3 "n1" 8080) (mkRequest 5 1 0 3 "n2" 22) "10.0.0.1" "10.0.0.2" 4%nat).
  - vm_compute. reflexivity.
  - vm_compute. reflexivity.
  - split; [reflexivity|]. split; [discriminate|]. repeat split; reflexivity.
  - split; [reflexivity|]. split; [discriminate|]. repeat split; reflexivity.
  - reflexivity.
  - lia.
Defined.
