(* ===== verification/Cni.v ===== *)
(** * The CNI adapter

    [src/pkg/cni/adapter.go]: which networks are routed into the tun device,
    and how the frames of pods travel from the device over a stream to the
    agent of the node that runs the target pod. *)

From Stdlib Require Import ZArith Lia Ascii String.
From stdpp Require Import base list list_numbers strings option.
From S2P Require Import Prelude GoStrings GoNet RecycleBuffer IPFrame TunConn.

Local Open Scope Z_scope.

(** ** Networks *)

Fixpoint validateCIDRs (cidrs : list string) : result unit :=
  match cidrs with
  | [] => Ok tt
  | cidr :: rest =>
      match ParseCIDR cidr with
      | Err e => Err ("invalid CIDR " +:+ cidr +:+ ": " +:+ e)
      | Ok _ => validateCIDRs rest
      end
  end.

(** The configured networks of the cloud and of the edge. *)
Definition getCIDR (cloud edge : list string) : result (list string * list string) :=
  match validateCIDRs cloud with
  | Err e => Err ("cloud CIDRs are invalid, error: " +:+ e)
  | Ok _ =>
      match validateCIDRs edge with
      | Err e => Err ("edge CIDRs are invalid, error: " +:+ e)
      | Ok _ => Ok (cloud, edge)
      end
  end.

(** [nodeName] is the environment variable, [GetNode] the API server, which
    knows the network of the pods of a node. *)
Definition findLocalCIDR (nodeName : string) (GetNode : string -> result string) : result string :=
  if String.eqb nodeName "" then Err "the env NODE_NAME is not set" else
  match GetNode nodeName with
  | Err e => Err ("failed to get Node " +:+ nodeName +:+ ", error: " +:+ e)
  | Ok podCIDR => Ok podCIDR
  end.

(** [IPMask.String] *)
Definition Mask_String (m : list Z) : string := if (length m =? 0)%nat then "<nil>" else hexString m.

Definition CheckTunCIDR (HostCIDR outerCidr : string) : result bool :=
  match ParseCIDR outerCidr with
  | Err e => Err ("failed to parse outerCIDR " +:+ outerCidr +:+ ", error:" +:+ e)
  | Ok (outerIP, outerNet) =>
      match ParseCIDR HostCIDR with
      | Err e => Err ("failed to parse hostCIDR " +:+ HostCIDR +:+ ", error: " +:+ e)
      | Ok (_, hostNet) =>
          Ok (IPNet_Contains hostNet outerIP &&
              String.eqb (Mask_String (net_Mask hostNet)) (Mask_String (net_Mask outerNet)))
      end
  end.

(** The adapter; [Close] is the stop channel, nil or made. *)
Record MeshAdapter : Type := mkMeshAdapter {
  HostCIDR : string;
  Cloud : list string;
  Edge : list string;
  Close : option unit
}.

Section adapter.
(** What the [ip] and [iptables] commands answer. *)
Context (AddRouteToTun : string -> result unit).
Context (EnsureRule : string -> result unit).

(** The loop over the networks: those that were routed, up to an error. *)
Fixpoint route_networks (HostCIDR : string) (cidrs : list string) : list string * result unit :=
  match cidrs with
  | [] => ([], Ok tt)
  | cidr :: rest =>
      match CheckTunCIDR HostCIDR cidr with
      | Err e => ([], Err ("failed to check whether CIDRs are in the same network or not, error: " +:+ e))
      | Ok sameNet =>
          let '(routes, r) := route_networks HostCIDR rest in
          if sameNet then (routes, r)
          else match AddRouteToTun cidr with
               | Err _ => (routes, r)
               | Ok _ => (cidr :: routes, r)
               end
      end
  end.

(** The routes that were added and the result. *)
Definition WatchRoute (mesh : MeshAdapter) : list string * result unit :=
  let '(routes, r) := route_networks (HostCIDR mesh) (Edge mesh ++ Cloud mesh) in
  match r with
  | Err e => (routes, Err e)
  | Ok _ =>
      match EnsureRule (HostCIDR mesh) with
      | Err e => (routes, Err ("failed to insert iptable rule, error: " +:+ e))
      | Ok _ => (routes, Ok tt)
      end
  end.
End adapter.

(** [NewMeshAdapter]: the networks, the tun device, which it creates and sets
    up ([tun]), and no stop channel. *)
Definition NewMeshAdapter (cidrs : result (list string * list string)) (local : result string) (tun setup : result unit)
  : result MeshAdapter :=
  match cidrs with
  | Err e => Err ("failed to get CIDR from config, error: " +:+ e)
  | Ok (cloud, edge) =>
      match local with
      | Err e => Err ("failed to get local CIDR from apiserver, error: " +:+ e)
      | Ok local =>
          match tun with
          | Err e => Err ("failed to create tun device edge_tun0, error: " +:+ e)
          | Ok _ =>
              match setup with
              | Err e => Err ("failed to set up tun device edge_tun0, error: " +:+ e)
              | Ok _ => Ok (mkMeshAdapter local cloud edge None)
              end
          end
      end
  end.

(** What [Run] starts: the loop that reads the device, and the one that sends
    what it reads to other nodes. *)
Inductive adapter_task : Type := TunReceiveLoopTask | HandleReceiveFromTunTask.

Definition TunToTunnel : list adapter_task := [TunReceiveLoopTask; HandleReceiveFromTunTask].
Definition MeshAdapter_Run (mesh : MeshAdapter) : list adapter_task := TunToTunnel.

(** Closing a nil channel panics. *)
Definition CloseRoute (mesh : MeshAdapter) : go unit :=
  match Close mesh with
  | None => Panic "close of nil channel"
  | Some _ => Val tt
  end.

(** ** Frames *)

Inductive cni_event : Type :=
| ParseError
| NoNode
| NoStream
| WriteError
| Sent (nodeName : string) (bytes : list Z).

Section frames.
(** The nodes of the pods with an address, from the API server. *)
Context (ListPods : string -> result (list string)).
(** The tunnel: a stream to a node for a protocol, and writing to it. *)
Context (GetCNIAdapterStream : string -> string -> result unit).
Context (stream_Write : string -> list Z -> result unit).

Definition GetNodeNameByPodIP (podIP : string) : result string :=
  match ListPods podIP with
  | Err e => Err e
  | Ok [] => Err ("no pod found with IP " +:+ podIP)
  | Ok (nodeName :: _) => Ok nodeName
  end.

Section loop.
Context {B : Type} `{ByteBuffer B}.

(** One packet of the receive pipe. *)
Definition handle_packet (buffer : B) (packet : list Z) : go (B * cni_event) :=
  let! buffer := bb_Write buffer packet in
  let! (buffer, r) := ParseIPFrame buffer in
  match r with
  | Err _ => Val (buffer, ParseError)
  | Ok None => Panic "nil pointer dereference"
  | Ok (Some frame) =>
      match GetNodeNameByPodIP (GetTargetIP frame) with
      | Err _ => Val (buffer, NoNode)
      | Ok nodeName =>
          match GetCNIAdapterStream (GetProtocol frame) nodeName with
          | Err _ => Val (buffer, NoStream)
          | Ok _ =>
              let! (bytes, _) := ToBytes frame in
              match stream_Write nodeName bytes with
              | Err _ => Val (buffer, WriteError)
              | Ok _ => Val (buffer, Sent nodeName bytes)
              end
          end
      end
  end.

Fixpoint handle_packets (buffer : B) (packets : list (list Z)) : go (list cni_event) :=
  match packets with
  | [] => Val []
  | packet :: rest =>
      let! (buffer, ev) := handle_packet buffer packet in
      let! evs := handle_packets buffer rest in
      Val (ev :: evs)
  end.
End loop.

(** The packets are those that arrive before the stop channel is closed. *)
Definition HandleReceiveFromTun (packets : list (list Z)) : go (list cni_event) :=
  let! buffer := Recycle.NewRecycleByteBuffer PacketSize in
  handle_packets buffer packets.

(** ** Delivery *)

Section delivery.
Context (node : IPFrame -> string) (frames : list IPFrame).
Hypothesis node_known : Forall (fun fr => GetNodeNameByPodIP (GetTargetIP fr) = Ok (node fr)) frames.
Hypothesis streams_open : forall fr, fr ∈ frames -> GetCNIAdapterStream (GetProtocol fr) (node fr) = Ok tt.
Hypothesis streams_write : forall fr, fr ∈ frames -> stream_Write (node fr) (wire fr) = Ok tt.

Lemma handle_packet_frame `{ByteBufferSpec B} (b : B) fr :
  fr ∈ frames -> frame_wf fr -> bb_wf b -> bb_contents b = [] -> 65535 <= bb_Capacity b ->
  exists b', handle_packet b (wire fr) = Val (b', Sent (node fr) (wire fr)) /\
    bb_wf b' /\ bb_contents b' = [] /\ bb_Capacity b' = bb_Capacity b.
Proof.
  intros Hin Hfr Hb Hc Hcap. unfold handle_packet.
  destruct (bb_write_spec b (wire fr) Hb) as (b1 & -> & Hb1 & Hcap1 & Hc1). cbn [mbind go_bind].
  pose proof (wf_total_u16 _ Hfr) as Hu. unfold is_u16 in Hu. pose proof (zlen_wire fr Hfr) as Hz.
  rewrite Hc, take_ge, app_nil_l in Hc1 by (change (zlen []) with 0; unfold zlen in *; lia).
  destruct (ParseIPFrame_wire b1 fr _ [] Hb1 Hfr (checksum_of_u16 fr)) as (b2 & -> & Hb2 & Hcap2 & Hc2).
  { rewrite Hc1. unfold wire. by rewrite app_nil_r. }
  cbn [mbind go_bind]. change (GetTargetIP (set_checksum fr (checksum_of fr))) with (GetTargetIP fr).
  change (GetProtocol (set_checksum fr (checksum_of fr))) with (GetProtocol fr).
  rewrite list.Forall_forall in node_known. rewrite (node_known _ Hin), (streams_open _ Hin).
  rewrite ToBytes_val by (apply set_checksum_wf; [done|apply checksum_of_u16]). cbn [mbind go_bind].
  change (stream_Write (node fr) _) with (stream_Write (node fr) (wire fr)). rewrite (streams_write _ Hin).
  exists b2. split; [done|]. split; [done|]. split; [done|congruence].
Qed.

Lemma handle_packets_frames `{ByteBufferSpec B} (b : B) fs :
  fs ⊆ frames -> Forall frame_wf fs -> bb_wf b -> bb_contents b = [] -> 65535 <= bb_Capacity b ->
  handle_packets b (map wire fs) = Val (map (fun fr => Sent (node fr) (wire fr)) fs).
Proof.
  intros Hsub Hwf. revert b. induction Hwf as [|fr fs Hfr _ IH]; intros b Hb Hc Hcap; [done|].
  destruct (handle_packet_frame b fr) as (b' & Hp & Hb' & Hc' & Hcap'); try done.
  { apply Hsub, list_elem_of_here. }
  cbn [map handle_packets]. rewrite Hp. cbn [mbind go_bind].
  rewrite IH; [done| |done|done|lia]. intros x Hx. by apply Hsub, list_elem_of_further.
Qed.

End delivery.
End frames.

(** An adapter that was just made cannot be closed. *)
Lemma CloseRoute_panics cidrs local tun setup mesh :
  NewMeshAdapter cidrs local tun setup = Ok mesh -> is_panic (CloseRoute mesh) = true.
Proof.
  unfold NewMeshAdapter. destruct cidrs as [[cloud edge]|]; [|done]. destruct local; [|done].
  destruct tun; [|done]. destruct setup; [|done]. by intros [= <-].
Qed.

(** A network is routed into the device if it is not the host's own. *)
Lemma WatchRoute_routes AddRoute mesh cidr :
  let '(routes, r) := WatchRoute AddRoute (fun _ => Ok tt) mesh in
  r = Ok tt -> (cidr ∈ routes <->
    cidr ∈ Edge mesh ++ Cloud mesh /\ CheckTunCIDR (HostCIDR mesh) cidr = Ok false /\ AddRoute cidr = Ok tt).
Proof.
  unfold WatchRoute. generalize (Edge mesh ++ Cloud mesh) as l. intros l.
  assert (Hl : let '(routes, r) := route_networks AddRoute (HostCIDR mesh) l in
    r = Ok tt -> (cidr ∈ routes <-> cidr ∈ l /\ CheckTunCIDR (HostCIDR mesh) cidr = Ok false /\ AddRoute cidr = Ok tt)).
  { induction l as [|x l IH]; [cbn; rewrite !elem_of_nil; tauto|]. cbn [route_networks].
    destruct (CheckTunCIDR (HostCIDR mesh) x) as [same|] eqn:Ec; [|done].
    destruct (route_networks AddRoute (HostCIDR mesh) l) as [routes r].
    destruct same; [|destruct (AddRoute x) as [[]|] eqn:Ea]; intros Hr; specialize (IH Hr);
      rewrite ?elem_of_cons, IH; naive_solver congruence. }
  destruct (route_networks _ _ _) as [routes [[]|e]]; [exact Hl|done].
Qed.

(** ** Witness *)

Definition demo_node (fr : IPFrame) : string := if bool_decide (Target fr = [10; 244; 3; 9]) then "edge1" else "edge2".
Definition demo_list_pods (ip : string) : result (list string) :=
  Ok [if String.eqb ip "10.244.3.9" then "edge1" else "edge2"].
Definition demo_bytes : list Z := wire demo_frame ++ wire carry_frame.

