(* ===== verification/Modules.v ===== *)
(** * The modules

    How each module is made from its section of the configuration, what its
    [Run] starts and how it is shut down:
    [src/pkg/proxy/{server,module,proxy}.go], [src/pkg/cni/{module,edgecni}.go],
    [src/pkg/gateway/module.go] with [Run] of [gateway.go], and
    [src/pkg/apis/module/module.go], the table the commands shut down from,
    with beehive's [Register], [StartModules] and [Run].
    The components themselves are in the files imported here; the clients of
    the Kubernetes API, [iptables] and kube-proxy's userspace proxier are
    parameters. *)

From Stdlib Require Import ZArith Lia Ascii String.
From stdpp Require Import base list gmap strings option.
From S2P Require Import Prelude GoStrings GoNet Config NetUtil.
From S2P Require Import Dns.
From S2P Require Import LbUtil LbPolicy LoadBalancer LbHandlers.
From S2P Require Import ProxySocket.
From S2P Require Import GatewayIPs Gateway.
From S2P Require Import Cni.
From S2P Require Import TunnelUtil Tunnel TunnelModule.

Local Open Scope Z_scope.

(** ** Label selectors ([k8s.io/apimachinery/pkg/labels], [Exists] and
    [DoesNotExist] only) *)

Inductive operator : Type := Exists | DoesNotExist.

Record Requirement : Type := mkRequirement { r_key : string; r_operator : operator }.

Definition Requirement_Matches (r : Requirement) (ls : gmap string string) : bool :=
  match r_operator r with
  | Exists => bool_decide (is_Some (ls !! r_key r))
  | DoesNotExist => negb (bool_decide (is_Some (ls !! r_key r)))
  end.

(** A selector selects what meets all its requirements. *)
Definition Selector_Matches (s : list Requirement) (ls : gmap string string) : bool :=
  forallb (fun r => Requirement_Matches r ls) s.

(** [v1.IsHeadlessService] *)
Definition IsHeadlessService : string := "service.kubernetes.io/headless".

(** ** The proxy server ([proxy/server.go]) *)

(** Durations are in nanoseconds. *)
Definition Second : Z := 1000000000.

Record KubeProxyConfiguration : Type := mkKubeProxy {
  BindAddress : string;
  PortRange : string;
  SyncPeriod : Z;
  MinSyncPeriod : Z;
  UDPIdleTimeout : Z;
  NodePortAddresses : list string;
  ConfigSyncPeriod : Z
}.

Definition NewDefaultKubeProxyConfiguration (bindAddress : string) : KubeProxyConfiguration := {|
  BindAddress := bindAddress;
  PortRange := "";
  SyncPeriod := 30 * Second;
  MinSyncPeriod := Second;
  UDPIdleTimeout := 250 * (Second / 1000);
  NodePortAddresses := [];
  ConfigSyncPeriod := 15 * 60 * Second
|}.

Section modules.
Context {R : Type} `{HashRing R} `{RangeOrder}.

(** The server: a load balancer whose configuration may be nil, and the mode
    of the filter. *)
Record Server : Type := mkServer {
  bound_to : string;  (** the address of the proxier *)
  loadBalancer : option (LoadBalancer R);
  server_sync : Z;
  serviceFilterMode : string
}.

Section proxy_server.
(** [userspace.NewCustomProxier] of the address it binds to; whether a key may
    be that of a label; whether the proxier handles endpoints. *)
Context (NewCustomProxier : string -> result unit).
Context (validateLabelKey : string -> bool).
Context (handles_endpoints : bool).

Definition NewRequirement (key : string) (op : operator) : result Requirement :=
  if validateLabelKey key then Ok (mkRequirement key op) else Err "name part must be a label key".

(** [internal] is the load balancer of the process, nil until a module has
    made one. *)
Definition newProxyServer (config : KubeProxyConfiguration) (lbConfig : option LbConfig)
    (internal : option (option (LoadBalancer R))) (mode : string)
    : result Server * option (option (LoadBalancer R)) :=
  let lb := LoadBalancer.New <$> lbConfig in
  let internal := initLoadBalancer internal lb in
  match NewCustomProxier (BindAddress config) with
  | Err e => (Err ("unable to create proxier: " +:+ e), internal)
  | Ok _ => (Ok (mkServer (BindAddress config) lb (ConfigSyncPeriod config) mode), internal)
  end.

(** What a server that runs watches: the services and the endpoints that the
    selector selects, and what its load balancer watches. *)
Record server_watch : Type := mkWatch {
  selector : list Requirement;
  watches_endpoints : bool;
  lb_informers : list informer
}.

Definition set_lb_Config (lb : LoadBalancer R) (c : LbConfig) : LoadBalancer R :=
  mkLB R c (serviceMap lb) (services lb) (policyMap lb) (endpointsSynced lb) (servicesSynced lb)
    (initialized lb) (serviceChanges lb) (syncRequests lb).

(** Running a load balancer for one of its callers. *)
Definition run_load_balancer (lb : option (LoadBalancer R)) (caller : string) : go (LoadBalancer R * list informer) :=
  let! lb := deref lb in
  let lb := set_lb_Config lb (set_Caller (LoadBalancer.Config lb) caller) in
  Val (lb, LbHandlers.Run lb).

Definition Server_Run (s : Server) : go (result (Server * server_watch)) :=
  let operation := if negb (String.eqb (serviceFilterMode s) FilterIfLabelExistsMode) then Exists else DoesNotExist in
  match NewRequirement LabelEdgeMeshServiceProxyName operation with
  | Err e => Val (Err e)
  | Ok noEdgeMeshProxyName =>
      match NewRequirement IsHeadlessService DoesNotExist with
      | Err e => Val (Err e)
      | Ok noHeadlessEndpoints =>
          let labelSelector := [noEdgeMeshProxyName; noHeadlessEndpoints] in
          let! (lb, informers) := run_load_balancer (loadBalancer s) ProxyCaller in
          Val (Ok (mkServer (bound_to s) (Some lb) (server_sync s) (serviceFilterMode s),
                   mkWatch labelSelector handles_endpoints informers))
      end
  end.

(** [CleanupLeftovers] tells whether it met an error. *)
Definition CleanupAndExit (CleanupLeftovers : bool) : result unit :=
  if CleanupLeftovers then Err "encountered an error while tearing down rules" else Ok tt.
End proxy_server.

(** ** EdgeProxy ([proxy/module.go], [proxy/proxy.go]) *)

Record EdgeProxy : Type := mkEdgeProxy {
  proxy_Config : EdgeProxyConfig.t;
  ProxyServer : option Server;
  Socks5Listener : option (list Z * Z)
}.

Section edge_proxy.
Context {N : Type} `{HostNet N} (net : N).
Context (NewCustomProxier : string -> result unit) (ListenTCP : list Z -> Z -> result unit).
Context (validateLabelKey : string -> bool) (handles_endpoints : bool).

(** [NewSocks5Proxy]: the listener. *)
Definition NewSocks5Proxy (config : Socks5ProxyConfig.t) (ip : list Z) : result (list Z * Z) :=
  match ListenTCP ip (Socks5ProxyConfig.ListenPort config) with
  | Err e => Err e
  | Ok _ => Ok (ip, Socks5ProxyConfig.ListenPort config)
  end.

Definition newEdgeProxy (c : EdgeProxyConfig.t) (internal : option (option (LoadBalancer R)))
    : go (result EdgeProxy * option (option (LoadBalancer R))) :=
  if negb (EdgeProxyConfig.Enable c) then Val (Ok (mkEdgeProxy c None None), internal) else
  match GetInterfaceIP net (EdgeProxyConfig.ListenInterface c) with
  | Err e => Val (Err ("get proxy listen ip err: " +:+ e), internal)
  | Ok listenIP =>
      let '(server, internal) :=
        newProxyServer NewCustomProxier (NewDefaultKubeProxyConfiguration (IP_String listenIP))
          (EdgeProxyConfig.LoadBalancer c) internal (EdgeProxyConfig.ServiceFilterMode c) in
      match server with
      | Err e => Val (Err ("new proxy server err: " +:+ e), internal)
      | Ok proxyServer =>
          let! socks5 := deref (EdgeProxyConfig.Socks5Proxy c) in
          if Socks5ProxyConfig.Enable socks5 then
            match NewSocks5Proxy socks5 listenIP with
            | Err e => Val (Err ("new socks5Proxy err: " +:+ e), internal)
            | Ok l => Val (Ok (mkEdgeProxy c (Some proxyServer) (Some l)), internal)
            end
          else Val (Ok (mkEdgeProxy c (Some proxyServer) None), internal)
      end
  end.

(** Whether the SOCKS5 proxy is started, and what the server watches unless
    it fails, which is logged. *)
Definition EdgeProxy_Run (p : EdgeProxy) : go (bool * option server_watch) :=
  let! socks5 := deref (EdgeProxyConfig.Socks5Proxy (proxy_Config p)) in
  let! server := deref (ProxyServer p) in
  let! r := Server_Run validateLabelKey handles_endpoints server in
  Val (Socks5ProxyConfig.Enable socks5, match r with Err _ => None | Ok (_, w) => Some w end).

Definition EdgeProxy_Shutdown (CleanupLeftovers : bool) (p : EdgeProxy) : go (result unit) :=
  let! _ := deref (ProxyServer p) in Val (CleanupAndExit CleanupLeftovers).
End edge_proxy.

(** ** EdgeCNI ([cni/module.go], [cni/edgecni.go]) *)

Record EdgeCni : Type := mkEdgeCni {
  cni_Config : EdgeCNIConfig.t;
  adapter : option MeshAdapter
}.

Section edge_cni.
(** The node's network, the tun device and the routes. *)
Context (local : result string) (tun tun_setup : result unit).
Context (AddRouteToTun EnsureRule : string -> result unit).

(** An error of [WatchRoute] is logged only. *)
Definition newEdgeCni (c : EdgeCNIConfig.t) : go (result EdgeCni) :=
  if negb (EdgeCNIConfig.Enable c) then Val (Ok (mkEdgeCni c None)) else
  let! m := deref (EdgeCNIConfig.MeshCIDRConfig c) in
  match NewMeshAdapter (getCIDR (MeshCIDRConfig.CloudCIDR m) (MeshCIDRConfig.EdgeCIDR m)) local tun tun_setup with
  | Err e => Val (Err e)
  | Ok mesh =>
      let '(_, _) := WatchRoute AddRouteToTun EnsureRule mesh in
      Val (Ok (mkEdgeCni c (Some mesh)))
  end.

(** What the adapter starts, if there is one. *)
Definition EdgeCni_Run (m : EdgeCni) : go (list adapter_task) :=
  if EdgeCNIConfig.Enable (cni_Config m) then let! mesh := deref (adapter m) in Val (MeshAdapter_Run mesh) else Val [].

Definition EdgeCni_CleanupAndExit (m : EdgeCni) : go (result unit) :=
  let! mesh := deref (adapter m) in
  let! _ := CloseRoute mesh in
  Val (Ok tt).

(** An error would be logged. *)
Definition EdgeCni_Shutdown (m : EdgeCni) : go unit :=
  let! _ := EdgeCni_CleanupAndExit m in Val tt.
End edge_cni.

(** ** EdgeGateway ([gateway/module.go], [Run] of [gateway/gateway.go]) *)

Record EdgeGatewayModule : Type := mkGatewayModule {
  gw_Config : EdgeGatewayConfig.t;
  gw_edge : option EdgeGateway;
  gw_loadBalancer : option (LoadBalancer R)
}.

(** What the gateway watches. *)
Inductive gateway_informer : Type := SecretInformer | GatewayInformer | VirtualServiceInformer.

Section edge_gateway.
Context (Interfaces : result (list string)) (InterfaceAddrs : string -> result (list string)).

(** [internal] is the load balancer of the package. *)
Definition newEdgeGateway (c : EdgeGatewayConfig.t) (internal : option (option (LoadBalancer R)))
    : result EdgeGatewayModule * option (option (LoadBalancer R)) :=
  if negb (EdgeGatewayConfig.Enable c) then (Ok (mkGatewayModule c None None), internal) else
  match GetIPsNeedListen Interfaces InterfaceAddrs c with
  | Err e => (Err ("get GetIPsNeedListen err: " +:+ e), internal)
  | Ok listenIPs =>
      let lb := LoadBalancer.New <$> EdgeGatewayConfig.LoadBalancer c in
      (Ok (mkGatewayModule c (Some (mkEdgeGateway listenIPs ∅ [])) lb), initLoadBalancer internal lb)
  end.

Definition EdgeGateway_Run (gw : EdgeGatewayModule) : go (list gateway_informer * list informer) :=
  let! (_, informers) := run_load_balancer (gw_loadBalancer gw) GatewayCaller in
  Val ([SecretInformer; GatewayInformer; VirtualServiceInformer], informers).
End edge_gateway.
End modules.
Arguments Server : clear implicits.
Arguments EdgeProxy : clear implicits.
Arguments EdgeGatewayModule : clear implicits.

(** ** The table of modules ([apis/module/module.go]) *)

(** The interface of a module, as far as the commands use it.  [mod_Start] is what
    [Start] does up to where the module serves: it panics, or the process exits
    with a message, or the module serves. *)
Record module : Type := mkModuleOps {
  Name : string;
  mod_Enable : bool;
  mod_Start : go (option string);
  mod_Shutdown : go unit
}.

(** What CoreDNS, the system, the label rules, the proxier and the metrics exporter
    answer to modules that start. *)
Record runtime : Type := mkRuntime {
  LoadCaddyfile : result unit;
  caddy_Start : result unit;
  Remove : result unit;
  validateLabelKey : string -> bool;
  handles_endpoints : bool;
  NewExporter : result unit;
  CleanupLeftovers : bool
}.

Section ops.
Context (rt : runtime).

Definition dns_ops (d : EdgeDNS) : module :=
  mkModuleOps EdgeDNSModuleName (EdgeDNSConfig.Enable (dns_Config d))
    (let! r := EdgeDNS_Run (LoadCaddyfile rt) (caddy_Start rt) (Remove rt) d in
     Val (match r with DnsExit e => Some e | DnsServing _ => None end))
    (Val tt).

Definition proxy_ops {R} (p : EdgeProxy R) : module :=
  mkModuleOps EdgeProxyModuleName (EdgeProxyConfig.Enable (proxy_Config p))
    (let! _ := EdgeProxy_Run (validateLabelKey rt) (handles_endpoints rt) p in Val None)
    (let! _ := EdgeProxy_Shutdown (CleanupLeftovers rt) p in Val tt).

(** Of what [Run] starts only the metrics server looks at the configuration
    first. *)
Definition tunnel_ops {MA ID} (t : tunnel_module (MA:=MA) (ID:=ID)) : module :=
  mkModuleOps EdgeTunnelModuleName (EdgeTunnelConfig.Enable (Tunnel.Config (tunnel t)))
    (let! _ := runMetricsServer (Tunnel.Config (tunnel t)) (NewExporter rt) in Val None)
    (tunnel_Shutdown t).

Definition cni_ops (m : EdgeCni) : module :=
  mkModuleOps EdgeCNIModuleName (EdgeCNIConfig.Enable (cni_Config m))
    (let! _ := EdgeCni_Run m in Val None)
    (EdgeCni_Shutdown m).

Definition gateway_ops {R} (gw : EdgeGatewayModule R) : module :=
  mkModuleOps EdgeGatewayModuleName (EdgeGatewayConfig.Enable (gw_Config gw))
    (let! _ := EdgeGateway_Run gw in Val None)
    (Val tt).
End ops.

(** beehive's [core.Register]: modules that are disabled are kept apart. *)
Definition core_Register (modules : gmap string module) (m : module) : gmap string module :=
  if mod_Enable m then <[Name m := m]> modules else modules.

Section table.
Context `{RangeOrder}.

(** Every module of the commands has a [Shutdown]. *)
Definition Initialize (modules coreModules : gmap string module) : gmap string module :=
  fold_left (fun ms m => <[Name m := m]> ms) (range coreModules).*2 modules.

(** beehive's [StartModules]: a goroutine for each module, none of which is remote;
    one that panics ends the process, and one that exits, too. *)
Definition StartModules (modules : gmap string module) : go (option string) :=
  go_fold (fun exited m => let! r := mod_Start m in Val (match exited with Some e => Some e | None => r end))
    None (range modules).*2.

(** beehive's [core.Run]: start the modules and wait for a signal to stop.  [serve]
    is how it goes with the modules that have been started until then: one of
    their goroutines panics, or none does. *)
Definition core_Run (serve : gmap string module -> go unit) (modules : gmap string module) : go (option string) :=
  let! exited := StartModules modules in
  match exited with
  | Some e => Val (Some e)
  | None => let! _ := serve modules in Val None
  end.

(** A goroutine for each module; one that panics ends the process. *)
Definition Shutdown (modules : gmap string module) : go unit :=
  go_fold (fun _ m => mod_Shutdown m) tt (range modules).*2.
End table.

(** ** Running the proxy *)

Section proxy_facts.
Context {R : Type} `{HashRing R} `{RangeOrder}.

(** What the informers of the proxy select. *)
Definition proxied (mode : string) (labels : gmap string string) : Prop :=
  labels !! IsHeadlessService = None /\
  (mode = FilterIfLabelExistsMode -> labels !! LabelEdgeMeshServiceProxyName = None) /\
  (mode <> FilterIfLabelExistsMode -> is_Some (labels !! LabelEdgeMeshServiceProxyName)).

Lemma Server_Run_spec validateLabelKey handles_endpoints (s : Server R) :
  validateLabelKey LabelEdgeMeshServiceProxyName = true -> validateLabelKey IsHeadlessService = true ->
  match loadBalancer s with
  | None => is_panic (Server_Run validateLabelKey handles_endpoints s) = true
  | Some _ =>
      exists s' w, Server_Run validateLabelKey handles_endpoints s = Val (Ok (s', w)) /\
        lb_informers w = [DestinationRuleInformer] /\ watches_endpoints w = handles_endpoints /\
        forall labels, Selector_Matches (selector w) labels = true <-> proxied (serviceFilterMode s) labels
  end.
Proof.
  intros H1 H2. unfold Server_Run, NewRequirement. rewrite H1, H2. unfold run_load_balancer.
  destruct (loadBalancer s) as [lb|]; [|done]. cbn [deref mbind go_bind].
  do 2 eexists. split; [reflexivity|]. split; [done|]. split; [done|]. intros labels. unfold proxied. cbn.
  unfold Requirement_Matches. cbn [r_operator r_key]. rewrite andb_true_r, andb_true_iff, negb_true_iff, bool_decide_eq_false.
  rewrite <- eq_None_not_Some.
  destruct (String.eqb_spec (serviceFilterMode s) FilterIfLabelExistsMode) as [E|E]; cbn [negb].
  - rewrite negb_true_iff, bool_decide_eq_false, <- eq_None_not_Some. naive_solver.
  - rewrite bool_decide_eq_true. naive_solver.
Qed.

Lemma newEdgeProxy_bound {N : Type} `{HostNet N} (net : N) NewCustomProxier ListenTCP c internal (p : EdgeProxy R) internal' ip :
  newEdgeProxy net NewCustomProxier ListenTCP c internal = Val (Ok p, internal') -> EdgeProxyConfig.Enable c = true ->
  GetInterfaceIP net (EdgeProxyConfig.ListenInterface c) = Ok ip -> bound_to <$> ProxyServer p = Some (IP_String ip).
Proof.
  intros Hn He Hip. unfold newEdgeProxy, newProxyServer in Hn. rewrite He, Hip in Hn. cbn [negb] in Hn.
  destruct (NewCustomProxier _); [|done]. destruct (EdgeProxyConfig.Socks5Proxy c) as [s|]; [|done]. cbn [deref mbind go_bind] in Hn.
  destruct (Socks5ProxyConfig.Enable s); [destruct (NewSocks5Proxy _ _ _)|]; by simplify_eq.
Qed.

(** An enabled proxy module that could be made: its server is bound to the
    address of the listen interface, and running it watches exactly the
    services that are not headless and, by the mode, do not carry or carry the
    EdgeMesh label; its load balancer watches destination rules only, since
    the proxier feeds it services and endpoints.  A configuration without a
    section for the load balancer is accepted, but running it panics. *)
Theorem edge_proxy_serves {N : Type} `{HostNet N} (net : N) NewCustomProxier ListenTCP validateLabelKey he c internal (p : EdgeProxy R) internal' :
  validateLabelKey LabelEdgeMeshServiceProxyName = true -> validateLabelKey IsHeadlessService = true ->
  EdgeProxyConfig.Enable c = true ->
  newEdgeProxy net NewCustomProxier ListenTCP c internal = Val (Ok p, internal') ->
  exists ip server socks5, GetInterfaceIP net (EdgeProxyConfig.ListenInterface c) = Ok ip /\
    ProxyServer p = Some server /\ bound_to server = IP_String ip /\
    EdgeProxyConfig.Socks5Proxy c = Some socks5 /\
    Socks5Listener p = (if Socks5ProxyConfig.Enable socks5 then Some (ip, Socks5ProxyConfig.ListenPort socks5) else None) /\
    match EdgeProxyConfig.LoadBalancer c with
    | None => is_panic (EdgeProxy_Run validateLabelKey he p) = true
    | Some _ =>
        exists w, EdgeProxy_Run validateLabelKey he p = Val (Socks5ProxyConfig.Enable socks5, Some w) /\
          lb_informers w = [DestinationRuleInformer] /\
          forall labels, Selector_Matches (selector w) labels = true <-> proxied (EdgeProxyConfig.ServiceFilterMode c) labels
    end.
Proof.
  intros H1k H2k He Hn. unfold newEdgeProxy in Hn. rewrite He in Hn. cbn [negb] in Hn.
  destruct (GetInterfaceIP _ _) as [ip|]; [|done]. unfold newProxyServer in Hn.
  destruct (NewCustomProxier _); [|done].
  destruct (EdgeProxyConfig.Socks5Proxy c) as [socks5|] eqn:Es; [|done]. cbn [deref mbind go_bind] in Hn.
  set (server := mkServer _ _ _ _) in Hn.
  assert (Hp : p = mkEdgeProxy c (Some server)
    (if Socks5ProxyConfig.Enable socks5 then Some (ip, Socks5ProxyConfig.ListenPort socks5) else None)).
  { unfold NewSocks5Proxy in Hn. destruct (Socks5ProxyConfig.Enable socks5); [destruct (ListenTCP _ _)|]; simplify_eq; done. }
  exists ip, server, socks5. subst p. do 5 (split; [done|]).
  pose proof (Server_Run_spec validateLabelKey he server H1k H2k) as Hr. unfold EdgeProxy_Run. cbn [proxy_Config ProxyServer].
  rewrite Es. cbn [deref mbind go_bind]. unfold server in Hr at 1. cbn [loadBalancer] in Hr.
  destruct (EdgeProxyConfig.LoadBalancer c); cbn [fmap option_fmap option_map] in Hr.
  - destruct Hr as (s' & w & -> & Hi & _ & Hsel). exists w. done.
  - destruct (Server_Run _ _ _); done.
Qed.
End proxy_facts.

(** ** Shutting down *)

Section shutdown_facts.
Context `{RangeOrder}.

Lemma go_fold_tt_panic {X} (f : X -> go unit) xs :
  is_panic (go_fold (fun _ x => f x) tt xs) = existsb (fun x => is_panic (f x)) xs.
Proof.
  induction xs as [|x xs IH]; [done|]. cbn [go_fold existsb]. rewrite go_bind_is_panic.
  destruct (f x) as [[]|]; cbn; [|done]. exact IH.
Qed.

(** Shutting down panics exactly if one of the modules of the table does. *)
Lemma Shutdown_panics (modules : gmap string module) :
  is_panic (Shutdown modules) = true <-> exists name m, modules !! name = Some m /\ is_panic (mod_Shutdown m) = true.
Proof.
  unfold Shutdown. rewrite go_fold_tt_panic, existsb_exists. split.
  - intros (m & Hin & Hp). apply list_elem_of_In, list_elem_of_fmap in Hin as ([name m'] & -> & Hin).
    rewrite range_perm, elem_of_map_to_list in Hin. eauto.
  - intros (name & m & Hm & Hp). exists m. split; [|done]. apply list_elem_of_In, list_elem_of_fmap.
    exists (name, m). split; [done|]. by rewrite range_perm, elem_of_map_to_list.
Qed.

(** Starting does not panic if none of the modules does. *)
Lemma StartModules_returns (modules : gmap string module) :
  (forall name m, modules !! name = Some m -> is_panic (mod_Start m) = false) ->
  exists r, StartModules modules = Val r.
Proof.
  intros Hm. unfold StartModules.
  assert (Hl : Forall (fun m => is_panic (mod_Start m) = false) (range modules).*2).
  { apply list.Forall_forall. intros m Hin. apply list_elem_of_fmap in Hin as ([name m'] & -> & Hin).
    rewrite range_perm, elem_of_map_to_list in Hin. by eapply Hm. }
  generalize (None : option string). induction Hl as [|m ms Hx Hms IH]; intros acc; cbn [go_fold]; [by eexists|].
  destruct (mod_Start m) as [r|]; [|done]. cbn [mbind go_bind]. apply IH.
Qed.

(** The table holds each module under its name. *)
Definition named_table (modules : gmap string module) : Prop := forall name m, modules !! name = Some m -> Name m = name.

Lemma core_Register_named modules m : named_table modules -> named_table (core_Register modules m).
Proof.
  unfold core_Register, named_table. intros Hn. destruct (mod_Enable m); [|done]. intros name m'.
  destruct (decide (name = Name m)) as [-> |]; [rewrite lookup_insert_eq|rewrite lookup_insert_ne by done]; naive_solver.
Qed.

Lemma fold_insert_lookup (l : list module) (ms : gmap string module) name m :
  NoDup (Name <$> l) ->
  (m ∈ l /\ Name m = name) \/ (~ name ∈ (Name <$> l) /\ ms !! name = Some m) <->
  fold_left (fun ms m => <[Name m := m]> ms) l ms !! name = Some m.
Proof.
  revert ms. induction l as [|m1 l IH]; intros ms; cbn [fold_left fmap list_fmap].
  - rewrite !elem_of_nil. naive_solver.
  - intros [Hn1 Hnd]%list.NoDup_cons. rewrite <- IH by done. rewrite !elem_of_cons.
    destruct (decide (name = Name m1)) as [-> |Hne].
    + rewrite lookup_insert_eq. split; [intros [[[-> |Hm] Hk]|[Hk _]]|intros [[Hm Hk]|[_ [= ->]]]]; auto; exfalso;
        first [naive_solver | apply Hn1, list_elem_of_fmap; eauto].
    + rewrite lookup_insert_ne by done. naive_solver.
Qed.

(** Caching a table in an empty one copies it. *)
Lemma Initialize_empty modules : named_table modules -> Initialize ∅ modules = modules.
Proof.
  intros Hn. apply map_eq. intros name. apply option_eq. intros m. unfold Initialize.
  assert (Hk : Name <$> (range modules).*2 = (range modules).*1).
  { rewrite <- list_fmap_compose. apply list_fmap_ext. intros i [k x] Hi. apply list_elem_of_lookup_2 in Hi.
    rewrite range_perm, elem_of_map_to_list in Hi. by apply Hn. }
  rewrite <- fold_insert_lookup.
  - rewrite lookup_empty. split; [intros [[Hm <-]|[_ ?]]; [|done]|].
    + apply list_elem_of_fmap in Hm as ([k x] & -> & Hx). rewrite range_perm, elem_of_map_to_list in Hx. cbn. by rewrite (Hn _ _ Hx).
    + intros Hm. left. split; [|by apply Hn]. apply list_elem_of_fmap. exists (name, m). by rewrite range_perm, elem_of_map_to_list.
  - rewrite Hk, range_perm. apply NoDup_fst_map_to_list.
Qed.

Context {R : Type} `{HashRing R} {MA ID : Type} `{Multiaddr MA} `{Identity ID}.

(** Whether each module panics when it is started and when it is shut down. *)
Lemma proxy_shutdown {N : Type} `{HostNet N} (net : N) NewCustomProxier ListenTCP c internal (p : EdgeProxy R) internal' rt :
  newEdgeProxy net NewCustomProxier ListenTCP c internal = Val (Ok p, internal') ->
  proxy_Config p = c /\
  (EdgeProxyConfig.Enable c = true ->
     is_panic (mod_Shutdown (proxy_ops rt p)) = false /\
     (is_Some (EdgeProxyConfig.LoadBalancer c) -> is_panic (mod_Start (proxy_ops rt p)) = false)).
Proof.
  unfold newEdgeProxy. destruct (EdgeProxyConfig.Enable c); cbn [negb]; [|intros [= <- _]; done].
  destruct (GetInterfaceIP _ _); [|done]. unfold newProxyServer. destruct (NewCustomProxier _); [|done].
  destruct (EdgeProxyConfig.Socks5Proxy c) as [s|] eqn:Es; [|done]. cbn [deref mbind go_bind].
  destruct (Socks5ProxyConfig.Enable s); [destruct (NewSocks5Proxy _ _ _)|]; intros [= <- _]; try done.
  all: split; [done|]; intros _; split; [done|]; intros [lb Hlb]; cbn; unfold EdgeProxy_Run; cbn; rewrite Es, Hlb; cbn.
  all: unfold Server_Run; by repeat case_match.
Qed.

Lemma tunnel_shutdown env rt c (t : tunnel_module (MA:=MA) (ID:=ID)) :
  newEdgeTunnel env c = Val (Ok t) ->
  EdgeTunnelConfig.Enable (Tunnel.Config (tunnel t)) = EdgeTunnelConfig.Enable c /\
  (EdgeTunnelConfig.Enable c = true -> is_panic (mod_Shutdown (tunnel_ops rt t)) = false /\ is_panic (mod_Start (tunnel_ops rt t)) = false).
Proof.
  unfold newEdgeTunnel. destruct (EdgeTunnelConfig.Enable c) eqn:He; cbn [negb]; [|by intros [= <-]].
  destruct (_ <? 0); [done|]. destruct (GenerateKeyPairWithString env _); [|done]. destruct (NewConnManager env); [|done].
  destruct (generateListenAddr _ _); [|done]. intros Hn.
  apply go_bind_Val_inv in Hn as (psk & _ & Hn). destruct (psk_options env psk); [|done].
  apply go_bind_Val_inv in Hn as (met & Hmet & Hn). apply go_bind_Val_inv in Hn as (? & _ & Hn).
  destruct (libp2p_New env _); [|done]. destruct (new_relay_state _ _ _) as [t'|] eqn:Et; [|done].
  destruct (start_services env _); [|done]. injection Hn as <-.
  enough (Hcfg : exists k, Tunnel.Config t' = EdgeTunnelConfig.set_MaxCandidates c k /\
    EdgeTunnelConfig.MetricConfig (EdgeTunnelConfig.set_MaxCandidates c k) = Some met).
  { destruct Hcfg as (k & Hcfg & Hk). cbn [tunnel]. rewrite Hcfg. split; [exact He|]. intros _. split; [done|].
    cbn. unfold runMetricsServer. rewrite Hcfg. rewrite Hk. cbn. by repeat case_match. }
  destruct (raise_candidates_same c (Z.of_nat (size (GenerateRelayMap (MA:=MA) (ID:=ID) (EdgeTunnelConfig.RelayNodes c) (EdgeTunnelConfig.Transport c) (EdgeTunnelConfig.ListenPort c))))) as [k Hk].
  exists k. rewrite Hk in Et, Hmet. split; [unfold new_relay_state in Et; destruct (_ && _); [destruct (relayv2_New env)|]; by simplify_eq|].
  by destruct (EdgeTunnelConfig.MetricConfig _); simplify_eq/=.
Qed.

(** The stop channel of the adapter is never made. *)
Lemma cni_shutdown local tun tun_setup AddRoute EnsureRule c m :
  newEdgeCni local tun tun_setup AddRoute EnsureRule c = Val (Ok m) ->
  cni_Config m = c /\
  (EdgeCNIConfig.Enable c = true -> is_panic (mod_Shutdown (cni_ops m)) = true /\ is_panic (mod_Start (cni_ops m)) = false).
Proof.
  unfold newEdgeCni. destruct (EdgeCNIConfig.Enable c) eqn:He; cbn [negb]; [|by intros [= <-]].
  destruct (EdgeCNIConfig.MeshCIDRConfig c) as [mc|]; [|done]. cbn [deref mbind go_bind].
  destruct (NewMeshAdapter _ _ _ _) as [mesh|] eqn:Em; [|done]. destruct (WatchRoute _ _ _). intros [= <-].
  split; [done|]. intros _. unfold NewMeshAdapter in Em. destruct (getCIDR _ _) as [[]|], local, tun, tun_setup; simplify_eq.
  split; [done|]. cbn. unfold EdgeCni_Run. cbn. by rewrite He.
Qed.

Lemma dns_starts update c d rt :
  newEdgeDNS update c = Val (Ok d) -> is_Some (EdgeDNSConfig.CacheDNS c) -> is_Some (EdgeDNSConfig.KubeAPIConfig c) ->
  is_panic (mod_Start (dns_ops rt d)) = false.
Proof.
  intros Hn [cache Hc] [k Hk].
  assert (Hd : dns_Config d = c).
  { unfold newEdgeDNS in Hn. destruct (EdgeDNSConfig.Enable c); cbn [negb] in Hn; [|by simplify_eq].
    apply go_bind_Val_inv in Hn as ([r|] & _ & Hn); by simplify_eq. }
  cbn. unfold EdgeDNS_Run. rewrite Hd, Hc, Hk. cbn. by repeat case_match.
Qed.
End shutdown_facts.

(** ** Witnesses *)

Definition demo_proxy_config : EdgeProxyConfig.t :=
  EdgeProxyConfig.mk true "edgemesh0" (Some (Socks5ProxyConfig.mk true 10800 "edge1" "kubeedge"))
    (Some (defaultLoadBalancerConfig init_globals)) FilterIfLabelExistsMode.

Definition demo_proxy_made : go (result (EdgeProxy list_ring) * option (option (LoadBalancer list_ring))) :=
  newEdgeProxy demo_net (fun _ => Ok tt) (fun _ _ => Ok tt) demo_proxy_config None.

Definition demo_proxy : EdgeProxy list_ring :=
  match demo_proxy_made with Val (Ok p, _) => p | _ => mkEdgeProxy demo_proxy_config None None end.

Lemma edge_proxy_serves_witness :
  (fun '(ip, port) => (IP_String ip, port)) <$> Socks5Listener demo_proxy = Some ("169.254.96.16"%string, 10800) /\
  exists w, EdgeProxy_Run (fun _ => true) true demo_proxy = Val (true, Some w) /\
    Selector_Matches (selector w) {["app" := "shop"]} = true.
Proof.
  destruct demo_proxy_made as [[[p|] i]|] eqn:Em; [|vm_compute in Em; discriminate..].
  destruct (edge_proxy_serves demo_net (fun _ => Ok tt) (fun _ _ => Ok tt) (fun _ => true) true demo_proxy_config None p i
    eq_refl eq_refl eq_refl Em) as (ip & server & socks5 & Hip & _ & _ & Hs & Hl & w & Hw & _ & Hsel).
  unfold demo_proxy. rewrite Em. vm_compute in Hip. injection Hip as <-. injection Hs as <-. split; [rewrite Hl; vm_compute; reflexivity|].
  exists w. split; [exact Hw|]. apply Hsel. repeat split; [vm_compute; reflexivity..|intros []; reflexivity].
Defined.
