(* ===== verification/Commands.v ===== *)
(** * The commands

    [src/cmd/edgemesh-{agent,gateway}/app/{server,options/options}.go],
    [src/pkg/util/util.go], [src/pkg/clients/kube.go] and
    [src/pkg/profile/profile.go]: from the configuration file to the modules
    that run, and to their shutdown.  The flag library, YAML, the file system's
    failures, the Kubernetes clients and how the modules do while they serve are
    parameters. *)

From Stdlib Require Import ZArith Lia Ascii String.
From stdpp Require Import base list gmap strings option.
From S2P Require Import Prelude GoStrings GoNet Config NetUtil.
From S2P Require Import Dns.
From S2P Require Import LbPolicy LoadBalancer.
From S2P Require Import TunnelUtil Tunnel TunnelProto TunnelModule.
From S2P Require Import Cni.
From S2P Require Import Modules.

Local Open Scope Z_scope.

(** ** [strings.ReplaceAll], for a string to replace that is not empty *)

(** [skip] bytes of a match are still to be passed over. *)
Fixpoint replace_from (old new : string) (skip : nat) (s : string) : string :=
  match s with
  | EmptyString => ""
  | String c s' =>
      match skip with
      | S skip' => replace_from old new skip' s'
      | O =>
          if HasPrefix s old then new +:+ replace_from old new (pred (String.length old)) s'
          else String c (replace_from old new 0 s')
      end
  end.

Definition ReplaceAll (s old new : string) : string := replace_from old new 0 s.

(** ** The kubeconfig ([util.go]) *)

Definition clusterName : string := "kubeedge-cluster".
Definition contextName : string := "kubeedge-context".
Definition userName : string := "edgemesh".
Definition saTokenPath : string := "/var/run/secrets/kubernetes.io/serviceaccount/token".

(** The fields of [clientcmdv1.Config] that are set: one cluster, one context
    and one user. *)
Record Cluster : Type := mkCluster { cl_Server : string; cl_InsecureSkipTLSVerify : bool; CertificateAuthority : string }.
Record AuthInfo : Type := mkAuthInfo { TokenFile : string; ClientCertificate : string; ClientKey : string }.

Record KubeClientConfig : Type := mkKubeClientConfig {
  kc_Clusters : list (string * Cluster);
  kc_Contexts : list (string * (string * string));  (** cluster and user *)
  kc_CurrentContext : string;
  kc_AuthInfos : list (string * AuthInfo)
}.

Definition GenerateKubeClientConfig (c : KubeAPIConfig.t) : go KubeClientConfig :=
  let! ms := deref (KubeAPIConfig.MetaServer c) in
  let! sec := deref (MetaServer.Security ms) in
  let '(cluster, auth) :=
    if MetaServerSecurity.RequireAuthorization sec then
      if MetaServerSecurity.InsecureSkipTLSVerify sec
      then (mkCluster (MetaServer.Server ms) true "", mkAuthInfo saTokenPath "" "")
      else (mkCluster (MetaServer.Server ms) false (MetaServerSecurity.TLSCaFile sec),
            mkAuthInfo saTokenPath (MetaServerSecurity.TLSCertFile sec) (MetaServerSecurity.TLSPrivateKeyFile sec))
    else (mkCluster (MetaServer.Server ms) false "", mkAuthInfo "" "" "") in
  Val (mkKubeClientConfig [(clusterName, cluster)] [(contextName, (clusterName, userName))] contextName [(userName, auth)]).

(** The files of the working directory. *)
Abbreviation files := (gmap string string).

Section saving.
(** [yaml.Marshal]; whether the file can be opened; what is written of some
    data, with the error if it is not all. *)
Context (Marshal : KubeClientConfig -> result string).
Context (OpenFile : result unit) (file_Write : string -> string * result unit).
(** Whether [os.Stat] of the file fails for another reason than that the file
    does not exist. *)
Context (stat_fails : bool).

(** Opening the file truncates or creates it. *)
Definition SaveKubeConfigFile (fs : files) (kubeClientConfig : KubeClientConfig) : files * result unit :=
  match Marshal kubeClientConfig with
  | Err e => (fs, Err e)
  | Ok data =>
      match OpenFile with
      | Err e => (fs, Err e)
      | Ok _ => let '(written, r) := file_Write data in (<[TempKubeConfigPath := written]> fs, r)
      end
  end.

(** The first part of [prepareRun] of both commands. *)
Definition prepare_api (fs : files) (k : KubeAPIConfig.t) : go (files * result KubeAPIConfig.t) :=
  if negb (String.eqb (KubeAPIConfig.Master k) "") || negb (String.eqb (KubeAPIConfig.KubeConfig k) "")
  then Val (fs, Ok (KubeAPIConfig.set_Mode k ManualMode))
  else if String.eqb (KubeAPIConfig.Mode k) EdgeMode then
    let! ms := deref (KubeAPIConfig.MetaServer k) in
    let! sec := deref (MetaServer.Security ms) in
    let k :=
      if MetaServerSecurity.RequireAuthorization sec
      then KubeAPIConfig.set_MetaServer k
             (Some (MetaServer.mk (ReplaceAll (MetaServer.Server ms) "http://" "https://") (Some sec)))
      else k in
    let there := bool_decide (is_Some (fs !! TempKubeConfigPath)) || stat_fails in
    if there then Val (fs, Ok (KubeAPIConfig.set_KubeConfig k TempKubeConfigPath))
    else
      let! cfg := GenerateKubeClientConfig k in
      let '(fs, r) := SaveKubeConfigFile fs cfg in
      match r with
      | Err e => Val (fs, Err ("failed to create kubeConfig: " +:+ e))
      | Ok _ => Val (fs, Ok (KubeAPIConfig.set_KubeConfig k TempKubeConfigPath))
      end
  else Val (fs, Ok k).
End saving.

(** ** Profiling ([profile.go]) *)

(** The address that is served. *)
Definition ListenAndServer (pprofconfig : option PprofConfig.t) : option string :=
  match pprofconfig with
  | Some p =>
      if PprofConfig.EnableProfiling p
      then Some (JoinHostPort (PprofConfig.ProfilingAddress p) (Itoa (PprofConfig.ProfilingPort p))) else None
  | None => None
  end.

(** ** The clients ([kube.go]) *)

(** The parameters of a [rest.Config] that are set. *)
Record RestConfig : Type := mkRestConfig { rc_QPS : Z; rc_Burst : Z; rc_ContentType : string }.

Record Clients : Type := mkClients { kubeClient : RestConfig; istioClient : RestConfig }.

Definition GetKubeClient (cli : Clients) : RestConfig := kubeClient cli.
Definition GetIstioClient (cli : Clients) : RestConfig := istioClient cli.

(** [build]: [BuildConfigFromFlags] of the master and the kubeconfig; [die]:
    whether a client cannot be made of a configuration. *)
Definition NewClients (build : string -> string -> result unit) (die : RestConfig -> bool) (config : KubeAPIConfig.t)
    : go (result Clients) :=
  match build (KubeAPIConfig.Master config) (KubeAPIConfig.KubeConfig config) with
  | Err e => Val (Err ("failed to build config, " +:+ e))
  | Ok _ =>
      let kubeConfig := mkRestConfig (KubeAPIConfig.QPS config) (KubeAPIConfig.Burst config) (KubeAPIConfig.ContentType config) in
      let istioKubeConfig := mkRestConfig (rc_QPS kubeConfig) (rc_Burst kubeConfig) ContentTypeJSON in
      if die kubeConfig || die istioKubeConfig then Panic "NewForConfigOrDie"
      else Val (Ok (mkClients kubeConfig istioKubeConfig))
  end.

(** ** The options of the commands ([options.go]) *)

(** [path.Join] of a directory that ends in a slash. *)
Definition agent_ConfigFile : string := ConfigDir +:+ EdgeMeshAgentConfigName.
Definition gateway_ConfigFile : string := ConfigDir +:+ EdgeMeshGatewayConfigName.

(** The flag [--config-file], whose default is the path above. *)
Definition options_Flags (ConfigFile : string) (flag : option string) : string := default ConfigFile flag.

Section options.
Context (FileIsExist : string -> bool) (ReadFile : string -> result string).

Definition options_Validate (ConfigFile : string) : list FieldError :=
  if negb (FileIsExist ConfigFile)
  then [mkFieldError ConfigFilePath ConfigFile ("config file " +:+ ConfigFile +:+ " not exist")] else [].

(** [yaml.Unmarshal] into a configuration that is there already. *)
Definition options_Parse {C} (Unmarshal : string -> C -> result C) (ConfigFile : string) (cfg : C) : result C :=
  match ReadFile ConfigFile with
  | Err e => Err e
  | Ok data => Unmarshal data cfg
  end.

Definition agent_options_Config (Unmarshal : string -> EdgeMeshAgentConfig.t -> result EdgeMeshAgentConfig.t)
    (g : globals) (env : environment) (ConfigFile : string) : go (result EdgeMeshAgentConfig.t) :=
  let! (cfg, _) := NewDefaultEdgeMeshAgentConfig g env ConfigFile in
  Val (options_Parse Unmarshal ConfigFile cfg).

Definition gateway_options_Config (Unmarshal : string -> EdgeMeshGatewayConfig.t -> result EdgeMeshGatewayConfig.t)
    (g : globals) (env : environment) (ConfigFile : string) : go (result EdgeMeshGatewayConfig.t) :=
  let! (cfg, _) := NewDefaultEdgeMeshGatewayConfig g env ConfigFile in
  Val (options_Parse Unmarshal ConfigFile cfg).
End options.

(** ** Preparing to run *)

(** What a command finds on its host. *)
Record world (N : Type) : Type := mkWorld { w_net : N; w_files : files; w_env : environment }.
Arguments mkWorld {N}.
Arguments w_net {N}.
Arguments w_files {N}.
Arguments w_env {N}.

Section prepare.
Context {N : Type} `{HostNet N}.
Context (prepare : files -> KubeAPIConfig.t -> go (files * result KubeAPIConfig.t)).

(** The interface the modules listen on, and the API of the DNS module. *)
Definition set_listeners (device : string) (k : KubeAPIConfig.t) (m : AgentModules.t) : go AgentModules.t :=
  let! d := write (AgentModules.EdgeDNSConfig m) (fun d => Val (EdgeDNSConfig.set_ListenInterface d device)) in
  let m := AgentModules.set_EdgeDNSConfig m d in
  let! p := write (AgentModules.EdgeProxyConfig m) (fun p => Val (EdgeProxyConfig.set_ListenInterface p device)) in
  let m := AgentModules.set_EdgeProxyConfig m p in
  let! d := write (AgentModules.EdgeDNSConfig m) (fun d => Val (EdgeDNSConfig.set_KubeAPIConfig d (Some k))) in
  Val (AgentModules.set_EdgeDNSConfig m d).

(** The names the modules know the node by, and the mode of the tunnel. *)
Definition set_names (nodeName namespace : string) (m : AgentModules.t) : go AgentModules.t :=
  let! p := write (AgentModules.EdgeProxyConfig m) (fun p =>
      let! l := write (EdgeProxyConfig.LoadBalancer p) (fun l => Val (set_lb_NodeName l nodeName)) in
      let p := EdgeProxyConfig.set_LoadBalancer p l in
      let! s := write (EdgeProxyConfig.Socks5Proxy p) (fun s =>
          Val (Socks5ProxyConfig.mk (Socks5ProxyConfig.Enable s) (Socks5ProxyConfig.ListenPort s) nodeName namespace)) in
      Val (EdgeProxyConfig.set_Socks5Proxy p s)) in
  let m := AgentModules.set_EdgeProxyConfig m p in
  let! t := write (AgentModules.EdgeTunnelConfig m) (fun t =>
      Val (EdgeTunnelConfig.set_Mode (EdgeTunnelConfig.set_NodeName t nodeName) ServerClientMode)) in
  Val (AgentModules.set_EdgeTunnelConfig m t).

(** The address of the profiling server comes first. *)
Definition agent_prepareRun (w : world N) (c : EdgeMeshAgentConfig.t)
    : go (option string * world N * result EdgeMeshAgentConfig.t) :=
  let! common := deref (EdgeMeshAgentConfig.CommonConfig c) in
  let profiling := ListenAndServer (CommonConfig.PprofConfig common) in
  let! k := deref (EdgeMeshAgentConfig.KubeAPIConfig c) in
  let! (fs, r) := prepare (w_files w) k in
  match r with
  | Err e => Val (profiling, mkWorld (w_net w) fs (w_env w), Err e)
  | Ok k =>
      let c := EdgeMeshAgentConfig.set_KubeAPIConfig c (Some k) in
      let device := CommonConfig.BridgeDeviceName common in
      let! (net, r) := CreateEdgeMeshDevice (w_net w) device (CommonConfig.BridgeDeviceIP common) in
      let w := mkWorld net fs (w_env w) in
      match r with
      | Err e => Val (profiling, w, Err ("failed to create edgemesh device " +:+ device +:+ ": " +:+ e))
      | Ok _ =>
          let! m := write (EdgeMeshAgentConfig.Modules c) (set_listeners device k) in
          let c := EdgeMeshAgentConfig.set_Modules c m in
          match w_env w !! "NODE_NAME" with
          | None => Val (profiling, w, Err "env NODE_NAME not exist")
          | Some nodeName =>
              match w_env w !! "NAMESPACE" with
              | None => Val (profiling, w, Err "env NAMESPACE not exist")
              | Some namespace =>
                  let! m := write (EdgeMeshAgentConfig.Modules c) (set_names nodeName namespace) in
                  Val (profiling, w, Ok (EdgeMeshAgentConfig.set_Modules c m))
              end
          end
      end
  end.

Definition gateway_prepareRun (w : world N) (c : EdgeMeshGatewayConfig.t)
    : go (option string * world N * result EdgeMeshGatewayConfig.t) :=
  let profiling := ListenAndServer (EdgeMeshGatewayConfig.PprofConfig c) in
  let! k := deref (EdgeMeshGatewayConfig.KubeAPIConfig c) in
  let! (fs, r) := prepare (w_files w) k in
  let w := mkWorld (w_net w) fs (w_env w) in
  match r with
  | Err e => Val (profiling, w, Err e)
  | Ok k =>
      let c := EdgeMeshGatewayConfig.set_KubeAPIConfig c (Some k) in
      match w_env w !! "NODE_NAME" with
      | None => Val (profiling, w, Err "env NODE_NAME not exist")
      | Some nodeName =>
          let nodeName := nodeName +:+ "-gateway" in
          let! m := write (EdgeMeshGatewayConfig.Modules c) (fun m =>
              let! g := write (GatewayModules.EdgeGatewayConfig m) (fun g =>
                  let! l := write (EdgeGatewayConfig.LoadBalancer g) (fun l => Val (set_lb_NodeName l nodeName)) in
                  Val (EdgeGatewayConfig.set_LoadBalancer g l)) in
              let m := GatewayModules.set_EdgeGatewayConfig m g in
              let! t := write (GatewayModules.EdgeTunnelConfig m) (fun t =>
                  Val (EdgeTunnelConfig.set_Mode (EdgeTunnelConfig.set_NodeName t nodeName) ClientMode)) in
              Val (GatewayModules.set_EdgeTunnelConfig m t)) in
          Val (profiling, w, Ok (EdgeMeshGatewayConfig.set_Modules c m))
      end
  end.
End prepare.

(** ** Registering the modules *)

Section register.
Context {R : Type} `{HashRing R} `{RangeOrder} {MA ID : Type} `{Multiaddr MA} `{Identity ID}.
Context (new_dns : EdgeDNSConfig.t -> go (result EdgeDNS)).
Context (new_proxy : EdgeProxyConfig.t -> go (result (EdgeProxy R))).
Context (new_tunnel : EdgeTunnelConfig.t -> go (result (tunnel_module (MA:=MA) (ID:=ID)))).
Context (new_cni : EdgeCNIConfig.t -> go (result EdgeCni)).
Context (new_gateway : EdgeGatewayConfig.t -> result (EdgeGatewayModule R)).
Context (rt : runtime).

(** [Register] of each package: the table and the errors so far. *)
Definition register {C M} (what : string) (new : C -> go (result M)) (ops : M -> module)
    (acc : gmap string module * list string) (c : option C) : go (gmap string module * list string) :=
  let! c := deref c in
  let! r := new c in
  match r with
  | Err e => Val (acc.1, acc.2 ++ ["register module " +:+ what +:+ " error: " +:+ e])
  | Ok m => Val (core_Register acc.1 (ops m), acc.2)
  end.

Definition dns_Register := register "edgedns" new_dns (dns_ops rt).
Definition proxy_Register := register "edgeproxy" new_proxy (proxy_ops rt).
Definition tunnel_Register := register "EdgeTunnel" new_tunnel (tunnel_ops rt).
Definition cni_Register := register "edgeproxy" new_cni cni_ops.
Definition gateway_Register := register EdgeGatewayModuleName (fun c => Val (new_gateway c)) gateway_ops.

Definition agent_registerModules (c : EdgeMeshAgentConfig.t) : go (gmap string module * list string) :=
  let! m := deref (EdgeMeshAgentConfig.Modules c) in
  let! acc := dns_Register (∅, []) (AgentModules.EdgeDNSConfig m) in
  let! acc := proxy_Register acc (AgentModules.EdgeProxyConfig m) in
  let! acc := tunnel_Register acc (AgentModules.EdgeTunnelConfig m) in
  cni_Register acc (AgentModules.EdgeCNIConfig m).

Definition gateway_registerModules (c : EdgeMeshGatewayConfig.t) : go (gmap string module * list string) :=
  let! m := deref (EdgeMeshGatewayConfig.Modules c) in
  let! acc := gateway_Register (∅, []) (GatewayModules.EdgeGatewayConfig m) in
  tunnel_Register acc (GatewayModules.EdgeTunnelConfig m).
End register.

(** ** Running *)

(** [SpliceErrors] of kubeedge's [util]. *)
Definition SpliceErrors (errs : list string) : string :=
  match errs with
  | [] => ""
  | _ => "[
" +:+ String.concat "" (map (fun e => "  " +:+ e +:+ "
") errs) +:+ "]
"
  end.

Section run.
Context {R : Type} `{HashRing R} `{RangeOrder} {MA ID : Type} `{Multiaddr MA} `{Identity ID}.
Context {N : Type} `{HostNet N}.
Context (prepare : files -> KubeAPIConfig.t -> go (files * result KubeAPIConfig.t)).
Context (new_clients : KubeAPIConfig.t -> go (result Clients)).
(** How each module is made, on the host as it is then. *)
Context (new_dns : world N -> EdgeDNSConfig.t -> go (result EdgeDNS)).
Context (new_proxy : world N -> EdgeProxyConfig.t -> go (result (EdgeProxy R))).
Context (new_tunnel : world N -> EdgeTunnelConfig.t -> go (result (tunnel_module (MA:=MA) (ID:=ID)))).
Context (new_cni : world N -> EdgeCNIConfig.t -> go (result EdgeCni)).
Context (new_gateway : world N -> EdgeGatewayConfig.t -> result (EdgeGatewayModule R)).
Context (rt : runtime).
(** How the modules do while they serve, see [core_Run]. *)
Context (serve : gmap string module -> go unit).

(** How [Run] ends, if it does not panic: it returns, or the process exits with a
    message while it runs. *)
Inductive run_end : Type := Returned (r : result unit) | Exited (msg : string).

(** Once the modules are registered: cache them, run them until the process is
    stopped, shut them down.  An exit skips the deferred [Shutdown]. *)
Definition run_modules (registered : gmap string module * list string) : go run_end :=
  match registered.2 with
  | [] =>
      let modules := Initialize ∅ registered.1 in
      let! exited := core_Run serve registered.1 in
      match exited with
      | Some e => Val (Exited e)
      | None => let! _ := Shutdown modules in Val (Returned (Ok tt))
      end
  | errs => Val (Returned (Err (SpliceErrors errs)))
  end.

Definition agent_Run (w : world N) (cfg : EdgeMeshAgentConfig.t) : go run_end :=
  let! (_, w, r) := agent_prepareRun prepare w cfg in
  match r with
  | Err e => Val (Returned (Err e))
  | Ok cfg =>
      let! k := deref (EdgeMeshAgentConfig.KubeAPIConfig cfg) in
      let! cli := new_clients k in
      match cli with
      | Err e => Val (Returned (Err e))
      | Ok _ =>
          let! registered := agent_registerModules (new_dns w) (new_proxy w) (new_tunnel w) (new_cni w) rt cfg in
          run_modules registered
      end
  end.

Definition gateway_Run (w : world N) (cfg : EdgeMeshGatewayConfig.t) : go run_end :=
  let! (_, w, r) := gateway_prepareRun prepare w cfg in
  match r with
  | Err e => Val (Returned (Err e))
  | Ok cfg =>
      let! k := deref (EdgeMeshGatewayConfig.KubeAPIConfig cfg) in
      let! cli := new_clients k in
      match cli with
      | Err e => Val (Returned (Err e))
      | Ok _ =>
          let! registered := gateway_registerModules (new_tunnel w) (new_gateway w) rt cfg in
          run_modules registered
      end
  end.

(** The command line: the default configuration is made for printing, then
    again for the configuration file; [Some] message is an exit. *)
Section command.
Context (FileIsExist : string -> bool) (ReadFile : string -> result string).
(** The text of an error. *)
Context (Error : FieldError -> string).

(** [ToAggregate] drops errors of the same text. *)
Definition exit_errors (errs : list FieldError) : option string :=
  match errs with
  | [] => None
  | _ => Some (SpliceErrors (removeDuplicate (map Error errs)))
  end.

Definition NewEdgeMeshAgentCommand
    (Unmarshal : string -> EdgeMeshAgentConfig.t -> result EdgeMeshAgentConfig.t)
    (w : world N) (ConfigFile : string) : go (option string) :=
  let! (_, g) := NewDefaultEdgeMeshAgentConfig init_globals (w_env w) "" in
  match exit_errors (options_Validate FileIsExist ConfigFile) with
  | Some e => Val (Some e)
  | None =>
      let! cfg := agent_options_Config ReadFile Unmarshal g (w_env w) ConfigFile in
      match cfg with
      | Err e => Val (Some e)
      | Ok cfg =>
          let! errs := ValidateEdgeMeshAgentConfiguration FileIsExist cfg in
          match exit_errors errs with
          | Some e => Val (Some e)
          | None =>
              let! r := agent_Run w cfg in
              Val (match r with
                   | Returned (Err e) => Some ("run edgemesh-agent failed: " +:+ e)
                   | Returned (Ok _) => None
                   | Exited e => Some e
                   end)
          end
      end
  end.

Definition NewEdgeMeshGatewayCommand
    (Unmarshal : string -> EdgeMeshGatewayConfig.t -> result EdgeMeshGatewayConfig.t)
    (w : world N) (ConfigFile : string) : go (option string) :=
  let! (_, g) := NewDefaultEdgeMeshGatewayConfig init_globals (w_env w) "" in
  let! (_, g) := NewDefaultEdgeMeshGatewayConfig g (w_env w) "" in
  match exit_errors (options_Validate FileIsExist ConfigFile) with
  | Some e => Val (Some e)
  | None =>
      let! cfg := gateway_options_Config ReadFile Unmarshal g (w_env w) ConfigFile in
      match cfg with
      | Err e => Val (Some e)
      | Ok cfg =>
          let! errs := ValidateEdgeMeshGatewayConfiguration FileIsExist cfg in
          match exit_errors errs with
          | Some e => Val (Some e)
          | None =>
              let! r := gateway_Run w cfg in
              Val (match r with
                   | Returned (Err e) => Some ("run edgemesh-gateway failed: " +:+ e)
                   | Returned (Ok _) => None
                   | Exited e => Some e
                   end)
          end
      end
  end.
End command.
End run.

(** ** Tokens are for TLS only *)

(** A string without an h that starts the result starts the argument: matches
    are replaced by something that starts with an h. *)
Lemma replace_from_prefix s t :
  lacks "h" t = true -> HasPrefix (replace_from "http://" "https://" 0 s) t = true -> HasPrefix s t = true.
Proof.
  revert t. induction s as [|c s IH]; intros t Ht Hp; [done|]. cbn [replace_from] in Hp.
  destruct t as [|d t]; [done|]. cbn [lacks] in Ht. apply andb_true_iff in Ht as [Hd Ht].
  destruct (HasPrefix (String c s) "http://") eqn:Ec.
  - apply HasPrefix_spec in Hp as [u Hu]. rewrite !string_app_cons in Hu. injection Hu as <- _. done.
  - apply HasPrefix_spec in Hp as [u Hu]. rewrite string_app_cons in Hu. injection Hu as <- Hu.
    apply HasPrefix_spec. destruct (proj1 (HasPrefix_spec s t)) as [v Hv]; [apply IH; [done|]; apply HasPrefix_spec; eauto|].
    exists v. rewrite string_app_cons. congruence.
Qed.

Lemma replace_from_no_http skip s : Contains (replace_from "http://" "https://" skip s) "http://" = false.
Proof.
  revert skip. induction s as [|c s IH]; intros skip; [done|]. cbn [replace_from]. destruct skip as [|skip]; [|apply IH].
  destruct (HasPrefix (String c s) "http://") eqn:Ec.
  - cbn [String.length pred]. set (r := replace_from _ _ _ _). assert (Hr : Contains r "http://" = false) by apply IH.
    cbn [String.append]. cbn [Contains HasPrefix String.prefix]. cbn. exact Hr.
  - cbn [Contains]. rewrite IH, orb_false_r. apply not_true_iff_false. intros Hp.
    apply not_true_iff_false in Ec. apply Ec. apply HasPrefix_spec in Hp as [u Hu]. rewrite string_app_cons in Hu.
    injection Hu as -> Hu. destruct (proj1 (HasPrefix_spec s "ttp://")) as [v Hv].
    + apply replace_from_prefix; [done|]. apply HasPrefix_spec. eauto.
    + apply HasPrefix_spec. exists v. rewrite string_app_cons. congruence.
Qed.

(** C30. The kubeconfig of a command that runs on the edge, without an API
    server of its own: it has one cluster and one user, and if the user has
    credentials (the token of the service account, a client key) the address
    of the server has no plain http scheme left in it.  It is this
    configuration that is saved, unless a file is there already, which is
    kept. *)
Theorem kubeconfig_token_needs_tls Marshal OpenFile file_Write stat_fails fs k fs' k' :
  KubeAPIConfig.Master k = "" -> KubeAPIConfig.KubeConfig k = "" -> KubeAPIConfig.Mode k = EdgeMode ->
  prepare_api Marshal OpenFile file_Write stat_fails fs k = Val (fs', Ok k') ->
  KubeAPIConfig.KubeConfig k' = TempKubeConfigPath /\
  exists cfg cluster auth, GenerateKubeClientConfig k' = Val cfg /\
    kc_Clusters cfg = [(clusterName, cluster)] /\ kc_AuthInfos cfg = [(userName, auth)] /\
    (TokenFile auth <> "" \/ ClientKey auth <> "" -> Contains (cl_Server cluster) "http://" = false) /\
    if bool_decide (is_Some (fs !! TempKubeConfigPath)) || stat_fails then fs' = fs
    else exists data, Marshal cfg = Ok data /\ fs' = <[TempKubeConfigPath := (file_Write data).1]> fs.
Proof.
  intros Hm Hk Hmode. unfold prepare_api. rewrite Hm, Hk, Hmode, String.eqb_refl. cbn [String.eqb negb orb].
  destruct (KubeAPIConfig.MetaServer k) as [ms|] eqn:Ems; [|done]. cbn [deref mbind go_bind].
  destruct (MetaServer.Security ms) as [sec|] eqn:Esec; [|done]. cbn [deref mbind go_bind].
  set (k1 := if MetaServerSecurity.RequireAuthorization sec then _ else _).
  assert (Hg : exists cfg cluster auth, GenerateKubeClientConfig k1 = Val cfg /\
    kc_Clusters cfg = [(clusterName, cluster)] /\ kc_AuthInfos cfg = [(userName, auth)] /\
    (TokenFile auth <> "" \/ ClientKey auth <> "" -> Contains (cl_Server cluster) "http://" = false)).
  { unfold k1, GenerateKubeClientConfig. destruct (MetaServerSecurity.RequireAuthorization sec) eqn:Er.
    - cbn [KubeAPIConfig.MetaServer KubeAPIConfig.set_MetaServer deref mbind go_bind MetaServer.Security MetaServer.Server].
      rewrite Er. destruct (MetaServerSecurity.InsecureSkipTLSVerify sec); do 3 eexists; (split; [reflexivity|]);
        (split; [reflexivity|]); (split; [reflexivity|]); intros _; apply replace_from_no_http.
    - rewrite Ems. cbn [deref mbind go_bind]. rewrite Esec. cbn [deref mbind go_bind]. rewrite Er.
      do 3 eexists; (split; [reflexivity|]); (split; [reflexivity|]); (split; [reflexivity|]); cbn; intros [|]; done. }
  destruct Hg as (cfg & cluster & auth & Hcfg & Hcl & Hau & Htls). clearbody k1.
  assert (Hk' : GenerateKubeClientConfig (KubeAPIConfig.set_KubeConfig k1 TempKubeConfigPath) = Val cfg) by exact Hcfg.
  destruct (bool_decide _ || stat_fails); [|rewrite Hcfg; cbn [mbind go_bind]; unfold SaveKubeConfigFile].
  - intros [= <- <-]. split; [done|]. exists cfg, cluster, auth. done.
  - destruct (Marshal cfg) as [data|] eqn:Ed; [|done]. destruct OpenFile; [|done]. destruct (file_Write data) as [written r] eqn:Ew.
    destruct r; [|done]. intros [= <- <-]. split; [done|]. exists cfg, cluster, auth. repeat (split; [done|]).
    exists data. by rewrite Ew.
Qed.

(** ** Complete configurations

    The sections of a configuration are pointers, which a file can set to
    null.  A configuration is complete if no section is nil that the code
    looks into. *)

Definition complete_kube (k : KubeAPIConfig.t) : Prop :=
  exists ms, KubeAPIConfig.MetaServer k = Some ms /\ is_Some (MetaServer.Security ms).

Definition complete_tunnel (t : EdgeTunnelConfig.t) : Prop :=
  is_Some (EdgeTunnelConfig.PSK t) /\ is_Some (EdgeTunnelConfig.TunnelLimitConfig t) /\
  is_Some (EdgeTunnelConfig.MetricConfig t) /\ 0 <= EdgeTunnelConfig.MaxCandidates t.

Definition complete_proxy (p : EdgeProxyConfig.t) : Prop :=
  is_Some (EdgeProxyConfig.Socks5Proxy p) /\ is_Some (EdgeProxyConfig.LoadBalancer p).

Definition complete_cni (n : EdgeCNIConfig.t) : Prop :=
  EdgeCNIConfig.Enable n = true -> is_Some (EdgeCNIConfig.MeshCIDRConfig n).

Record complete_agent (c : EdgeMeshAgentConfig.t) : Prop := mkComplete {
  complete_KubeAPI : exists k, EdgeMeshAgentConfig.KubeAPIConfig c = Some k /\ complete_kube k;
  complete_Common : is_Some (EdgeMeshAgentConfig.CommonConfig c);
  complete_Modules : exists m d p t n, EdgeMeshAgentConfig.Modules c = Some m /\
    AgentModules.EdgeDNSConfig m = Some d /\ is_Some (EdgeDNSConfig.CacheDNS d) /\
    AgentModules.EdgeProxyConfig m = Some p /\ complete_proxy p /\
    AgentModules.EdgeTunnelConfig m = Some t /\ complete_tunnel t /\
    AgentModules.EdgeCNIConfig m = Some n /\ complete_cni n
}.

(** One that is prepared has an API for the DNS module, too. *)
Definition dns_has_api (c : EdgeMeshAgentConfig.t) : Prop :=
  exists m d, EdgeMeshAgentConfig.Modules c = Some m /\ AgentModules.EdgeDNSConfig m = Some d /\
    is_Some (EdgeDNSConfig.KubeAPIConfig d).

Lemma default_agent_complete env path :
  exists c g, NewDefaultEdgeMeshAgentConfig init_globals env path = Val (c, g) /\ complete_agent c.
Proof.
  unfold NewDefaultEdgeMeshAgentConfig, DetectRunningMode. destruct (env !! "KUBERNETES_PORT").
  all: do 2 eexists; split; [reflexivity|]; constructor;
    [eexists; split; [reflexivity|]; eexists; split; [reflexivity|]; by eexists | by eexists |
     do 5 eexists; repeat (split; [first [reflexivity | by eexists | done]|])].
  all: first [done | repeat split; first [by eexists | done]].
Qed.

(** What preparing makes of the modules. *)
Definition prepared_dns (device : string) (k : KubeAPIConfig.t) (d : EdgeDNSConfig.t) : EdgeDNSConfig.t :=
  EdgeDNSConfig.set_KubeAPIConfig (EdgeDNSConfig.set_ListenInterface d device) (Some k).

Definition prepared_proxy (device node ns : string) (p : EdgeProxyConfig.t) (l : LbConfig) (s : Socks5ProxyConfig.t) : EdgeProxyConfig.t :=
  EdgeProxyConfig.mk (EdgeProxyConfig.Enable p) device
    (Some (Socks5ProxyConfig.mk (Socks5ProxyConfig.Enable s) (Socks5ProxyConfig.ListenPort s) node ns))
    (Some (set_lb_NodeName l node)) (EdgeProxyConfig.ServiceFilterMode p).

Definition prepared_tunnel (mode node : string) (t : EdgeTunnelConfig.t) : EdgeTunnelConfig.t :=
  EdgeTunnelConfig.set_Mode (EdgeTunnelConfig.set_NodeName t node) mode.

(** How preparing a configuration that has all its sections goes on, once the
    API and the device are there. *)
Lemma agent_prepareRun_eq {N : Type} `{HostNet N} prepare (w : world N) c common k fs k' net d p t n l s :
  EdgeMeshAgentConfig.CommonConfig c = Some common -> EdgeMeshAgentConfig.KubeAPIConfig c = Some k ->
  EdgeMeshAgentConfig.Modules c = Some (AgentModules.mk (Some d) (Some p) (Some t) n) ->
  EdgeProxyConfig.LoadBalancer p = Some l -> EdgeProxyConfig.Socks5Proxy p = Some s ->
  prepare (w_files w) k = Val (fs, Ok k') ->
  let device := CommonConfig.BridgeDeviceName common in
  CreateEdgeMeshDevice (w_net w) device (CommonConfig.BridgeDeviceIP common) = Val (net, Ok tt) ->
  agent_prepareRun prepare w c =
  Val (ListenAndServer (CommonConfig.PprofConfig common), mkWorld net fs (w_env w),
       match w_env w !! "NODE_NAME", w_env w !! "NAMESPACE" with
       | Some node, Some ns =>
           Ok (EdgeMeshAgentConfig.mk (EdgeMeshAgentConfig.Kind c) (EdgeMeshAgentConfig.APIVersion c) (Some k') (Some common)
                 (Some (AgentModules.mk (Some (prepared_dns device k' d)) (Some (prepared_proxy device node ns p l s))
                          (Some (prepared_tunnel ServerClientMode node t)) n)))
       | None, _ => Err "env NODE_NAME not exist"
       | _, None => Err "env NAMESPACE not exist"
       end).
Proof.
  intros Hcommon Hk Hm Hl Hs Hp device Hd. destruct c as [kind api k0 c0 m0]. cbn in Hcommon, Hk, Hm. subst.
  unfold agent_prepareRun. cbn [deref mbind go_bind EdgeMeshAgentConfig.CommonConfig EdgeMeshAgentConfig.KubeAPIConfig].
  rewrite Hp. cbn [mbind go_bind]. fold device. rewrite Hd. cbn -[lookup].
  destruct (w_env w !! "NODE_NAME"), (w_env w !! "NAMESPACE"); try reflexivity. by rewrite Hl, Hs.
Qed.

Section returns.
Context {N : Type} `{HostNetSpec N}.

(** With the network the kernel gives, creating the device does not panic. *)
Lemma CreateEdgeMeshDevice_returns (n : N) name ip : exists n' r, CreateEdgeMeshDevice n name ip = Val (n', r).
Proof.
  unfold CreateEdgeMeshDevice. destruct (ParseIP ip) as [a|]; [|by do 2 eexists].
  assert (He : exists x, EnsureBridgeDevice (NewNetifManager [a]) n name = Val x).
  { unfold EnsureBridgeDevice, AddBridgeDevice. destruct (LinkByName n name); [by eexists|].
    destruct (LinkAdd n name) as [n1 [[]|]] eqn:El; cbn [mbind go_bind]; [|by eexists].
    pose proof (LinkAdd_Ok n name n1 El) as Ha.
    destruct (LinkByName_present n1 name) as [l ->]; [rewrite Ha, lookup_insert_eq; by eexists|]. by eexists. }
  destruct He as [[n1 [ex r]] ->]. cbn [mbind go_bind]. destruct r; [|by do 2 eexists].
  destruct (SetupBridgeDevice n1 name). by do 2 eexists.
Qed.

Lemma prepare_api_returns Marshal OpenFile file_Write stat_fails fs k :
  complete_kube k ->
  exists fs' r, prepare_api Marshal OpenFile file_Write stat_fails fs k = Val (fs', r) /\
    forall k', r = Ok k' -> complete_kube k'.
Proof.
  intros (ms & Hms & [sec Hsec]). unfold prepare_api. destruct (_ || _).
  { do 2 eexists. split; [done|]. intros ? [= <-]. exists ms. split; [done|]. by exists sec. }
  destruct (String.eqb _ _).
  2:{ do 2 eexists. split; [done|]. intros ? [= <-]. exists ms. split; [done|]. by exists sec. }
  rewrite Hms. cbn [deref mbind go_bind]. rewrite Hsec. cbn [deref mbind go_bind].
  set (k1 := if MetaServerSecurity.RequireAuthorization sec then _ else _).
  assert (Hk : forall s, complete_kube (KubeAPIConfig.set_KubeConfig k1 s)).
  { intros s. unfold k1, complete_kube. destruct (MetaServerSecurity.RequireAuthorization sec); cbn;
      [eexists; split; [done|by eexists]|exists ms; split; [done|by exists sec]]. }
  destruct (_ || stat_fails); [do 2 eexists; split; [done|intros ? [= <-]; apply Hk]|].
  assert (Hg : exists cfg, GenerateKubeClientConfig k1 = Val cfg).
  { destruct (Hk "") as (ms1 & Hms1 & [sec1 Hsec1]). cbn in Hms1. unfold GenerateKubeClientConfig. rewrite Hms1. cbn [deref mbind go_bind].
    rewrite Hsec1. cbn [deref mbind go_bind]. by destruct (MetaServerSecurity.RequireAuthorization sec1), (MetaServerSecurity.InsecureSkipTLSVerify sec1); eexists. }
  destruct Hg as [cfg ->]. cbn [mbind go_bind]. destruct (SaveKubeConfigFile _ _ _ fs cfg) as [fs' [[]|]];
    do 2 eexists; (split; [done|]); intros ? [= <-]. apply Hk.
Qed.

(** An error is returned. *)
Local Ltac fails := do 3 eexists; split; [reflexivity|]; intros ? [=].

Lemma agent_prepareRun_returns Marshal OpenFile file_Write stat_fails (w : world N) c :
  complete_agent c ->
  exists p w' r, agent_prepareRun (prepare_api Marshal OpenFile file_Write stat_fails) w c = Val (p, w', r) /\
    forall c', r = Ok c' -> complete_agent c' /\ dns_has_api c' /\
      forall m n, EdgeMeshAgentConfig.Modules c = Some m -> AgentModules.EdgeCNIConfig m = Some n ->
        exists m', EdgeMeshAgentConfig.Modules c' = Some m' /\ AgentModules.EdgeCNIConfig m' = Some n.
Proof.
  intros [(k & Hk & Hck) [common Hcommon] ([d0 p0 t0 n0] & d & p & t & n & Hm & Hd & Hcache & Hp & [[s5 Hs5] [l Hl]] & Ht & Hct & Hn & Hcn)].
  cbn in Hd, Hp, Ht, Hn. subst d0 p0 t0 n0. set (prepare := prepare_api _ _ _ _).
  destruct (prepare_api_returns Marshal OpenFile file_Write stat_fails (w_files w) k Hck) as (fs & r & Hprep & Hr).
  destruct (CreateEdgeMeshDevice_returns (w_net w) (CommonConfig.BridgeDeviceName common) (CommonConfig.BridgeDeviceIP common)) as (net & r' & Hdev).
  destruct r as [k'|].
  2:{ unfold agent_prepareRun. rewrite Hcommon, Hk. cbn [deref mbind go_bind]. unfold prepare. rewrite Hprep. cbn [mbind go_bind]. fails. }
  destruct r' as [[]|].
  2:{ unfold agent_prepareRun. rewrite Hcommon, Hk. cbn [deref mbind go_bind]. unfold prepare. rewrite Hprep. cbn [mbind go_bind].
      rewrite Hdev. cbn [mbind go_bind]. fails. }
  rewrite (agent_prepareRun_eq prepare w c common k fs k' net d p t (Some n) l s5 Hcommon Hk Hm Hl Hs5 Hprep Hdev).
  do 3 eexists. split; [reflexivity|]. intros c'. destruct (w_env w !! "NODE_NAME"), (w_env w !! "NAMESPACE"); try done.
  intros [= <-]. split; [|split].
  - constructor; [eexists; split; [reflexivity|by apply Hr] | by eexists |].
    do 5 eexists. do 2 (split; [reflexivity|]). split; [exact Hcache|]. split; [reflexivity|].
    split; [split; by eexists|]. split; [reflexivity|]. split; [exact Hct|]. split; [reflexivity|]. exact Hcn.
  - do 2 eexists. split; [reflexivity|]. split; [reflexivity|]. by eexists.
  - rewrite Hm. intros m n0 [= <-] [= <-]. eexists. split; reflexivity.
Qed.
End returns.

(** ** The agent, put together *)

Section agent.
Context {R : Type} `{HashRing R} `{RangeOrder} {MA ID : Type} `{Multiaddr MA} `{Identity ID}.
Context {N : Type} `{HostNetSpec N}.
(** The file system, the clients, the cluster's DNS, the proxier, libp2p, the
    tun device and [iptables]. *)
Context (Marshal : KubeClientConfig -> result string) (OpenFile : result unit).
Context (file_Write : string -> string * result unit) (stat_fails : bool).
Context (build : string -> string -> result unit) (die : RestConfig -> bool).
Context (GetService : string -> string -> result string) (ListKubeDNS : result (list string)).
Context (WriteFile : string -> string -> result unit).
Context (NewCustomProxier : string -> result unit) (ListenTCP : list Z -> Z -> result unit).
Context (p2p : p2p_env MA ID).
Context (local : result string) (tun tun_setup : result unit) (AddRouteToTun EnsureRule : string -> result unit).
Context (rt : runtime) (serve : gmap string module -> go unit).

Definition make_dns (w : world N) : EdgeDNSConfig.t -> go (result EdgeDNS) :=
  newEdgeDNS (UpdateCorefile GetService ListKubeDNS (w_net w) WriteFile).

Definition make_proxy (w : world N) (c : EdgeProxyConfig.t) : go (result (EdgeProxy R)) :=
  let! (r, _) := newEdgeProxy (w_net w) NewCustomProxier ListenTCP c None in Val r.

Definition make_tunnel (w : world N) : EdgeTunnelConfig.t -> go (result (tunnel_module (MA:=MA) (ID:=ID))) := newEdgeTunnel p2p.

Definition make_cni (w : world N) : EdgeCNIConfig.t -> go (result EdgeCni) :=
  newEdgeCni local tun tun_setup AddRouteToTun EnsureRule.

Definition agent : world N -> EdgeMeshAgentConfig.t -> go run_end :=
  agent_Run (prepare_api Marshal OpenFile file_Write stat_fails) (NewClients build die)
    make_dns make_proxy make_tunnel make_cni rt serve.

Definition register_agent (w : world N) (c : EdgeMeshAgentConfig.t) : go (gmap string module * list string) :=
  agent_registerModules (make_dns w) (make_proxy w) (make_tunnel w) (make_cni w) rt c.

(** A value that is not a panic. *)
Lemma is_panic_false {A} (x : go A) : is_panic x = false -> exists a, x = Val a.
Proof. destruct x as [a|]; [by exists a | done]. Qed.

Lemma make_dns_returns w d : is_Some (EdgeDNSConfig.KubeAPIConfig d) -> is_Some (EdgeDNSConfig.CacheDNS d) -> exists r, make_dns w d = Val r.
Proof.
  intros [k Hk] [cache Hc]. apply is_panic_false. unfold make_dns, newEdgeDNS. destruct (EdgeDNSConfig.Enable d); [|done]. cbn [negb].
  unfold UpdateCorefile. destruct (GetInterfaceIP _ _); [|done]. unfold getKubernetesPluginStr. rewrite Hk. cbn [deref mbind go_bind].
  destruct (Parse _); cbn [mbind go_bind]; [|done]. destruct (Execute _ _); cbn [mbind go_bind]; [|done]. rewrite Hc. cbn [deref mbind go_bind].
  destruct (if CacheDNS.Enable cache then _ else _) as [[[] ?]|]; [|done]. destruct (getStubDomainStr _ _); [|done]. by destruct (WriteFile _ _).
Qed.

Lemma make_proxy_returns w p : complete_proxy p -> exists r, make_proxy w p = Val r.
Proof.
  intros [[s Hs] _]. apply is_panic_false. unfold make_proxy, newEdgeProxy. destruct (EdgeProxyConfig.Enable p); [|done]. cbn [negb].
  destruct (GetInterfaceIP _ _); [|done]. destruct (newProxyServer _ _ _ _ _) as [[] ?]; [|done]. rewrite Hs. cbn [deref mbind go_bind].
  destruct (Socks5ProxyConfig.Enable s); [|done]. by destruct (NewSocks5Proxy _ _ _).
Qed.

Lemma make_tunnel_returns w t : complete_tunnel t -> exists r, make_tunnel w t = Val r.
Proof.
  intros ([psk Hpsk] & [lim Hlim] & [met Hmet] & Hmax). apply is_panic_false. unfold make_tunnel, newEdgeTunnel.
  destruct (EdgeTunnelConfig.Enable t); [|done]. cbn [negb]. destruct (Z.ltb_spec (EdgeTunnelConfig.MaxCandidates t) 0); [lia|].
  destruct (GenerateKeyPairWithString p2p _); [|done]. destruct (NewConnManager p2p); [|done]. destruct (generateListenAddr _ _); [|done].
  match goal with |- context [raise_candidates t ?x] => destruct (raise_candidates_same t x) as [k ->] end.
  change (EdgeTunnelConfig.PSK (EdgeTunnelConfig.set_MaxCandidates t k)) with (EdgeTunnelConfig.PSK t).
  rewrite Hpsk. cbn [deref mbind go_bind]. destruct (psk_options _ _); [|done].
  change (EdgeTunnelConfig.MetricConfig (EdgeTunnelConfig.set_MaxCandidates t k)) with (EdgeTunnelConfig.MetricConfig t).
  rewrite Hmet. cbn [deref mbind go_bind].
  change (EdgeTunnelConfig.TunnelLimitConfig (EdgeTunnelConfig.set_MaxCandidates t k)) with (EdgeTunnelConfig.TunnelLimitConfig t).
  rewrite Hlim. cbn [deref mbind go_bind]. destruct (libp2p_New _ _); [|done]. destruct (new_relay_state _ _ _); [|done].
  by destruct (start_services _ _).
Qed.

Lemma make_cni_returns w n : complete_cni n -> exists r, make_cni w n = Val r.
Proof.
  intros Hc. apply is_panic_false. unfold make_cni, newEdgeCni. unfold complete_cni in Hc.
  destruct (EdgeCNIConfig.Enable n); [|done]. destruct (Hc eq_refl) as [m ->]. cbn [negb deref mbind go_bind].
  destruct (NewMeshAdapter _ _ _ _); [|done]. by destruct (WatchRoute _ _ _).
Qed.

Lemma register_returns {C M} what (new : C -> go (result M)) ops acc c :
  (exists r, new c = Val r) -> exists acc', register what new ops acc (Some c) = Val acc'.
Proof. intros [r Hr]. unfold register. cbn [deref mbind go_bind]. rewrite Hr. cbn [mbind go_bind]. destruct r; by eexists. Qed.

Lemma register_agent_returns w c : complete_agent c -> dns_has_api c -> exists r, register_agent w c = Val r.
Proof.
  intros [_ _ (m & d & p & t & n & Hm & Hd & Hcache & Hp & Hcp & Ht & Hct & Hn & Hcn)] (m' & d' & Hm' & Hd' & Hk).
  rewrite Hm in Hm'. injection Hm' as <-. rewrite Hd in Hd'. injection Hd' as <-.
  unfold register_agent, agent_registerModules, dns_Register, proxy_Register, tunnel_Register, cni_Register. rewrite Hm. cbn [deref mbind go_bind]. rewrite Hd, Hp, Ht, Hn.
  destruct (register_returns "edgedns" (make_dns w) (dns_ops rt) (∅, []) d (make_dns_returns w d Hk Hcache)) as [a1 ->]. cbn [mbind go_bind].
  destruct (register_returns "edgeproxy" (make_proxy w) (proxy_ops rt) a1 p (make_proxy_returns w p Hcp)) as [a2 ->]. cbn [mbind go_bind].
  destruct (register_returns "EdgeTunnel" (make_tunnel w) (tunnel_ops rt) a2 t (make_tunnel_returns w t Hct)) as [a3 ->]. cbn [mbind go_bind].
  apply (register_returns "edgeproxy" (make_cni w) cni_ops a3 n (make_cni_returns w n Hcn)).
Qed.

(** C15. Complete configurations, as a type of the start-up code.  The default
    configuration is complete; for a complete one neither validation nor
    preparing panics, what preparing returns is complete again and has an API
    for the DNS module; and registering the modules of a prepared one does not
    panic, whatever the host, libp2p, the cluster and the devices answer. *)
Theorem complete_config_is_safe :
  (forall env path, exists c g, NewDefaultEdgeMeshAgentConfig init_globals env path = Val (c, g) /\ complete_agent c) /\
  forall c, complete_agent c ->
    (forall FileIsExist, exists errs, ValidateEdgeMeshAgentConfiguration FileIsExist c = Val errs) /\
    forall w, exists p w' r, agent_prepareRun (prepare_api Marshal OpenFile file_Write stat_fails) w c = Val (p, w', r) /\
      forall c', r = Ok c' -> complete_agent c' /\ exists reg, register_agent w' c' = Val reg.
Proof.
  split; [apply default_agent_complete|]. intros c Hc. split.
  - intros fe. destruct Hc as [(k & Hk & _) _ (m & d & p & t & n & Hm & _ & _ & Hp & _ & Ht & _ & Hn & _)].
    unfold ValidateEdgeMeshAgentConfiguration. rewrite Hk, Hm. cbn [deref mbind go_bind]. rewrite Hp, Ht, Hn.
    destruct (ValidateKubeAPIConfig_spec fe k) as (e1 & -> & _). destruct (ValidateModuleEdgeTunnel_spec t) as (e2 & -> & _).
    destruct (ValidateModuleEdgeProxy_spec p) as (e3 & -> & _). rewrite ValidateModuleEdgeCNI_spec. by eexists.
  - intros w. destruct (agent_prepareRun_returns Marshal OpenFile file_Write stat_fails w c Hc) as (p & w' & r & Hp & Hr).
    exists p, w', r. split; [exact Hp|]. intros c' Hc'. destruct (Hr c' Hc') as (Hcc & Hd & _). split; [exact Hcc|].
    by apply register_agent_returns.
Qed.
(** What preparing the agent gives its modules, on a host that has no
    bridge device yet: the DNS module and the proxy listen on the configured
    address of the device (and a proxy that is made is bound to it); load
    balancer, SOCKS5 proxy and tunnel know the node by its name; the tunnel is
    server and client; and the DNS module uses the API of the agent. *)
Theorem agent_modules_prepared (w : world N) c common ip p w' c' :
  complete_agent c -> EdgeMeshAgentConfig.CommonConfig c = Some common ->
  ParseIP (CommonConfig.BridgeDeviceIP common) = Some ip -> length (To4 ip) = 4%nat ->
  addresses (w_net w) !! CommonConfig.BridgeDeviceName common = None ->
  agent_prepareRun (prepare_api Marshal OpenFile file_Write stat_fails) w c = Val (p, w', Ok c') ->
  exists node ns m d pr t l s, w_env w !! "NODE_NAME" = Some node /\ w_env w !! "NAMESPACE" = Some ns /\
    EdgeMeshAgentConfig.Modules c' = Some m /\
    AgentModules.EdgeDNSConfig m = Some d /\ GetInterfaceIP (w_net w') (EdgeDNSConfig.ListenInterface d) = Ok ip /\
    EdgeDNSConfig.KubeAPIConfig d = EdgeMeshAgentConfig.KubeAPIConfig c' /\
    AgentModules.EdgeProxyConfig m = Some pr /\ GetInterfaceIP (w_net w') (EdgeProxyConfig.ListenInterface pr) = Ok ip /\
    (forall px, EdgeProxyConfig.Enable pr = true -> make_proxy w' pr = Val (Ok px) ->
       bound_to <$> ProxyServer px = Some (IP_String ip)) /\
    EdgeProxyConfig.LoadBalancer pr = Some l /\ lb_NodeName l = node /\
    EdgeProxyConfig.Socks5Proxy pr = Some s /\ Socks5ProxyConfig.NodeName s = node /\ Socks5ProxyConfig.Namespace s = ns /\
    AgentModules.EdgeTunnelConfig m = Some t /\ EdgeTunnelConfig.NodeName t = node /\ is_server t = true.
Proof.
  intros [(k & Hk & Hck) _ ([d0 p0 t0 n0] & d & pr & t & n & Hm & Hd & _ & Hpr & [[s5 Hs5] [l Hl]] & Ht & _ & Hn & _)] Hcommon Hip Hv4 Hnew Hrun.
  cbn in Hd, Hpr, Ht, Hn. subst d0 p0 t0 n0.
  assert (Hparts : exists fs k' net, prepare_api Marshal OpenFile file_Write stat_fails (w_files w) k = Val (fs, Ok k') /\
    CreateEdgeMeshDevice (w_net w) (CommonConfig.BridgeDeviceName common) (CommonConfig.BridgeDeviceIP common) = Val (net, Ok tt)).
  { unfold agent_prepareRun in Hrun. rewrite Hcommon, Hk in Hrun. cbn [deref mbind go_bind] in Hrun.
    apply go_bind_Val_inv in Hrun as ([fs r] & Hp & Hrun). destruct r as [k'|]; [|done].
    apply go_bind_Val_inv in Hrun as ([net r] & Hdv & Hrun). destruct r as [[]|]; [|done]. eauto 6. }
  destruct Hparts as (fs & k' & net & Hprep & Hdev).
  rewrite (agent_prepareRun_eq _ w c common k fs k' net d pr t (Some n) l s5 Hcommon Hk Hm Hl Hs5 Hprep Hdev) in Hrun.
  destruct (w_env w !! "NODE_NAME") as [node|], (w_env w !! "NAMESPACE") as [ns|]; try done. injection Hrun as _ <- <-.
  pose proof (CreateEdgeMeshDevice_new _ net _ _ ip Hip Hv4 Hnew Hdev) as Hgi.
  do 8 eexists. do 4 (split; [reflexivity|]). split; [exact Hgi|]. do 2 (split; [reflexivity|]). split; [exact Hgi|].
  split; [|repeat split; reflexivity]. intros px He Hpx. unfold make_proxy in Hpx.
  apply go_bind_Val_inv in Hpx as ([r i] & Hpx & [= ->]). by apply (newEdgeProxy_bound _ _ _ _ _ _ _ ip Hpx).
Qed.

(** *** Stopping *)

Definition all_modules (P : module -> Prop) (table : gmap string module) : Prop :=
  forall name m, table !! name = Some m -> P m.

Lemma register_all {C M} (P : module -> Prop) what (new : C -> go (result M)) (ops : M -> module) acc c acc' :
  (forall m, new c = Val (Ok m) -> mod_Enable (ops m) = true -> P (ops m)) ->
  register what new ops acc (Some c) = Val acc' ->
  named_table acc.1 /\ all_modules P acc.1 -> named_table acc'.1 /\ all_modules P acc'.1.
Proof.
  intros Hops Hr [Hn Hq]. unfold register in Hr. cbn [deref mbind go_bind] in Hr.
  apply go_bind_Val_inv in Hr as (r & Hr & Ha). destruct r as [m|]; injection Ha as <-; [|done]. cbn [fst].
  split; [by apply core_Register_named|]. unfold core_Register. destruct (mod_Enable (ops m)) eqn:Em; [|done].
  intros name m'. destruct (decide (name = Name (ops m))) as [-> |].
  - rewrite lookup_insert_eq. intros [= <-]. by apply Hops.
  - rewrite lookup_insert_ne by done. apply Hq.
Qed.

(** A module that starts, and one that also shuts down. *)
Definition starts (m : module) : Prop := is_panic (mod_Start m) = false.
Definition starts_and_stops (m : module) : Prop := starts m /\ is_panic (mod_Shutdown m) = false.

Lemma all_modules_impl (P Q : module -> Prop) table : (forall m, P m -> Q m) -> all_modules P table -> all_modules Q table.
Proof. intros HPQ HP name m Hm. by eapply HPQ, HP. Qed.

(** Registering the agent's modules without an error, for a prepared complete
    configuration: every module starts; without EdgeCNI all of them shut down,
    too, and with it the table holds one that panics then. *)
Lemma register_agent_table w c m n reg :
  complete_agent c -> dns_has_api c ->
  EdgeMeshAgentConfig.Modules c = Some m -> AgentModules.EdgeCNIConfig m = Some n ->
  register_agent w c = Val reg ->
  named_table reg.1 /\ all_modules starts reg.1 /\
  (EdgeCNIConfig.Enable n = false -> all_modules starts_and_stops reg.1) /\
  (EdgeCNIConfig.Enable n = true -> reg.2 = [] ->
     exists x, reg.1 !! EdgeCNIModuleName = Some x /\ is_panic (mod_Shutdown x) = true).
Proof.
  intros [_ _ (m0 & d & p & t & n0 & Hm0 & Hd & Hcache & Hp & [_ Hlb] & Ht & _ & Hn0 & _)] (m1 & d1 & Hm1 & Hd1 & Hapi) Hm Hn Hr.
  rewrite Hm in Hm0, Hm1. injection Hm0 as <-. injection Hm1 as <-. rewrite Hd in Hd1. injection Hd1 as <-. clear n0 Hn0.
  unfold register_agent, agent_registerModules in Hr. rewrite Hm in Hr. cbn [deref mbind go_bind] in Hr.
  apply go_bind_Val_inv in Hr as (a1 & Hr1 & Hr). apply go_bind_Val_inv in Hr as (a2 & Hr2 & Hr). apply go_bind_Val_inv in Hr as (a3 & Hr3 & Hr4).
  rewrite Hd in Hr1. rewrite Hp in Hr2. rewrite Ht in Hr3. rewrite Hn in Hr4.
  assert (Ha3 : named_table a3.1 /\ all_modules starts_and_stops a3.1).
  { eapply register_all; [|exact Hr3|eapply register_all; [|exact Hr2|eapply register_all; [|exact Hr1|]]].
    - intros x Hx. destruct (tunnel_shutdown p2p rt t x Hx) as [He Hs]. cbn [tunnel_ops mod_Enable]. rewrite He. intros [??]%Hs. done.
    - intros x Hx. unfold make_proxy in Hx. apply go_bind_Val_inv in Hx as ([r i] & Hx & [= ->]).
      destruct (proxy_shutdown _ _ _ _ _ x i rt Hx) as [<- Hs]. intros [Hst Hsr]%Hs. split; [by apply Hsr|exact Hst].
    - intros x Hx _. split; [|done]. by eapply dns_starts.
    - split; intros name x Hx; cbn in Hx; by rewrite lookup_empty in Hx. }
  assert (Hst : named_table a3.1 /\ all_modules starts a3.1).
  { split; [apply Ha3|]. eapply all_modules_impl; [|apply Ha3]. by intros ? []. }
  assert (Hreg : named_table reg.1 /\ all_modules starts reg.1).
  { eapply register_all; [|exact Hr4|exact Hst]. intros x Hx. destruct (cni_shutdown _ _ _ _ _ n x Hx) as [<- Hs]. by intros [??]%Hs. }
  destruct Hreg as [Hreg Hreg']. do 2 (split; [done|]). split.
  - intros He. eapply register_all; [|exact Hr4|exact Ha3]. intros x Hx. destruct (cni_shutdown _ _ _ _ _ n x Hx) as [<- _]. cbn. by rewrite He.
  - intros He Herr. unfold cni_Register, register in Hr4. cbn [deref mbind go_bind] in Hr4. apply go_bind_Val_inv in Hr4 as ([x|] & Hx & Ha); injection Ha as <-.
    + destruct (cni_shutdown _ _ _ _ _ n x Hx) as [Hc Hs]. exists (cni_ops x). split; [|by apply Hs].
      cbn [fst]. unfold core_Register. cbn [cni_ops mod_Enable Name]. rewrite Hc, He. by rewrite lookup_insert_eq.
    + cbn in Herr. by destruct a3.2.
Qed.

(** The agent has come so far that the modules of [table] have been started. *)
Definition started (w : world N) (c : EdgeMeshAgentConfig.t) (table : gmap string module) : Prop :=
  exists p w' c' k cli,
    agent_prepareRun (prepare_api Marshal OpenFile file_Write stat_fails) w c = Val (p, w', Ok c') /\
    EdgeMeshAgentConfig.KubeAPIConfig c' = Some k /\ NewClients build die k = Val (Ok cli) /\
    register_agent w' c' = Val (table, []) /\ StartModules table = Val None.

(** What happens once the modules are registered. *)
Lemma run_modules_outcome w c m n reg :
  complete_agent c -> dns_has_api c ->
  EdgeMeshAgentConfig.Modules c = Some m -> AgentModules.EdgeCNIConfig m = Some n ->
  register_agent w c = Val reg ->
  (reg.2 = [] /\ StartModules reg.1 = Val None /\
     if is_panic (serve reg.1) || EdgeCNIConfig.Enable n then is_panic (run_modules serve reg) = true
     else run_modules serve reg = Val (Returned (Ok tt))) \/
  exists o, run_modules serve reg = Val o /\ o <> Returned (Ok tt).
Proof.
  intros Hc Hapi Hm Hn Hreg. destruct (register_agent_table w c m n reg Hc Hapi Hm Hn Hreg) as (Hnm & Hst & Hq & Hp).
  unfold run_modules. destruct reg.2 eqn:Eerr; [|right; by eexists]. rewrite Initialize_empty by done. unfold core_Run.
  destruct (StartModules_returns reg.1 Hst) as [[e|] ->]; cbn [mbind go_bind]; [right; by eexists|]. left. do 2 (split; [done|]).
  destruct (serve reg.1) as [[]|]; cbn [mbind go_bind is_panic orb]; [|done]. destruct (EdgeCNIConfig.Enable n).
  - destruct (Hp eq_refl eq_refl) as (x & Hx & Hpx). rewrite go_bind_is_panic.
    assert (Hs : is_panic (Shutdown reg.1) = true) by (apply Shutdown_panics; eauto). by destruct (Shutdown reg.1).
  - destruct (Shutdown reg.1) as [[]|] eqn:Es; [done|].
    assert (Hpan : is_panic (Shutdown reg.1) = true) by (by rewrite Es). apply Shutdown_panics in Hpan as (name & x & Hx & Hpx).
    destruct (Hq eq_refl name x Hx) as [_ Hns]. by rewrite Hns in Hpx.
Qed.

(** C40. How the agent ends, with a complete configuration and clients that can be
    made ([die] is never true), whatever the host, the cluster, libp2p and the
    devices answer.  Either it does not come so far that all its modules are
    started; then it returns an error or exits with a message, and does not
    panic.  Or they are started, they serve, and a signal stops them: then the
    agent panics exactly if a module panics while it serves or if EdgeCNI is
    enabled, whose shutdown panics; otherwise it returns without an error. *)
Theorem agent_stops w c m n :
  complete_agent c -> EdgeMeshAgentConfig.Modules c = Some m -> AgentModules.EdgeCNIConfig m = Some n ->
  (forall rc, die rc = false) ->
  (exists table, started w c table /\
     if is_panic (serve table) || EdgeCNIConfig.Enable n then is_panic (agent w c) = true
     else agent w c = Val (Returned (Ok tt))) \/
  exists o, agent w c = Val o /\ o <> Returned (Ok tt).
Proof.
  intros Hc Hm Hn Hdie. unfold agent, agent_Run, started.
  destruct (agent_prepareRun_returns Marshal OpenFile file_Write stat_fails w c Hc) as (p & w' & r & Hp & Hr). rewrite Hp. cbn [mbind go_bind].
  destruct r as [c'|]; [|right; by eexists].
  destruct (Hr c' eq_refl) as (Hcc & Hapi & Hcni). destruct (Hcni m n Hm Hn) as (m' & Hm' & Hn').
  destruct (complete_KubeAPI c' Hcc) as (k & Hk & _). rewrite Hk. cbn [deref mbind go_bind].
  destruct (NewClients build die k) as [cli|] eqn:Ecli.
  2:{ unfold NewClients in Ecli. destruct (build _ _); [|done]. by rewrite !Hdie in Ecli. }
  cbn [mbind go_bind]. destruct cli as [cli|]; [|right; by eexists].
  fold (register_agent w' c'). destruct (register_agent_returns w' c' Hcc Hapi) as [[table errs] Hreg]. rewrite Hreg. cbn [mbind go_bind].
  destruct (run_modules_outcome w' c' m' n _ Hcc Hapi Hm' Hn' Hreg) as [([= ->] & Hst & Hend)|Hend]; [|by right].
  left. exists table. split; [by exists p, w', c', k, cli|exact Hend].
Qed.
End agent.

(** ** Agent and gateway on one node *)

Lemma string_app_cancel_r a b s : a +:+ s = b +:+ s -> a = b.
Proof.
  revert b. induction a as [|c a IH]; intros [|d b] Hs; [done|..].
  - apply (f_equal String.length) in Hs. rewrite string_app_cons, string_app_nil_l in Hs. cbn in Hs. rewrite length_app_string in Hs. lia.
  - apply (f_equal String.length) in Hs. rewrite string_app_cons, string_app_nil_l in Hs. cbn in Hs. rewrite length_app_string in Hs. lia.
  - rewrite !string_app_cons in Hs. injection Hs as -> Hs. f_equal. by apply IH.
Qed.

(** What follows the last separator is determined. *)
Lemma last_part_inj c a b w v :
  lacks c w = true -> lacks c v = true -> a +:+ String c w = b +:+ String c v -> w = v.
Proof.
  intros Hw Hv. revert b. induction a as [|x a IH]; intros [|y b] Hs; rewrite ?string_app_cons, ?string_app_nil_l in Hs; injection Hs.
  - done.
  - intros Hs' _. rewrite Hs', lacks_app in Hw. cbn [lacks] in Hw. rewrite Ascii.eqb_refl in Hw. by rewrite andb_false_r in Hw.
  - intros Hs' _. rewrite <- Hs', lacks_app in Hv. cbn [lacks] in Hv. rewrite Ascii.eqb_refl in Hv. by rewrite andb_false_r in Hv.
  - intros Hs' _. by apply (IH b).
Qed.

Lemma Itoa_inj x y : Itoa x = Itoa y -> x = y.
Proof. intros Hi. apply (f_equal parse_decimal) in Hi. rewrite !parse_decimal_Itoa in Hi. congruence. Qed.

Lemma Itoa_no_slash x : lacks "/" (Itoa x) = true.
Proof. apply Itoa_lacks. vm_compute. tauto. Qed.

(** Addresses of one transport with different ports differ. *)
Lemma multiaddr_ports_differ transport ip ip' port port' :
  transport ∈ ["tcp"; "ws"; "quic"] -> port <> port' ->
  GenerateMultiAddrString transport ip port <> GenerateMultiAddrString transport ip' port'.
Proof.
  intros Ht Hp Heq. apply Hp. clear Hp. rewrite !elem_of_cons, elem_of_nil in Ht.
  destruct Ht as [-> |[-> |[-> |[]]]]; unfold GenerateMultiAddrString in Heq; cbn [String.eqb Ascii.eqb Bool.eqb] in Heq.
  - change ("/tcp/" +:+ Itoa port) with ("/tcp" +:+ String "/" (Itoa port)) in Heq.
    change ("/tcp/" +:+ Itoa port') with ("/tcp" +:+ String "/" (Itoa port')) in Heq.
    rewrite <- !string_app_assoc in Heq. apply last_part_inj in Heq; [|apply Itoa_no_slash..]. by apply Itoa_inj.
  - change ("/tcp/" +:+ Itoa port +:+ "/ws") with ("/tcp" +:+ String "/" (Itoa port +:+ "/ws")) in Heq.
    change ("/tcp/" +:+ Itoa port' +:+ "/ws") with ("/tcp" +:+ String "/" (Itoa port' +:+ "/ws")) in Heq.
    rewrite <- !string_app_cons, <- !string_app_assoc in Heq. apply string_app_cancel_r in Heq.
    apply last_part_inj in Heq; [|apply Itoa_no_slash..]. by apply Itoa_inj.
  - change ("/udp/" +:+ Itoa port +:+ "/quic") with ("/udp" +:+ String "/" (Itoa port +:+ "/quic")) in Heq.
    change ("/udp/" +:+ Itoa port' +:+ "/quic") with ("/udp" +:+ String "/" (Itoa port' +:+ "/quic")) in Heq.
    rewrite <- !string_app_cons, <- !string_app_assoc in Heq. apply string_app_cancel_r in Heq.
    apply last_part_inj in Heq; [|apply Itoa_no_slash..]. by apply Itoa_inj.
Qed.

(** Agent and gateway on one node do not get in each other's way: a gateway
    that was prepared runs its tunnel in client mode, under another name than
    that of the node, which its load balancer uses, too; and if both have the
    same transport and port configured, their tunnels listen on different
    addresses, whatever the addresses of the node. *)
Theorem gateway_beside_agent {N : Type} `{HostNet N} prepare (w : world N) c p w' c' :
  gateway_prepareRun prepare w c = Val (p, w', Ok c') ->
  exists node m t g l, w_env w !! "NODE_NAME" = Some node /\ EdgeMeshGatewayConfig.Modules c' = Some m /\
    GatewayModules.EdgeTunnelConfig m = Some t /\ is_server t = false /\
    GatewayModules.EdgeGatewayConfig m = Some g /\ EdgeGatewayConfig.LoadBalancer g = Some l /\
    lb_NodeName l = EdgeTunnelConfig.NodeName t /\
    forall ta, EdgeTunnelConfig.NodeName ta = node -> is_server ta = true ->
      EdgeTunnelConfig.Transport ta = EdgeTunnelConfig.Transport t -> EdgeTunnelConfig.ListenPort ta = EdgeTunnelConfig.ListenPort t ->
      EdgeTunnelConfig.Transport t ∈ ["tcp"; "ws"; "quic"] ->
      EdgeTunnelConfig.NodeName ta <> EdgeTunnelConfig.NodeName t /\ forall ip ip', listen_addr ta ip <> listen_addr t ip'.
Proof.
  unfold gateway_prepareRun. intros Hr. apply go_bind_Val_inv in Hr as (k & _ & Hr). apply go_bind_Val_inv in Hr as ([fs r] & _ & Hr).
  destruct r as [k'|]; [|done]. cbn [w_env] in Hr. destruct (w_env w !! "NODE_NAME") as [node|]; [|done].
  apply go_bind_Val_inv in Hr as (om & Hm & Hr). injection Hr as _ _ <-.
  apply write_Val_inv in Hm as (m & m' & _ & Hm & ->). apply go_bind_Val_inv in Hm as (og & Hg & Hm).
  apply write_Val_inv in Hg as (g & g' & _ & Hg & ->). apply go_bind_Val_inv in Hg as (ol & Hl & [= <-]).
  apply write_Val_inv in Hl as (l & l' & _ & [= <-] & ->). apply go_bind_Val_inv in Hm as (ot & Ht & [= <-]).
  apply write_Val_inv in Ht as (t & t' & _ & [= <-] & ->).
  do 5 eexists. do 7 (split; [reflexivity|]). intros ta Hnode Hs Htr Hport Hok. cbn in Htr, Hport, Hok. cbn [EdgeTunnelConfig.NodeName]. split.
  - rewrite Hnode. cbn. intros Heq. apply (f_equal String.length) in Heq. rewrite length_app_string in Heq. cbn in Heq. lia.
  - intros ip ip'. unfold listen_addr. rewrite Hs. cbn. rewrite Htr, Hport. apply multiaddr_ports_differ; [exact Hok|lia].
Qed.

(** ** Witnesses *)

Definition demo_marshal (c : KubeClientConfig) : result string := Ok (kc_CurrentContext c).
Definition demo_write (data : string) : string * result unit := (data, Ok tt).
Definition demo_secure_api : KubeAPIConfig.t :=
  KubeAPIConfig.set_Mode
    (KubeAPIConfig.set_MetaServer (defaultKubeConfig init_globals)
       (Some (MetaServer.mk MetaServerAddress (Some (MetaServerSecurity.mk true true "" "" ""))))) EdgeMode.

Definition demo_prepared : go (files * result KubeAPIConfig.t) := prepare_api demo_marshal (Ok tt) demo_write false ∅ demo_secure_api.

Lemma kubeconfig_token_needs_tls_witness :
  exists fs k, demo_prepared = Val (fs, Ok k) /\ KubeAPIConfig.KubeConfig k = TempKubeConfigPath /\
    exists cfg cluster auth, GenerateKubeClientConfig k = Val cfg /\
      kc_Clusters cfg = [(clusterName, cluster)] /\ kc_AuthInfos cfg = [(userName, auth)] /\
      (TokenFile auth <> "" \/ ClientKey auth <> "" -> Contains (cl_Server cluster) "http://" = false).
Proof.
  assert (Hs : match demo_prepared with Val (_, Ok _) => true | _ => false end = true) by (vm_compute; reflexivity).
  destruct demo_prepared as [[fs [k|]]|] eqn:Ed; try discriminate.
  exists fs, k. split; [reflexivity|].
  destruct (kubeconfig_token_needs_tls demo_marshal (Ok tt) demo_write false ∅ demo_secure_api fs k eq_refl eq_refl eq_refl Ed)
    as (Hk & cfg & cluster & auth & Hc & Hcl & Ha & Htls & _).
  split; [exact Hk|]. exists cfg, cluster, auth. repeat split; assumption.
Defined.

(** An agent on the edge with the default configuration: the DNS module is the
    only one that is enabled. *)
Definition demo_environment : environment := {["NODE_NAME" := "edge1"; "NAMESPACE" := "kubeedge"]}.
Definition demo_world : world host := mkWorld ∅ ∅ demo_environment.
Definition demo_agent_config : EdgeMeshAgentConfig.t :=
  match NewDefaultEdgeMeshAgentConfig init_globals demo_environment "" with
  | Val (c, _) => c
  | Panic _ => NewDefaultEdgeMeshAgentMinConfig
  end.

Lemma demo_agent_complete : complete_agent demo_agent_config.
Proof.
  destruct (default_agent_complete demo_environment "") as (c & g & Hc & Hcc). unfold demo_agent_config. by rewrite Hc.
Qed.

(** The same with EdgeCNI. *)
Definition demo_cni_config : EdgeMeshAgentConfig.t :=
  EdgeMeshAgentConfig.set_Modules demo_agent_config
    ((fun m => AgentModules.mk (AgentModules.EdgeDNSConfig m) (AgentModules.EdgeProxyConfig m) (AgentModules.EdgeTunnelConfig m)
                 (Some (EdgeCNIConfig.mk true "" 0 (Some (MeshCIDRConfig.mk ["10.244.0.0/16"] ["10.245.0.0/16"])))))
     <$> EdgeMeshAgentConfig.Modules demo_agent_config).

Lemma demo_cni_complete : complete_agent demo_cni_config.
Proof.
  destruct demo_agent_complete as [Hk Hc (m & d & p & t & n & Hm & Hd & Hcache & Hp & Hcp & Ht & Hct & Hn & Hcn)].
  constructor; [exact Hk|exact Hc|]. unfold demo_cni_config. rewrite Hm. cbn. do 5 eexists. split; [reflexivity|]. cbn.
  repeat (split; [eassumption|]). split; [reflexivity|]. intros _. by eexists.
Qed.

Definition demo_runtime : runtime := mkRuntime (Ok tt) (Ok tt) (Ok tt) (fun _ => true) true (Ok tt) false.
Definition demo_serve (modules : gmap string module) : go unit := Val tt.

Definition demo_agent : world host -> EdgeMeshAgentConfig.t -> go run_end :=
  agent (R:=list_ring) demo_marshal (Ok tt) demo_write false (fun _ _ => Ok tt) (fun _ => false)
    (fun _ _ => Err "not found") (Ok []) (fun _ _ => Ok tt) (fun _ => Ok tt) (fun _ _ => Ok tt) TunnelModule.demo_env
    (Ok "10.245.1.0/24") (Ok tt) (Ok tt) (fun _ => Ok tt) (fun _ => Ok tt) demo_runtime demo_serve.

(** Modules that serve quietly, without and with EdgeCNI. *)
Lemma agent_stops_witness :
  demo_agent demo_world demo_agent_config = Val (Returned (Ok tt)) /\ is_panic (demo_agent demo_world demo_cni_config) = true.
Proof.
  split.
  - destruct (agent_stops (R:=list_ring) demo_marshal (Ok tt) demo_write false (fun _ _ => Ok tt) (fun _ => false)
      (fun _ _ => Err "not found") (Ok []) (fun _ _ => Ok tt) (fun _ => Ok tt) (fun _ _ => Ok tt) TunnelModule.demo_env
      (Ok "10.245.1.0/24") (Ok tt) (Ok tt) (fun _ => Ok tt) (fun _ => Ok tt) demo_runtime demo_serve demo_world demo_agent_config _ _
      demo_agent_complete eq_refl eq_refl (fun _ => eq_refl)) as [(table & _ & Hend)|(o & Ho & Hne)]; [exact Hend|].
    exfalso. apply Hne. vm_compute in Ho. by injection Ho as <-.
  - destruct (agent_stops (R:=list_ring) demo_marshal (Ok tt) demo_write false (fun _ _ => Ok tt) (fun _ => false)
      (fun _ _ => Err "not found") (Ok []) (fun _ _ => Ok tt) (fun _ => Ok tt) (fun _ _ => Ok tt) TunnelModule.demo_env
      (Ok "10.245.1.0/24") (Ok tt) (Ok tt) (fun _ => Ok tt) (fun _ => Ok tt) demo_runtime demo_serve demo_world demo_cni_config _ _
      demo_cni_complete eq_refl eq_refl (fun _ => eq_refl)) as [(table & _ & Hend)|(o & Ho & Hne)]; [exact Hend|].
    vm_compute in Ho. discriminate Ho.
Defined.

Lemma complete_config_is_safe_witness :
  complete_agent demo_agent_config /\
  exists errs, ValidateEdgeMeshAgentConfiguration (fun _ => true) demo_agent_config = Val errs.
Proof.
  split; [exact demo_agent_complete|].
  apply (complete_config_is_safe (R:=list_ring) (N:=host) demo_marshal (Ok tt) demo_write false
      (fun _ _ => Err "not found") (Ok []) (fun _ _ => Ok tt) (fun _ => Ok tt) (fun _ _ => Ok tt) TunnelModule.demo_env
      (Ok "10.245.1.0/24") (Ok tt) (Ok tt) (fun _ => Ok tt) (fun _ => Ok tt) demo_runtime). exact demo_agent_complete.
Defined.

Definition demo_run : go (option string * world host * result EdgeMeshAgentConfig.t) :=
  agent_prepareRun (prepare_api demo_marshal (Ok tt) demo_write false) demo_world demo_agent_config.

Definition succeeds (r : go (option string * world host * result EdgeMeshAgentConfig.t)) : bool :=
  match r with Val (_, _, Ok _) => true | _ => false end.

Lemma agent_modules_prepared_witness :
  exists p w c m d, demo_run = Val (p, w, Ok c) /\ EdgeMeshAgentConfig.Modules c = Some m /\ AgentModules.EdgeDNSConfig m = Some d /\
    option_map IP_String (match GetInterfaceIP (w_net w) (EdgeDNSConfig.ListenInterface d) with Ok ip => Some ip | Err _ => None end)
      = Some BridgeDeviceIP.
Proof.
  destruct (ParseIP BridgeDeviceIP) as [ip|] eqn:Eip; [|vm_compute in Eip; discriminate].
  assert (Hs : succeeds demo_run = true) by (vm_compute; reflexivity).
  destruct demo_run as [[[p w] [c|]]|] eqn:Er; try discriminate.
  destruct (agent_modules_prepared (R:=list_ring) demo_marshal (Ok tt) demo_write false (fun _ => Ok tt) (fun _ _ => Ok tt)
    demo_world demo_agent_config (CommonConfig.mk BridgeDeviceName BridgeDeviceIP None) ip p w c demo_agent_complete eq_refl Eip)
    as (node & ns & m & d & pr & t & l & s & _ & _ & Hm & Hd & Hi & _);
    [vm_compute in Eip; injection Eip as <-; reflexivity | reflexivity | exact Er |].
  exists p, w, c, m, d. split; [reflexivity|]. split; [exact Hm|]. split; [exact Hd|]. rewrite Hi.
  vm_compute in Eip. injection Eip as <-. reflexivity.
Defined.

Definition demo_gateway_config : EdgeMeshGatewayConfig.t :=
  match NewDefaultEdgeMeshGatewayConfig init_globals demo_environment "" with
  | Val (c, _) => c
  | Panic _ => EdgeMeshGatewayConfig.mk "" "" None None None
  end.

Definition demo_gateway_run : go (option string * world host * result EdgeMeshGatewayConfig.t) :=
  gateway_prepareRun (prepare_api demo_marshal (Ok tt) demo_write false) demo_world demo_gateway_config.

(** The tunnel of the configuration that was prepared. *)
Definition gateway_tunnel (r : go (option string * world host * result EdgeMeshGatewayConfig.t)) : option EdgeTunnelConfig.t :=
  match r with
  | Val (_, _, Ok c) => EdgeMeshGatewayConfig.Modules c ≫= GatewayModules.EdgeTunnelConfig
  | _ => None
  end.

Lemma gateway_beside_agent_witness :
  exists t, gateway_tunnel demo_gateway_run = Some t /\ EdgeTunnelConfig.NodeName t = "edge1-gateway" /\
    listen_addr (prepared_tunnel ServerClientMode "edge1" (newDefaultEdgeTunnelConfig "")) "10.0.0.1" <> listen_addr t "10.0.0.1".
Proof.
  assert (Ht : gateway_tunnel demo_gateway_run = Some (prepared_tunnel ClientMode "edge1-gateway" (newDefaultEdgeTunnelConfig "")))
    by (vm_compute; reflexivity).
  destruct demo_gateway_run as [[[p w] [c|]]|] eqn:Er; try discriminate.
  destruct (gateway_beside_agent _ demo_world demo_gateway_config p w c Er) as (node & m & t & g & l & Hn & Hm & Htt & _ & _ & _ & _ & Hd).
  cbn [gateway_tunnel] in Ht |- *. rewrite Hm in Ht |- *. cbn [mbind option_bind] in Ht |- *. rewrite Htt in Ht |- *.
  exists t. split; [reflexivity|]. injection Ht as ->. split; [reflexivity|].
  apply (Hd (prepared_tunnel ServerClientMode "edge1" (newDefaultEdgeTunnelConfig ""))); [|reflexivity..|by left].
  vm_compute in Hn. injection Hn as <-. reflexivity.
Defined.
