(* ===== verification/CniPlugin.v ===== *)
(** * The CNI plugin

    [src/cmd/edgemesh-cni/cmd/{cni_type,command_add,command_del}.go]: the
    plugin completes the configuration of its delegate and invokes that.  The
    JSON library and the delegate are parameters; [recover] turns a panic into
    an error. *)

From Stdlib Require Import ZArith Lia Ascii String.
From stdpp Require Import base list gmap strings option.
From S2P Require Import Prelude GoStrings.

Local Set Warnings "-register-all".

(** A JSON value, as [encoding/json] puts it into an [interface{}]. *)
Inductive json : Type :=
| JNull
| JBool (b : bool)
| JNumber (literal : string)
| JString (s : string)
| JArray (l : list json)
| JObject (fields : list (string * json)).

Abbreviation delegate_conf := (gmap string json).

Definition bridge : string := "bridge".
Definition ipamSpiderpool : string := "spiderpool".
Definition defaultBrName : string := "edgebr0".

(** The fields of the configuration that are used. *)
Record NetConf : Type := mkNetConf {
  CNIVersion : string;
  nc_Name : string;
  IPAM_Type : string;
  Delegate : option delegate_conf
}.

Definition hasItem (dic : delegate_conf) (key : string) : bool :=
  match dic !! key with Some _ => true | None => false end.

Section plugin.
Context (Unmarshal : string -> result NetConf) (Marshal : delegate_conf -> result string).

(** [dic[key] = v], unless the key is there. *)
Definition set_default (dic : delegate_conf) (key : string) (v : json) : delegate_conf :=
  if negb (hasItem dic key) then <[key := v]> dic else dic.

(** A map is always made. *)
Definition LoadNetConf (argsStdin : string) : result (NetConf * delegate_conf) :=
  match Unmarshal argsStdin with
  | Err e => Err e
  | Ok n =>
      let d := default ∅ (Delegate n) in
      let d := <["name" := JString (nc_Name n)]> d in
      let d := set_default d "type" (JString bridge) in
      let d := set_default d bridge (JString defaultBrName) in
      let d :=
        if String.eqb (IPAM_Type n) "" then set_default d "ipam" (JObject [("type", JString ipamSpiderpool)])
        else <["ipam" := JObject [("type", JString (IPAM_Type n))]]> d in
      let d := set_default d "cniVersion" (JString (CNIVersion n)) in
      Ok (n, d)
  end.

(** [v.(string)] of a value read from a map. *)
Definition as_string (v : option json) : go string :=
  match v with
  | Some (JString s) => Val s
  | _ => Panic "interface conversion"
  end.

(** The deferred function: what was invoked before is kept. *)
Definition recover {A} (what : string) (body : go (A * result unit)) (none : A) : A * result unit :=
  match body with
  | Val r => r
  | Panic e => (none, Err ("EdgeMesh CNI panicked during " +:+ what +:+ ": " +:+ e))
  end.

(** The body that both commands share up to the call of the delegate, which is
    given its name and its configuration.  The invocation comes with the
    result. *)
Definition delegate (argsStdin : string) (call : string -> string -> result unit)
    : go (option (string * string) * result unit) :=
  match LoadNetConf argsStdin with
  | Err e => Val (None, Err ("failed to load CNI network configuration: " +:+ e))
  | Ok (_, d) =>
      match Marshal d with
      | Err e => Val (None, Err ("error serializing delegate netconf: " +:+ e))
      | Ok delegateNetconfBytes =>
          let! ty := as_string (d !! "type") in
          Val (Some (ty, delegateNetconfBytes), call ty delegateNetconfBytes)
      end
  end.

(** [DelegateAdd] gives a result to print. *)
Definition Add (DelegateAdd : string -> string -> result (result unit)) (argsStdin : string)
    : option (string * string) * result unit :=
  recover "ADD"
    (delegate argsStdin (fun ty bytes =>
       match DelegateAdd ty bytes with
       | Err e => Err ("failed to delegate add: " +:+ e)
       | Ok print => print
       end)) None.

Definition Del (DelegateDel : string -> string -> result unit) (argsStdin : string)
    : option (string * string) * result unit :=
  recover "DEL" (delegate argsStdin DelegateDel) None.

(** ** What is delegated *)

Lemma hasItem_spec d key : hasItem d key = bool_decide (is_Some (d !! key)).
Proof. unfold hasItem. destruct (d !! key); [rewrite bool_decide_true|rewrite bool_decide_false by (by intros [])]; done. Qed.

Lemma set_default_lookup d key v k :
  set_default d key v !! k = if decide (k = key) then Some (default v (d !! key)) else d !! k.
Proof.
  unfold set_default, hasItem. destruct (d !! key) as [x|] eqn:Ek; cbn [negb].
  - case_decide; subst; by rewrite ?Ek.
  - case_decide; [subst; by rewrite lookup_insert_eq|by rewrite lookup_insert_ne].
Qed.

(** The delegate's configuration in terms of what was given. *)
Definition delegated (n : NetConf) (k : string) : option json :=
  let given := default ∅ (Delegate n) !! k in
  if decide (k = "name") then Some (JString (nc_Name n))
  else if decide (k = "type") then Some (default (JString bridge) given)
  else if decide (k = "bridge") then Some (default (JString defaultBrName) given)
  else if decide (k = "ipam") then
    if String.eqb (IPAM_Type n) "" then Some (default (JObject [("type", JString ipamSpiderpool)]) given)
    else Some (JObject [("type", JString (IPAM_Type n))])
  else if decide (k = "cniVersion") then Some (default (JString (CNIVersion n)) given)
  else given.

Lemma LoadNetConf_spec argsStdin n :
  Unmarshal argsStdin = Ok n -> exists d, LoadNetConf argsStdin = Ok (n, d) /\ forall k, d !! k = delegated n k.
Proof.
  intros Hu. unfold LoadNetConf. rewrite Hu. eexists. split; [reflexivity|]. intros k. unfold delegated, bridge.
  rewrite set_default_lookup. destruct (String.eqb (IPAM_Type n) "").
  - repeat (rewrite ?set_default_lookup, ?lookup_insert_eq; repeat case_decide; simplify_eq; rewrite ?lookup_insert_ne by done); done.
  - repeat (rewrite ?set_default_lookup, ?lookup_insert_eq; repeat case_decide; simplify_eq; rewrite ?lookup_insert_ne by done); done.
Qed.

(** The plugin never panics, and adding and deleting a pod's network
    invoke the same delegate with the same configuration, if they invoke one.
    They do so exactly if the configuration can be read, the delegate's can be
    written, and its type is a string.  What the delegate gets is what was
    given for it, with the name of the network, and with defaults for type,
    bridge and version; of the address management of the network the type
    only is passed on. *)
Theorem plugin_delegates DelegateAdd DelegateDel argsStdin :
  let add := Add DelegateAdd argsStdin in
  let del := Del DelegateDel argsStdin in
  add.1 = del.1 /\
  match Unmarshal argsStdin with
  | Err _ => add.1 = None /\ exists e e', add.2 = Err e /\ del.2 = Err e'
  | Ok n =>
      exists d, (forall k, d !! k = delegated n k) /\
        match Marshal d, delegated n "type" with
        | Ok bytes, Some (JString ty) =>
            add.1 = Some (ty, bytes) /\ del.2 = DelegateDel ty bytes /\
            (add.2 = Ok tt <-> DelegateAdd ty bytes = Ok (Ok tt))
        | _, _ => add.1 = None /\ exists e e', add.2 = Err e /\ del.2 = Err e'
        end
  end.
Proof.
  cbn zeta. unfold Add, Del, delegate. destruct (Unmarshal argsStdin) as [n|e] eqn:Eu.
  - destruct (LoadNetConf_spec argsStdin n Eu) as (d & -> & Hd). rewrite <- (Hd "type").
    destruct (Marshal d) as [bytes|] eqn:Em; [destruct (d !! "type") as [[| | |ty| |]|] eqn:Et|]; cbn; rewrite ?Et; cbn;
      (split; [done|]); exists d; rewrite Em, ?Et; (split; [done|]); try (split; [done|]; eauto).
    split; [done|]. destruct (DelegateAdd ty bytes) as [[[]|]|]; split; congruence.
  - unfold LoadNetConf. rewrite Eu. cbn. split; [done|]. split; [done|]. by do 2 eexists.
Qed.
End plugin.
